(** * pdf-excel-max: consolidation of extracted report tables

    A shallow embedding of [src/up-right.py] and the properties its
    specification states about it.

    Conventions of the embedding.
    - A Python [str] is the list of its Unicode code points ([str := list N]).
      Literals are written as UTF-8 text and decoded by [u].
    - The character classes are those of CPython 3.11 (Unicode 14):
      [is_space] is [str.isspace] (also [\s] and what [str.strip] removes),
      [is_decimal] is category Nd (also [\d] and what [int] accepts),
      [is_digit] is [str.isdigit].
    - A spreadsheet cell is [option str]: [None] is a missing value (NaN),
      [Some s] a value whose [str()] rendering is [s]; every use the program
      makes of a cell goes through [str()], [astype(str)] or a missing-value
      test, so the rendering is all it observes.  [astype(str)] is the one of
      pandas before 3.0: a missing value is rendered as the text [nan].
    - [pandas.to_numeric], the sum of a group and the cast to [int] are
      parameters (class [Numeric]); [IntCells] instantiates them on integer
      cells for concrete runs.
    - [int] is the conversion of a text of digits of any length.
    - A Python exception is the [Raise] outcome. *)

From Stdlib Require Import String Ascii.
From Stdlib Require Import List NArith ZArith Bool Lia Arith.
From Stdlib Require Import Sorting.Sorted Sorting.Permutation.
Import ListNotations.

(** ** Text *)

Module Text.

(** Code points and texts. *)
Abbreviation char := N (only parsing).
Abbreviation str := (list N) (only parsing).

Fixpoint bytes_of (s : string) : list N :=
  match s with
  | EmptyString => []
  | String a s' => N_of_ascii a :: bytes_of s'
  end.

(** UTF-8 decoding of a well-formed literal. *)
Fixpoint utf8_decode (l : list N) : str :=
  match l with
  | [] => []
  | b0 :: l1 =>
    if (b0 <? 128)%N then b0 :: utf8_decode l1
    else match l1 with
    | [] => []
    | b1 :: l2 =>
      if (b0 <? 224)%N then ((b0 - 192) * 64 + (b1 - 128))%N :: utf8_decode l2
      else match l2 with
      | [] => []
      | b2 :: l3 =>
        if (b0 <? 240)%N
        then ((b0 - 224) * 4096 + (b1 - 128) * 64 + (b2 - 128))%N :: utf8_decode l3
        else match l3 with
        | [] => []
        | b3 :: l4 =>
          ((b0 - 240) * 262144 + (b1 - 128) * 4096 + (b2 - 128) * 64 + (b3 - 128))%N
            :: utf8_decode l4
        end
      end
    end
  end.

Definition u (s : string) : str := utf8_decode (bytes_of s).

Fixpoint str_eqb (a b : str) : bool :=
  match a, b with
  | [], [] => true
  | x :: a', y :: b' => (x =? y)%N && str_eqb a' b'
  | _, _ => false
  end.

(** Python's [<] and [<=] on [str]: lexicographic on code points. *)
Fixpoint str_ltb (a b : str) : bool :=
  match a, b with
  | _, [] => false
  | [], _ :: _ => true
  | x :: a', y :: b' => (x <? y)%N || ((x =? y)%N && str_ltb a' b')
  end.

Definition str_leb (a b : str) : bool := negb (str_ltb b a).

Definition in_ranges (rs : list (N * N)) (c : char) : bool :=
  existsb (fun r => (fst r <=? c)%N && (c <=? snd r)%N) rs.

(** [str.isspace]. *)
Definition is_space (c : char) : bool :=
  in_ranges [(9, 13); (28, 32); (133, 133); (160, 160); (5760, 5760);
             (8192, 8202); (8232, 8233); (8239, 8239); (8287, 8287);
             (12288, 12288)]%N c.

(** The code points of the digit zero of every decimal-digit block (category
    Nd); the nine code points after each are its digits one to nine. *)
Definition decimal_zeros : list N :=
  [48; 1632; 1776; 1984; 2406; 2534; 2662; 2790; 2918; 3046; 3174; 3302; 3430;
   3558; 3664; 3792; 3872; 4160; 4240; 6112; 6160; 6470; 6608; 6784; 6800;
   6992; 7088; 7232; 7248; 42528; 43216; 43264; 43472; 43504; 43600; 44016;
   65296; 66720; 68912; 69734; 69872; 69942; 70096; 70384; 70736; 70864;
   71248; 71360; 71472; 71904; 72016; 72784; 73040; 73120; 92768; 92864;
   93008; 120782; 120792; 120802; 120812; 120822; 123200; 123632; 125264;
   130032]%N.

Definition decimal_value (c : char) : option N :=
  match find (fun z => (z <=? c)%N && (c <? z + 10)%N) decimal_zeros with
  | Some z => Some (c - z)%N
  | None => None
  end.

(** [str.isdecimal], the class [\d]. *)
Definition is_decimal (c : char) : bool :=
  match decimal_value c with Some _ => true | None => false end.

(** [str.isdigit]: the decimal digits and the characters of numeric type
    Digit (superscripts, circled digits, ...). *)
Definition is_digit (c : char) : bool :=
  is_decimal c ||
  in_ranges [(178, 179); (185, 185); (4969, 4977); (6618, 6618); (8304, 8304);
             (8308, 8313); (8320, 8329); (9312, 9320); (9332, 9340);
             (9352, 9360); (9450, 9450); (9461, 9469); (9471, 9471);
             (10102, 10110); (10112, 10120); (10122, 10130); (68160, 68163);
             (69216, 69224); (69714, 69722); (127232, 127242)]%N c.

(** [str.upper] on the ASCII letters.  Outside ASCII Python maps a cased
    letter to letters that are none of [Q], [/], a digit, 年, 度 or 月, and
    leaves those characters themselves unchanged; the program looks at nothing
    else in an upper-cased text. *)
Definition upper_char (c : char) : char :=
  if (97 <=? c)%N && (c <=? 122)%N then (c - 32)%N else c.

Definition upper (s : str) : str := map upper_char s.

(** [str.strip()]. *)
Fixpoint lstrip (s : str) : str :=
  match s with
  | c :: s' => if is_space c then lstrip s' else s
  | [] => []
  end.

Definition rstrip (s : str) : str := rev (lstrip (rev s)).

Definition strip (s : str) : str := rstrip (lstrip s).

Fixpoint is_prefix (p s : str) : bool :=
  match p, s with
  | [], _ => true
  | x :: p', y :: s' => (x =? y)%N && is_prefix p' s'
  | _ :: _, [] => false
  end.

(** [sub in s]. *)
Fixpoint contains (sub s : str) : bool :=
  is_prefix sub s ||
  match s with
  | [] => false
  | _ :: s' => contains sub s'
  end.

(** [s.replace(old, new)] for a non-empty [old]: leftmost non-overlapping
    occurrences; [skip] counts the characters of an occurrence still to be
    passed over. *)
Fixpoint replace_from (old new : str) (skip : nat) (s : str) : str :=
  match s with
  | [] => []
  | c :: s' =>
    match skip with
    | S k => replace_from old new k s'
    | O =>
      if is_prefix old s
      then new ++ replace_from old new (length old - 1) s'
      else c :: replace_from old new 0 s'
    end
  end.

Definition replace (old new s : str) : str := replace_from old new 0 s.

(** [s.ljust(n, fill)]. *)
Definition ljust (n : nat) (fill : char) (s : str) : str :=
  s ++ repeat fill (n - length s).

(** [str(k)] for a natural number. *)
Fixpoint digits_of_fuel (fuel : nat) (n : N) (acc : str) : str :=
  match fuel with
  | O => acc
  | S f =>
    let acc' := (48 + n mod 10)%N :: acc in
    if (n <? 10)%N then acc' else digits_of_fuel f (n / 10)%N acc'
  end.

Definition str_of_nat (k : nat) : str :=
  digits_of_fuel (S k) (N.of_nat k) [].

End Text.
Import Text.


(** ** Regular expressions: the fragment of [re] the program uses *)

Module Regex.

Inductive regex : Type :=
| Eps
| Chr (c : char)                 (* a literal character *)
| Cls (p : char -> bool)         (* a character class *)
| Seq (r1 r2 : regex)
| Alt (r1 r2 : regex)            (* r1|r2, r1 tried first *)
| Opt (r : regex)                (* r?, greedy *)
| Star (p : char -> bool)        (* p*, greedy, p a character class *)
| Grp (n : nat) (r : regex)      (* capture group n *)
| Bol                            (* ^ *)
| Eol.                           (* $ : at the end, or before a final newline *)

Definition captures := list (nat * str).

(** A continuation receives the position reached, the text left and the
    groups captured so far. *)
Definition cont := nat -> str -> captures -> option captures.

Fixpoint star (p : char -> bool) (pos : nat) (s : str) (caps : captures)
    (k : cont) : option captures :=
  match s with
  | c :: s' =>
    if p c
    then match star p (S pos) s' caps k with
         | Some m => Some m
         | None => k pos s caps
         end
    else k pos s caps
  | [] => k pos s caps
  end.

(** Backtracking matcher with the priorities of [re]: the first alternative,
    the longer repetition and the present option are tried first. *)
Fixpoint rmatch (r : regex) (pos : nat) (s : str) (caps : captures)
    (k : cont) : option captures :=
  match r with
  | Eps => k pos s caps
  | Chr c =>
    match s with
    | x :: s' => if (x =? c)%N then k (S pos) s' caps else None
    | [] => None
    end
  | Cls p =>
    match s with
    | x :: s' => if p x then k (S pos) s' caps else None
    | [] => None
    end
  | Seq r1 r2 =>
    rmatch r1 pos s caps (fun pos' s' caps' => rmatch r2 pos' s' caps' k)
  | Alt r1 r2 =>
    match rmatch r1 pos s caps k with
    | Some m => Some m
    | None => rmatch r2 pos s caps k
    end
  | Opt r1 =>
    match rmatch r1 pos s caps k with
    | Some m => Some m
    | None => k pos s caps
    end
  | Star p => star p pos s caps k
  | Grp n r1 =>
    rmatch r1 pos s caps
      (fun pos' s' caps' => k pos' s' ((n, firstn (pos' - pos) s) :: caps'))
  | Bol => if Nat.eqb pos 0 then k pos s caps else None
  | Eol =>
    match s with
    | [] => k pos s caps
    | [c] => if (c =? 10)%N then k pos s caps else None
    | _ => None
    end
  end.

(** A match object: where the match starts and its groups (group 0 is the
    whole match). *)
Record match_obj : Type := { m_start : nat; m_groups : captures }.

Fixpoint search_from (r : regex) (pos : nat) (s : str) : option match_obj :=
  match rmatch (Grp 0 r) pos s [] (fun _ _ caps => Some caps) with
  | Some caps => Some {| m_start := pos; m_groups := caps |}
  | None =>
    match s with
    | [] => None
    | _ :: s' => search_from r (S pos) s'
    end
  end.

(** [pat.search(s)]. *)
Definition search (r : regex) (s : str) : option match_obj := search_from r 0 s.

(** [m.group(n)] for a group that took part in the match. *)
Definition group (m : match_obj) (n : nat) : str :=
  match find (fun e => Nat.eqb (fst e) n) (m_groups m) with
  | Some e => snd e
  | None => []
  end.

Definition seqs (rs : list regex) : regex := fold_right Seq Eps rs.

Definition lit (s : str) : regex := seqs (map Chr s).

(** [r{n}]. *)
Definition rep (n : nat) (r : regex) : regex := seqs (repeat r n).

(** [Series.str.contains(pat)] on one text. *)
Definition str_contains (r : regex) (s : str) : bool :=
  match search r s with Some _ => true | None => false end.

(** [re.sub(pat, repl, s)] for a pattern that can only match at the end of
    the text, so that at most one occurrence is replaced. *)
Definition sub_at_end (r : regex) (repl s : str) : str :=
  match search r s with
  | Some m =>
    firstn (m_start m) s ++ repl ++ skipn (m_start m + length (group m 0)) s
  | None => s
  end.

End Regex.
Import Regex.

(** ** Period-header detection *)

Definition ch (s : string) : char := hd 0%N (u s).

Definition digit : regex := Cls is_decimal.

(** [Q] under [re.IGNORECASE]. *)
Definition is_Qq (c : char) : bool := (c =? ch "Q")%N || (c =? ch "q")%N.

(** [[1-4]]. *)
Definition is_1to4 (c : char) : bool := (ch "1" <=? c)%N && (c <=? ch "4")%N.

(** [\d{1,2}]. *)
Definition digit12 : regex := Seq digit (Opt digit).

Definition pat_quarter : regex :=
  Grp 1 (seqs [lit (u "20"); rep 2 digit; Cls is_Qq; Cls is_1to4]).

Definition pat_from : regex :=
  seqs [Opt (Chr (ch "(")); Chr (ch "自"); Star is_space; Grp 1 (rep 4 digit);
        Chr (ch "年"); Grp 2 digit12; Chr (ch "月")].

Definition pat_year_month : regex :=
  seqs [Grp 1 (rep 4 digit); Chr (ch "年"); Grp 2 digit12; Chr (ch "月")].

Definition pat_fiscal : regex :=
  seqs [Grp 1 (rep 4 digit); lit (u "年度")].

Definition pat_short : regex :=
  seqs [Bol; Opt (Chr (ch "'")); Grp 1 (rep 2 digit); Chr (ch "/"); Grp 2 digit12; Eol].

Definition pat_slash : regex :=
  seqs [Grp 1 (rep 4 digit); Chr (ch "/"); Grp 2 digit12].

Definition pat_bare : regex :=
  seqs [Bol; lit (u "20"); rep 2 digit; Opt (Grp 1 (rep 2 digit)); Eol].

Definition fmt_quarter (m : match_obj) : str := upper (group m 1).
Definition fmt_slash (m : match_obj) : str := group m 1 ++ u "/" ++ group m 2.
Definition fmt_fiscal (m : match_obj) : str := group m 1 ++ u "年度".
Definition fmt_short (m : match_obj) : str := u "20" ++ group m 1 ++ u "/" ++ group m 2.
Definition fmt_bare (m : match_obj) : str := group m 0.

Definition patterns : list (regex * (match_obj -> str)) :=
  [ (pat_quarter, fmt_quarter);
    (pat_from, fmt_slash);
    (pat_year_month, fmt_slash);
    (pat_fiscal, fmt_fiscal);
    (pat_short, fmt_short);
    (pat_slash, fmt_slash);
    (pat_bare, fmt_bare) ].

(** The loop [for pat, formatter in patterns]. *)
Fixpoint first_match (ps : list (regex * (match_obj -> str))) (s : str)
    : option str :=
  match ps with
  | [] => None
  | (pat, formatter) :: ps' =>
    match search pat s with
    | Some m => Some (formatter m)
    | None => first_match ps' s
    end
  end.

Definition detect_year_header (cell_value : str) : option str :=
  first_match patterns (strip cell_value).

(** A quarter code as it occurs in a text: [20], two decimal digits, [Q] or
    [q], and a digit from 1 to 4. *)
Definition quarter_code (d1 d2 q n : char) : str := [50; 48; d1; d2; q; n]%N.

Definition quarter_shape (d1 d2 q n : char) : Prop :=
  is_decimal d1 = true /\ is_decimal d2 = true /\ is_Qq q = true /\ is_1to4 n = true.

(** ** Exceptions *)

Inductive exn : Type := ValueError | AttributeError | KeyError.

Inductive outcome (A : Type) : Type :=
| Ok (a : A)
| Raise (e : exn).

Arguments Ok {A} a.
Arguments Raise {A} e.

Definition bind {A B : Type} (x : outcome A) (f : A -> outcome B) : outcome B :=
  match x with
  | Ok a => f a
  | Raise e => Raise e
  end.

Notation "x <- c1 ;; c2" := (bind c1 (fun x => c2))
  (at level 61, c1 at next level, right associativity).

(** A loop that builds a list and stops at the first exception. *)
Fixpoint map_ok {A B : Type} (f : A -> outcome B) (l : list A) : outcome (list B) :=
  match l with
  | [] => Ok []
  | a :: l' => b <- f a ;; bs <- map_ok f l' ;; Ok (b :: bs)
  end.

(** ** The chronological sort key *)

(** [int(s)] on a text of [isdigit] characters: the value in base ten when
    every character is a decimal digit and there are at most 4300 of them
    (the limit of CPython on the conversion of a text to an integer),
    [ValueError] otherwise (an empty text, a superscript or circled digit, a
    text of more than 4300 digits). *)
Fixpoint py_int_from (acc : Z) (s : str) : outcome Z :=
  match s with
  | [] => Ok acc
  | c :: s' =>
    match decimal_value c with
    | Some d => py_int_from (acc * 10 + Z.of_N d) s'
    | None => Raise ValueError
    end
  end.

Definition max_str_digits : N := 4300.

Definition py_int (s : str) : outcome Z :=
  match s with
  | [] => Raise ValueError
  | _ =>
    if (max_str_digits <? N.of_nat (length s))%N then Raise ValueError
    else py_int_from 0 s
  end.

Definition sentinel : Z := 99999999.

Definition sort_key (col_name : str) : outcome Z :=
  let s :=
    replace (u "月") []
      (replace (u "年") []
         (replace (u "年度") []
            (replace (u "Q") (u "0")
               (replace (u "/") [] (upper col_name))))) in
  let digits := filter is_digit s in
  match digits with
  | _ :: _ => py_int (ljust 6 (ch "0") digits)
  | [] => Ok sentinel
  end.

(** Python's sorts are stable: an element is put before the first element
    that is not smaller. *)
Fixpoint insert_by {A : Type} (leb : A -> A -> bool) (x : A) (l : list A) : list A :=
  match l with
  | [] => [x]
  | y :: l' => if leb x y then x :: l else y :: insert_by leb x l'
  end.

Definition sort_by {A : Type} (leb : A -> A -> bool) (l : list A) : list A :=
  fold_right (insert_by leb) [] l.

Definition key_leb {A : Type} (x y : Z * A) : bool := (fst x <=? fst y)%Z.

(** [sorted(cols, key=sort_key)]: every key is computed first. *)
Definition sorted_by_key (cols : list str) : outcome (list str) :=
  keys <- map_ok sort_key cols ;;
  Ok (map snd (sort_by key_leb (combine keys cols))).

(** The key as the specification words it: upper-case, delete [/], turn [Q]
    into [0], delete 年度, 年 and 月, keep the digits, pad to six with zeros,
    read as an integer; the sentinel when no digit is left. *)
Definition delete_char (c : char) (s : str) : str :=
  filter (fun x => negb (x =? c)%N) s.

Definition spec_sort_key (header : str) : outcome Z :=
  let s1 := upper header in
  let s2 := delete_char (ch "/") s1 in
  let s3 := map (fun x => if (x =? ch "Q")%N then ch "0" else x) s2 in
  let s4 := delete_char (ch "月") (delete_char (ch "年") (replace (u "年度") [] s3)) in
  let digits := filter is_digit s4 in
  if Nat.eqb (length digits) 0 then Ok sentinel
  else py_int (digits ++ repeat (ch "0") (6 - length digits)).

(** What is left of a header when the key is computed: its digits, with
    every [Q] and [q] read as [0]. *)
Definition key_digits (header : str) : str :=
  filter is_digit (map (fun x => if (x =? ch "Q")%N then ch "0" else x) (upper header)).

(** Two headers in the order of their keys. *)
Definition key_le (a b : str) : Prop :=
  exists ka kb, sort_key a = Ok ka /\ sort_key b = Ok kb /\ (ka <= kb)%Z.

(** ** Sheets *)

(** A cell: [None] is a missing value, [Some s] a value rendered as [s]. *)
Abbreviation cell := (option (list N)) (only parsing).

(** A [DataFrame] read without header: [ncols] columns numbered from 0, and
    its rows; a cell beyond the end of a row is missing. *)
Record dataframe : Type := { ncols : nat; rows : list (list cell) }.

Definition cell_at (row : list cell) (c : nat) : cell := nth c row None.

(** [df.iat[r, c]]. *)
Definition iat (df : dataframe) (r c : nat) : cell := cell_at (nth r (rows df) []) c.

(** [df.empty]. *)
Definition df_empty (df : dataframe) : bool :=
  Nat.eqb (ncols df) 0 || Nat.eqb (length (rows df)) 0.

(** [str(value)] and [astype(str)]: a missing value becomes the text [nan]. *)
Definition astype_str (c : cell) : str :=
  match c with
  | Some s => s
  | None => u "nan"
  end.

Definition mem (s : str) (l : list str) : bool := existsb (str_eqb s) l.

(** [Series.drop_duplicates(keep="first")]. *)
Fixpoint unique_from (seen : list str) (l : list str) : list str :=
  match l with
  | [] => []
  | x :: l' =>
    if mem x seen then unique_from seen l' else x :: unique_from (x :: seen) l'
  end.

Definition unique (l : list str) : list str := unique_from [] l.

(** [df.drop_duplicates(subset=[label], keep="first")] on labelled rows. *)
Fixpoint drop_duplicates_from {V : Type} (seen : list str) (l : list (str * V))
    : list (str * V) :=
  match l with
  | [] => []
  | x :: l' =>
    if mem (fst x) seen then drop_duplicates_from seen l'
    else x :: drop_duplicates_from (fst x :: seen) l'
  end.

Definition drop_duplicates {V : Type} (l : list (str * V)) : list (str * V) :=
  drop_duplicates_from [] l.

(** *** The catch-all label and its ordinal suffix *)

Definition sonota : str := Eval vm_compute in u "その他".

Definition sonota_temp (k : nat) : str := sonota ++ u "_temp_" ++ str_of_nat k.

(** The three places that suffix the rows labelled その他 with their running
    count ([groupby(...).cumcount()] restricted to that label). *)
Fixpoint rename_sonota_from (k : nat) (labels : list str) : list str :=
  match labels with
  | [] => []
  | l :: ls =>
    if str_eqb l sonota
    then sonota_temp k :: rename_sonota_from (S k) ls
    else l :: rename_sonota_from k ls
  end.

Definition rename_sonota (labels : list str) : list str := rename_sonota_from 0 labels.

(** [_temp_\d+$], and its removal from a label. *)
Definition pat_temp_suffix : regex :=
  seqs [lit (u "_temp_"); digit; Star is_decimal; Eol].

Definition strip_temp_suffix (label : str) : str := sub_at_end pat_temp_suffix [] label.

(** ** Numbers *)

(** Integers on which the arithmetic of pandas is exact: the sum of their
    absolute values is below 2^53. *)
Definition exact_range (zs : list Z) : Prop :=
  (fold_right (fun z a => Z.abs z + a) 0 zs < 2 ^ 53)%Z.

(** What the program leaves to pandas: parsing a text cell as a number
    ([to_numeric] with [errors='coerce']; [None] is NaN), the sum of a group,
    zero, and the cast [astype(int)], which raises on a value that is not
    finite ([None]).  The numbers hold the integers; on integers in the exact
    range the sum is the sum of the integers and the cast gives the integer
    back. *)
Class Numeric : Type := {
  num : Type;
  to_numeric : str -> option num;
  zero : num;
  sum : list num -> num;
  to_int : num -> option Z;
  of_Z : Z -> num;
  zero_of_Z : zero = of_Z 0%Z;
  sum_exact :
    forall zs, exact_range zs -> sum (map of_Z zs) = of_Z (fold_right Z.add 0%Z zs);
  to_int_of_Z : forall z, exact_range [z] -> to_int (of_Z z) = Some z
}.

(** Integer cells: an optional sign and ASCII digits. *)
Fixpoint nat_digits (acc : Z) (s : str) : option Z :=
  match s with
  | [] => Some acc
  | c :: s' =>
    if (48 <=? c)%N && (c <=? 57)%N then nat_digits (acc * 10 + Z.of_N (c - 48)) s'
    else None
  end.

Definition int_of_text (s : str) : option Z :=
  match s with
  | [] => None
  | c :: s' =>
    if (c =? ch "-")%N then
      match s' with [] => None | _ => option_map Z.opp (nat_digits 0 s') end
    else nat_digits 0 s
  end.

Definition IntCells : Numeric :=
  {| num := Z; to_numeric := int_of_text; zero := 0%Z;
     sum := fold_right Z.add 0%Z; to_int := fun z => Some z;
     of_Z := fun z => z;
     zero_of_Z := eq_refl;
     sum_exact := fun zs _ => f_equal (fold_right Z.add 0%Z) (map_id zs);
     to_int_of_Z := fun z _ => eq_refl |}.

(** ** Frames and the two mergers *)

Section Mergers.
Context {NUM : Numeric}.

(** A frame keyed by item label: the names of its period columns and its
    rows, each a label with its named values ([None] is NaN). *)
Record frame : Type := {
  columns : list str;
  body : list (str * list (str * option num))
}.

Definition labels_of (f : frame) : list str := map fst (body f).

(** [f.empty] for a frame, which always has its label column. *)
Definition frame_empty (f : frame) : bool := Nat.eqb (length (body f)) 0.

(** [pd.DataFrame({"共通項目": items})]. *)
Definition frame_of_items (items : list str) : frame :=
  {| columns := []; body := map (fun l => (l, [])) items |}.

(** A label column and one value column. *)
Definition frame_of_column (name : str) (l : list (str * option num)) : frame :=
  {| columns := [name]; body := map (fun p => (fst p, [(name, snd p)])) l |}.

(** [pd.merge(left, right, on="共通項目", how="left")] for frames that share
    no period column: every left row is joined with each right row of its
    label, in the right frame's order, or padded with NaN when there is none. *)
Definition merge_left (left right : frame) : frame :=
  {| columns := columns left ++ columns right;
     body :=
       flat_map
         (fun lrow =>
            match filter (fun rrow => str_eqb (fst rrow) (fst lrow)) (body right) with
            | [] => [(fst lrow, snd lrow ++ map (fun c => (c, None)) (columns right))]
            | ms => map (fun rrow => (fst lrow, snd lrow ++ snd rrow)) ms
            end)
         (body left) |}.

(** [str.replace(",", "")] and [pd.to_numeric(..., errors='coerce')]. *)
Definition parse_value (c : cell) : option num :=
  to_numeric (replace (u ",") [] (astype_str c)).

Definition truthy (o : option str) : option str :=
  match o with
  | Some (c :: s) => Some (c :: s)
  | _ => None
  end.

(** *** Vertical *)

Definition pair_leb (x y : nat * nat * str) : bool :=
  let '(r1, c1, _) := x in
  let '(r2, c2, _) := y in
  Nat.ltb r1 r2 || (Nat.eqb r1 r2 && Nat.leb c1 c2).

(** The scan of every cell for a period header, then the sort on (row, col). *)
Definition year_cells (df : dataframe) : list (nat * nat * str) :=
  sort_by pair_leb
    (flat_map
       (fun r =>
          flat_map
            (fun c =>
               match truthy (detect_year_header (astype_str (iat df r c))) with
               | Some h => [(r, c, h)]
               | None => []
               end)
            (seq 0 (ncols df)))
       (seq 0 (length (rows df)))).

Definition label_of_row (row : list cell) : str := strip (astype_str (cell_at row 0)).

Definition initial_items (df : dataframe) : list str :=
  rename_sonota
    (filter (fun s => negb (str_eqb s [])) (map label_of_row (rows df))).

Definition all_items_ordered (df : dataframe) : list str := unique (initial_items df).

(** The slice below one header cell: labels and the values of the header's
    column, cleaned, suffixed, parsed (NaN becomes zero) ... *)
Definition vertical_slice_rows (df : dataframe) (row col : nat)
    : list (str * option num) :=
  let below := skipn (S row) (rows df) in
  let kept :=
    filter (fun p => negb (str_eqb (fst p) []))
      (map (fun r => (label_of_row r, cell_at r col)) below) in
  let labels := rename_sonota (map fst kept) in
  let values :=
    map (fun p => match parse_value (snd p) with
                  | Some v => Some v
                  | None => Some zero
                  end) kept in
  combine labels values.

(** ... and the first row of every label kept. *)
Definition vertical_slice (df : dataframe) (row col : nat) : list (str * option num) :=
  drop_duplicates (vertical_slice_rows df row col).

Fixpoint vertical_loop (df : dataframe) (cells : list (nat * nat * str))
    (processed_years : list str) (df_result : frame) : frame :=
  match cells with
  | [] => df_result
  | (row, col, year_header) :: cells' =>
    if mem year_header processed_years
    then vertical_loop df cells' processed_years df_result
    else
      vertical_loop df cells' (year_header :: processed_years)
        (merge_left df_result
           (frame_of_column year_header (vertical_slice df row col)))
  end.

Definition tool2_extract_data_vertical (df_chunk : dataframe)
    : option frame * list str :=
  if df_empty df_chunk then (None, [])
  else
    match year_cells df_chunk with
    | [] => (None, [])
    | cells =>
      let items := all_items_ordered df_chunk in
      (Some (vertical_loop df_chunk cells [] (frame_of_items items)), items)
    end.

(** *** Horizontal *)

(** [^\s*$]. *)
Definition pat_blank : regex := seqs [Bol; Star is_space; Eol].

(** [df.replace(r'^\s*$', pd.NA, regex=True)] on one cell. *)
Definition blank_to_na (c : cell) : cell :=
  match c with
  | Some s => if str_contains pat_blank s then None else Some s
  | None => None
  end.

Definition isna (c : cell) : bool :=
  match c with
  | None => true
  | Some _ => false
  end.

(** The columns that [dropna(axis=1, how='all')] keeps. *)
Definition kept_columns (df : dataframe) : list nat :=
  filter
    (fun c => negb (forallb (fun r => isna (blank_to_na (cell_at r c))) (rows df)))
    (seq 0 (ncols df)).

(** [df_target]: the kept columns, missing values filled with the empty
    text. *)
Definition target_rows (df : dataframe) : list (list str) :=
  map
    (fun r =>
       map (fun c => match blank_to_na (cell_at r c) with
                     | Some s => s
                     | None => []
                     end)
           (kept_columns df))
    (rows df).

Fixpoint find_header_in_row (cells : list str) : option str :=
  match cells with
  | [] => None
  | val :: cells' =>
    match truthy (detect_year_header val) with
    | Some h => Some h
    | None => find_header_in_row cells'
    end
  end.

Fixpoint find_header (r : nat) (target : list (list str)) : option (nat * str) :=
  match target with
  | [] => None
  | row :: target' =>
    match find_header_in_row row with
    | Some h => Some (r, h)
    | None => find_header (S r) target'
    end
  end.

Definition common_item : str := u "共通項目".

Definition unknown_period : str := u "Unknown_Period".

(** The name of the period column and the first data row. *)
Definition horizontal_header (target : list (list str)) : str * nat :=
  match find_header 0 (firstn 10 target) with
  | Some (r, h) => (h, S r)
  | None =>
    let h := strip (last (hd [] target) []) in
    (match h with [] => unknown_period | _ => h end, 0)
  end.

(** The rows that reach the grouping: first and last column from the first
    data row on, label stripped and not empty, value parsed and not NaN ... *)
Definition horizontal_parsed (target : list (list str)) (start_row : nat)
    : list (str * num) :=
  let pairs :=
    map (fun row => (strip (hd [] row), parse_value (Some (last row []))))
        (skipn start_row target) in
  let kept := filter (fun p => negb (str_eqb (fst p) [])) pairs in
  flat_map (fun p => match snd p with
                     | Some v => [(fst p, v)]
                     | None => []
                     end) kept.

(** ... and the rows labelled その他 suffixed. *)
Definition horizontal_rows (target : list (list str)) (start_row : nat)
    : list (str * num) :=
  let parsed := horizontal_parsed target start_row in
  combine (rename_sonota (map fst parsed)) (map snd parsed).

Definition group_values (l : list (str * num)) (key : str) : list num :=
  map snd (filter (fun p => str_eqb (fst p) key) l).

(** [groupby("共通項目", as_index=False).sum()]: one row per label, labels
    in ascending order, the values of a label summed. *)
Definition groupby_sum (l : list (str * num)) : list (str * num) :=
  map (fun key => (key, sum (group_values l key)))
      (sort_by str_leb (unique (map fst l))).

Definition tool2_extract_data_horizontal (df_chunk : dataframe)
    : outcome (option frame * list str) :=
  if df_empty df_chunk then Ok (None, [])
  else if Nat.ltb (length (kept_columns df_chunk)) 2 then Ok (None, [])
  else
    let target := target_rows df_chunk in
    let '(detected_header, start_row) := horizontal_header target in
    if str_eqb detected_header common_item then Raise AttributeError
    else
      let temp_df := groupby_sum (horizontal_rows target start_row) in
      Ok (Some (frame_of_column detected_header
                  (map (fun p => (fst p, Some (snd p))) temp_df)),
          map fst temp_df).

End Mergers.

(** Notation for concrete runs: a sheet written as texts (an empty text is a
    missing cell) and a frame of integers. *)
Definition sheet (w : nat) (l : list (list string)) : dataframe :=
  {| ncols := w;
     rows := map (map (fun s => match s with
                                | EmptyString => None
                                | _ => Some (u s)
                                end)) l |}.

Definition int_frame (cols : list str) (b : list (str * list (str * option Z)))
    : @frame IntCells :=
  @Build_frame IntCells cols b.

(** ** Segmentation and aggregation: [process_files_and_tables] *)

Definition pat_file_marker : regex := lit (u "ファイル名:").

Definition pat_page_marker : regex := lit (u "--- ページ").

(** [ファイル名:|---|^\s*$] and [ファイル名:|---]. *)
Definition pat_marker_or_blank : regex :=
  Alt pat_file_marker (Alt (lit (u "---")) pat_blank).

Definition pat_marker : regex := Alt pat_file_marker (lit (u "---")).

(** Column 0 of a row, as text. *)
Definition col0 (row : list cell) : str := astype_str (cell_at row 0).

Definition row_matches (r : regex) (row : list cell) : bool := str_contains r (col0 row).

(** [df_full[0] = df_full[0].astype(str)] on one row. *)
Definition stringify_col0 (row : list cell) : list cell :=
  match row with
  | [] => [Some (astype_str None)]
  | c :: row' => Some (astype_str c) :: row'
  end.

(** [df[mask].index.tolist()] on a frame indexed from 0. *)
Definition indices_where {A : Type} (p : A -> bool) (l : list A) : list nat :=
  map fst (filter (fun ix => p (snd ix)) (combine (seq 0 (length l)) l)).

(** [l[a:b]] for [0 <= a]. *)
Definition slice {A : Type} (a b : nat) (l : list A) : list A :=
  firstn (b - a) (skipn a l).

(** The loop [for i in range(len(file_indices))]. *)
Fixpoint chunks_from {A : Type} (indices : list nat) (l : list A) : list (list A) :=
  match indices with
  | [] => []
  | start_idx :: rest =>
    let end_idx := match rest with
                   | next :: _ => next
                   | [] => length l
                   end in
    slice start_idx end_idx l :: chunks_from rest l
  end.

Definition file_chunks (rows : list (list cell)) : list (list (list cell)) :=
  match indices_where (row_matches pat_file_marker) rows with
  | [] => [rows]
  | file_indices => chunks_from file_indices rows
  end.

(** [dropna(how="all")]: a row goes when every cell of it is missing. *)
Definition dropna_all (rows : list (list cell)) : list (list cell) :=
  filter (fun row => negb (forallb isna row)) rows.

Definition non_empty {A : Type} (chunk : list A) : list (list A) :=
  match chunk with
  | [] => []
  | _ => [chunk]
  end.

(** The loop [for idx in page_indices] and the final chunk. *)
Fixpoint split_pages {A : Type} (page_indices : list nat) (last_idx : nat) (l : list A)
    : list (list A) :=
  match page_indices with
  | [] => non_empty (skipn last_idx l)
  | idx :: rest => non_empty (slice last_idx idx l) ++ split_pages rest idx l
  end.

Definition table_chunks (file_chunk : list (list cell)) : list (list (list cell)) :=
  match indices_where (row_matches pat_page_marker) file_chunk with
  | [] =>
    non_empty
      (dropna_all
         (filter (fun row => negb (row_matches pat_marker_or_blank row)) file_chunk))
  | page_indices => split_pages page_indices 0 file_chunk
  end.

(** What is handed to a merger for one table chunk. *)
Definition clean_table_chunk (table_chunk : list (list cell)) : list (list cell) :=
  dropna_all (filter (fun row => negb (row_matches pat_marker row)) table_chunk).

(** *** The master item order *)

(** [l.index(x)]. *)
Fixpoint index_of (x : str) (l : list str) : option nat :=
  match l with
  | [] => None
  | y :: l' => if str_eqb y x then Some 0 else option_map S (index_of x l')
  end.

(** [l.insert(i, x)] for [0 <= i]. *)
Definition list_insert {A : Type} (i : nat) (x : A) (l : list A) : list A :=
  firstn i l ++ x :: skipn i l.

(** The loop [for item in item_order] over a master order that is not
    empty. *)
Fixpoint insert_items (item_order : list str) (last_known_index : Z)
    (master : list str) : list str :=
  match item_order with
  | [] => master
  | item :: rest =>
    match index_of item master with
    | Some i => insert_items rest (Z.of_nat i) master
    | None =>
      insert_items rest (last_known_index + 1)
        (list_insert (Z.to_nat (last_known_index + 1)) item master)
    end
  end.

Definition update_master_order (master item_order : list str) : list str :=
  match master with
  | [] => item_order
  | _ => insert_items item_order (-1) master
  end.

Inductive integration_mode : Type := Vertical | Horizontal.

Section Process.
Context {NUM : Numeric}.

(** One table slot: the frames contributed so far and the master order. *)
Record slot : Type := { list_of_dfs : list frame; ordered_items : list str }.

Definition empty_slot : slot := {| list_of_dfs := []; ordered_items := [] |}.

(** [grouped_tables] and [master_item_order], keyed by table position. *)
Definition get_slot (i : nat) (st : list slot) : slot := nth i st empty_slot.

Fixpoint set_slot (i : nat) (s : slot) (st : list slot) : list slot :=
  match i, st with
  | O, [] => [s]
  | O, _ :: st' => s :: st'
  | S i', [] => empty_slot :: set_slot i' s []
  | S i', x :: st' => x :: set_slot i' s st'
  end.

Definition run_merger (mode : integration_mode) (df : dataframe)
    : outcome (option frame * list str) :=
  match mode with
  | Vertical => Ok (tool2_extract_data_vertical df)
  | Horizontal => tool2_extract_data_horizontal df
  end.

Definition contribute (i : nat) (processed_df : frame) (item_order : list str)
    (st : list slot) : list slot :=
  let s := get_slot i st in
  set_slot i
    {| list_of_dfs := list_of_dfs s ++ [processed_df];
       ordered_items := update_master_order (ordered_items s) item_order |}
    st.

(** The body of [for i, table_chunk in enumerate(table_chunks)]. *)
Definition process_table_chunk (mode : integration_mode) (width : nat) (i : nat)
    (table_chunk : list (list cell)) (st : list slot) : outcome (list slot) :=
  match clean_table_chunk table_chunk with
  | [] => Ok st
  | clean =>
    r <- run_merger mode {| ncols := width; rows := clean |} ;;
    match r with
    | (Some processed_df, item_order) =>
      if frame_empty processed_df then Ok st
      else Ok (contribute i processed_df item_order st)
    | (None, _) => Ok st
    end
  end.

Fixpoint process_table_chunks (mode : integration_mode) (width : nat) (i : nat)
    (chunks : list (list (list cell))) (st : list slot) : outcome (list slot) :=
  match chunks with
  | [] => Ok st
  | chunk :: chunks' =>
    st' <- process_table_chunk mode width i chunk st ;;
    process_table_chunks mode width (S i) chunks' st'
  end.

Fixpoint process_file_chunks (mode : integration_mode) (width : nat)
    (chunks : list (list (list cell))) (st : list slot) : outcome (list slot) :=
  match chunks with
  | [] => Ok st
  | file_chunk :: chunks' =>
    st' <- process_table_chunks mode width 0 (table_chunks file_chunk) st ;;
    process_file_chunks mode width chunks' st'
  end.

(** *** One summary per slot *)

Definition cols_to_drop (result_df df_to_merge : frame) : list str :=
  filter (fun col => mem col (columns result_df) && negb (str_eqb col common_item))
         (columns df_to_merge).

(** [df.drop(columns=names)]. *)
Definition drop_columns (names : list str) (f : frame) : frame :=
  {| columns := filter (fun c => negb (mem c names)) (columns f);
     body := map (fun row => (fst row, filter (fun cv => negb (mem (fst cv) names)) (snd row)))
                 (body f) |}.

(** One turn of the loop [for df_to_merge in list_of_dfs]. *)
Definition merge_step (result_df df_to_merge : frame) : frame :=
  merge_left result_df (drop_columns (cols_to_drop result_df df_to_merge) df_to_merge).

Definition merge_frames (items : list str) (dfs : list frame) : frame :=
  fold_left merge_step dfs (frame_of_items items).

Definition fill (v : option num) : num :=
  match v with
  | Some x => x
  | None => zero
  end.

(** [result_df.fillna(0, inplace=True)]. *)
Definition fillna_zero (f : frame) : frame :=
  {| columns := columns f;
     body := map (fun row => (fst row, map (fun cv => (fst cv, Some (fill (snd cv)))) (snd row)))
                 (body f) |}.

Fixpoint lookup {V : Type} (c : str) (l : list (str * V)) : option V :=
  match l with
  | [] => None
  | (k, v) :: l' => if str_eqb k c then Some v else lookup c l'
  end.

(** A summary sheet: the period columns in their final order, and for every
    item its integer value in each. *)
Record summary : Type := {
  year_cols : list str;
  items : list (str * list (str * Z))
}.

(** [to_numeric(...).fillna(0).astype(int)] on one value: the cast raises
    (IntCastingNaNError, a ValueError) on a value that is not finite. *)
Definition cast_int (v : option (option num)) : outcome Z :=
  match to_int (match v with
                | Some x => fill x
                | None => zero
                end) with
  | Some z => Ok z
  | None => Raise ValueError
  end.

(** The values of one row in the sorted period columns, cast. *)
Definition cast_row (cols : list str) (row : str * list (str * option num))
    : outcome (str * list (str * Z)) :=
  cells <- map_ok (fun col => z <- cast_int (lookup col (snd row)) ;; Ok (col, z)) cols ;;
  Ok (strip_temp_suffix (fst row), cells).

(** The columns are sorted first, then cast; every failure of a cast is a
    ValueError, so that the order in which the values are cast does not
    show. *)
Definition summarize (s : slot) : outcome summary :=
  let result_df := fillna_zero (merge_frames (ordered_items s) (list_of_dfs s)) in
  cols <- sorted_by_key (columns result_df) ;;
  rows' <- map_ok (cast_row cols) (body result_df) ;;
  Ok {| year_cols := cols; items := rows' |}.

(** The loop [for table_index in sorted(grouped_tables.keys())]. *)
Fixpoint summarize_slots (st : list slot) : outcome (list summary) :=
  match st with
  | [] => Ok []
  | s :: st' =>
    match list_of_dfs s with
    | [] => summarize_slots st'
    | _ => r <- summarize s ;; rs <- summarize_slots st' ;; Ok (r :: rs)
    end
  end.

(** The function from the parsed sheet on. *)
Definition process_files_and_tables (df_full : dataframe) (mode : integration_mode)
    : outcome (list summary) :=
  if Nat.eqb (ncols df_full) 0 then Raise KeyError
  else
    let rows0 := map stringify_col0 (rows df_full) in
    st <- process_file_chunks mode (ncols df_full) (file_chunks rows0) [] ;;
    summarize_slots st.

End Process.

(** ** Extraction: [extract_tables_from_multiple_pdfs] *)

(** What the PDF library gives for a page: its number, its text ([None] when
    there is none) and its tables, each call possibly raising; a table is a
    list of rows of optional texts. *)
Record page : Type := {
  page_number : nat;
  extract_text : outcome (option str);
  extract_tables : outcome (list (list (list cell)))
}.

(** An uploaded file: its name and what opening it gives. *)
Record pdf_file : Type := { name : str; pages : outcome (list page) }.

(** What is shown to the user. *)
Inductive message : Type :=
| ErrorNoKeywords
| WarningInvalidRange (file : str) (current_start current_end : option Z)
| ErrorInFile (file : str) (e : exn)
| WarningNothingFound (file : str).

(** Truth value of an optional integer: [None] and 0 are false. *)
Definition given (o : option Z) : bool :=
  match o with
  | Some z => negb (z =? 0)%Z
  | None => false
  end.

Definition fill_z (o : option Z) : Z :=
  match o with
  | Some z => z
  | None => 0%Z
  end.

(** The page indices [(s_idx, e_idx)] of a file with [n] pages. *)
Definition resolve_range (current_start current_end : option Z) (n : nat) : Z * Z :=
  let s_idx := if given current_start then (fill_z current_start - 1)%Z else 0%Z in
  let e_idx := if given current_end then fill_z current_end else Z.of_nat n in
  (Z.max 0 s_idx, Z.min (Z.of_nat n) e_idx).

Definition file_marker (file : str) : list str := [u "ファイル名: " ++ file].

Definition table_marker (page_no table_no : nat) : list str :=
  [u "--- ページ " ++ str_of_nat page_no ++ u " / テーブル " ++ str_of_nat table_no ++ u " ---"].

Definition cleaned_row (row : list cell) : list str :=
  map (fun item => match item with
                   | None => []
                   | Some s => replace [10%N] (u " ") s
                   end) row.

(** The loop [for table_index, table in enumerate(tables)]. *)
Fixpoint table_rows (page_no : nat) (table_index : nat) (tables : list (list (list cell)))
    : list (list str) :=
  match tables with
  | [] => []
  | table :: tables' =>
    match table with
    | [] => table_rows page_no (S table_index) tables'
    | _ =>
      table_marker page_no (table_index + 1) :: map cleaned_row table ++ [[]]
        ++ table_rows page_no (S table_index) tables'
    end
  end.

(** The loop [for page in target_pages]: the rows appended, whether a keyword
    was found, and the exception that ended the loop, if any. *)
Fixpoint scan_pages (keywords : list str) (target_pages : list page)
    : list (list str) * bool * option exn :=
  match target_pages with
  | [] => ([], false, None)
  | p :: ps =>
    match extract_text p with
    | Raise e => ([], false, Some e)
    | Ok text =>
      let text := match text with Some t => t | None => [] end in
      if existsb (fun kw => contains kw text) keywords then
        match extract_tables p with
        | Raise e => ([], true, Some e)
        | Ok tables =>
          let '(rows', _, raised) := scan_pages keywords ps in
          (table_rows (page_number p) 0 tables ++ rows', true, raised)
        end
      else
        let '(rows', found, raised) := scan_pages keywords ps in
        (rows', found, raised)
    end
  end.

(** The page range in force for a file: its own when the dictionary has
    one, the common one otherwise. *)
Definition range_of (global_start global_end : option Z)
    (file_specific_ranges : list (str * (option Z * option Z))) (f : pdf_file)
    : option Z * option Z :=
  match lookup (name f) file_specific_ranges with
  | Some spec => spec
  | None => (global_start, global_end)
  end.

(** The body of [for pdf_file in pdf_files]: the rows the file adds to
    [all_rows] and the messages it causes. *)
Definition extract_file (keywords : list str) (global_start global_end : option Z)
    (file_specific_ranges : list (str * (option Z * option Z))) (f : pdf_file)
    : list (list str) * list message :=
  let head := [file_marker (name f); []] in
  let '(current_start, current_end) :=
    range_of global_start global_end file_specific_ranges f in
  match pages f with
  | Raise e => (head, [ErrorInFile (name f) e])
  | Ok pgs =>
    let '(s_idx, e_idx) := resolve_range current_start current_end (length pgs) in
    if (e_idx <=? s_idx)%Z
    then (head, [WarningInvalidRange (name f) current_start current_end])
    else
      let target_pages := slice (Z.to_nat s_idx) (Z.to_nat e_idx) pgs in
      match scan_pages keywords target_pages with
      | (rows', _, Some e) => (head ++ rows', [ErrorInFile (name f) e])
      | (rows', true, None) => (head ++ rows', [])
      | (rows', false, None) => (head ++ rows', [WarningNothingFound (name f)])
      end
  end.

Fixpoint extract_files (keywords : list str) (global_start global_end : option Z)
    (file_specific_ranges : list (str * (option Z * option Z))) (pdf_files : list pdf_file)
    : list (list str) * list message :=
  match pdf_files with
  | [] => ([], [])
  | f :: fs =>
    let '(rows1, log1) := extract_file keywords global_start global_end file_specific_ranges f in
    let '(rows2, log2) := extract_files keywords global_start global_end file_specific_ranges fs in
    (rows1 ++ rows2, log1 ++ log2)
  end.

(** [pd.DataFrame(all_rows)]. *)
Definition dataframe_of_rows (all_rows : list (list str)) : dataframe :=
  {| ncols := fold_right (fun r m => Nat.max (length r) m) 0 all_rows;
     rows := map (map Some) all_rows |}.

(** The result ([None] when nothing is returned) and the messages shown. *)
Definition extract_tables_from_multiple_pdfs (pdf_files : list pdf_file)
    (keywords : list str) (global_start global_end : option Z)
    (file_specific_ranges : list (str * (option Z * option Z)))
    : option dataframe * list message :=
  match keywords with
  | [] => (None, [ErrorNoKeywords])
  | _ =>
    let '(all_rows, log) :=
      extract_files keywords global_start global_end file_specific_ranges pdf_files in
    if existsb (fun r => negb (Nat.eqb (length r) 0)) all_rows
    then (Some (dataframe_of_rows all_rows), log)
    else (None, log)
  end.

(** ** Notions used to state the properties *)

(** How many rows carry a label. *)
Definition count_label (l : str) (labels : list str) : nat :=
  length (filter (str_eqb l) labels).

(** The value in base ten of a text of ASCII digits, read after [a]. *)
Definition read_digits (s : str) (a : N) : N :=
  fold_left (fun acc c => (acc * 10 + (c - 48))%N) s a.

(** [b] comes immediately after [a] in [l]. *)
Definition next_to {A : Type} (a b : A) (l : list A) : Prop :=
  exists l1 l2, l = l1 ++ a :: b :: l2.

(** The state of the loop over a frame's items: [last_known_index] is -1
    before any item, and afterwards the place in the master order of the item
    handled last. *)
Definition anchored (prev : option str) (last_known_index : Z) (master : list str) : Prop :=
  match prev with
  | None => last_known_index = (-1)%Z
  | Some p =>
    (0 <= last_known_index)%Z /\ nth_error master (Z.to_nat last_known_index) = Some p
  end.

(** The item handled last, if any, as a list. *)
Definition opt_list {A : Type} (o : option A) : list A :=
  match o with
  | Some a => [a]
  | None => []
  end.

(** [indices_where] on a list whose first element has index [s]. *)
Definition indices_from {A : Type} (s : nat) (p : A -> bool) (l : list A) : list nat :=
  map fst (filter (fun ix => p (snd ix)) (combine (seq s (length l)) l)).

Section FrameNotions.
Context {NUM : Numeric}.

(** The value a frame holds for an item in a period column; [None] when it
    holds none (NaN, or no such row or column). *)
Definition value_at (f : frame) (label col : str) : option num :=
  match lookup label (body f) with
  | Some cells =>
    match lookup col cells with
    | Some v => v
    | None => None
    end
  | None => None
  end.

(** The first frame of a list that has a given period column. *)
Definition first_with (col : str) (dfs : list frame) : option frame :=
  find (fun f => mem col (columns f)) dfs.

(** The shape of the frames the mergers build: no label twice, no column
    twice, no period column named like the label column, and in every row
    one value per column. *)
Definition well_formed (f : frame) : Prop :=
  NoDup (labels_of f) /\ NoDup (columns f) /\ ~ In common_item (columns f) /\
  forall row, In row (body f) -> map fst (snd row) = columns f.

(** What a left merge appends to the row of an item: the right frame's
    values for it, or NaN in each of the right frame's columns. *)
Definition joined_cells (right : frame) (label : str) : list (str * option num) :=
  match lookup label (body right) with
  | Some cells => cells
  | None => map (fun c => (c, None)) (columns right)
  end.

(** What the accumulated frame keeps true: in every row one value per
    column, and no column twice. *)
Definition covered (f : frame) : Prop :=
  NoDup (columns f) /\ forall row, In row (body f) -> map fst (snd row) = columns f.

(** The first header cell of a period among the cells found. *)
Definition first_cell (h : str) (cells : list (nat * nat * str)) : option (nat * nat * str) :=
  find (fun cell => str_eqb (snd cell) h) cells.

(** The value of the first row with a label, if any. *)
Definition first_value (l : str) (rows : list (str * option num)) : option num :=
  match lookup l rows with
  | Some v => v
  | None => None
  end.

End FrameNotions.

(** A one-page file for concrete runs. *)
Definition one_page_file (file text : string) (table : list (list string)) : pdf_file :=
  {| name := u file;
     pages := Ok [ {| page_number := 1;
                      extract_text := Ok (Some (u text));
                      extract_tables := Ok [map (map (fun s => Some (u s))) table] |} ] |}.

(** The digits 0 to 9 of ASCII, which [str(k)] is made of. *)
Definition ascii_digit (c : N) : Prop := (48 <= c <= 57)%N.

(** The text [_temp_] followed by digits. *)
Definition temp_text (ds : str) : str := [95; 116; 101; 109; 112; 95]%N ++ ds.

(** The numbers of the groups of a pattern. *)
Fixpoint groups_of (r : regex) : list nat :=
  match r with
  | Seq r1 r2 | Alt r1 r2 => groups_of r1 ++ groups_of r2
  | Opt r1 => groups_of r1
  | Grp n r1 => n :: groups_of r1
  | _ => []
  end.

(** A text that begins with a decimal digit. *)
Definition digit_first (s : str) : Prop :=
  exists d t, s = d :: t /\ is_decimal d = true.

(** The continuation of a whole match: it records group 0 and stops. *)
Definition top_like (k : cont) : Prop :=
  forall pos s caps res, k pos s caps = Some res -> exists t0, res = (0, t0) :: caps.

(** [m.group(n)] on the groups of a match. *)
Definition group_in (caps : captures) (n : nat) : str :=
  match find (fun e => Nat.eqb (fst e) n) caps with
  | Some e => snd e
  | None => []
  end.

(** Every frame of every slot is well formed. *)
Definition slots_well_formed {NUM : Numeric} (st : list slot) : Prop :=
  Forall (fun s => Forall well_formed (list_of_dfs s)) st.


(** * Further properties: notions *)

(** A text of white space only. *)
Definition all_space (s : str) : Prop := Forall (fun c => is_space c = true) s.

(** Every character that a pattern can consume satisfies [Q]. *)
Fixpoint accepts (Q : N -> Prop) (r : regex) : Prop :=
  match r with
  | Chr c => Q c
  | Cls p | Star p => forall x, p x = true -> Q x
  | Seq r1 r2 | Alt r1 r2 => accepts Q r1 /\ accepts Q r2
  | Opt r1 | Grp _ r1 => accepts Q r1
  | Eps | Bol | Eol => True
  end.

(** Every group of a pattern can only hold characters that satisfy [Q]. *)
Fixpoint groups_hold (Q : N -> Prop) (r : regex) : Prop :=
  match r with
  | Grp _ r1 => accepts Q r1
  | Seq r1 r2 | Alt r1 r2 => groups_hold Q r1 /\ groups_hold Q r2
  | Opt r1 => groups_hold Q r1
  | _ => True
  end.

Definition decimal (c : N) : Prop := is_decimal c = true.

(** The characters of a period label: decimal digits, the slash, [Q], 年 and
    度. *)
Definition label_char (c : N) : Prop :=
  decimal c \/ In c [47; 81; 24180; 24230]%N.

(** Every period column of a frame has a sort key. *)
Definition keyed {NUM : Numeric} (f : frame) : Prop :=
  forall c, In c (columns f) -> exists k, sort_key c = Ok k.

(** What a contribution makes of a slot. *)
Definition extend {NUM : Numeric} (s : slot) (f : frame) (item_order : list str) : slot :=
  {| list_of_dfs := list_of_dfs s ++ [f];
     ordered_items := update_master_order (ordered_items s) item_order |}.

(** A property of slots that holds of a slot without frames and that every
    contribution of a merger keeps, when the merger is given a chunk that
    satisfies [I]. *)
Definition invariant {NUM : Numeric} (I : dataframe -> Prop) (mode : integration_mode)
    (P : slot -> Prop) : Prop :=
  P empty_slot /\
  forall df f l s,
    I df -> run_merger mode df = Ok (Some f, l) -> frame_empty f = false ->
    P s -> P (extend s f l).

(** The chunks handed to a merger: of the table chunks of a file chunk, of
    the file chunks, and of a sheet. *)
Definition table_inputs (width : nat) (chunks : list (list (list cell))) : list dataframe :=
  flat_map (fun table_chunk =>
              match clean_table_chunk table_chunk with
              | [] => []
              | clean => [{| ncols := width; rows := clean |}]
              end) chunks.

Definition merger_inputs (width : nat) (chunks : list (list (list cell))) : list dataframe :=
  flat_map (fun file_chunk => table_inputs width (table_chunks file_chunk)) chunks.

Definition sheet_inputs (df : dataframe) : list dataframe :=
  merger_inputs (ncols df) (file_chunks (map stringify_col0 (rows df))).

(** A number that [astype(int)] accepts: a finite one. *)
Definition castable {NUM : Numeric} (v : num) : Prop := exists z, to_int v = Some z.

(** The frame holds the number [v] in some cell. *)
Definition holds {NUM : Numeric} (f : frame) (v : num) : Prop :=
  exists row cell, In row (body f) /\ In cell (snd row) /\ snd cell = Some v.

Definition values_in {NUM : Numeric} (Q : num -> Prop) (f : frame) : Prop :=
  forall v, holds f v -> Q v.

(** Every cell of the sheet that reads as a number reads as a finite one. *)
Definition finite_cells {NUM : Numeric} (df : dataframe) : Prop :=
  forall row c v, In row (rows df) -> parse_value (cell_at row c) = Some v -> castable v.

(** A slot that has a frame has an item and, in every frame, a period
    column. *)
Definition populated {NUM : Numeric} (s : slot) : Prop :=
  (list_of_dfs s <> [] -> ordered_items s <> []) /\
  Forall (fun f => columns f <> []) (list_of_dfs s).

(** A chunk that begins with a marker row and holds no other one. *)
Definition starts_chunk {A : Type} (p : A -> bool) (chunk : list A) : Prop :=
  exists m rest, chunk = m :: rest /\ p m = true /\ forall r, In r rest -> p r = false.

(** What processing keeps true of every slot: no item twice in the master
    order, an item and period columns as soon as there is a frame, and well
    formed frames. *)
Definition sound_slot {NUM : Numeric} (s : slot) : Prop :=
  NoDup (ordered_items s) /\ populated s /\ Forall well_formed (list_of_dfs s).

(** The master order of a slot holds the items of its frames and no
    other. *)
Definition covers_frames {NUM : Numeric} (s : slot) : Prop :=
  forall l, In l (ordered_items s) <-> exists f, In f (list_of_dfs s) /\ In l (labels_of f).

(** Cells that are integers or not finite ([None]): the text [inf] reads as a
    number that is not finite; a sum with such a number is not finite, and
    its cast to an integer fails. *)
Definition ext_of_text (s : str) : option (option Z) :=
  if str_eqb s (u "inf") then Some None else option_map Some (int_of_text s).

Definition ext_add (x a : option Z) : option Z :=
  match x, a with
  | Some z, Some y => Some (z + y)%Z
  | _, _ => None
  end.

Definition ext_sum (l : list (option Z)) : option Z := fold_right ext_add (Some 0%Z) l.

Fixpoint ext_sum_exact (zs : list Z)
    : ext_sum (map Some zs) = Some (fold_right Z.add 0%Z zs) :=
  match zs with
  | [] => eq_refl
  | z :: zs' => f_equal (ext_add (Some z)) (ext_sum_exact zs')
  end.

Definition ExtCells : Numeric :=
  {| num := option Z; to_numeric := ext_of_text; zero := Some 0%Z;
     sum := ext_sum; to_int := fun x => x; of_Z := Some;
     zero_of_Z := eq_refl;
     sum_exact := fun zs _ => ext_sum_exact zs;
     to_int_of_Z := fun z _ => eq_refl |}.

(** Whether a search gave a match. *)
Definition found (o : option match_obj) : bool :=
  match o with Some _ => true | None => false end.

(** ** Further properties: extraction *)

(** [page.extract_text() or ""] when the call returns. *)
Definition page_text (p : page) : str :=
  match extract_text p with
  | Ok (Some t) => t
  | _ => []
  end.

(** [any(kw in text for kw in keywords)]. *)
Definition has_keyword (keywords : list str) (p : page) : bool :=
  existsb (fun kw => contains kw (page_text p)) keywords.

(** Neither call of the PDF library raises on the page. *)
Definition readable (p : page) : Prop :=
  (exists t, extract_text p = Ok t) /\ (exists ts, extract_tables p = Ok ts).

(** The rows written for a page that is scanned. *)
Definition page_rows (p : page) : list (list str) :=
  match extract_tables p with
  | Ok tables => table_rows (page_number p) 0 tables
  | Raise _ => []
  end.

(** Pages [first] to [last] of a file, counted from 1. *)
Definition pages_between {A : Type} (first last : Z) (pgs : list A) : list A :=
  firstn (Z.to_nat (last - first + 1)) (skipn (Z.to_nat (first - 1)) pgs).

(** ** Further properties: the page *)

(** The number that a text of decimal digits writes, place by place. *)
Definition digit_of (c : N) : Z :=
  match decimal_value c with
  | Some d => Z.of_N d
  | None => 0%Z
  end.

Fixpoint place_value (s : str) : Z :=
  match s with
  | [] => 0%Z
  | c :: s' => (digit_of c * 10 ^ Z.of_nat (length s') + place_value s')%Z
  end.

(** [str.isdigit]: at least one character, and all of them digits. *)
Definition isdigit (s : str) : bool :=
  match s with
  | [] => false
  | _ => forallb is_digit s
  end.

(** A page box: [int(s_in) if s_in.isdigit() else None]. *)
Definition page_input (s_in : str) : outcome (option Z) :=
  if isdigit s_in then (z <- py_int s_in ;; Ok (Some z)) else Ok None.

(** [sep.join(l)]. *)
Fixpoint join (sep : str) (l : list str) : str :=
  match l with
  | [] => []
  | [x] => x
  | x :: l' => x ++ sep ++ join sep l'
  end.

(** [s.rfind(sep)]: where the last occurrence of [sep] in [s] begins. *)
Fixpoint rfind (sep s : str) : option nat :=
  match s with
  | [] => if is_prefix sep [] then Some 0 else None
  | _ :: s' =>
    match rfind sep s' with
    | Some i => Some (S i)
    | None => if is_prefix sep s then Some 0 else None
    end
  end.

(** [s.rsplit(sep, 1)[0]] for a separator that is not empty. *)
Definition rsplit_head (sep s : str) : str :=
  match rfind sep s with
  | Some i => firstn i s
  | None => s
  end.

(** [s.endswith(suffix)]. *)
Definition endswith (suffix s : str) : bool := is_prefix (rev suffix) (rev s).

(** [s.removesuffix(suffix)]. *)
Definition removesuffix (suffix s : str) : str :=
  if endswith suffix s then firstn (length s - length suffix) s else s.

Definition matome : str := u "_まとめ".

Definition xlsx : str := u ".xlsx".

(** The name under which the extraction result is offered. *)
Definition extraction_filename (keywords : list str) : str :=
  match keywords with
  | [] => u "抽出結果_まとめ.xlsx"
  | _ => join (u "_") keywords ++ u "_まとめ.xlsx"
  end.

Definition mode_suffix (mode : integration_mode) : str :=
  match mode with
  | Vertical => u "_縦統合"
  | Horizontal => u "_横統合"
  end.

(** The name under which the summaries are offered, from the name of the
    uploaded sheet. *)
Definition consolidation_filename (excel_name : str) (mode : integration_mode) : str :=
  let base_name_input := rsplit_head xlsx excel_name in
  let base_name_output :=
    if endswith matome base_name_input
    then removesuffix matome base_name_input ++ mode_suffix mode
    else base_name_input ++ mode_suffix mode in
  base_name_output ++ xlsx.

(** The sheet of the summary at index [i]. *)
Definition sheet_name (i : nat) : str := u "統合まとめ表_" ++ str_of_nat (i + 1).

(** [s.split(",")]. *)
Fixpoint split_comma (s : str) : list str :=
  match s with
  | [] => [[]]
  | c :: s' =>
    if (c =? 44)%N then [] :: split_comma s'
    else match split_comma s' with
         | piece :: pieces => (c :: piece) :: pieces
         | [] => [[c]]
         end
  end.

(** [[kw.strip() for kw in keyword_input_str.split(",") if kw.strip()]]. *)
Definition parse_keywords (keyword_input_str : str) : list str :=
  map strip (filter (fun kw => match strip kw with [] => false | _ => true end)
                    (split_comma keyword_input_str)).

(** The period columns with sort key [k]. *)
Definition has_key (k : Z) (col : str) : bool :=
  match sort_key col with
  | Ok z => (z =? k)%Z
  | Raise _ => false
  end.


(** The chunk with [k] more columns on the right, all of them missing. *)
Definition widen (k : nat) (df : dataframe) : dataframe :=
  {| ncols := ncols df + k; rows := rows df |}.

(** No row of the chunk is longer than the chunk is wide. *)
Definition within_width (df : dataframe) : Prop :=
  forall r, In r (rows df) -> length r <= ncols df.

(** The page makes the scan of a file stop with [e]: reading its text
    raises, or its text holds a keyword and reading its tables raises. *)
Definition page_fails (keywords : list str) (p : page) (e : exn) : Prop :=
  extract_text p = Raise e \/
  ((exists t, extract_text p = Ok t) /\ has_keyword keywords p = true /\
   extract_tables p = Raise e).

(** ** Further properties: the shape of the period labels *)

(** What a successful match of [r] consumes and captures: from position
    [pos] a text [t] and the new groups [new], such that [P pos t new]. *)
Definition yields (P : nat -> str -> captures -> Prop) (r : regex) : Prop :=
  forall pos s caps k res,
    rmatch r pos s caps k = Some res ->
    exists t s' new,
      s = t ++ s' /\ P pos t new /\ k (pos + length t) s' (new ++ caps) = Some res.

(** [n] decimal digits. *)
Definition digits (n : nat) (t : str) : Prop := length t = n /\ Forall decimal t.

(** One or two decimal digits. *)
Definition digits12 (t : str) : Prop := (length t = 1 \/ length t = 2) /\ Forall decimal t.

(** The labels: a quarter code [20YYQn], a month [YYYY/M] or [YYYY/MM], a
    fiscal year [YYYY年度], a year [20YY] or a year and month [20YYMM]. *)
Inductive label_shape : str -> Prop :=
| shape_quarter (y : str) (n : N) :
    digits 2 y -> is_1to4 n = true -> label_shape (u "20" ++ y ++ [81%N; n])
| shape_month (y m : str) :
    digits 4 y -> digits12 m -> label_shape (y ++ u "/" ++ m)
| shape_fiscal (y : str) :
    digits 4 y -> label_shape (y ++ u "年度")
| shape_year (y : str) :
    digits 2 y -> label_shape (u "20" ++ y)
| shape_year_month (y m : str) :
    digits 2 y -> digits 2 m -> label_shape (u "20" ++ y ++ m).
(** * Properties *)

(** ** Text *)

Example u_ascii : u "2024Q1" = [50; 48; 50; 52; 81; 49]%N.
Proof. reflexivity. Qed.

Example u_kanji : u "年度" = [24180; 24230]%N.
Proof. reflexivity. Qed.

Example str_of_nat_12 : str_of_nat 12 = u "12" /\ str_of_nat 0 = u "0".
Proof. split; reflexivity. Qed.

Example replace_twice : replace (u "年度") [] (u "2023年度x年度年") = u "2023x年".
Proof. reflexivity. Qed.

(** ** Period-header detection *)

Example detect_samples :
  detect_year_header (u "2024Q1") = Some (u "2024Q1") /\
  detect_year_header (u " 2024q3 実績") = Some (u "2024Q3") /\
  detect_year_header (u "(自 2024年4月") = Some (u "2024/4") /\
  detect_year_header (u "自2024年12月1日") = Some (u "2024/12") /\
  detect_year_header (u "2024年3月期") = Some (u "2024/3") /\
  detect_year_header (u "2023年度") = Some (u "2023年度") /\
  detect_year_header (u "'24/3") = Some (u "2024/3") /\
  detect_year_header (u "24/3") = Some (u "2024/3") /\
  detect_year_header (u "2024/03/31") = Some (u "2024/03") /\
  detect_year_header (u "2024") = Some (u "2024") /\
  detect_year_header (u "202403") = Some (u "202403") /\
  detect_year_header (u "20240") = None /\
  detect_year_header (u "1999") = None /\
  detect_year_header (u "hello") = None.
Proof. vm_compute. repeat split. Qed.

(** The loop over the matchers returns the label of the first matcher that
    matches. *)
Lemma first_match_spec (s : str) (ps : list (regex * (match_obj -> str))) :
  match first_match ps s with
  | Some l =>
    exists pre pat fmt post m,
      ps = pre ++ (pat, fmt) :: post /\
      (forall p, In p pre -> search (fst p) s = None) /\
      search pat s = Some m /\ l = fmt m
  | None => forall p, In p ps -> search (fst p) s = None
  end.
Proof.
  induction ps as [|[pat fmt] ps IH]; cbn [first_match].
  - intros p [].
  - destruct (search pat s) as [m|] eqn:Hm.
    + exists [], pat, fmt, ps, m. repeat split; auto. intros p [].
    + destruct (first_match ps s) as [l|].
      * destruct IH as (pre & pat' & fmt' & post & m & -> & Hpre & Hhit & ->).
        exists ((pat, fmt) :: pre), pat', fmt', post, m. repeat split; auto.
        intros p [<-|Hin]; auto.
      * intros p [<-|Hin]; auto.
Qed.

(** *** The quarter matcher *)

Lemma pat_quarter_eq :
  pat_quarter =
  Grp 1 (Seq (Seq (Chr 50%N) (Seq (Chr 48%N) Eps))
        (Seq (Seq digit (Seq digit Eps)) (Seq (Cls is_Qq) (Seq (Cls is_1to4) Eps)))).
Proof. reflexivity. Qed.

Lemma sub_plus6 (pos : nat) : S (S (S (S (S (S pos))))) - pos = 6.
Proof. lia. Qed.

Lemma quarter_match_inv (pos : nat) (s : str) (caps : captures) :
  rmatch (Grp 0 pat_quarter) pos s [] (fun _ _ c => Some c) = Some caps ->
  exists d1 d2 q n rest,
    s = quarter_code d1 d2 q n ++ rest /\ quarter_shape d1 d2 q n /\
    caps = [(0, quarter_code d1 d2 q n); (1, quarter_code d1 d2 q n)].
Proof.
  rewrite pat_quarter_eq. cbn [rmatch digit].
  destruct s as [|c1 [|c2 [|d1 [|d2 [|q [|n rest]]]]]]; cbn -[Nat.sub];
    repeat match goal with
    | |- context [if ?b then _ else _] => destruct b eqn:?; cbn -[Nat.sub]
    end; try discriminate.
  intros H. rewrite sub_plus6 in H. cbn in H. injection H as <-.
  apply N.eqb_eq in Heqb, Heqb0. subst.
  exists d1, d2, q, n, rest. repeat split; assumption.
Qed.

Lemma quarter_match_here (pos : nat) (d1 d2 q n : char) (rest : str) :
  quarter_shape d1 d2 q n ->
  rmatch (Grp 0 pat_quarter) pos (quarter_code d1 d2 q n ++ rest) []
    (fun _ _ c => Some c)
  = Some [(0, quarter_code d1 d2 q n); (1, quarter_code d1 d2 q n)].
Proof.
  intros (H1 & H2 & H3 & H4). rewrite pat_quarter_eq. cbn [rmatch digit].
  cbn -[Nat.sub]. rewrite H1, H2, H3, H4. rewrite sub_plus6. reflexivity.
Qed.

Lemma search_from_hit (r : regex) (pos : nat) (s : str) (caps : captures) :
  rmatch (Grp 0 r) pos s [] (fun _ _ c => Some c) = Some caps ->
  search_from r pos s = Some {| m_start := pos; m_groups := caps |}.
Proof. intros H. destruct s; cbn [search_from]; rewrite H; reflexivity. Qed.

(** The search finds a quarter code wherever the text holds one ... *)
Lemma search_quarter_complete (a : str) :
  forall pos d1 d2 q n b,
    quarter_shape d1 d2 q n ->
    exists m, search_from pat_quarter pos (a ++ quarter_code d1 d2 q n ++ b) = Some m.
Proof.
  induction a as [|c a IH]; intros pos d1 d2 q n b Hs.
  - cbn [app]. eexists. apply search_from_hit, quarter_match_here, Hs.
  - cbn [app search_from].
    destruct (rmatch _ _ _ _ _); eauto.
Qed.

(** ... and whatever it finds is a quarter code, held in group 1. *)
Lemma search_quarter_sound (s : str) :
  forall pos m,
    search_from pat_quarter pos s = Some m ->
    exists d1 d2 q n, quarter_shape d1 d2 q n /\ group m 1 = quarter_code d1 d2 q n.
Proof.
  induction s as [|c s IH]; intros pos m; cbn [search_from].
  - destruct (rmatch _ _ _ _ _) eqn:E; [|discriminate].
    apply quarter_match_inv in E. destruct E as (? & ? & ? & ? & ? & E & _). discriminate.
  - destruct (rmatch _ _ _ _ _) eqn:E.
    + apply quarter_match_inv in E.
      destruct E as (d1 & d2 & q & n & rest & _ & Hs & ->).
      intros [= <-]. exists d1, d2, q, n. split; [assumption | reflexivity].
    + apply IH.
Qed.

(** *** Stripping keeps what lies between two non-space characters *)

Lemma lstrip_keep (a : str) (c : char) (t : str) :
  is_space c = false -> exists a', lstrip (a ++ c :: t) = a' ++ c :: t.
Proof.
  intros Hc. induction a as [|x a IH]; cbn [app lstrip].
  - rewrite Hc. now exists [].
  - destruct (is_space x); [exact IH | now exists (x :: a)].
Qed.

Lemma rstrip_keep (t : str) (c : char) (b : str) :
  is_space c = false -> exists b', rstrip (t ++ c :: b) = t ++ c :: b'.
Proof.
  intros Hc. unfold rstrip.
  replace (rev (t ++ c :: b)) with (rev b ++ c :: rev t)
    by (rewrite rev_app_distr; cbn [rev]; now rewrite <- app_assoc).
  destruct (lstrip_keep (rev b) c (rev t) Hc) as [b' ->].
  exists (rev b'). rewrite rev_app_distr. cbn [rev].
  now rewrite rev_involutive, <- app_assoc.
Qed.

Lemma is_1to4_cases (n : char) :
  is_1to4 n = true -> n = 49%N \/ n = 50%N \/ n = 51%N \/ n = 52%N.
Proof.
  unfold is_1to4. change (ch "1") with 49%N. change (ch "4") with 52%N.
  rewrite andb_true_iff, N.leb_le, N.leb_le. lia.
Qed.

Lemma is_1to4_not_space (n : char) : is_1to4 n = true -> is_space n = false.
Proof.
  intros H. destruct (is_1to4_cases n H) as [->|[->|[->| ->]]]; reflexivity.
Qed.

Lemma strip_keeps_quarter (a b : str) (d1 d2 q n : char) :
  is_1to4 n = true ->
  exists a' b', strip (a ++ quarter_code d1 d2 q n ++ b) = a' ++ quarter_code d1 d2 q n ++ b'.
Proof.
  intros Hn. unfold strip, quarter_code. cbn [app].
  destruct (lstrip_keep a 50%N (48%N :: d1 :: d2 :: q :: n :: b) eq_refl) as [a' ->].
  destruct (rstrip_keep (a' ++ [50; 48; d1; d2; q]%N) n b (is_1to4_not_space n Hn))
    as [b' Hb].
  exists a', b'. rewrite <- app_assoc in Hb. cbn [app] in Hb. rewrite Hb.
  rewrite <- app_assoc. reflexivity.
Qed.

(** *** Upper-casing a quarter code *)

Lemma decimal_not_lower (d : char) :
  is_decimal d = true -> upper_char d = d.
Proof.
  unfold upper_char. intros Hd.
  destruct ((97 <=? d)%N && (d <=? 122)%N) eqn:E; [|reflexivity].
  apply andb_true_iff in E. destruct E as [E1 E2].
  apply N.leb_le in E1. apply N.leb_le in E2.
  exfalso. revert Hd. unfold is_decimal, decimal_value.
  cbv [find decimal_zeros].
  repeat match goal with
  | |- context [((?z <=? d)%N && (d <? ?w)%N)] =>
    let F := fresh in
    destruct ((z <=? d)%N && (d <? w)%N) eqn:F;
    [ apply andb_true_iff in F; destruct F as [F F'];
      apply N.leb_le in F; apply N.ltb_lt in F'; lia
    | clear F ]
  end.
  discriminate.
Qed.

Lemma upper_quarter_code (d1 d2 q n : char) :
  quarter_shape d1 d2 q n ->
  upper (quarter_code d1 d2 q n) = quarter_code d1 d2 81%N n.
Proof.
  intros (H1 & H2 & H3 & H4). unfold upper, quarter_code. cbn [map].
  rewrite (decimal_not_lower _ H1), (decimal_not_lower _ H2).
  assert (Hq : upper_char q = 81%N).
  { unfold is_Qq in H3. change (ch "Q") with 81%N in H3. change (ch "q") with 113%N in H3.
    apply orb_true_iff in H3. destruct H3 as [H3|H3]; apply N.eqb_eq in H3; subst; reflexivity. }
  assert (Hn : upper_char n = n).
  { destruct (is_1to4_cases n H4) as [->|[->|[->| ->]]]; reflexivity. }
  rewrite Hq, Hn. reflexivity.
Qed.

(** C1: period detection applies the seven notation matchers in their fixed
    order and returns the canonical label of the first one that matches the
    stripped cell, or none when none matches; the labels of the stated sample
    cells; and a cell that holds a quarter code anywhere is resolved by the
    quarter rule, to an upper-case quarter code, whatever else it matches.
    (The detector is a function: total and deterministic.) *)
Theorem C1_detect_first_matcher_wins :
  map fst patterns =
    [pat_quarter; pat_from; pat_year_month; pat_fiscal; pat_short; pat_slash; pat_bare] /\
  (forall s : str,
     match detect_year_header s with
     | Some l =>
       exists pre pat fmt post m,
         patterns = pre ++ (pat, fmt) :: post /\
         (forall p, In p pre -> search (fst p) (strip s) = None) /\
         search pat (strip s) = Some m /\ l = fmt m
     | None => forall p, In p patterns -> search (fst p) (strip s) = None
     end) /\
  (detect_year_header (u "2024Q1") = Some (u "2024Q1") /\
   detect_year_header (u "(自 2024年4月") = Some (u "2024/4") /\
   detect_year_header (u "2024年3月期") = Some (u "2024/3") /\
   detect_year_header (u "2023年度") = Some (u "2023年度") /\
   detect_year_header (u "'24/3") = Some (u "2024/3") /\
   detect_year_header (u "2024/3") = Some (u "2024/3") /\
   detect_year_header (u "2024") = Some (u "2024") /\
   detect_year_header (u "202403") = Some (u "202403") /\
   detect_year_header (u "hello") = None) /\
  (forall (a b : str) (d1 d2 q n : char),
     quarter_shape d1 d2 q n ->
     exists m d1' d2' q' n',
       search pat_quarter (strip (a ++ quarter_code d1 d2 q n ++ b)) = Some m /\
       quarter_shape d1' d2' q' n' /\
       detect_year_header (a ++ quarter_code d1 d2 q n ++ b) = Some (fmt_quarter m) /\
       fmt_quarter m = quarter_code d1' d2' 81%N n').
Proof.
  split; [reflexivity|]. split; [|split].
  - intros s. unfold detect_year_header. apply first_match_spec.
  - vm_compute. repeat split.
  - intros a b d1 d2 q n Hs.
    destruct (strip_keeps_quarter a b d1 d2 q n (proj2 (proj2 (proj2 Hs)))) as (a' & b' & Hstrip).
    destruct (search_quarter_complete a' 0 d1 d2 q n b' Hs) as [m Hm].
    destruct (search_quarter_sound _ _ _ Hm) as (d1' & d2' & q' & n' & Hs' & Hg).
    exists m, d1', d2', q', n'. unfold search. rewrite Hstrip.
    repeat split; try apply Hs'; try exact Hm.
    + unfold detect_year_header. rewrite Hstrip.
      unfold patterns. cbn [first_match]. unfold search. rewrite Hm. reflexivity.
    + unfold fmt_quarter. rewrite Hg. apply upper_quarter_code, Hs'.
Qed.

Lemma C1_witness :
  exists m d1' d2' q' n',
    search pat_quarter (strip (u "FY " ++ quarter_code 50 52 113 51 ++ u " 202403")) = Some m /\
    quarter_shape d1' d2' q' n' /\
    detect_year_header (u "FY " ++ quarter_code 50 52 113 51 ++ u " 202403")
      = Some (fmt_quarter m) /\
    fmt_quarter m = quarter_code d1' d2' 81%N n'.
Proof.
  apply (proj2 (proj2 (proj2 C1_detect_first_matcher_wins))).
  repeat split; reflexivity.
Defined.

(** ** The chronological sort key *)

Example sort_key_samples :
  sort_key (u "2024Q1") = Ok 202401%Z /\
  sort_key (u "2023年度") = Ok 202300%Z /\
  sort_key (u "2024/3") = Ok 202430%Z /\
  sort_key (u "2024/12") = Ok 202412%Z /\
  sort_key (u "202403") = Ok 202403%Z /\
  sort_key (u "Unknown_Period") = Ok 99999999%Z /\
  sort_key (u "売上高") = Ok 99999999%Z /\
  sort_key (u "Equity") = Ok 0%Z /\
  sort_key (u "123,456,789") = Ok 123456789%Z /\
  sort_key (u "①") = Raise ValueError /\
  sorted_by_key [u "2024Q1"; u "2023年度"; u "x"; u "2024/3"; u "2022"]
    = Ok [u "2022"; u "2023年度"; u "2024Q1"; u "2024/3"; u "x"].
Proof. vm_compute. repeat split. Qed.

(** Replacing a single character is a filter or a map. *)
Lemma replace_delete_char (c : char) (s : str) :
  replace [c] [] s = delete_char c s.
Proof.
  unfold replace, delete_char.
  induction s as [|x s IH]; [reflexivity|].
  cbn [replace_from is_prefix length Nat.sub filter app].
  rewrite andb_true_r, (N.eqb_sym c x). destruct (x =? c)%N; cbn [negb app]; now rewrite IH.
Qed.

Lemma replace_map_char (c d : char) (s : str) :
  replace [c] [d] s = map (fun x => if (x =? c)%N then d else x) s.
Proof.
  unfold replace.
  induction s as [|x s IH]; [reflexivity|].
  cbn [replace_from is_prefix length Nat.sub map app].
  rewrite andb_true_r, (N.eqb_sym c x). destruct (x =? c)%N; cbn [app]; now rewrite IH.
Qed.

(** C5, first part: the key the program computes is the key the
    specification describes. *)
Lemma sort_key_refines_spec (h : str) : sort_key h = spec_sort_key h.
Proof.
  unfold sort_key, spec_sort_key.
  change (u "月") with [ch "月"]. change (u "年") with [ch "年"].
  change (u "Q") with [ch "Q"]. change (u "0") with [ch "0"].
  change (u "/") with [ch "/"].
  rewrite !replace_delete_char, replace_map_char.
  destruct (filter is_digit _) as [|d ds]; reflexivity.
Qed.

(** Deleting characters that are not digits does not change the digits. *)
Lemma filter_digit_delete_char (c : char) (s : str) :
  is_digit c = false -> filter is_digit (delete_char c s) = filter is_digit s.
Proof.
  intros Hc. unfold delete_char. induction s as [|x s IH]; [reflexivity|].
  cbn [filter]. destruct (N.eqb_spec x c) as [->|Hx]; cbn [negb filter].
  - now rewrite Hc.
  - now rewrite IH.
Qed.

Lemma filter_digit_replace2 (a b : char) (n : nat) :
  is_digit a = false -> is_digit b = false ->
  forall s, length s <= n ->
    filter is_digit (replace [a; b] [] s) = filter is_digit s.
Proof.
  intros Ha Hb. unfold replace. induction n as [|n IH]; intros s Hlen.
  - destruct s; [reflexivity | cbn in Hlen; lia].
  - destruct s as [|x s]; [reflexivity|].
    cbn [replace_from is_prefix length Nat.sub app].
    rewrite (N.eqb_sym a x).
    destruct (N.eqb_spec x a) as [->|Hx]; cbn [andb].
    + destruct s as [|y s].
      * cbn. now rewrite Ha.
      * cbn [is_prefix]. rewrite andb_true_r, (N.eqb_sym b y).
        destruct (N.eqb_spec y b) as [->|Hy].
        -- cbn [replace_from filter]. rewrite Ha, Hb.
           apply IH. cbn in Hlen. lia.
        -- cbn [filter]. rewrite Ha. apply IH. cbn in Hlen. cbn. lia.
    + cbn [filter]. rewrite IH; [reflexivity | cbn in Hlen; lia].
Qed.

Lemma sort_key_digits (h : str) :
  sort_key h =
  match key_digits h with
  | _ :: _ => py_int (ljust 6 (ch "0") (key_digits h))
  | [] => Ok sentinel
  end.
Proof.
  unfold sort_key, key_digits.
  change (u "月") with [ch "月"]. change (u "年") with [ch "年"].
  change (u "Q") with [ch "Q"]. change (u "0") with [ch "0"].
  change (u "/") with [ch "/"].
  rewrite !replace_delete_char, replace_map_char.
  rewrite !filter_digit_delete_char by reflexivity.
  rewrite (filter_digit_replace2 (ch "年") (ch "度") _ eq_refl eq_refl _ (le_n _)).
  assert (E : forall s,
    filter is_digit (map (fun x => if (x =? ch "Q")%N then ch "0" else x)
                         (delete_char (ch "/") s)) =
    filter is_digit (map (fun x => if (x =? ch "Q")%N then ch "0" else x) s)).
  { induction s as [|x s IH]; [reflexivity|].
    cbn [delete_char filter map]. destruct (N.eqb_spec x (ch "/")) as [->|Hx]; cbn [negb].
    - exact IH.
    - cbn [map filter]. fold (delete_char (ch "/") s). now rewrite IH. }
  rewrite E. reflexivity.
Qed.

(** *** Which headers receive the sentinel *)

Ltac split_ranges c :=
  repeat match goal with
  | |- context [((?lo <=? c)%N && (c <? ?hi)%N)] =>
    let F := fresh in let G := fresh in
    destruct ((lo <=? c)%N && (c <? hi)%N) eqn:F;
    [ apply andb_true_iff in F; destruct F as [F G];
      apply N.leb_le in F; apply N.ltb_lt in G; exfalso; lia
    | clear F ]
  | |- context [((?lo <=? c)%N && (c <=? ?hi)%N)] =>
    let F := fresh in let G := fresh in
    destruct ((lo <=? c)%N && (c <=? hi)%N) eqn:F;
    [ apply andb_true_iff in F; destruct F as [F G];
      apply N.leb_le in F; apply N.leb_le in G; exfalso; lia
    | clear F ]
  end.

Lemma capital_not_digit (c : char) :
  (65 <= c <= 90)%N -> is_digit c = false.
Proof.
  intros Hc. unfold is_digit, is_decimal, decimal_value, in_ranges.
  cbv [find decimal_zeros existsb fst snd].
  split_ranges c. reflexivity.
Qed.

Lemma upper_char_cases (c : char) :
  (upper_char c = c /\ ~ (97 <= c <= 122)%N) \/
  ((97 <= c <= 122)%N /\ upper_char c = (c - 32)%N).
Proof.
  unfold upper_char. destruct ((97 <=? c)%N && (c <=? 122)%N) eqn:E.
  - right. apply andb_true_iff in E. destruct E as [E1 E2].
    apply N.leb_le in E1. apply N.leb_le in E2. split; [lia | reflexivity].
  - left. split; [reflexivity|]. intros [H1 H2].
    apply N.leb_le in H1. apply N.leb_le in H2. rewrite H1, H2 in E. discriminate.
Qed.

Lemma key_digits_none (h : str) :
  (forall c, In c h -> is_digit c = false /\ is_Qq c = false) ->
  key_digits h = [].
Proof.
  unfold key_digits. induction h as [|c h IH]; intros Hh; [reflexivity|].
  cbn [upper map filter]. fold (upper h).
  destruct (Hh c (or_introl eq_refl)) as [Hd Hq].
  unfold is_Qq in Hq. change (ch "Q") with 81%N in *. change (ch "q") with 113%N in Hq.
  apply orb_false_iff in Hq. destruct Hq as [Hq1 Hq2].
  apply N.eqb_neq in Hq1. apply N.eqb_neq in Hq2.
  assert (Hu : (upper_char c =? 81)%N = false /\ is_digit (upper_char c) = false).
  { destruct (upper_char_cases c) as [[-> _]|[Hr ->]].
    - split; [now apply N.eqb_neq | assumption].
    - split; [apply N.eqb_neq; lia | apply capital_not_digit; lia]. }
  destruct Hu as [-> ->]. apply IH. intros c' Hc'. apply Hh. now right.
Qed.

(** *** The size of a key *)

Lemma decimal_value_lt (c : char) (d : N) :
  decimal_value c = Some d -> (d < 10)%N.
Proof.
  unfold decimal_value.
  destruct (find _ decimal_zeros) as [z|] eqn:E; [|discriminate].
  intros [= <-]. apply find_some in E. destruct E as [_ E].
  apply andb_true_iff in E. destruct E as [E1 E2].
  apply N.leb_le in E1. apply N.ltb_lt in E2. lia.
Qed.

Lemma py_int_from_bounds (s : str) :
  forall acc k,
    py_int_from acc s = Ok k -> (0 <= acc)%Z ->
    (acc * 10 ^ Z.of_nat (length s) <= k < (acc + 1) * 10 ^ Z.of_nat (length s))%Z.
Proof.
  induction s as [|c s IH]; intros acc k; cbn [py_int_from length].
  - intros [= <-] _. cbn. lia.
  - destruct (decimal_value c) as [d|] eqn:Hd; [|discriminate].
    intros Hk Hacc. apply decimal_value_lt in Hd.
    apply IH in Hk; [|lia].
    rewrite Nat2Z.inj_succ, Z.pow_succ_r by lia.
    assert (0 < 10 ^ Z.of_nat (length s))%Z by (apply Z.pow_pos_nonneg; lia).
    nia.
Qed.

Lemma py_int_from_total (s : str) :
  Forall (fun c => is_decimal c = true) s ->
  forall acc, exists k, py_int_from acc s = Ok k.
Proof.
  induction 1 as [|c s Hc _ IH]; intros acc; cbn [py_int_from].
  - now exists acc.
  - unfold is_decimal in Hc. destruct (decimal_value c); [apply IH | discriminate].
Qed.

Lemma ljust_length (n : nat) (c : char) (s : str) :
  length (ljust n c s) = Nat.max n (length s).
Proof. unfold ljust. rewrite length_app, repeat_length. lia. Qed.

Lemma py_int_from_decimal (s : str) :
  forall acc k, py_int_from acc s = Ok k -> Forall (fun c => is_decimal c = true) s.
Proof.
  induction s as [|c s IH]; intros acc k; cbn [py_int_from]; [constructor|].
  destruct (decimal_value c) as [d|] eqn:Hd; [|discriminate].
  intros Hk. constructor; [unfold is_decimal; now rewrite Hd | exact (IH _ _ Hk)].
Qed.

(** The conversion succeeds on the texts of at most 4300 decimal digits, and
    on no others. *)
Lemma py_int_ok (s : str) (k : Z) :
  py_int s = Ok k -> s <> [] /\ length s <= 4300 /\ py_int_from 0 s = Ok k.
Proof.
  unfold py_int, max_str_digits. destruct s as [|c s]; [discriminate|].
  destruct (4300 <? N.of_nat (length (c :: s)))%N eqn:E; [discriminate|].
  apply N.ltb_ge in E. intros H. split; [discriminate|]. split; [lia | exact H].
Qed.

Lemma py_int_short (s : str) :
  s <> [] -> length s <= 4300 -> py_int s = py_int_from 0 s.
Proof.
  intros Hne Hlen. unfold py_int, max_str_digits. destruct s as [|c s]; [now elim Hne|].
  replace (4300 <? N.of_nat (length (c :: s)))%N with false; [reflexivity|].
  symmetry. apply N.ltb_ge. lia.
Qed.

Lemma sort_key_bounds (h : str) (k : Z) :
  sort_key h = Ok k ->
  (0 <= k)%Z /\ (length (key_digits h) <= 8 -> (k <= sentinel)%Z).
Proof.
  rewrite sort_key_digits. destruct (key_digits h) as [|d ds] eqn:E.
  - intros [= <-]. unfold sentinel. lia.
  - rewrite <- E. clear E. intros Hk. apply py_int_ok in Hk. destruct Hk as (_ & _ & Hk).
    apply py_int_from_bounds in Hk; [|lia].
    rewrite ljust_length in Hk. split; [lia|]. intros Hlen.
    assert (10 ^ Z.of_nat (Nat.max 6 (length (key_digits h))) <= 10 ^ 8)%Z
      by (apply Z.pow_le_mono_r; lia).
    unfold sentinel. lia.
Qed.

Lemma sort_key_total (h : str) :
  Forall (fun c => is_decimal c = true) (key_digits h) ->
  length (key_digits h) <= 4300 ->
  exists k, sort_key h = Ok k.
Proof.
  intros Hd Hlen. rewrite sort_key_digits. destruct (key_digits h) as [|d ds] eqn:E.
  - now exists sentinel.
  - rewrite <- E in *. clear E. rewrite py_int_short.
    + apply py_int_from_total. unfold ljust.
      apply Forall_app. split; [assumption|].
      apply Forall_forall. intros c Hc. apply repeat_spec in Hc. now subst.
    + unfold ljust. destruct (key_digits h); discriminate.
    + rewrite ljust_length. lia.
Qed.

(** A header has a key exactly when the digits left of it are decimal and
    at most 4300. *)
Lemma sort_key_defined (h : str) :
  (exists k, sort_key h = Ok k)
  <-> Forall (fun c => is_decimal c = true) (key_digits h) /\ length (key_digits h) <= 4300.
Proof.
  split; [|intros [Hd Hlen]; now apply sort_key_total].
  intros [k Hk]. rewrite sort_key_digits in Hk.
  destruct (key_digits h) as [|d ds] eqn:E.
  - split; [constructor | cbn [length]; lia].
  - rewrite <- E in *. clear E. apply py_int_ok in Hk. destruct Hk as (_ & Hlen & Hk).
    rewrite ljust_length in Hlen. split; [|lia].
    apply py_int_from_decimal in Hk. unfold ljust in Hk. apply Forall_app in Hk. apply Hk.
Qed.

(** *** The stable sort *)

Section SortBy.
Context {A : Type} (leb : A -> A -> bool).

Lemma insert_by_perm (x : A) (l : list A) :
  Permutation (x :: l) (insert_by leb x l).
Proof.
  induction l as [|y l IH]; cbn [insert_by]; [reflexivity|].
  destruct (leb x y); [reflexivity|].
  rewrite perm_swap. now apply perm_skip.
Qed.

Lemma sort_by_perm (l : list A) : Permutation l (sort_by leb l).
Proof.
  induction l as [|x l IH]; cbn [sort_by fold_right]; [reflexivity|].
  fold (sort_by leb l). rewrite <- insert_by_perm. now apply perm_skip.
Qed.

Hypothesis leb_total : forall x y, leb x y = false -> leb y x = true.
Hypothesis leb_trans : forall x y z, leb x y = true -> leb y z = true -> leb x z = true.

Lemma insert_by_sorted (x : A) (l : list A) :
  StronglySorted (fun a b => leb a b = true) l ->
  StronglySorted (fun a b => leb a b = true) (insert_by leb x l).
Proof.
  induction 1 as [|y l Hs IH Hy]; cbn [insert_by].
  - constructor; constructor.
  - destruct (leb x y) eqn:Hxy.
    + constructor; [now constructor|]. constructor; [exact Hxy|].
      eapply Forall_impl; [|exact Hy]. intros a Ha. now apply leb_trans with y.
    + constructor; [exact IH|].
      eapply Permutation_Forall; [apply insert_by_perm|].
      constructor; [now apply leb_total | exact Hy].
Qed.

Lemma sort_by_sorted (l : list A) :
  StronglySorted (fun a b => leb a b = true) (sort_by leb l).
Proof.
  induction l as [|x l IH]; cbn [sort_by fold_right]; [constructor|].
  now apply insert_by_sorted.
Qed.

(** Stability: elements that the order does not separate from [x] keep
    their places relative to [x]. *)
Lemma sort_by_stable (p : A -> bool) (l : list A) :
  (forall x y, p x = true -> p y = true -> leb x y = true) ->
  filter p (sort_by leb l) = filter p l.
Proof.
  intros Hp. induction l as [|x l IH]; [reflexivity|].
  cbn [sort_by fold_right]. fold (sort_by leb l). cbn [filter]. rewrite <- IH.
  generalize (sort_by leb l) as t. clear IH. intros t.
  induction t as [|y t IH]; cbn [insert_by]; [reflexivity|].
  destruct (leb x y) eqn:Hxy; [reflexivity|].
  cbn [filter]. rewrite IH.
  destruct (p x) eqn:Hx; [|reflexivity].
  destruct (p y) eqn:Hy; [|reflexivity].
  rewrite (Hp x y Hx Hy) in Hxy. discriminate.
Qed.

End SortBy.

Lemma key_leb_total {A : Type} (x y : Z * A) : key_leb x y = false -> key_leb y x = true.
Proof. unfold key_leb. rewrite Z.leb_gt, Z.leb_le. lia. Qed.

Lemma key_leb_trans {A : Type} (x y z : Z * A) :
  key_leb x y = true -> key_leb y z = true -> key_leb x z = true.
Proof. unfold key_leb. rewrite !Z.leb_le. lia. Qed.

Lemma map_ok_keys {A B : Type} (f : A -> outcome B) (l : list A) :
  forall ks, map_ok f l = Ok ks ->
    map snd (combine ks l) = l /\
    Forall (fun p => f (snd p) = Ok (fst p)) (combine ks l).
Proof.
  induction l as [|a l IH]; intros ks; cbn [map_ok].
  - intros [= <-]. split; [reflexivity | constructor].
  - destruct (f a) as [b|] eqn:Hb; [|discriminate]. cbn [bind].
    destruct (map_ok f l) as [bs|]; [|discriminate]. cbn [bind].
    intros [= <-]. destruct (IH bs eq_refl) as [E F].
    cbn [combine map snd]. rewrite E. split; [reflexivity|].
    constructor; [exact Hb | exact F].
Qed.

Lemma map_ok_total {A B : Type} (f : A -> outcome B) (l : list A) :
  (forall a, In a l -> exists b, f a = Ok b) -> exists bs, map_ok f l = Ok bs.
Proof.
  induction l as [|a l IH]; intros H; cbn [map_ok]; [now exists []|].
  destruct (H a (or_introl eq_refl)) as [b ->].
  destruct IH as [bs ->]; [intros; apply H; now right|].
  now exists (b :: bs).
Qed.

Lemma StronglySorted_map {A B : Type} (R : A -> A -> Prop) (R' : B -> B -> Prop)
    (f : A -> B) (l : list A) :
  (forall a b, In a l -> In b l -> R a b -> R' (f a) (f b)) ->
  StronglySorted R l -> StronglySorted R' (map f l).
Proof.
  intros HR Hs. induction Hs as [|a l Hs IH Ha]; cbn [map]; constructor.
  - apply IH. intros x y Hx Hy. apply HR; now right.
  - apply Forall_map. apply Forall_forall. intros b Hb.
    apply HR; [now left | now right |].
    rewrite Forall_forall in Ha. now apply Ha.
Qed.

(** The columns come out as a permutation in ascending order of the key. *)
Lemma sorted_by_key_spec (cols cols' : list str) :
  sorted_by_key cols = Ok cols' ->
  Permutation cols cols' /\ StronglySorted key_le cols'.
Proof.
  unfold sorted_by_key. destruct (map_ok sort_key cols) as [keys|] eqn:E; [|discriminate].
  cbn [bind]. intros [= <-]. destruct (map_ok_keys _ _ _ E) as [Hsnd Hkeys].
  split.
  - rewrite <- Hsnd at 1. apply Permutation_map, sort_by_perm.
  - apply StronglySorted_map with (R := fun a b => key_leb a b = true);
      [|apply sort_by_sorted; [apply key_leb_total | apply key_leb_trans]].
    intros a b Ha Hb Hab.
    assert (Hin : forall p, In p (sort_by key_leb (combine keys cols)) ->
                            sort_key (snd p) = Ok (fst p)).
    { intros p Hp. rewrite Forall_forall in Hkeys. apply Hkeys.
      eapply Permutation_in; [symmetry; apply sort_by_perm | exact Hp]. }
    exists (fst a), (fst b). repeat split; auto. now apply Z.leb_le.
Qed.

(** ** The mergers on small tables *)

Example vertical_sample :
  tool2_extract_data_vertical (NUM := IntCells)
    (sheet 3 [["項目"; "2024Q1"; "2024Q2"]; ["Sales"; "100"; "200"]; ["A"; "1,000"; "x"];
              ["A"; "5"; "6"]])%string
  = (Some (int_frame [u "2024Q1"; u "2024Q2"]
                     [(u "項目", [(u "2024Q1", None); (u "2024Q2", None)]);
                      (u "Sales", [(u "2024Q1", Some 100%Z); (u "2024Q2", Some 200%Z)]);
                      (u "A", [(u "2024Q1", Some 1000%Z); (u "2024Q2", Some 0%Z)])]),
     [u "項目"; u "Sales"; u "A"]).
Proof. vm_compute. reflexivity. Qed.

Example horizontal_sample :
  tool2_extract_data_horizontal (NUM := IntCells)
    (sheet 3 [["項目"; ""; "2024年3月期"]; ["B"; ""; "7"]; ["A"; ""; "100"]; ["x"; ""; "n/a"];
              ["A"; ""; "50"]])%string
  = Ok (Some (int_frame [u "2024/3"]
                        [(u "A", [(u "2024/3", Some 150%Z)]);
                         (u "B", [(u "2024/3", Some 7%Z)])]),
        [u "A"; u "B"]).
Proof. vm_compute. reflexivity. Qed.

(** ** End-to-end runs *)

Example scenario_one_table :
  process_files_and_tables (NUM := IntCells)
    (sheet 3 [["ファイル名: a.pdf"]; [];
              ["--- ページ 1 / テーブル 1 ---"];
              [""; "2024Q1"; "2024Q2"]; ["Sales"; "100"; "200"]])%string
    Vertical
  = Ok [Build_summary [u "2024Q1"; u "2024Q2"]
          [(u "nan", [(u "2024Q1", 0%Z); (u "2024Q2", 0%Z)]);
           (u "Sales", [(u "2024Q1", 100%Z); (u "2024Q2", 200%Z)])]].
Proof. vm_compute. reflexivity. Qed.

(** ** The master item order *)

Lemma str_eqb_eq (a b : str) : str_eqb a b = true <-> a = b.
Proof.
  revert b. induction a as [|x a IH]; intros [|y b]; cbn [str_eqb];
    try (split; [discriminate | discriminate]); try tauto.
  rewrite andb_true_iff, N.eqb_eq, IH. split.
  - intros [-> ->]. reflexivity.
  - intros [= -> ->]. tauto.
Qed.

Lemma str_eqb_refl (a : str) : str_eqb a a = true.
Proof. now apply str_eqb_eq. Qed.

Lemma str_eqb_neq (a b : str) : str_eqb a b = false <-> a <> b.
Proof.
  rewrite <- str_eqb_eq. destruct (str_eqb a b); split; congruence.
Qed.

Lemma mem_In (x : str) (l : list str) : mem x l = true <-> In x l.
Proof.
  unfold mem. rewrite existsb_exists. split.
  - intros (y & Hy & E). apply str_eqb_eq in E. now subst.
  - intros H. exists x. split; [assumption | apply str_eqb_refl].
Qed.

Lemma mem_not_In (x : str) (l : list str) : mem x l = false <-> ~ In x l.
Proof.
  rewrite <- mem_In. destruct (mem x l); split; congruence.
Qed.

Lemma index_of_some (x : str) (l : list str) (i : nat) :
  index_of x l = Some i -> nth_error l i = Some x.
Proof.
  revert i. induction l as [|y l IH]; intros i; cbn [index_of]; [discriminate|].
  destruct (str_eqb y x) eqn:E.
  - intros [= <-]. apply str_eqb_eq in E. now subst.
  - destruct (index_of x l) as [j|]; [|discriminate].
    intros [= <-]. cbn. now apply IH.
Qed.

Lemma index_of_none (x : str) (l : list str) :
  index_of x l = None <-> ~ In x l.
Proof.
  induction l as [|y l IH]; cbn [index_of In]; [tauto|].
  destruct (str_eqb y x) eqn:E.
  - apply str_eqb_eq in E. split; [discriminate | tauto].
  - apply str_eqb_neq in E. destruct (index_of x l); cbn [option_map].
    + split; [discriminate|]. intros H. exfalso. apply H. right.
      destruct (in_dec (list_eq_dec N.eq_dec) x l) as [Hin|Hnin]; [assumption|].
      apply IH in Hnin. discriminate.
    + split; [|reflexivity]. intros _ [H|H]; [contradiction|]. now apply IH.
Qed.

Lemma list_insert_perm {A : Type} (i : nat) (x : A) (l : list A) :
  Permutation (x :: l) (list_insert i x l).
Proof.
  unfold list_insert. rewrite <- (firstn_skipn i l) at 1.
  apply Permutation_middle.
Qed.

Lemma list_insert_In {A : Type} (i : nat) (x y : A) (l : list A) :
  In y (list_insert i x l) <-> y = x \/ In y l.
Proof.
  split; intros H.
  - apply (Permutation_in _ (Permutation_sym (list_insert_perm i x l))) in H.
    destruct H; [left; congruence | now right].
  - apply (Permutation_in _ (list_insert_perm i x l)).
    destruct H; [left; congruence | now right].
Qed.

(** Inserting right after position [j] puts the new element next to the
    element at [j] ... *)
Lemma list_insert_next_to {A : Type} (j : nat) (p x : A) (l : list A) :
  nth_error l j = Some p -> next_to p x (list_insert (S j) x l).
Proof.
  intros H. apply nth_error_split in H. destruct H as (l1 & l2 & -> & <-).
  exists l1, l2. unfold list_insert.
  rewrite firstn_app, skipn_app.
  rewrite firstn_all2, skipn_all2 by lia.
  replace (S (length l1) - length l1) with 1 by lia.
  cbn [firstn skipn app]. now rewrite <- app_assoc.
Qed.

(** ... and separates no other pair. *)
Lemma list_insert_keeps_next_to {A : Type} (i : nat) (a b x : A) (l : list A) :
  next_to a b l ->
  (i = 0 \/ exists q, nth_error l (i - 1) = Some q /\ q <> a) ->
  next_to a b (list_insert i x l).
Proof.
  intros (l1 & l2 & ->) Hi. unfold list_insert.
  destruct (Nat.le_gt_cases i (length l1)) as [Hle|Hgt].
  - exists (firstn i l1 ++ x :: skipn i l1), l2.
    rewrite firstn_app, skipn_app.
    replace (i - length l1) with 0 by lia. cbn [firstn skipn].
    rewrite app_nil_r, <- !app_assoc. reflexivity.
  - destruct Hi as [->|(q & Hq & Hne)]; [lia|].
    destruct (Nat.eq_dec i (S (length l1))) as [->|Hne'].
    + exfalso. cbn [Nat.sub] in Hq. rewrite Nat.sub_0_r in Hq.
      rewrite nth_error_app2, Nat.sub_diag in Hq by lia.
      cbn in Hq. congruence.
    + exists l1, (firstn (i - length l1 - 2) l2 ++ x :: skipn (i - length l1 - 2) l2).
      rewrite firstn_app, skipn_app.
      rewrite firstn_all2, skipn_all2 by lia.
      destruct (i - length l1) as [|[|n]] eqn:E; [lia | lia |].
      cbn [firstn skipn app Nat.sub]. rewrite Nat.sub_0_r.
      rewrite <- app_assoc. reflexivity.
Qed.

Lemma nth_error_list_insert {A : Type} (i : nat) (x : A) (l : list A) :
  i <= length l -> nth_error (list_insert i x l) i = Some x.
Proof.
  intros Hi. unfold list_insert.
  rewrite nth_error_app2 by (rewrite length_firstn; lia).
  rewrite length_firstn. replace (i - Nat.min i (length l)) with 0 by lia. reflexivity.
Qed.

Lemma anchored_insert_bound (prev : option str) (k : Z) (m : list str) :
  anchored prev k m -> (-1 <= k)%Z /\ Z.to_nat (k + 1) <= length m.
Proof.
  destruct prev as [p|]; cbn [anchored].
  - intros [Hk Hn]. split; [lia|].
    assert (Z.to_nat k < length m) by (apply nth_error_Some; congruence). lia.
  - intros ->. cbn. lia.
Qed.

Lemma anchored_after_insert (prev : option str) (k : Z) (m : list str) (item : str) :
  anchored prev k m ->
  anchored (Some item) (k + 1) (list_insert (Z.to_nat (k + 1)) item m).
Proof.
  intros H. destruct (anchored_insert_bound prev k m H) as [Hk Hlen].
  split; [lia|]. now apply nth_error_list_insert.
Qed.

Lemma next_to_cons {A : Type} (p x a : A) (l : list A) :
  next_to p x (a :: l) -> (p = a /\ exists l2, l = x :: l2) \/ next_to p x l.
Proof.
  intros ([|y l1] & l2 & E); cbn [app] in E.
  - injection E as -> ->. left. split; [reflexivity | now exists l2].
  - injection E as -> ->. right. now exists l1, l2.
Qed.

Lemma next_to_In {A : Type} (p x : A) (l : list A) :
  next_to p x l -> In p l /\ In x l.
Proof.
  intros (l1 & l2 & ->). split; apply in_or_app; right; cbn; tauto.
Qed.

(** A pair that stands together stays together while the items of a frame
    are handled, unless its first member is one of them. *)
Lemma insert_items_keeps (items : list str) :
  forall prev k m a b,
    anchored prev k m ->
    (forall p, prev = Some p -> p <> a) ->
    ~ In a items ->
    next_to a b m ->
    next_to a b (insert_items items k m).
Proof.
  induction items as [|item rest IH]; intros prev k m a b Hanch Hprev Ha Hab;
    cbn [insert_items]; [assumption|].
  assert (Hne : item <> a) by (intros ->; apply Ha; now left).
  assert (Hrest : ~ In a rest) by (intros H; apply Ha; now right).
  destruct (index_of item m) as [i|] eqn:Hi.
  - apply IH with (prev := Some item); auto.
    + split; [lia|]. rewrite Nat2Z.id. now apply index_of_some.
    + intros p [= <-]. assumption.
  - apply IH with (prev := Some item); auto.
    + eapply anchored_after_insert; eassumption.
    + intros p [= <-]. assumption.
    + apply list_insert_keeps_next_to; [assumption|].
      destruct prev as [p|]; cbn [anchored] in Hanch.
      * right. exists p. destruct Hanch as [Hk Hn].
        replace (Z.to_nat (k + 1) - 1) with (Z.to_nat k) by lia.
        split; [assumption | now apply Hprev].
      * left. subst k. reflexivity.
Qed.

(** Every new item ends up immediately after the item that precedes it in
    its frame. *)
Lemma insert_items_adjacent (items : list str) :
  forall prev k m,
    NoDup items ->
    (forall p, prev = Some p -> ~ In p items) ->
    anchored prev k m ->
    forall p x,
      next_to p x (opt_list prev ++ items) -> ~ In x m ->
      next_to p x (insert_items items k m).
Proof.
  induction items as [|item rest IH]; intros prev k m Hnd Hprev Hanch p x Hpx Hx.
  - exfalso. destruct Hpx as (l1 & l2 & E). rewrite app_nil_r in E.
    destruct prev; cbn in E; destruct l1 as [|? [|? ?]]; discriminate.
  - cbn [insert_items]. inversion Hnd as [|? ? Hitem Hnd']; subst.
    assert (Hcases : (prev = Some p /\ x = item) \/ next_to p x (item :: rest)).
    { destruct prev as [p0|]; cbn [opt_list app] in Hpx.
      - apply next_to_cons in Hpx. destruct Hpx as [[-> (l2 & E)]|H]; [|now right].
        injection E as -> _. now left.
      - now right. }
    assert (Hin_rest : next_to p x (item :: rest) -> In x rest).
    { intros H. apply next_to_cons in H. destruct H as [[_ (l2 & ->)]|H].
      - now left.
      - now apply next_to_In in H. }
    destruct (index_of item m) as [i|] eqn:Hi.
    + destruct Hcases as [[-> ->]|Hin].
      * exfalso. apply Hx. apply index_of_some in Hi. eapply nth_error_In; eassumption.
      * apply IH with (prev := Some item); auto.
        -- intros q [= <-]. assumption.
        -- split; [lia|]. rewrite Nat2Z.id. now apply index_of_some.
    + pose proof (anchored_after_insert prev k m item Hanch) as Hanch'.
      destruct Hcases as [[-> ->]|Hin].
      * apply insert_items_keeps with (prev := Some item); auto.
        -- intros q [= <-]. intros ->. apply (Hprev p eq_refl). now left.
        -- intros H. apply (Hprev p eq_refl). now right.
        -- cbn [anchored] in Hanch. destruct Hanch as [Hk Hn].
           replace (Z.to_nat (k + 1)) with (S (Z.to_nat k)) by lia.
           now apply list_insert_next_to.
      * apply IH with (prev := Some item); auto.
        -- intros q [= <-]. assumption.
        -- rewrite list_insert_In. intros [->|H]; [|contradiction].
           apply Hitem. now apply Hin_rest.
Qed.

(** The master order afterwards holds the old labels and the frame's. *)
Lemma insert_items_In (items : list str) :
  forall k m x, In x (insert_items items k m) <-> In x m \/ In x items.
Proof.
  induction items as [|item rest IH]; intros k m x; cbn [insert_items In]; [tauto|].
  destruct (index_of item m) as [i|] eqn:Hi.
  - rewrite IH. apply index_of_some, nth_error_In in Hi.
    split; [tauto|]. intros [H|[<-|H]]; tauto.
  - rewrite IH, list_insert_In. split; [intros [[->|H]|H]|intros [H|[->|H]]]; tauto.
Qed.

Lemma insert_items_NoDup (items : list str) :
  forall k m, NoDup m -> NoDup (insert_items items k m).
Proof.
  induction items as [|item rest IH]; intros k m Hm; cbn [insert_items]; [assumption|].
  destruct (index_of item m) as [i|] eqn:Hi; [now apply IH|].
  apply IH. eapply Permutation_NoDup; [apply list_insert_perm|].
  constructor; [now apply index_of_none | assumption].
Qed.

Lemma update_master_order_In (master items : list str) (x : str) :
  In x (update_master_order master items) <-> In x master \/ In x items.
Proof.
  unfold update_master_order. destruct master as [|y master].
  - cbn [In]. tauto.
  - apply insert_items_In.
Qed.

Lemma update_master_order_NoDup (master items : list str) :
  NoDup master -> NoDup items -> NoDup (update_master_order master items).
Proof.
  unfold update_master_order. destruct master as [|y master]; [tauto|].
  intros H _. now apply insert_items_NoDup.
Qed.

Lemma update_master_order_adjacent (master items : list str) (p x : str) :
  NoDup items -> next_to p x items -> ~ In x master ->
  next_to p x (update_master_order master items).
Proof.
  intros Hnd Hpx Hx. unfold update_master_order. destruct master as [|y master].
  - assumption.
  - apply insert_items_adjacent with (prev := None); auto.
    + discriminate.
    + reflexivity.
Qed.

(** *** No label twice in what a merger returns *)

Lemma unique_from_spec (l : list str) :
  forall seen,
    NoDup (unique_from seen l) /\
    (forall x, In x (unique_from seen l) <-> In x l /\ ~ In x seen).
Proof.
  induction l as [|y l IH]; intros seen; cbn [unique_from].
  - split; [constructor|]. cbn. tauto.
  - destruct (mem y seen) eqn:E.
    + apply mem_In in E. destruct (IH seen) as [Hnd Hin]. split; [assumption|].
      intros x. rewrite Hin. cbn [In]. split; [tauto|].
      intros [[->|H] Hs]; [contradiction | tauto].
    + apply mem_not_In in E. destruct (IH (y :: seen)) as [Hnd Hin]. split.
      * constructor; [|assumption]. rewrite Hin. cbn [In]. tauto.
      * intros x. cbn [In]. rewrite Hin. cbn [In].
        destruct (list_eq_dec N.eq_dec y x) as [->|Hne]; tauto.
Qed.

Lemma unique_NoDup (l : list str) : NoDup (unique l).
Proof. apply unique_from_spec. Qed.

Lemma unique_In (l : list str) (x : str) : In x (unique l) <-> In x l.
Proof. unfold unique. rewrite (proj2 (unique_from_spec l [])). cbn. tauto. Qed.

Section SlotFacts.
Context {NUM : Numeric}.

Lemma get_set_slot (i : nat) (s : slot) (st : list slot) :
  get_slot i (set_slot i s st) = s.
Proof.
  unfold get_slot. revert st. induction i as [|i IH]; intros [|x st]; cbn; auto.
Qed.

Lemma get_slot_nil (i : nat) : get_slot i [] = empty_slot.
Proof. unfold get_slot. destruct i; reflexivity. Qed.

Lemma vertical_items_NoDup (df : dataframe) (r : option frame) (items : list str) :
  tool2_extract_data_vertical df = (r, items) -> NoDup items.
Proof.
  unfold tool2_extract_data_vertical.
  destruct (df_empty df); [intros [= _ <-]; constructor|].
  destruct (year_cells df); intros [= _ <-]; [constructor | apply unique_NoDup].
Qed.

Lemma groupby_sum_labels (l : list (str * num)) :
  map fst (groupby_sum l) = sort_by str_leb (unique (map fst l)).
Proof. unfold groupby_sum. rewrite map_map. cbn [fst]. apply map_id. Qed.

Lemma horizontal_items_NoDup (df : dataframe) (r : option frame) (items : list str) :
  tool2_extract_data_horizontal df = Ok (r, items) -> NoDup items.
Proof.
  unfold tool2_extract_data_horizontal.
  destruct (df_empty df); [intros [= _ <-]; constructor|].
  destruct (Nat.ltb _ 2); [intros [= _ <-]; constructor|].
  destruct (horizontal_header (target_rows df)) as [h start].
  destruct (str_eqb h common_item); [discriminate|].
  intros [= _ <-]. rewrite groupby_sum_labels.
  eapply Permutation_NoDup; [apply sort_by_perm | apply unique_NoDup].
Qed.

(** C3: a slot's master item order is the item list of the first frame
    contributed to it; every later frame updates it by the insertion loop,
    which puts each label that is not yet present immediately after the label
    that precedes it in that frame (so not at the end), keeps every label
    already there and adds nothing else; the item lists the mergers return
    hold no label twice; frames with items A,B,C then A,D,B give A,D,B,C. *)
Theorem C3_master_item_order :
  (forall i f items, ordered_items (get_slot i (contribute i f items [])) = items) /\
  (forall i f items st,
     ordered_items (get_slot i (contribute i f items st))
     = update_master_order (ordered_items (get_slot i st)) items) /\
  (forall master items p x,
     NoDup items -> next_to p x items -> ~ In x master ->
     next_to p x (update_master_order master items)) /\
  (forall master items x,
     In x (update_master_order master items) <-> In x master \/ In x items) /\
  (forall df r items, tool2_extract_data_vertical df = (r, items) -> NoDup items) /\
  (forall df r items, tool2_extract_data_horizontal df = Ok (r, items) -> NoDup items) /\
  update_master_order (update_master_order [] [u "A"; u "B"; u "C"]) [u "A"; u "D"; u "B"]
  = [u "A"; u "D"; u "B"; u "C"].
Proof.
  repeat split.
  - intros i f items. unfold contribute. rewrite get_set_slot, get_slot_nil. reflexivity.
  - intros i f items st. unfold contribute. now rewrite get_set_slot.
  - intros. now apply update_master_order_adjacent.
  - apply update_master_order_In.
  - apply update_master_order_In.
  - apply vertical_items_NoDup.
  - apply horizontal_items_NoDup.
Qed.

End SlotFacts.

Lemma C3_witness :
  next_to (u "A") (u "D")
    (update_master_order [u "A"; u "B"; u "C"] [u "A"; u "D"; u "B"]).
Proof.
  apply (proj1 (proj2 (proj2 (C3_master_item_order (NUM := IntCells))))).
  - repeat constructor; cbn; intuition discriminate.
  - exists [], [u "B"]. reflexivity.
  - cbn. intuition discriminate.
Defined.

(** ** Segmentation *)

Section Indices.
Context {A : Type} (p : A -> bool).

Lemma indices_where_from (l : list A) : indices_where p l = indices_from 0 p l.
Proof. reflexivity. Qed.

Lemma indices_from_cons (s : nat) (x : A) (l : list A) :
  indices_from s p (x :: l) = (if p x then [s] else []) ++ indices_from (S s) p l.
Proof.
  unfold indices_from. cbn [length seq combine filter snd].
  destruct (p x); reflexivity.
Qed.

Lemma indices_from_shift (n : nat) (l : list A) :
  forall s, indices_from (s + n) p l = map (fun i => i + n) (indices_from s p l).
Proof.
  induction l as [|x l IH]; intros s; [reflexivity|].
  rewrite !indices_from_cons, map_app. f_equal.
  - destruct (p x); reflexivity.
  - apply (IH (S s)).
Qed.

Lemma indices_from_skip (pre l : list A) :
  (forall x, In x pre -> p x = false) ->
  forall s, indices_from s p (pre ++ l) = indices_from (s + length pre) p l.
Proof.
  induction pre as [|x pre IH]; intros Hpre s; cbn [app length].
  - now rewrite Nat.add_0_r.
  - rewrite indices_from_cons, (Hpre x (or_introl eq_refl)). cbn [app].
    rewrite IH by (intros; apply Hpre; now right).
    f_equal. lia.
Qed.

Lemma indices_where_skip (pre l : list A) :
  (forall x, In x pre -> p x = false) ->
  indices_where p (pre ++ l) = map (fun i => i + length pre) (indices_where p l).
Proof.
  intros Hpre. rewrite !indices_where_from, indices_from_skip by assumption.
  apply indices_from_shift.
Qed.

Lemma indices_where_none (l : list A) :
  indices_where p l = [] <-> forall x, In x l -> p x = false.
Proof.
  rewrite indices_where_from. generalize 0 as s.
  induction l as [|x l IH]; intros s.
  - split; [intros _ x [] | reflexivity].
  - rewrite indices_from_cons. destruct (p x) eqn:E; cbn [app].
    + split; [discriminate|]. intros H. rewrite H in E by now left. discriminate.
    + rewrite IH. split.
      * intros H y [<-|Hy]; auto.
      * intros H y Hy. apply H. now right.
Qed.

End Indices.

Lemma slice_skip {A : Type} (pre l : list A) (a b : nat) :
  slice (a + length pre) (b + length pre) (pre ++ l) = slice a b l.
Proof.
  unfold slice. rewrite skipn_app, skipn_all2 by lia. cbn [app].
  f_equal; [lia | f_equal; lia].
Qed.

Lemma chunks_from_skip {A : Type} (pre l : list A) (indices : list nat) :
  chunks_from (map (fun i => i + length pre) indices) (pre ++ l) = chunks_from indices l.
Proof.
  induction indices as [|a rest IH]; [reflexivity|].
  cbn [map chunks_from]. rewrite IH. f_equal.
  destruct rest as [|b rest]; cbn [map].
  - rewrite length_app. rewrite (Nat.add_comm (length pre)). apply slice_skip.
  - apply slice_skip.
Qed.

(** The rows before the first file-name marker are in no file chunk. *)
Lemma file_chunks_skip (pre rest : list (list cell)) (m : list cell) :
  (forall r, In r pre -> row_matches pat_file_marker r = false) ->
  row_matches pat_file_marker m = true ->
  file_chunks (pre ++ m :: rest) = file_chunks (m :: rest).
Proof.
  intros Hpre Hm. unfold file_chunks.
  rewrite indices_where_skip by assumption.
  rewrite (indices_where_from _ (m :: rest)), indices_from_cons, Hm. cbn [app map].
  change (0 + length pre :: map (fun i => i + length pre) (indices_from 1 (row_matches pat_file_marker) rest))
    with (map (fun i => i + length pre) (0 :: indices_from 1 (row_matches pat_file_marker) rest)).
  apply chunks_from_skip.
Qed.

Lemma file_chunks_no_marker (rows : list (list cell)) :
  (forall r, In r rows -> row_matches pat_file_marker r = false) ->
  file_chunks rows = [rows].
Proof.
  intros H. unfold file_chunks.
  now rewrite (proj2 (indices_where_none (row_matches pat_file_marker) rows) H).
Qed.

Lemma col0_stringify (row : list cell) : col0 (stringify_col0 row) = col0 row.
Proof. destruct row as [|[s|] row]; reflexivity. Qed.

Lemma row_matches_stringify (r : regex) (row : list cell) :
  row_matches r (stringify_col0 row) = row_matches r row.
Proof. unfold row_matches. now rewrite col0_stringify. Qed.

Section Consolidation.
Context {NUM : Numeric}.

(** C10: when the sheet has a file-name marker, the rows before the first
    one are in no file chunk and the result is the one of the sheet without
    them; a sheet without any file-name marker is a single chunk. *)
Theorem C10_rows_before_first_marker_discarded :
  (forall pre rest m,
     (forall r, In r pre -> row_matches pat_file_marker r = false) ->
     row_matches pat_file_marker m = true ->
     file_chunks (pre ++ m :: rest) = file_chunks (m :: rest)) /\
  (forall w pre rest m mode,
     (forall r, In r pre -> row_matches pat_file_marker r = false) ->
     row_matches pat_file_marker m = true ->
     process_files_and_tables {| ncols := w; rows := pre ++ m :: rest |} mode
     = process_files_and_tables {| ncols := w; rows := m :: rest |} mode) /\
  (forall rows,
     (forall r, In r rows -> row_matches pat_file_marker r = false) ->
     file_chunks rows = [rows]).
Proof.
  split; [exact file_chunks_skip|]. split; [|exact file_chunks_no_marker].
  intros w pre rest m mode Hpre Hm. unfold process_files_and_tables. cbn [ncols rows].
  destruct (Nat.eqb w 0); [reflexivity|].
  rewrite map_app. cbn [map]. rewrite file_chunks_skip; [reflexivity| |].
  - intros r Hr. apply in_map_iff in Hr. destruct Hr as (r0 & <- & Hr0).
    rewrite row_matches_stringify. now apply Hpre.
  - now rewrite row_matches_stringify.
Qed.

End Consolidation.

Lemma C10_witness :
  process_files_and_tables (NUM := IntCells)
    {| ncols := 2;
       rows := [[Some (u "前書き"); Some (u "2024Q1")]; [Some (u "売上"); Some (u "1")]]
               ++ [Some (u "ファイル名: a.pdf")]
               :: [[Some (u "項目"); Some (u "2024Q2")]; [Some (u "売上"); Some (u "5")]] |}
    Vertical
  = process_files_and_tables (NUM := IntCells)
    {| ncols := 2;
       rows := [Some (u "ファイル名: a.pdf")]
               :: [[Some (u "項目"); Some (u "2024Q2")]; [Some (u "売上"); Some (u "5")]] |}
    Vertical.
Proof.
  apply (proj1 (proj2 (C10_rows_before_first_marker_discarded (NUM := IntCells)))).
  - intros r [<-|[<-|[]]]; reflexivity.
  - reflexivity.
Defined.

(** *** What reaches a merger *)

Lemma clean_table_chunk_no_marker (chunk : list (list cell)) (row : list cell) :
  In row (clean_table_chunk chunk) ->
  In row chunk /\ row_matches pat_marker row = false /\ forallb isna row = false.
Proof.
  unfold clean_table_chunk, dropna_all. rewrite !filter_In, !negb_true_iff. tauto.
Qed.

(** After column 0 has been turned into text no row is all missing, so that
    [dropna(how="all")] removes nothing. *)
Lemma stringified_not_all_na (row : list cell) : forallb isna (stringify_col0 row) = false.
Proof. destruct row; reflexivity. Qed.

Lemma dropna_all_stringified (rows : list (list cell)) :
  dropna_all (map stringify_col0 rows) = map stringify_col0 rows.
Proof.
  unfold dropna_all. induction rows as [|r rows IH]; [reflexivity|].
  cbn [map filter]. rewrite stringified_not_all_na. cbn [negb]. now rewrite IH.
Qed.

(** C8 at a sheet with an empty row after a table: the empty row, now
    carrying the text nan in column 0, is part of the chunk handed to the
    merger and becomes an item of the summary. *)
Example C8_blank_row_reaches_merger :
  let df :=
    sheet 2 [["ファイル名: a.pdf"]; [];
             ["--- ページ 1 / テーブル 1 ---"];
             ["項目"; "2024Q1"]; ["売上"; "100"]; []]%string in
  nth 5 (rows df) [Some []] = [] /\
  map clean_table_chunk (flat_map table_chunks (file_chunks (map stringify_col0 (rows df))))
  = [ [[Some (u "nan")]];
      [[Some (u "項目"); Some (u "2024Q1")]; [Some (u "売上"); Some (u "100")];
       [Some (u "nan")]] ] /\
  process_files_and_tables (NUM := IntCells) df Vertical
  = Ok [Build_summary [u "2024Q1"]
          [(u "項目", [(u "2024Q1", 0%Z)]); (u "売上", [(u "2024Q1", 100%Z)]);
           (u "nan", [(u "2024Q1", 0%Z)])]].
Proof. vm_compute. repeat split. Qed.

(** ** The order of texts *)

Lemma str_ltb_irrefl (a : str) : str_ltb a a = false.
Proof.
  induction a as [|x a IH]; [reflexivity|].
  cbn [str_ltb]. rewrite N.ltb_irrefl, N.eqb_refl, IH. reflexivity.
Qed.

Lemma str_ltb_trans (a : str) :
  forall b c, str_ltb a b = true -> str_ltb b c = true -> str_ltb a c = true.
Proof.
  induction a as [|x a IH]; intros [|y b] [|z c]; cbn [str_ltb]; try discriminate; auto.
  rewrite !orb_true_iff, !andb_true_iff, !N.ltb_lt, !N.eqb_eq.
  intros [Hxy|[-> Hab]] [Hyz|[-> Hbc]].
  - left. lia.
  - now left.
  - now left.
  - right. split; [reflexivity|]. now apply IH with b.
Qed.

Lemma str_ltb_total (a : str) :
  forall b, str_ltb a b = false -> str_ltb b a = false -> a = b.
Proof.
  induction a as [|x a IH]; intros [|y b]; cbn [str_ltb]; try discriminate; auto.
  rewrite !orb_false_iff, !andb_false_iff, !N.ltb_ge, !N.eqb_neq.
  intros [Hxy Hab] [Hyx Hba].
  assert (x = y) by lia. subst y.
  f_equal. apply IH; [destruct Hab | destruct Hba]; tauto.
Qed.

Lemma str_leb_total (a b : str) : str_leb a b = false -> str_leb b a = true.
Proof.
  unfold str_leb. rewrite negb_false_iff, negb_true_iff. intros H.
  destruct (str_ltb a b) eqn:E; [|reflexivity].
  pose proof (str_ltb_trans a b a E H) as C. rewrite str_ltb_irrefl in C. discriminate.
Qed.

Lemma str_leb_trans (a b c : str) :
  str_leb a b = true -> str_leb b c = true -> str_leb a c = true.
Proof.
  unfold str_leb. rewrite !negb_true_iff. intros Hba Hcb.
  destruct (str_ltb c a) eqn:Hca; [|reflexivity].
  destruct (str_ltb a b) eqn:Hab.
  - now rewrite (str_ltb_trans c a b Hca Hab) in Hcb.
  - assert (a = b) by now apply str_ltb_total. subst. congruence.
Qed.

Lemma str_leb_neq_ltb (a b : str) : str_leb a b = true -> a <> b -> str_ltb a b = true.
Proof.
  unfold str_leb. rewrite negb_true_iff. intros Hba Hne.
  destruct (str_ltb a b) eqn:E; [reflexivity|].
  exfalso. apply Hne. now apply str_ltb_total.
Qed.

(** Sorting texts that are all different puts them in strictly ascending
    order. *)
Lemma sort_by_str_strict (l : list str) :
  NoDup l -> StronglySorted (fun a b => str_ltb a b = true) (sort_by str_leb l).
Proof.
  intros Hnd.
  assert (Hnd' : NoDup (sort_by str_leb l))
    by (eapply Permutation_NoDup; [apply sort_by_perm | exact Hnd]).
  pose proof (sort_by_sorted str_leb str_leb_total str_leb_trans l) as Hs.
  induction Hs as [|a t Hs IH Ha]; [constructor|].
  inversion Hnd' as [|? ? Hat Hnt]; subst.
  constructor; [now apply IH|].
  rewrite Forall_forall in *. intros b Hb.
  apply str_leb_neq_ltb; [now apply Ha|]. intros ->. contradiction.
Qed.

Section HorizontalOrder.
Context {NUM : Numeric}.

Lemma horizontal_result (df : dataframe) (r : option frame) (items : list str) :
  tool2_extract_data_horizontal df = Ok (r, items) ->
  (r = None /\ items = []) \/
  exists h start,
    horizontal_header (target_rows df) = (h, start) /\
    str_eqb h common_item = false /\
    items = map fst (groupby_sum (horizontal_rows (target_rows df) start)) /\
    r = Some (frame_of_column h
                (map (fun p => (fst p, Some (snd p)))
                     (groupby_sum (horizontal_rows (target_rows df) start)))).
Proof.
  unfold tool2_extract_data_horizontal.
  destruct (df_empty df); [intros [= <- <-]; now left|].
  destruct (Nat.ltb _ 2); [intros [= <- <-]; now left|].
  destruct (horizontal_header (target_rows df)) as [h start].
  destruct (str_eqb h common_item) eqn:E; [discriminate|].
  intros [= <- <-]. right. exists h, start. repeat split. exact E.
Qed.

End HorizontalOrder.

(** C9: the item list that the horizontal merger returns, which is also the
    order of the rows of its frame and the master order of a slot whose first
    frame it is, is in strictly ascending order of the labels' code points;
    it is not the order in which the labels first occur in the chunk. *)
Theorem C9_horizontal_items_sorted :
  (forall (NUM : Numeric) df r items,
     tool2_extract_data_horizontal df = Ok (r, items) ->
     StronglySorted (fun a b => str_ltb a b = true) items /\
     (forall f, r = Some f -> labels_of f = items) /\
     (forall i f, r = Some f ->
        ordered_items (get_slot i (contribute i f items [])) = items)) /\
  (exists df f,
     tool2_extract_data_horizontal (NUM := IntCells) df = Ok (Some f, [u "A"; u "B"]) /\
     map label_of_row (rows df) = [u "B"; u "A"; u "B"]).
Proof.
  split.
  - intros NUM df r items H. destruct (horizontal_result df r items H)
      as [[-> ->]|(h & start & _ & _ & -> & ->)].
    + repeat split; [constructor | discriminate | discriminate].
    + repeat split.
      * rewrite groupby_sum_labels. apply sort_by_str_strict, unique_NoDup.
      * intros f [= <-]. unfold labels_of, frame_of_column. cbn [body].
        rewrite !map_map. reflexivity.
      * intros i f _. unfold contribute. rewrite get_set_slot, get_slot_nil. reflexivity.
  - exists (sheet 2 [["B"; "1"]; ["A"; "2"]; ["B"; "3"]]%string).
    eexists. split; vm_compute; reflexivity.
Qed.

Lemma C9_witness :
  StronglySorted (fun a b => str_ltb a b = true) [u "A"; u "B"; u "その他_temp_0"].
Proof.
  refine (proj1 (proj1 C9_horizontal_items_sorted IntCells
    (sheet 2 [["その他"; "9"]; ["B"; "1"]; ["A"; "2"]; ["B"; "3"]]%string) _ _ _)).
  vm_compute. reflexivity.
Defined.

(** ** Frames *)

Section Lookup.
Context {V : Type}.

Lemma lookup_app (c : str) (a b : list (str * V)) :
  lookup c (a ++ b) = match lookup c a with Some v => Some v | None => lookup c b end.
Proof.
  induction a as [|[k v] a IH]; [reflexivity|]. cbn [app lookup].
  destruct (str_eqb k c); [reflexivity | exact IH].
Qed.

Lemma lookup_none (c : str) (l : list (str * V)) :
  lookup c l = None <-> ~ In c (map fst l).
Proof.
  induction l as [|[k v] l IH]; cbn [lookup map fst In]; [tauto|].
  destruct (str_eqb k c) eqn:E.
  - apply str_eqb_eq in E. split; [discriminate | tauto].
  - apply str_eqb_neq in E. rewrite IH. tauto.
Qed.

Lemma lookup_some_In (c : str) (l : list (str * V)) (v : V) :
  lookup c l = Some v -> In (c, v) l.
Proof.
  induction l as [|[k w] l IH]; cbn [lookup In]; [discriminate|].
  destruct (str_eqb k c) eqn:E.
  - apply str_eqb_eq in E. intros [= ->]. left. now subst.
  - intros H. right. now apply IH.
Qed.

Lemma lookup_In_some (c : str) (l : list (str * V)) :
  In c (map fst l) -> exists v, lookup c l = Some v.
Proof.
  intros H. destruct (lookup c l) as [v|] eqn:E; [now exists v|].
  apply lookup_none in E. contradiction.
Qed.

Lemma lookup_filter (p : str -> bool) (c : str) (l : list (str * V)) :
  lookup c (filter (fun cv => p (fst cv)) l) = if p c then lookup c l else None.
Proof.
  induction l as [|[k v] l IH]; cbn [filter lookup fst]; [now destruct (p c)|].
  destruct (p k) eqn:Hk; cbn [lookup]; destruct (str_eqb k c) eqn:E;
    try (apply str_eqb_eq in E; subst k; rewrite Hk); auto.
  rewrite IH. now rewrite Hk.
Qed.

Lemma lookup_map_row {W : Type} (g : str -> V -> W) (l : str) (b : list (str * V)) :
  lookup l (map (fun row => (fst row, g (fst row) (snd row))) b)
  = option_map (g l) (lookup l b).
Proof.
  induction b as [|[k v] b IH]; [reflexivity|]. cbn [map lookup fst snd].
  destruct (str_eqb k l) eqn:E; [|exact IH].
  apply str_eqb_eq in E. now subst.
Qed.

(** With no key twice, the rows of a key are the one that [lookup] finds. *)
Lemma filter_key_lookup (k : str) (l : list (str * V)) :
  NoDup (map fst l) ->
  filter (fun r => str_eqb (fst r) k) l
  = match lookup k l with Some v => [(k, v)] | None => [] end.
Proof.
  induction l as [|[k' v] l IH]; intros Hnd; [reflexivity|].
  cbn [map fst] in Hnd. inversion Hnd as [|? ? Hk Hnd']; subst.
  cbn [filter lookup fst]. destruct (str_eqb k' k) eqn:E.
  - apply str_eqb_eq in E. subst k'. rewrite (IH Hnd').
    destruct (lookup k l) eqn:L; [|reflexivity].
    exfalso. apply Hk. apply lookup_some_In in L.
    apply in_map_iff. now exists (k, v0).
  - now apply IH.
Qed.

End Lookup.

Lemma lookup_pad {V : Type} (c : str) (cols : list str) (d : V) :
  lookup c (map (fun x => (x, d)) cols) = if mem c cols then Some d else None.
Proof.
  induction cols as [|k cols IH]; [reflexivity|]. cbn [map lookup mem existsb].
  fold (mem c cols). destruct (str_eqb k c) eqn:E.
  - apply str_eqb_eq in E. subst. now rewrite str_eqb_refl.
  - apply str_eqb_neq in E. destruct (str_eqb c k) eqn:E'.
    + apply str_eqb_eq in E'. congruence.
    + exact IH.
Qed.

Section MergeFacts.
Context {NUM : Numeric}.

Lemma merge_left_body (L R : frame) :
  NoDup (labels_of R) ->
  body (merge_left L R)
  = map (fun lrow => (fst lrow, snd lrow ++ joined_cells R (fst lrow))) (body L).
Proof.
  intros Hnd. unfold merge_left. cbn [body].
  generalize (body L) as b. intros b.
  induction b as [|lrow b IH]; [reflexivity|].
  cbn [flat_map]. rewrite IH.
  rewrite (filter_key_lookup (fst lrow) (body R) Hnd).
  rewrite (map_cons (fun lrow => (fst lrow, snd lrow ++ joined_cells R (fst lrow)))).
  assert (J : joined_cells R (fst lrow)
              = match lookup (fst lrow) (body R) with
                | Some cells => cells
                | None => map (fun c => (c, None)) (columns R)
                end) by reflexivity.
  revert J. destruct (lookup (fst lrow) (body R)); intros ->; reflexivity.
Qed.

Lemma merge_left_labels (L R : frame) :
  NoDup (labels_of R) -> labels_of (merge_left L R) = labels_of L.
Proof.
  intros Hnd. unfold labels_of. rewrite merge_left_body by assumption.
  rewrite map_map. reflexivity.
Qed.

Lemma joined_cells_names (R : frame) (l : str) :
  (forall row, In row (body R) -> map fst (snd row) = columns R) ->
  map fst (joined_cells R l) = columns R.
Proof.
  intros Hrows. unfold joined_cells. destruct (lookup l (body R)) as [cells|] eqn:E.
  - apply lookup_some_In in E. exact (Hrows _ E).
  - rewrite map_map. apply map_id.
Qed.

Lemma merge_left_rows (L R : frame) :
  NoDup (labels_of R) ->
  (forall row, In row (body L) -> map fst (snd row) = columns L) ->
  (forall row, In row (body R) -> map fst (snd row) = columns R) ->
  forall row, In row (body (merge_left L R)) ->
    map fst (snd row) = columns (merge_left L R).
Proof.
  intros Hnd HL HR row Hrow. rewrite merge_left_body in Hrow by assumption.
  apply in_map_iff in Hrow. destruct Hrow as (lrow & <- & Hl).
  cbn [snd]. rewrite map_app, (HL _ Hl), joined_cells_names by assumption.
  reflexivity.
Qed.

(** The value of an item after a left merge: the left frame's in its own
    columns, the right frame's in the others. *)
Lemma value_at_merge_left (L R : frame) (l c : str) :
  NoDup (labels_of R) ->
  (forall row, In row (body L) -> map fst (snd row) = columns L) ->
  (forall row, In row (body R) -> map fst (snd row) = columns R) ->
  In l (labels_of L) ->
  value_at (merge_left L R) l c
  = if mem c (columns L) then value_at L l c else value_at R l c.
Proof.
  intros Hnd HL HR Hl. unfold value_at. rewrite merge_left_body by assumption.
  rewrite (lookup_map_row (fun k cells => cells ++ joined_cells R k)).
  destruct (lookup_In_some l (body L) Hl) as [cells Hcells]. rewrite Hcells.
  cbn [option_map]. rewrite lookup_app.
  pose proof (HL _ (lookup_some_In _ _ _ Hcells)) as Hnames. cbn [snd] in Hnames.
  destruct (mem c (columns L)) eqn:Hc.
  - apply mem_In in Hc. rewrite <- Hnames in Hc.
    destruct (lookup_In_some c cells Hc) as [v ->]. reflexivity.
  - apply mem_not_In in Hc. rewrite <- Hnames in Hc.
    apply lookup_none in Hc. rewrite Hc.
    unfold joined_cells. destruct (lookup l (body R)) as [rc|]; [reflexivity|].
    rewrite lookup_pad. now destruct (mem c (columns R)).
Qed.

(** *** Dropping columns *)

Lemma drop_columns_labels (names : list str) (f : frame) :
  labels_of (drop_columns names f) = labels_of f.
Proof. unfold labels_of, drop_columns. cbn [body]. now rewrite map_map. Qed.

Lemma drop_columns_rows (names : list str) (f : frame) :
  (forall row, In row (body f) -> map fst (snd row) = columns f) ->
  forall row, In row (body (drop_columns names f)) ->
    map fst (snd row) = columns (drop_columns names f).
Proof.
  intros Hf row Hrow. unfold drop_columns in *. cbn [body columns] in *.
  apply in_map_iff in Hrow. destruct Hrow as (r & <- & Hr). cbn [snd].
  rewrite <- (Hf _ Hr). generalize (snd r). intros cells.
  induction cells as [|cv cells IH]; [reflexivity|].
  cbn [filter map]. destruct (negb (mem (fst cv) names)); cbn [map]; now rewrite IH.
Qed.

Lemma value_at_drop_columns (names : list str) (f : frame) (l c : str) :
  value_at (drop_columns names f) l c
  = if mem c names then None else value_at f l c.
Proof.
  unfold value_at, drop_columns. cbn [body].
  rewrite (lookup_map_row
             (fun _ cells => filter (fun cv => negb (mem (fst cv) names)) cells)).
  destruct (lookup l (body f)) as [cells|]; cbn [option_map]; [|now destruct (mem c names)].
  rewrite (lookup_filter (fun k => negb (mem k names))).
  now destruct (mem c names).
Qed.

Lemma mem_filter (p : str -> bool) (c : str) (l : list str) :
  mem c (filter p l) = mem c l && p c.
Proof.
  induction l as [|k l IH]; [reflexivity|].
  cbn [filter]. destruct (p k) eqn:Hk; cbn [mem existsb]; fold (mem c (filter p l));
    fold (mem c l); rewrite IH; destruct (str_eqb c k) eqn:E;
    try (apply str_eqb_eq in E; subst k; rewrite Hk); cbn [orb andb];
    try reflexivity.
  now rewrite andb_false_r.
Qed.

(** A column of the incoming frame is dropped exactly when the accumulated
    frame has it already. *)
Lemma mem_cols_to_drop (A f : frame) (c : str) :
  ~ In common_item (columns f) ->
  mem c (cols_to_drop A f) = mem c (columns f) && mem c (columns A).
Proof.
  intros Hci. unfold cols_to_drop.
  rewrite (mem_filter (fun col => mem col (columns A) && negb (str_eqb col common_item))).
  destruct (mem c (columns f)) eqn:Hc; [|reflexivity]. cbn [andb].
  destruct (str_eqb c common_item) eqn:E; [|now rewrite andb_true_r].
  apply str_eqb_eq in E. subst c. apply mem_In in Hc. contradiction.
Qed.

Lemma merge_step_columns (A f : frame) (c : str) :
  ~ In common_item (columns f) ->
  mem c (columns (merge_step A f)) = mem c (columns A) || mem c (columns f).
Proof.
  intros Hci. unfold merge_step, merge_left, drop_columns. cbn [columns].
  unfold mem at 1. rewrite existsb_app. fold (mem c (columns A)).
  fold (mem c (filter (fun c0 => negb (mem c0 (cols_to_drop A f))) (columns f))).
  rewrite (mem_filter (fun c0 => negb (mem c0 (cols_to_drop A f)))).
  rewrite mem_cols_to_drop by assumption.
  destruct (mem c (columns A)), (mem c (columns f)); reflexivity.
Qed.

Lemma merge_step_covered (A f : frame) :
  covered A -> well_formed f -> covered (merge_step A f).
Proof.
  intros [HndA HrowsA] (Hlab & Hcols & Hci & Hrows). split.
  - unfold merge_step, merge_left, drop_columns. cbn [columns].
    apply NoDup_app; [assumption | now apply NoDup_filter |].
    intros c Hc Hc'. apply filter_In in Hc'. destruct Hc' as [Hcf Hd].
    apply negb_true_iff in Hd. rewrite mem_cols_to_drop in Hd by assumption.
    apply mem_In in Hc, Hcf. rewrite Hc, Hcf in Hd. discriminate.
  - unfold merge_step. apply merge_left_rows.
    + now rewrite drop_columns_labels.
    + assumption.
    + now apply drop_columns_rows.
Qed.

Lemma merge_step_labels (A f : frame) :
  well_formed f -> labels_of (merge_step A f) = labels_of A.
Proof.
  intros (Hlab & _). unfold merge_step. apply merge_left_labels.
  now rewrite drop_columns_labels.
Qed.

Lemma value_at_merge_step (A f : frame) (l c : str) :
  covered A -> well_formed f -> In l (labels_of A) ->
  value_at (merge_step A f) l c
  = if mem c (columns A) then value_at A l c else value_at f l c.
Proof.
  intros [HndA HrowsA] (Hlab & Hcols & Hci & Hrows) Hl. unfold merge_step.
  rewrite value_at_merge_left; try assumption.
  - destruct (mem c (columns A)) eqn:Hc; [reflexivity|].
    rewrite value_at_drop_columns, mem_cols_to_drop, Hc, andb_false_r by assumption.
    reflexivity.
  - now rewrite drop_columns_labels.
  - now apply drop_columns_rows.
Qed.

(** The loop over the frames of a slot. *)
Lemma merge_fold (dfs : list frame) :
  forall A,
    covered A -> Forall well_formed dfs ->
    let R := fold_left merge_step dfs A in
    covered R /\ labels_of R = labels_of A /\
    (forall c, mem c (columns R)
               = mem c (columns A) || existsb (fun f => mem c (columns f)) dfs) /\
    (forall l c, In l (labels_of A) ->
       value_at R l c
       = if mem c (columns A) then value_at A l c
         else match first_with c dfs with
              | Some f => value_at f l c
              | None => None
              end).
Proof.
  induction dfs as [|f dfs IH]; intros A HA Hwf; cbn [fold_left].
  - repeat split; try apply HA.
    + intros c. cbn. now rewrite orb_false_r.
    + intros l c Hl. cbn [first_with find]. destruct (mem c (columns A)) eqn:Hc; [reflexivity|].
      unfold value_at. destruct (lookup l (body A)) as [cells|] eqn:E; [|reflexivity].
      apply lookup_some_In in E. destruct HA as [_ HA]. specialize (HA _ E). cbn [snd] in HA.
      apply mem_not_In in Hc. rewrite <- HA in Hc. apply lookup_none in Hc. now rewrite Hc.
  - inversion Hwf as [|? ? Hf Hdfs]; subst.
    pose proof (merge_step_covered A f HA Hf) as HA'.
    destruct (IH (merge_step A f) HA' Hdfs) as (Hcov & Hlab & Hcols & Hval).
    pose proof Hf as (_ & _ & Hci & _).
    repeat split; try apply Hcov.
    + rewrite Hlab. now apply merge_step_labels.
    + intros c. rewrite Hcols, merge_step_columns by assumption. cbn [existsb].
      now rewrite orb_assoc.
    + intros l c Hl. rewrite Hval by (rewrite merge_step_labels; assumption).
      rewrite merge_step_columns by assumption.
      rewrite value_at_merge_step by assumption.
      cbn [first_with find]. fold (first_with c dfs).
      destruct (mem c (columns A)); cbn [orb]; [reflexivity|].
      destruct (mem c (columns f)); reflexivity.
Qed.

End MergeFacts.

Section Aggregation.
Context {NUM : Numeric}.

Lemma value_at_fillna_zero (R : frame) (l c : str) :
  covered R -> In l (labels_of R) -> In c (columns R) ->
  value_at (fillna_zero R) l c = Some (fill (value_at R l c)).
Proof.
  intros [_ Hrows] Hl Hc. unfold value_at, fillna_zero. cbn [body].
  rewrite (lookup_map_row
             (fun _ cells => map (fun cv => (fst cv, Some (fill (snd cv)))) cells)).
  destruct (lookup_In_some l (body R) Hl) as [cells Hcells]. rewrite Hcells.
  cbn [option_map].
  rewrite (lookup_map_row (fun _ v => Some (fill v))).
  pose proof (Hrows _ (lookup_some_In _ _ _ Hcells)) as Hn. cbn [snd] in Hn.
  rewrite <- Hn in Hc. destruct (lookup_In_some c cells Hc) as [v ->]. reflexivity.
Qed.

Lemma covered_frame_of_items (items : list str) : covered (frame_of_items items).
Proof.
  split; [constructor|]. intros row Hrow. unfold frame_of_items in Hrow. cbn [body] in Hrow.
  apply in_map_iff in Hrow. destruct Hrow as (l & <- & _). reflexivity.
Qed.

Lemma labels_frame_of_items (items : list str) : labels_of (frame_of_items items) = items.
Proof. unfold labels_of, frame_of_items. cbn [body]. rewrite map_map. apply map_id. Qed.

End Aggregation.

(** ** Duplicate labels: keep the first, or sum *)

Section KeepFirst.
Context {V : Type}.

Lemma drop_duplicates_from_spec (l : list (str * V)) :
  forall seen,
    NoDup (map fst (drop_duplicates_from seen l)) /\
    (forall k, In k (map fst (drop_duplicates_from seen l)) -> ~ In k seen) /\
    (forall k, lookup k (drop_duplicates_from seen l)
               = if mem k seen then None else lookup k l).
Proof.
  induction l as [|[k0 v0] l IH]; intros seen; cbn [drop_duplicates_from fst].
  - repeat split; [constructor | intros k [] |]. intros k. now destruct (mem k seen).
  - destruct (mem k0 seen) eqn:E.
    + destruct (IH seen) as (Hnd & Hseen & Hlook). repeat split; auto.
      intros k. rewrite Hlook. cbn [lookup].
      destruct (mem k seen) eqn:Ek; [reflexivity|].
      destruct (str_eqb k0 k) eqn:E0; [|reflexivity].
      apply str_eqb_eq in E0. congruence.
    + destruct (IH (k0 :: seen)) as (Hnd & Hseen & Hlook).
      apply mem_not_In in E. repeat split.
      * cbn [map fst]. constructor; [|assumption].
        intros H. apply Hseen in H. apply H. now left.
      * cbn [map fst]. intros k [<-|H]; [assumption|].
        apply Hseen in H. intros H'. apply H. now right.
      * intros k. cbn [lookup]. rewrite Hlook. cbn [mem existsb]. fold (mem k seen).
        destruct (str_eqb k0 k) eqn:E0.
        -- apply str_eqb_eq in E0. subst k0.
           apply mem_not_In in E. now rewrite E.
        -- destruct (str_eqb k k0) eqn:E1.
           ++ apply str_eqb_eq in E1. apply str_eqb_neq in E0. congruence.
           ++ reflexivity.
Qed.

(** Keep-first: no label is left twice, and every label keeps the value of
    its first row. *)
Lemma drop_duplicates_keep_first (l : list (str * V)) :
  NoDup (map fst (drop_duplicates l)) /\
  forall k, lookup k (drop_duplicates l) = lookup k l.
Proof.
  destruct (drop_duplicates_from_spec l []) as (Hnd & _ & Hlook).
  split; [exact Hnd | exact Hlook].
Qed.

End KeepFirst.

Lemma str_eqb_sym (a b : str) : str_eqb a b = str_eqb b a.
Proof.
  destruct (str_eqb a b) eqn:E.
  - apply str_eqb_eq in E. subst. now rewrite str_eqb_refl.
  - destruct (str_eqb b a) eqn:E'; [|reflexivity].
    apply str_eqb_eq in E'. subst. now rewrite str_eqb_refl in E.
Qed.

Lemma mem_app (c : str) (a b : list str) : mem c (a ++ b) = mem c a || mem c b.
Proof. unfold mem. apply existsb_app. Qed.

Section VerticalFacts.
Context {NUM : Numeric}.

Lemma frame_of_column_labels (h : str) (l : list (str * option num)) :
  labels_of (frame_of_column h l) = map fst l.
Proof. unfold labels_of, frame_of_column. cbn [body]. now rewrite map_map. Qed.

Lemma frame_of_column_rows (h : str) (l : list (str * option num)) :
  forall row, In row (body (frame_of_column h l)) ->
    map fst (snd row) = columns (frame_of_column h l).
Proof.
  intros row Hrow. unfold frame_of_column in *. cbn [body columns] in *.
  apply in_map_iff in Hrow. destruct Hrow as (p & <- & _). reflexivity.
Qed.

Lemma value_at_frame_of_column (h : str) (rows : list (str * option num)) (l c : str) :
  value_at (frame_of_column h rows) l c
  = if str_eqb h c then first_value l rows else None.
Proof.
  unfold value_at, frame_of_column, first_value. cbn [body].
  rewrite (lookup_map_row (fun _ v => [(h, v)])).
  destruct (lookup l rows) as [v|]; cbn [option_map lookup].
  - now destruct (str_eqb h c).
  - now destruct (str_eqb h c).
Qed.

Lemma first_cell_cons (h : str) (cell : nat * nat * str) (cells : list (nat * nat * str)) :
  first_cell h (cell :: cells)
  = if str_eqb (snd cell) h then Some cell else first_cell h cells.
Proof. reflexivity. Qed.

(** The loop over the header cells: every period is taken from its first
    header cell, and an item's value for it is the value of the item's first
    row in that cell's slice. *)
Lemma vertical_loop_spec (df : dataframe) (cells : list (nat * nat * str)) :
  forall processed F,
    covered F ->
    (forall c, mem c processed = mem c (columns F)) ->
    let R := vertical_loop df cells processed F in
    covered R /\ labels_of R = labels_of F /\
    (forall c, mem c (columns R)
               = mem c (columns F) || existsb (fun cell => str_eqb (snd cell) c) cells) /\
    (forall l h, In l (labels_of F) ->
       value_at R l h
       = if mem h (columns F) then value_at F l h
         else match first_cell h cells with
              | Some (r, c, _) => first_value l (vertical_slice df r c)
              | None => None
              end).
Proof.
  induction cells as [|[[r c] h0] cells IH]; intros processed F HF Hproc; cbn [vertical_loop].
  - repeat split; try apply HF.
    + intros c. cbn. now rewrite orb_false_r.
    + intros l h Hl. cbn [first_cell find]. destruct (mem h (columns F)) eqn:Hc; [reflexivity|].
      unfold value_at. destruct (lookup l (body F)) as [cs|] eqn:E; [|reflexivity].
      apply lookup_some_In in E. destruct HF as [_ HF]. specialize (HF _ E). cbn [snd] in HF.
      apply mem_not_In in Hc. rewrite <- HF in Hc. apply lookup_none in Hc. now rewrite Hc.
  - destruct (mem h0 processed) eqn:Hh0.
    + destruct (IH processed F HF Hproc) as (Hcov & Hlab & Hcols & Hval).
      repeat split; try apply Hcov; try assumption.
      * intros x. rewrite Hcols. cbn [existsb snd].
        destruct (str_eqb h0 x) eqn:E; [|reflexivity].
        apply str_eqb_eq in E. subst x. rewrite <- Hproc, Hh0. reflexivity.
      * intros l h Hl. rewrite (Hval l h Hl). rewrite first_cell_cons. cbn [snd].
        destruct (mem h (columns F)) eqn:Hc; [reflexivity|].
        destruct (str_eqb h0 h) eqn:E; [|reflexivity].
        apply str_eqb_eq in E. subst h. rewrite <- Hproc, Hh0 in Hc. discriminate.
    + set (S := frame_of_column h0 (vertical_slice df r c)).
      assert (HndS : NoDup (labels_of S)).
      { unfold S. rewrite frame_of_column_labels.
        apply (drop_duplicates_keep_first (vertical_slice_rows df r c)). }
      assert (HF' : covered (merge_left F S)).
      { split.
        - cbn [merge_left columns S frame_of_column].
          apply NoDup_app; [apply HF | repeat constructor; intros [] |].
          intros x Hx [<-|[]]. apply mem_In in Hx. rewrite <- Hproc, Hh0 in Hx. discriminate.
        - apply merge_left_rows; [assumption | apply HF | apply frame_of_column_rows]. }
      assert (Hproc' : forall x, mem x (h0 :: processed) = mem x (columns (merge_left F S))).
      { intros x. cbn [merge_left columns S frame_of_column].
        rewrite mem_app. cbn [mem existsb]. fold (mem x processed).
        rewrite Hproc, orb_false_r. apply orb_comm. }
      destruct (IH (h0 :: processed) (merge_left F S) HF' Hproc') as (Hcov & Hlab & Hcols & Hval).
      assert (HlabF : labels_of (merge_left F S) = labels_of F)
        by now apply merge_left_labels.
      repeat split; try apply Hcov.
      * now rewrite Hlab.
      * intros x. rewrite Hcols. rewrite <- Hproc'. cbn [mem existsb snd].
        fold (mem x processed). rewrite Hproc.
        rewrite (str_eqb_sym x h0).
        destruct (str_eqb h0 x), (mem x (columns F)); reflexivity.
      * intros l h Hl. rewrite Hval by (rewrite HlabF; assumption).
        rewrite <- Hproc'. cbn [mem existsb]. fold (mem h processed). rewrite Hproc.
        rewrite value_at_merge_left;
          [| assumption | apply HF | apply frame_of_column_rows | assumption].
        unfold S at 1. rewrite value_at_frame_of_column.
        rewrite first_cell_cons. cbn [snd]. rewrite (str_eqb_sym h h0).
        destruct (mem h (columns F)); [now rewrite orb_true_r|].
        rewrite orb_false_r. destruct (str_eqb h0 h); reflexivity.
Qed.

End VerticalFacts.

Lemma lookup_keyed {V : Type} (g : str -> V) (k : str) (keys : list str) :
  lookup k (map (fun key => (key, g key)) keys) = if mem k keys then Some (g k) else None.
Proof.
  induction keys as [|x keys IH]; [reflexivity|]. cbn [map lookup mem existsb].
  fold (mem k keys). rewrite (str_eqb_sym k x). destruct (str_eqb x k) eqn:E.
  - apply str_eqb_eq in E. now subst.
  - exact IH.
Qed.

Section HorizontalFacts.
Context {NUM : Numeric}.

Lemma groupby_sum_NoDup (l : list (str * num)) : NoDup (map fst (groupby_sum l)).
Proof.
  rewrite groupby_sum_labels.
  eapply Permutation_NoDup; [apply sort_by_perm | apply unique_NoDup].
Qed.

Lemma groupby_sum_In (l : list (str * num)) (k : str) :
  In k (map fst (groupby_sum l)) <-> In k (map fst l).
Proof.
  rewrite groupby_sum_labels, <- (unique_In (map fst l) k).
  split; apply Permutation_in.
  - symmetry. apply sort_by_perm.
  - apply sort_by_perm.
Qed.

(** Group and sum: one row per label, holding the sum of the values of all
    the rows of that label, in row order. *)
Lemma groupby_sum_lookup (l : list (str * num)) (k : str) :
  In k (map fst l) -> lookup k (groupby_sum l) = Some (sum (group_values l k)).
Proof.
  intros Hk. unfold groupby_sum.
  rewrite (lookup_keyed (fun key => sum (group_values l key))).
  assert (H : mem k (sort_by str_leb (unique (map fst l))) = true).
  { apply mem_In. rewrite <- groupby_sum_labels. now apply groupby_sum_In. }
  now rewrite H.
Qed.

End HorizontalFacts.

(** C2: in one chunk, the horizontal merger returns for every label a single
    row whose value is the sum of the values of all the cleaned rows of that
    label (of those rows only; when they are integers in the exact range, the
    sum of the integers), and the vertical merger returns for every label and
    period the value of the label's first row below the period's first header
    cell, ignoring the later rows of that label; rows A=100 and A=50 give
    A=150 horizontally and A=100 vertically, also beside a row B=7. *)
Theorem C2_sum_versus_keep_first :
  (forall (NUM : Numeric) df f items,
     tool2_extract_data_horizontal df = Ok (Some f, items) ->
     exists h start,
       horizontal_header (target_rows df) = (h, start) /\
       columns f = [h] /\ labels_of f = items /\ NoDup items /\
       forall l,
         In l (map fst (horizontal_rows (target_rows df) start)) ->
         In l items /\
         value_at f l h
         = Some (sum (map snd (filter (fun p => str_eqb (fst p) l)
                                      (horizontal_rows (target_rows df) start)))) /\
         forall zs,
           map snd (filter (fun p => str_eqb (fst p) l)
                           (horizontal_rows (target_rows df) start)) = map of_Z zs ->
           exact_range zs ->
           value_at f l h = Some (of_Z (fold_right Z.add 0%Z zs))) /\
  (forall (NUM : Numeric) df f items,
     tool2_extract_data_vertical df = (Some f, items) ->
     labels_of f = items /\ NoDup items /\
     forall l h r c x,
       In l items -> first_cell h (year_cells df) = Some (r, c, x) ->
       value_at f l h = first_value l (vertical_slice_rows df r c)) /\
  tool2_extract_data_horizontal (NUM := IntCells)
    (sheet 2 [["項目"; "2024Q1"]; ["A"; "100"]; ["A"; "50"]]%string)
  = Ok (Some (int_frame [u "2024Q1"] [(u "A", [(u "2024Q1", Some 150%Z)])]), [u "A"]) /\
  tool2_extract_data_vertical (NUM := IntCells)
    (sheet 2 [["項目"; "2024Q1"]; ["A"; "100"]; ["A"; "50"]]%string)
  = (Some (int_frame [u "2024Q1"]
             [(u "項目", [(u "2024Q1", None)]); (u "A", [(u "2024Q1", Some 100%Z)])]),
     [u "項目"; u "A"]) /\
  tool2_extract_data_horizontal (NUM := IntCells)
    (sheet 2 [["項目"; "2024Q1"]; ["B"; "7"]; ["A"; "100"]; ["A"; "50"]]%string)
  = Ok (Some (int_frame [u "2024Q1"]
                [(u "A", [(u "2024Q1", Some 150%Z)]); (u "B", [(u "2024Q1", Some 7%Z)])]),
        [u "A"; u "B"]) /\
  tool2_extract_data_vertical (NUM := IntCells)
    (sheet 2 [["項目"; "2024Q1"]; ["B"; "7"]; ["A"; "100"]; ["A"; "50"]]%string)
  = (Some (int_frame [u "2024Q1"]
             [(u "項目", [(u "2024Q1", None)]); (u "B", [(u "2024Q1", Some 7%Z)]);
              (u "A", [(u "2024Q1", Some 100%Z)])]),
     [u "項目"; u "B"; u "A"]).
Proof.
  split; [|split; [|repeat split; vm_compute; reflexivity]].
  - intros NUM df f items H.
    destruct (horizontal_result df (Some f) items H)
      as [[Hf _]|(h & start & Hh & _ & -> & Hf)]; [discriminate|].
    injection Hf as ->. exists h, start.
    set (rows := horizontal_rows (target_rows df) start).
    split; [assumption|]. split; [reflexivity|].
    split; [rewrite frame_of_column_labels, map_map; reflexivity|].
    split; [apply groupby_sum_NoDup|].
    intros l Hl.
    assert (Hv : value_at (frame_of_column h
                   (map (fun p => (fst p, Some (snd p))) (groupby_sum rows))) l h
                 = Some (sum (map snd (filter (fun p => str_eqb (fst p) l) rows)))).
    { rewrite value_at_frame_of_column, str_eqb_refl. unfold first_value.
      rewrite (lookup_map_row (fun _ v => Some v)).
      rewrite groupby_sum_lookup by assumption. reflexivity. }
    split; [now apply groupby_sum_In|]. split; [exact Hv|].
    intros zs Hzs Hr. rewrite Hv, Hzs. f_equal. now apply sum_exact.
  - intros NUM df f items H. pose proof (vertical_items_NoDup df _ _ H) as Hnd.
    unfold tool2_extract_data_vertical in H.
    destruct (df_empty df); [discriminate|].
    destruct (year_cells df) as [|cell cells] eqn:Hcells; [discriminate|].
    injection H as <- <-.
    destruct (vertical_loop_spec df (cell :: cells) [] (frame_of_items (all_items_ordered df))
                (covered_frame_of_items _) (fun c => eq_refl))
      as (_ & Hlab & _ & Hval).
    rewrite labels_frame_of_items in *.
    repeat split; try assumption.
    intros l h r c x Hl Hfirst.
    etransitivity; [exact (Hval l h Hl)|]. cbn [frame_of_items columns mem existsb].
    rewrite Hfirst. unfold first_value, vertical_slice.
    now rewrite (proj2 (drop_duplicates_keep_first (vertical_slice_rows df r c))).
Qed.

Lemma C2_witness :
  let df := sheet 2 [["項目"; "2024Q1"]; ["A"; "100"]; ["B"; "7"]; ["A"; "50"]]%string in
  (exists f,
     value_at (NUM := IntCells) f (u "A") (u "2024Q1")
     = first_value (u "A") (vertical_slice_rows df 0 1) /\
     first_value (NUM := IntCells) (u "A") (vertical_slice_rows df 0 1) = Some 100%Z) /\
  (exists f items,
     tool2_extract_data_horizontal (NUM := IntCells) df = Ok (Some f, items) /\
     value_at f (u "A") (u "2024Q1") = Some 150%Z /\
     value_at f (u "B") (u "2024Q1") = Some 7%Z).
Proof.
  intros df. split.
  - eexists. split; [|vm_compute; reflexivity].
    refine (proj2 (proj2 (proj1 (proj2 C2_sum_versus_keep_first) IntCells df _ _ _))
              (u "A") (u "2024Q1") 0 1 (u "2024Q1") _ _).
    + vm_compute. reflexivity.
    + vm_compute. tauto.
    + vm_compute. reflexivity.
  - assert (H : tool2_extract_data_horizontal (NUM := IntCells) df
                = Ok (Some (int_frame [u "2024Q1"]
                              [(u "A", [(u "2024Q1", Some 150%Z)]);
                               (u "B", [(u "2024Q1", Some 7%Z)])]), [u "A"; u "B"]))
      by (vm_compute; reflexivity).
    do 2 eexists. split; [exact H|].
    destruct (proj1 C2_sum_versus_keep_first IntCells df _ _ H)
      as (h & start & Hh & _ & _ & _ & Hv).
    assert (E : (h, start) = (u "2024Q1", 1)) by (rewrite <- Hh; vm_compute; reflexivity).
    injection E as -> ->. split.
    + refine (proj2 (proj2 (Hv (u "A") _)) [100; 50]%Z _ _).
      * vm_compute. tauto.
      * vm_compute. reflexivity.
      * vm_compute. reflexivity.
    + refine (proj2 (proj2 (Hv (u "B") _)) [7]%Z _ _).
      * vm_compute. tauto.
      * vm_compute. reflexivity.
      * vm_compute. reflexivity.
Defined.

(** ** The ordinal suffix of その他 *)

Lemma ascii_digit_of (m : N) : (m < 10)%N -> ascii_digit (48 + m).
Proof. unfold ascii_digit. lia. Qed.

Lemma digits_of_fuel_spec (fuel : nat) :
  forall n acc,
    (n < 10 ^ N.of_nat (S fuel))%N ->
    exists d,
      digits_of_fuel (S fuel) n acc = d ++ acc /\ d <> [] /\ Forall ascii_digit d /\
      forall a, read_digits d a = (a * 10 ^ N.of_nat (length d) + n)%N.
Proof.
  induction fuel as [|fuel IH]; intros n acc Hn.
  - change (N.of_nat 1) with 1%N in Hn. rewrite N.pow_1_r in Hn. cbn [digits_of_fuel].
    assert (Hlt : (n <? 10)%N = true) by (apply N.ltb_lt; lia). rewrite Hlt.
    exists [(48 + n mod 10)%N]. repeat split.
    + discriminate.
    + constructor; [apply ascii_digit_of, N.mod_lt; lia | constructor].
    + intros a. unfold read_digits. cbn [fold_left length].
      change (N.of_nat 1) with 1%N. rewrite N.pow_1_r, N.mod_small by lia. lia.
  - remember (S fuel) as f. cbn [digits_of_fuel].
    assert (Hmod : (n mod 10 < 10)%N) by (apply N.mod_lt; lia).
    destruct (N.ltb_spec n 10) as [Hlt|Hge].
    + exists [(48 + n mod 10)%N]. repeat split.
      * discriminate.
      * constructor; [apply ascii_digit_of, N.mod_lt; lia | constructor].
      * intros a. unfold read_digits. cbn [fold_left length].
        change (N.of_nat 1) with 1%N. rewrite N.pow_1_r, N.mod_small by lia. lia.
    + assert (Hdiv : (n / 10 < 10 ^ N.of_nat f)%N).
      { apply N.Div0.div_lt_upper_bound.
        rewrite Nat2N.inj_succ, N.pow_succ_r' in Hn. lia. }
      destruct (IH (n / 10)%N ((48 + n mod 10)%N :: acc) Hdiv) as (d & -> & Hne & Hd & Hval).
      exists (d ++ [(48 + n mod 10)%N]). repeat split.
      * now rewrite <- app_assoc.
      * destruct d; discriminate.
      * apply Forall_app. split; [assumption|].
        constructor; [apply ascii_digit_of, N.mod_lt; lia | constructor].
      * intros a. unfold read_digits in *. rewrite fold_left_app, Hval. cbn [fold_left].
        rewrite length_app. cbn [length]. rewrite Nat.add_1_r, Nat2N.inj_succ, N.pow_succ_r'.
        assert (E : n = (10 * (n / 10) + n mod 10)%N) by (apply N.div_mod; discriminate).
        rewrite E at 3.
        replace (48 + n mod 10 - 48)%N with (n mod 10)%N by (clear; generalize (n mod 10)%N; intros; lia).
        ring.
Qed.

Lemma of_nat_lt_pow (k : nat) : (N.of_nat k < 10 ^ N.of_nat (S k))%N.
Proof.
  induction k as [|k IH]; [cbn; lia|].
  rewrite (Nat2N.inj_succ (S k)), N.pow_succ_r', Nat2N.inj_succ in *.
  assert (0 < 10 ^ N.succ (N.of_nat k))%N by (apply N.neq_0_lt_0, N.pow_nonzero; lia).
  lia.
Qed.

Lemma str_of_nat_spec (k : nat) :
  str_of_nat k <> [] /\ Forall ascii_digit (str_of_nat k) /\
  read_digits (str_of_nat k) 0 = N.of_nat k.
Proof.
  unfold str_of_nat.
  destruct (digits_of_fuel_spec k (N.of_nat k) [] (of_nat_lt_pow k))
    as (d & -> & Hne & Hd & Hval).
  rewrite app_nil_r. split; [assumption|]. split; [assumption|]. rewrite Hval. lia.
Qed.

Lemma str_of_nat_inj (j k : nat) : str_of_nat j = str_of_nat k -> j = k.
Proof.
  intros H. apply Nat2N.inj.
  rewrite <- (proj2 (proj2 (str_of_nat_spec j))), <- (proj2 (proj2 (str_of_nat_spec k))).
  now rewrite H.
Qed.

Lemma sonota_temp_inj (j k : nat) : sonota_temp j = sonota_temp k -> j = k.
Proof.
  unfold sonota_temp. intros H. apply app_inv_head in H. apply app_inv_head in H.
  now apply str_of_nat_inj.
Qed.

Lemma ascii_digit_decimal (c : N) : ascii_digit c -> is_decimal c = true.
Proof.
  unfold ascii_digit. intros Hc. unfold is_decimal, decimal_value.
  cbv [find decimal_zeros].
  replace ((48 <=? c)%N && (c <? 48 + 10)%N) with true; [reflexivity|].
  symmetry. apply andb_true_iff. split; [apply N.leb_le | apply N.ltb_lt]; lia.
Qed.

Lemma star_all (p : N -> bool) (ds : str) :
  forall pos caps (k : cont) res,
    Forall (fun c => p c = true) ds ->
    k (pos + length ds) [] caps = Some res ->
    star p pos ds caps k = Some res.
Proof.
  induction ds as [|d ds IH]; intros pos caps k res Hds Hk; cbn [star].
  - cbn [length] in Hk. now rewrite Nat.add_0_r in Hk.
  - inversion Hds as [|? ? Hd Hds']; subst. rewrite Hd.
    rewrite (IH (S pos) caps k res Hds'); [reflexivity|].
    cbn [length] in Hk. now rewrite Nat.add_succ_r in Hk.
Qed.

Lemma pat_temp_suffix_eq :
  pat_temp_suffix =
  Seq (Seq (Chr 95%N) (Seq (Chr 116%N) (Seq (Chr 101%N) (Seq (Chr 109%N)
        (Seq (Chr 112%N) (Seq (Chr 95%N) Eps))))))
      (Seq digit (Seq (Star is_decimal) (Seq Eol Eps))).
Proof. reflexivity. Qed.

Lemma temp_suffix_match (pos : nat) (d : N) (ds : str) :
  Forall (fun c => is_decimal c = true) (d :: ds) ->
  rmatch (Grp 0 pat_temp_suffix) pos (temp_text (d :: ds)) [] (fun _ _ c => Some c)
  = Some [(0, temp_text (d :: ds))].
Proof.
  intros Hds. inversion Hds as [|? ? Hd Hds']; subst.
  rewrite pat_temp_suffix_eq. unfold temp_text. cbn [app].
  cbn -[Nat.sub firstn star]. rewrite Hd.
  apply star_all; [assumption|].
  cbn -[Nat.sub firstn].
  rewrite firstn_all2; [reflexivity|]. cbn [length]. lia.
Qed.

Lemma temp_suffix_mismatch (pos : nat) (c : N) (s : str) :
  c <> 95%N ->
  rmatch (Grp 0 pat_temp_suffix) pos (c :: s) [] (fun _ _ caps => Some caps) = None.
Proof.
  intros Hc. rewrite pat_temp_suffix_eq. cbn -[Nat.sub firstn star].
  apply N.eqb_neq in Hc. now rewrite Hc.
Qed.

(** The suffix of every ordinal is stripped again. *)
Lemma strip_sonota_temp (k : nat) : strip_temp_suffix (sonota_temp k) = sonota.
Proof.
  destruct (str_of_nat_spec k) as (Hne & Hd & _).
  unfold sonota_temp. change (u "_temp_") with [95; 116; 101; 109; 112; 95]%N.
  destruct (str_of_nat k) as [|d ds]; [congruence|].
  assert (Hdec : Forall (fun c => is_decimal c = true) (d :: ds)).
  { eapply Forall_impl; [|exact Hd]. apply ascii_digit_decimal. }
  fold (temp_text (d :: ds)).
  unfold strip_temp_suffix, sub_at_end, search, sonota.
  cbn [app search_from].
  rewrite !temp_suffix_mismatch by discriminate.
  rewrite (search_from_hit _ _ _ _ (temp_suffix_match 3 d ds Hdec)).
  cbn [m_start m_groups group find fst snd Nat.eqb firstn app].
  rewrite skipn_all2; [reflexivity|]. cbn [length]. lia.
Qed.

Lemma count_label_cons (l x : str) (labels : list str) :
  count_label l (x :: labels)
  = if str_eqb x l then S (count_label l labels) else count_label l labels.
Proof.
  unfold count_label. cbn [filter]. rewrite (str_eqb_sym l x).
  now destruct (str_eqb x l).
Qed.

(** The k-th row labelled その他 becomes その他_temp_k. *)
Lemma rename_sonota_from_In (labels : list str) :
  forall k0 j,
    j < count_label sonota labels ->
    In (sonota_temp (k0 + j)) (rename_sonota_from k0 labels).
Proof.
  induction labels as [|l labels IH]; intros k0 j Hj.
  - cbn in Hj. lia.
  - rewrite count_label_cons in Hj. cbn [rename_sonota_from].
    destruct (str_eqb l sonota).
    + destruct j as [|j].
      * left. now rewrite Nat.add_0_r.
      * right. rewrite Nat.add_succ_r. apply (IH (S k0) j). lia.
    + right. now apply IH.
Qed.

Lemma rename_sonota_In (labels : list str) (k : nat) :
  k < count_label sonota labels -> In (sonota_temp k) (rename_sonota labels).
Proof. intros H. apply (rename_sonota_from_In labels 0 k H). Qed.

Lemma rename_sonota_from_length (labels : list str) :
  forall k0, length (rename_sonota_from k0 labels) = length labels.
Proof.
  induction labels as [|l labels IH]; intros k0; [reflexivity|].
  cbn [rename_sonota_from]. destruct (str_eqb l sonota); cbn [length]; now rewrite IH.
Qed.

Lemma count_label_nonblank (l : str) (labels : list str) :
  l <> [] ->
  count_label l (filter (fun s => negb (str_eqb s [])) labels) = count_label l labels.
Proof.
  intros Hl. induction labels as [|x labels IH]; [reflexivity|].
  cbn [filter]. destruct (str_eqb x []) eqn:E; cbn [negb].
  - apply str_eqb_eq in E. subst x. rewrite count_label_cons, IH.
    destruct (str_eqb [] l) eqn:E'; [|reflexivity].
    apply str_eqb_eq in E'. congruence.
  - rewrite !count_label_cons, IH. reflexivity.
Qed.

Lemma map_fst_combine {A B : Type} (a : list A) (b : list B) :
  length a = length b -> map fst (combine a b) = a.
Proof.
  revert b. induction a as [|x a IH]; intros [|y b] H; try discriminate; [reflexivity|].
  cbn [combine map fst]. f_equal. apply IH. now injection H.
Qed.

Lemma filter_map_length {A B : Type} (p : B -> bool) (f : A -> B) (l : list A) :
  length (filter p (map f l)) = length (filter (fun x => p (f x)) l).
Proof.
  induction l as [|x l IH]; [reflexivity|]. cbn [map filter].
  destruct (p (f x)); cbn [length]; now rewrite IH.
Qed.

Lemma NoDup_map_injective {A B : Type} (f : A -> B) (l : list A) :
  (forall x y, f x = f y -> x = y) -> NoDup l -> NoDup (map f l).
Proof.
  intros Hf. induction 1 as [|x l Hx Hl IH]; cbn [map]; constructor; [|assumption].
  intros Hin. apply in_map_iff in Hin. destruct Hin as (y & E & Hy).
  apply Hf in E. now subst.
Qed.

(** As many rows are labelled その他 at the end as there are ordinals in the
    master order, at least. *)
Lemma count_after_strip (master : list str) (n : nat) :
  (forall k, k < n -> In (sonota_temp k) master) ->
  n <= count_label sonota (map strip_temp_suffix master).
Proof.
  intros H. unfold count_label. rewrite filter_map_length.
  rewrite <- (length_seq n 0) at 1. rewrite <- (length_map sonota_temp).
  apply NoDup_incl_length.
  - apply NoDup_map_injective; [apply sonota_temp_inj | apply seq_NoDup].
  - intros x Hx. apply in_map_iff in Hx. destruct Hx as (k & <- & Hk).
    apply in_seq in Hk. apply filter_In. split; [apply H; lia|].
    rewrite strip_sonota_temp. apply str_eqb_refl.
Qed.

Section SonotaFacts.
Context {NUM : Numeric}.

Lemma vertical_keeps_sonota (df : dataframe) (f : frame) (items : list str) (k : nat) :
  tool2_extract_data_vertical df = (Some f, items) ->
  k < count_label sonota (map label_of_row (rows df)) ->
  In (sonota_temp k) items.
Proof.
  unfold tool2_extract_data_vertical.
  destruct (df_empty df); [discriminate|].
  destruct (year_cells df); [discriminate|].
  intros [= _ <-] Hk. unfold all_items_ordered, initial_items.
  apply unique_In, rename_sonota_In.
  rewrite count_label_nonblank; [assumption | discriminate].
Qed.

Lemma horizontal_rows_labels (target : list (list str)) (start : nat) :
  map fst (horizontal_rows target start)
  = rename_sonota (map fst (horizontal_parsed target start)).
Proof.
  unfold horizontal_rows. apply map_fst_combine.
  unfold rename_sonota. now rewrite rename_sonota_from_length, !length_map.
Qed.

Lemma horizontal_keeps_sonota (df : dataframe) (f : frame) (items : list str) :
  tool2_extract_data_horizontal df = Ok (Some f, items) ->
  exists h start,
    horizontal_header (target_rows df) = (h, start) /\
    forall k,
      k < count_label sonota (map fst (horizontal_parsed (target_rows df) start)) ->
      In (sonota_temp k) items.
Proof.
  intros H. destruct (horizontal_result df (Some f) items H)
    as [[Hf _]|(h & start & Hh & _ & -> & _)]; [discriminate|].
  exists h, start. split; [assumption|]. intros k Hk.
  apply groupby_sum_In. rewrite horizontal_rows_labels. now apply rename_sonota_In.
Qed.

Lemma get_set_slot_other (i j : nat) (s : slot) (st : list slot) :
  i <> j -> get_slot j (set_slot i s st) = get_slot j st.
Proof.
  unfold get_slot. revert j st. induction i as [|i IH]; intros [|j] [|x st] Hij;
    cbn [set_slot nth]; try congruence; try reflexivity.
  - now destruct j.
  - rewrite IH by congruence. now destruct j.
  - apply IH. congruence.
Qed.

Lemma contribute_adds (i : nat) (f : frame) (items : list str) (st : list slot) (x : str) :
  In x items -> In x (ordered_items (get_slot i (contribute i f items st))).
Proof.
  intros H. unfold contribute. rewrite get_set_slot. cbn [ordered_items].
  apply update_master_order_In. now right.
Qed.

Lemma contribute_keeps (i j : nat) (f : frame) (items : list str) (st : list slot) (x : str) :
  In x (ordered_items (get_slot j st)) ->
  In x (ordered_items (get_slot j (contribute i f items st))).
Proof.
  intros H. unfold contribute. destruct (Nat.eq_dec i j) as [->|Hij].
  - rewrite get_set_slot. cbn [ordered_items]. apply update_master_order_In. now left.
  - now rewrite get_set_slot_other.
Qed.

Lemma merge_fold_labels (dfs : list frame) :
  forall A,
    Forall (fun f => NoDup (labels_of f)) dfs ->
    labels_of (fold_left merge_step dfs A) = labels_of A.
Proof.
  induction dfs as [|f dfs IH]; intros A Hnd; [reflexivity|].
  inversion Hnd as [|? ? Hf Hdfs]; subst. cbn [fold_left].
  rewrite IH by assumption. unfold merge_step. apply merge_left_labels.
  now rewrite drop_columns_labels.
Qed.

(** The items of a summary are those of the master order, in its order,
    with the ordinal suffix removed. *)
Lemma cast_rows_labels (cols : list str) (b : list (str * list (str * option num))) :
  forall rows',
    map_ok (cast_row cols) b = Ok rows' ->
    map fst rows' = map (fun row => strip_temp_suffix (fst row)) b.
Proof.
  induction b as [|row b IH]; intros rows'; cbn [map_ok].
  - now intros [= <-].
  - unfold cast_row at 1. destruct (map_ok _ cols) as [cells|]; [|discriminate].
    cbn [bind]. destruct (map_ok (cast_row cols) b) as [rs|]; [|discriminate].
    cbn [bind]. intros [= <-]. cbn [map fst]. now rewrite (IH rs eq_refl).
Qed.

Lemma summarize_labels (s : slot) (r : summary) :
  Forall (fun f => NoDup (labels_of f)) (list_of_dfs s) ->
  summarize s = Ok r ->
  map fst (items r) = map strip_temp_suffix (ordered_items s).
Proof.
  intros Hnd. unfold summarize.
  destruct (sorted_by_key _) as [cols|]; [|discriminate]. cbn [bind].
  destruct (map_ok (cast_row cols) _) as [rows'|] eqn:Hrows; [|discriminate]. cbn [bind].
  intros [= <-]. cbn [items]. rewrite (cast_rows_labels _ _ _ Hrows).
  set (R := merge_frames (ordered_items s) (list_of_dfs s)).
  assert (E : map fst (body R) = ordered_items s).
  { pose proof (merge_fold_labels (list_of_dfs s) (frame_of_items (ordered_items s)) Hnd) as E.
    rewrite labels_frame_of_items in E. exact E. }
  rewrite <- E. unfold fillna_zero. cbn [body]. generalize (body R) as b. intros b.
  rewrite !map_map. reflexivity.
Qed.

End SonotaFacts.

(** C4 as stated fails: in horizontal mode a row labelled その他 whose value
    is not a number is dropped before the suffixing, so a table with two such
    rows ends with one. *)
Lemma C4_counterexample :
  let df := sheet 2 [["項目"; "2024Q1"]; ["その他"; "100"]; ["その他"; "-"]]%string in
  count_label sonota (map label_of_row (rows df)) = 2 /\
  process_files_and_tables (NUM := IntCells) df Horizontal
  = Ok [Build_summary [u "2024Q1"] [(sonota, [(u "2024Q1", 100%Z)])]].
Proof. vm_compute. split; reflexivity. Qed.

(** C4, amended: the rows labelled その他 that reach a merger's suffixing
    step (vertical: every row of the chunk; horizontal: the rows from the
    first data row on whose value is a number) become as many different
    labels その他_temp_0, その他_temp_1, ..., all of them items of the frame the
    merger returns; a slot's master order keeps every item contributed to
    it; the summary lists the master order with the suffix removed, which
    turns every ordinal back into その他, so that it has at least as many rows
    labelled その他, unmerged. *)
Theorem C4_sonota_round_trip :
  (forall labels k,
     k < count_label sonota labels -> In (sonota_temp k) (rename_sonota labels)) /\
  (forall j k, sonota_temp j = sonota_temp k -> j = k) /\
  (forall k, strip_temp_suffix (sonota_temp k) = sonota) /\
  (forall (NUM : Numeric) df f items k,
     tool2_extract_data_vertical df = (Some f, items) ->
     k < count_label sonota (map label_of_row (rows df)) ->
     In (sonota_temp k) items) /\
  (forall (NUM : Numeric) df f items,
     tool2_extract_data_horizontal df = Ok (Some f, items) ->
     exists h start,
       horizontal_header (target_rows df) = (h, start) /\
       forall k,
         k < count_label sonota (map fst (horizontal_parsed (target_rows df) start)) ->
         In (sonota_temp k) items) /\
  (forall (NUM : Numeric) i j (f : frame) items st x,
     (In x items -> In x (ordered_items (get_slot i (contribute i f items st)))) /\
     (In x (ordered_items (get_slot j st)) ->
      In x (ordered_items (get_slot j (contribute i f items st))))) /\
  (forall (NUM : Numeric) (s : slot) r n,
     Forall (fun f => NoDup (labels_of f)) (list_of_dfs s) ->
     (forall k, k < n -> In (sonota_temp k) (ordered_items s)) ->
     summarize s = Ok r ->
     map fst (items r) = map strip_temp_suffix (ordered_items s) /\
     n <= count_label sonota (map fst (items r))) /\
  process_files_and_tables (NUM := IntCells)
    (sheet 2 [["ファイル名: a.pdf"]; ["項目"; "2024Q1"]; ["その他"; "1"]; ["売上"; "5"];
              ["その他"; "2"];
              ["ファイル名: b.pdf"]; ["項目"; "2024Q2"]; ["その他"; "7"]]%string)
    Vertical
  = Ok [Build_summary [u "2024Q1"; u "2024Q2"]
          [(u "項目", [(u "2024Q1", 0%Z); (u "2024Q2", 0%Z)]);
           (sonota, [(u "2024Q1", 1%Z); (u "2024Q2", 7%Z)]);
           (u "売上", [(u "2024Q1", 5%Z); (u "2024Q2", 0%Z)]);
           (sonota, [(u "2024Q1", 2%Z); (u "2024Q2", 0%Z)])]].
Proof.
  split; [exact rename_sonota_In|]. split; [exact sonota_temp_inj|].
  split; [exact strip_sonota_temp|].
  split; [intros NUM; exact vertical_keeps_sonota|].
  split; [intros NUM; exact horizontal_keeps_sonota|].
  split; [intros NUM i j f items st x; split;
          [apply contribute_adds | apply contribute_keeps]|].
  split; [|vm_compute; reflexivity].
  intros NUM s r n Hnd Hk Hs.
  pose proof (summarize_labels s r Hnd Hs) as E. split; [exact E|].
  rewrite E. now apply count_after_strip.
Qed.

Lemma C4_witness :
  let df := sheet 2 [["項目"; "2024Q1"]; ["その他"; "1"]; ["売上"; "5"]; ["その他"; "2"]]%string in
  In (sonota_temp 1) (snd (tool2_extract_data_vertical (NUM := IntCells) df)).
Proof.
  intros df.
  refine (proj1 (proj2 (proj2 (proj2 C4_sonota_round_trip))) IntCells df _ _ 1 _ _).
  - vm_compute. reflexivity.
  - vm_compute. lia.
Defined.

(** ** The order of the period columns of a summary *)

Section SummaryOrder.
Context {NUM : Numeric}.

Lemma summarize_slots_In (st : list slot) :
  forall rs r, summarize_slots st = Ok rs -> In r rs ->
    exists s, In s st /\ summarize s = Ok r.
Proof.
  induction st as [|s st IH]; intros rs r; cbn [summarize_slots].
  - intros [= <-] [].
  - destruct (list_of_dfs s) as [|f fs] eqn:Hf.
    + intros H Hr. destruct (IH rs r H Hr) as (s' & Hs' & E). exists s'. split; [now right | exact E].
    + destruct (summarize s) as [r0|] eqn:Hs; [|discriminate]. cbn [bind].
      destruct (summarize_slots st) as [rs0|]; [|discriminate]. cbn [bind].
      intros [= <-] [<-|Hr].
      * exists s. split; [now left | exact Hs].
      * destruct (IH rs0 r eq_refl Hr) as (s' & Hs' & E). exists s'. split; [now right | exact E].
Qed.

Lemma summarize_sorted (s : slot) (r : summary) :
  summarize s = Ok r -> StronglySorted key_le (year_cols r).
Proof.
  unfold summarize. destruct (sorted_by_key _) as [cols|] eqn:E; [|discriminate].
  cbn [bind]. destruct (map_ok (cast_row cols) _) as [rows'|]; [|discriminate].
  cbn [bind]. intros [= <-]. cbn [year_cols]. now apply sorted_by_key_spec in E.
Qed.

Lemma process_sorted (df : dataframe) (mode : integration_mode) (rs : list summary) :
  process_files_and_tables df mode = Ok rs ->
  forall r, In r rs -> StronglySorted key_le (year_cols r).
Proof.
  unfold process_files_and_tables. destruct (Nat.eqb (ncols df) 0); [discriminate|].
  destruct (process_file_chunks _ _ _ _) as [st|]; [|discriminate]. cbn [bind].
  intros H r Hr. destruct (summarize_slots_In st rs r H Hr) as (s & _ & Hs).
  now apply summarize_sorted in Hs.
Qed.

End SummaryOrder.

Lemma sorted_by_key_total (cols : list str) :
  (forall c, In c cols -> exists k, sort_key c = Ok k) ->
  exists cols', sorted_by_key cols = Ok cols'.
Proof.
  intros H. unfold sorted_by_key. destruct (map_ok_total sort_key cols H) as [keys ->].
  cbn [bind]. eauto.
Qed.

(** C5 as stated fails: a header without digits does not always sort last,
    and does not always receive the sentinel.  In horizontal mode a table
    without period header is named by the top cell of its last column: with
    the amount 123,456,789 there, its column comes after the column
    Unknown_Period of another table; and a header such as Equity, which has
    no digit but a Q, receives the key 0. *)
Lemma C5_counterexample :
  sort_key (u "Unknown_Period") = Ok 99999999%Z /\
  sort_key (u "123,456,789") = Ok 123456789%Z /\
  sort_key (u "Equity") = Ok 0%Z /\
  sort_key (u "2024/1") = sort_key (u "2024/10") /\
  process_files_and_tables (NUM := IntCells)
    (sheet 2 [["ファイル名: a.pdf"]; ["売上"; "123,456,789"];
              ["ファイル名: b.pdf"]; ["原価"; ""]; ["売上"; "5"]]%string)
    Horizontal
  = Ok [Build_summary [u "Unknown_Period"; u "123,456,789"]
          [(u "売上", [(u "Unknown_Period", 5%Z); (u "123,456,789", 123456789%Z)])]].
Proof. vm_compute. repeat split. Qed.

(** C5, amended: the key the program computes is the one the specification
    describes (upper-case, delete the slash, Q to 0, delete 年度, 年 and 月,
    keep the digits, pad to six with zeros, read as an integer, which fails
    on a digit that is not decimal and on more than 4300 digits); a header
    with no digit and no Q or q receives the sentinel 99999999; a key is never
    negative and, for a header with at most eight digits (Q and q counted),
    never above the sentinel; a header has a key exactly when its digits are
    decimal and at most 4300 (Q and q counted);
    the period columns of every summary are a permutation of the merged
    columns in ascending order of the key; on headers that have a key the
    order by key is total and transitive (headers may share a key). *)
Theorem C5_chronological_sort_key :
  (forall h, sort_key h = spec_sort_key h) /\
  (forall h,
     (forall c, In c h -> is_digit c = false /\ is_Qq c = false) ->
     sort_key h = Ok sentinel) /\
  (forall h k,
     sort_key h = Ok k ->
     (0 <= k)%Z /\ (length (key_digits h) <= 8 -> (k <= sentinel)%Z)) /\
  (forall h,
     (exists k, sort_key h = Ok k)
     <-> Forall (fun c => is_decimal c = true) (key_digits h) /\
         length (key_digits h) <= 4300) /\
  (forall cols cols',
     sorted_by_key cols = Ok cols' ->
     Permutation cols cols' /\ StronglySorted key_le cols') /\
  (forall cols,
     (forall c, In c cols -> exists k, sort_key c = Ok k) ->
     exists cols', sorted_by_key cols = Ok cols') /\
  (forall (NUM : Numeric) df mode rs,
     process_files_and_tables df mode = Ok rs ->
     forall r, In r rs -> StronglySorted key_le (year_cols r)) /\
  (forall a b ka kb,
     sort_key a = Ok ka -> sort_key b = Ok kb -> key_le a b \/ key_le b a) /\
  (forall a b c, key_le a b -> key_le b c -> key_le a c).
Proof.
  split; [exact sort_key_refines_spec|].
  split; [intros h Hh; rewrite sort_key_digits, (key_digits_none h Hh); reflexivity|].
  split; [exact sort_key_bounds|].
  split; [exact sort_key_defined|].
  split; [exact sorted_by_key_spec|].
  split; [exact sorted_by_key_total|].
  split; [intros NUM; exact process_sorted|].
  split.
  - intros a b ka kb Ha Hb. destruct (Z.le_ge_cases ka kb).
    + left. now exists ka, kb.
    + right. now exists kb, ka.
  - intros a b c (ka & kb & Ha & Hb & Hab) (kb' & kc & Hb' & Hc & Hbc).
    rewrite Hb in Hb'. injection Hb' as <-.
    exists ka, kc. repeat split; auto. lia.
Qed.

Lemma C5_witness :
  sort_key (u "売上高(連結)") = Ok sentinel /\
  StronglySorted key_le [u "2023年度"; u "2024Q1"; u "2024/3"; u "x"].
Proof.
  split.
  - apply (proj1 (proj2 C5_chronological_sort_key)).
    intros c Hc. cbn in Hc.
    repeat (destruct Hc as [<-|Hc]; [split; reflexivity|]). destruct Hc.
  - apply (proj1 (proj2 (proj2 (proj2 (proj2 C5_chronological_sort_key))))
             [u "2024Q1"; u "x"; u "2024/3"; u "2023年度"]).
    vm_compute. reflexivity.
Defined.

(** ** Extraction *)

Lemma extract_files_app (keywords : list str) (gs ge : option Z)
    (ranges : list (str * (option Z * option Z))) (fs1 fs2 : list pdf_file) :
  extract_files keywords gs ge ranges (fs1 ++ fs2)
  = (fst (extract_files keywords gs ge ranges fs1)
       ++ fst (extract_files keywords gs ge ranges fs2),
     snd (extract_files keywords gs ge ranges fs1)
       ++ snd (extract_files keywords gs ge ranges fs2)).
Proof.
  induction fs1 as [|f fs1 IH]; cbn [app extract_files].
  - now destruct (extract_files keywords gs ge ranges fs2).
  - rewrite IH.
    destruct (extract_file keywords gs ge ranges f) as [rows1 log1].
    destruct (extract_files keywords gs ge ranges fs1) as [rows2 log2].
    cbn [fst snd]. now rewrite !app_assoc.
Qed.

Lemma extract_files_cons (keywords : list str) (gs ge : option Z)
    (ranges : list (str * (option Z * option Z))) (f : pdf_file) (fs : list pdf_file) :
  extract_files keywords gs ge ranges (f :: fs)
  = (fst (extract_file keywords gs ge ranges f)
       ++ fst (extract_files keywords gs ge ranges fs),
     snd (extract_file keywords gs ge ranges f)
       ++ snd (extract_files keywords gs ge ranges fs)).
Proof.
  cbn [extract_files].
  destruct (extract_file keywords gs ge ranges f) as [rows1 log1].
  now destruct (extract_files keywords gs ge ranges fs) as [rows2 log2].
Qed.

Lemma extract_file_invalid_range (keywords : list str) (gs ge : option Z)
    (ranges : list (str * (option Z * option Z))) (f : pdf_file) (pgs : list page) :
  pages f = Ok pgs ->
  (snd (resolve_range (fst (range_of gs ge ranges f)) (snd (range_of gs ge ranges f))
          (length pgs))
   <= fst (resolve_range (fst (range_of gs ge ranges f)) (snd (range_of gs ge ranges f))
             (length pgs)))%Z ->
  extract_file keywords gs ge ranges f
  = ([file_marker (name f); []],
     [WarningInvalidRange (name f) (fst (range_of gs ge ranges f))
        (snd (range_of gs ge ranges f))]).
Proof.
  intros Hp Hr. unfold extract_file.
  destruct (range_of gs ge ranges f) as [cs ce]. cbn [fst snd] in *. rewrite Hp.
  destruct (resolve_range cs ce (length pgs)) as [s e]. cbn [fst snd] in Hr.
  apply Z.leb_le in Hr. now rewrite Hr.
Qed.

Lemma extract_file_head (keywords : list str) (gs ge : option Z)
    (ranges : list (str * (option Z * option Z))) (f : pdf_file) :
  exists rest,
    fst (extract_file keywords gs ge ranges f) = file_marker (name f) :: [] :: rest.
Proof.
  unfold extract_file. destruct (range_of gs ge ranges f) as [cs ce].
  destruct (pages f) as [pgs|ex]; [|now exists []].
  destruct (resolve_range cs ce (length pgs)) as [s e].
  destruct (e <=? s)%Z; [now exists []|].
  destruct (scan_pages keywords _) as [[rows' found] raised].
  destruct found, raised; exists rows'; reflexivity.
Qed.

(** C7 as stated fails for missing keywords: nothing is extracted and no
    partial result is returned, whatever the files hold. *)
Lemma C7_counterexample :
  let f := one_page_file "a.pdf" "売上高の推移" [["売上"; "100"]]%string in
  extract_tables_from_multiple_pdfs [f] [] None None [] = (None, [ErrorNoKeywords]) /\
  extract_tables_from_multiple_pdfs [f] [u "売上"] None None []
  = (Some {| ncols := 2;
             rows := [[Some (u "ファイル名: a.pdf")]; [];
                      [Some (u "--- ページ 1 / テーブル 1 ---")];
                      [Some (u "売上"); Some (u "100")]; []] |}, []).
Proof. vm_compute. split; reflexivity. Qed.

(** C7, amended: without keywords an error is reported and the extraction
    returns nothing at all; with keywords every file contributes its own rows
    and messages whatever the other files are, a file whose resolved page
    range is empty (end not after start) contributes only its file-name
    marker, a blank row and one warning, and the extraction of at least one
    file returns a frame. *)
Theorem C7_validation_failures :
  (forall files gs ge ranges,
     extract_tables_from_multiple_pdfs files [] gs ge ranges = (None, [ErrorNoKeywords])) /\
  (forall keywords gs ge ranges fs1 f fs2,
     extract_files keywords gs ge ranges (fs1 ++ f :: fs2)
     = (fst (extract_files keywords gs ge ranges fs1)
          ++ fst (extract_file keywords gs ge ranges f)
          ++ fst (extract_files keywords gs ge ranges fs2),
        snd (extract_files keywords gs ge ranges fs1)
          ++ snd (extract_file keywords gs ge ranges f)
          ++ snd (extract_files keywords gs ge ranges fs2))) /\
  (forall keywords gs ge ranges f pgs,
     pages f = Ok pgs ->
     (snd (resolve_range (fst (range_of gs ge ranges f)) (snd (range_of gs ge ranges f))
             (length pgs))
      <= fst (resolve_range (fst (range_of gs ge ranges f)) (snd (range_of gs ge ranges f))
                (length pgs)))%Z ->
     extract_file keywords gs ge ranges f
     = ([file_marker (name f); []],
        [WarningInvalidRange (name f) (fst (range_of gs ge ranges f))
           (snd (range_of gs ge ranges f))])) /\
  (forall kw keywords gs ge ranges f fs,
     exists df,
       extract_tables_from_multiple_pdfs (f :: fs) (kw :: keywords) gs ge ranges
       = (Some df, snd (extract_files (kw :: keywords) gs ge ranges (f :: fs)))).
Proof.
  split; [reflexivity|]. split; [|split; [exact extract_file_invalid_range|]].
  - intros keywords gs ge ranges fs1 f fs2.
    rewrite extract_files_app, extract_files_cons. reflexivity.
  - intros kw keywords gs ge ranges f fs. unfold extract_tables_from_multiple_pdfs.
    rewrite extract_files_cons.
    destruct (extract_file_head (kw :: keywords) gs ge ranges f) as [rest ->].
    cbn [app existsb file_marker length Nat.eqb negb orb]. eauto.
Qed.

Lemma C7_witness :
  let bad := one_page_file "b.pdf" "売上" [["売上"; "1"]]%string in
  extract_file [u "売上"] (Some 5%Z) (Some 9%Z) [] bad
  = ([file_marker (u "b.pdf"); []], [WarningInvalidRange (u "b.pdf") (Some 5%Z) (Some 9%Z)]).
Proof.
  intros bad.
  refine (proj1 (proj2 (proj2 C7_validation_failures))
            [u "売上"] (Some 5%Z) (Some 9%Z) [] bad _ eq_refl _).
  vm_compute. discriminate.
Defined.

Example C7_other_files_proceed :
  let good := one_page_file "a.pdf" "売上高の推移" [["売上"; "100"]]%string in
  let bad := one_page_file "b.pdf" "売上" [["売上"; "1"]]%string in
  extract_tables_from_multiple_pdfs [bad; good] [u "売上"] None None
    [(u "b.pdf", (Some 3%Z, None))]
  = (Some {| ncols := 2;
             rows := [[Some (u "ファイル名: b.pdf")]; [];
                      [Some (u "ファイル名: a.pdf")]; [];
                      [Some (u "--- ページ 1 / テーブル 1 ---")];
                      [Some (u "売上"); Some (u "100")]; []] |},
     [WarningInvalidRange (u "b.pdf") (Some 3%Z) None]).
Proof. vm_compute. reflexivity. Qed.

(** ** What a match leaves behind *)

Lemma star_cont (p : N -> bool) (s : str) :
  forall pos caps (k : cont) res,
    star p pos s caps k = Some res ->
    exists pos' s', k pos' s' caps = Some res /\ pos <= pos'.
Proof.
  induction s as [|c s IH]; intros pos caps k res; cbn [star].
  - intros H. exists pos, []. split; [assumption | lia].
  - destruct (p c).
    + destruct (star p (S pos) s caps k) as [m|] eqn:E.
      * intros [= <-]. destruct (IH _ _ _ _ E) as (pos' & s' & Hk & Hle).
        exists pos', s'. split; [assumption | lia].
      * intros H. exists pos, (c :: s). split; [assumption | lia].
    + intros H. exists pos, (c :: s). split; [assumption | lia].
Qed.

(** A successful match calls its continuation, further on in the text, with
    the groups it was given and, before them, groups of the pattern only. *)
Lemma rmatch_cont (r : regex) :
  forall pos s caps (k : cont) res,
    rmatch r pos s caps k = Some res ->
    exists pos' s' new,
      k pos' s' (new ++ caps) = Some res /\ pos <= pos' /\
      forall e, In e new -> In (fst e) (groups_of r).
Proof.
  induction r as [|c|p|r1 IH1 r2 IH2|r1 IH1 r2 IH2|r1 IH1|p|n r1 IH1| |];
    intros pos s caps k res; cbn [rmatch groups_of].
  - intros H. exists pos, s, []. repeat split; [assumption | lia | intros e []].
  - destruct s as [|x s]; [discriminate|]. destruct (x =? c)%N; [|discriminate].
    intros H. exists (S pos), s, []. repeat split; [assumption | lia | intros e []].
  - destruct s as [|x s]; [discriminate|]. destruct (p x); [|discriminate].
    intros H. exists (S pos), s, []. repeat split; [assumption | lia | intros e []].
  - intros H. apply IH1 in H. destruct H as (pos1 & s1 & new1 & H & Hle1 & Hn1).
    apply IH2 in H. destruct H as (pos2 & s2 & new2 & H & Hle2 & Hn2).
    exists pos2, s2, (new2 ++ new1). rewrite <- app_assoc.
    repeat split; [assumption | lia |].
    intros e He. apply in_app_iff. apply in_app_iff in He. destruct He; auto.
  - destruct (rmatch r1 pos s caps k) as [m|] eqn:E.
    + intros [= <-]. apply IH1 in E. destruct E as (pos1 & s1 & new1 & H & Hle1 & Hn1).
      exists pos1, s1, new1. repeat split; [assumption | lia |].
      intros e He. apply in_app_iff. auto.
    + intros H. apply IH2 in H. destruct H as (pos2 & s2 & new2 & H & Hle2 & Hn2).
      exists pos2, s2, new2. repeat split; [assumption | lia |].
      intros e He. apply in_app_iff. auto.
  - destruct (rmatch r1 pos s caps k) as [m|] eqn:E.
    + intros [= <-]. now apply IH1 in E.
    + intros H. exists pos, s, []. repeat split; [assumption | lia | intros e []].
  - intros H. apply star_cont in H. destruct H as (pos' & s' & H & Hle).
    exists pos', s', []. repeat split; [assumption | lia | intros e []].
  - intros H. apply IH1 in H. destruct H as (pos1 & s1 & new1 & H & Hle1 & Hn1).
    exists pos1, s1, ((n, firstn (pos1 - pos) s) :: new1).
    repeat split; [assumption | lia |].
    intros e [<-|He]; [now left | right; auto].
  - destruct (Nat.eqb pos 0); [|discriminate].
    intros H. exists pos, s, []. repeat split; [assumption | lia | intros e []].
  - destruct s as [|c [|c' s]]; try discriminate.
    + intros H. exists pos, [], []. repeat split; [assumption | lia | intros e []].
    + destruct (c =? 10)%N; [|discriminate].
      intros H. exists pos, [c], []. repeat split; [assumption | lia | intros e []].
Qed.

Lemma search_from_inv (r : regex) (s : str) :
  forall pos m,
    search_from r pos s = Some m ->
    exists pos' s',
      rmatch (Grp 0 r) pos' s' [] (fun _ _ caps => Some caps) = Some (m_groups m).
Proof.
  induction s as [|c s IH]; intros pos m; cbn [search_from].
  - destruct (rmatch _ _ _ _ _) as [caps|] eqn:E; [|discriminate].
    intros [= <-]. now exists pos, [].
  - destruct (rmatch _ _ _ _ _) as [caps|] eqn:E.
    + intros [= <-]. now exists pos, (c :: s).
    + apply IH.
Qed.

(** Looking a group up skips the groups with other numbers. *)
Lemma find_group_skip (n : nat) (new caps : captures) :
  (forall e, In e new -> fst e <> n) ->
  find (fun e => Nat.eqb (fst e) n) (new ++ caps) = find (fun e => Nat.eqb (fst e) n) caps.
Proof.
  intros H. induction new as [|e new IH]; [reflexivity|]. cbn [app find].
  destruct (Nat.eqb_spec (fst e) n) as [E|E].
  - exfalso. apply (H e); [now left | assumption].
  - apply IH. intros e' He'. apply H. now right.
Qed.

(** Four decimal digits in a group. *)
Lemma rmatch_four_digits (n pos : nat) (s : str) (caps : captures) (k : cont) (res : captures) :
  rmatch (Grp n (rep 4 digit)) pos s caps k = Some res ->
  exists t s' pos', digit_first t /\ k pos' s' ((n, t) :: caps) = Some res.
Proof.
  change (rep 4 digit) with (Seq digit (Seq digit (Seq digit (Seq digit Eps)))).
  cbn [rmatch digit].
  destruct s as [|d1 [|d2 [|d3 [|d4 s']]]]; cbn -[Nat.sub firstn];
    repeat match goal with
    | |- context [if ?b then _ else _] => destruct b eqn:?; cbn -[Nat.sub firstn]
    end; try discriminate.
  replace (S (S (S (S pos))) - pos) with 4 by lia. cbn [firstn].
  intros H. exists [d1; d2; d3; d4], s', (S (S (S (S pos)))).
  split; [|assumption]. now exists d1, [d2; d3; d4].
Qed.

Lemma rmatch_skip_prefix (a x : regex) (pos : nat) (s : str) (caps : captures)
    (k : cont) (res : captures) :
  groups_of a = [] ->
  rmatch (Seq a x) pos s caps k = Some res ->
  exists pos' s', rmatch x pos' s' caps k = Some res.
Proof.
  intros Ha H. cbn [rmatch] in H. apply rmatch_cont in H.
  destruct H as (pos' & s' & new & H & _ & Hnew). rewrite Ha in Hnew.
  destruct new as [|e new]; [|destruct (Hnew e (or_introl eq_refl))].
  now exists pos', s'.
Qed.

(** A pattern that opens with a group 1 of four digits leaves a group 1 that
    begins with a decimal digit. *)
Lemma rmatch_year_group (rest : regex) (pos : nat) (s : str) (k : cont) (res : captures) :
  top_like k -> ~ In 1 (groups_of rest) ->
  rmatch (Seq (Grp 1 (rep 4 digit)) rest) pos s [] k = Some res ->
  digit_first (group_in res 1).
Proof.
  intros Hk Hrest H. cbn [rmatch] in H.
  change (rmatch (Grp 1 (rep 4 digit)) pos s []
            (fun pos' s' caps' => rmatch rest pos' s' caps' k) = Some res) in H.
  apply rmatch_four_digits in H. destruct H as (t & s1 & pos1 & Ht & H).
  apply rmatch_cont in H. destruct H as (pos2 & s2 & new & H & _ & Hnew).
  apply Hk in H. destruct H as (t0 & ->).
  unfold group_in. cbn [find fst Nat.eqb].
  rewrite find_group_skip; [cbn; exact Ht|].
  intros e He E. apply Hrest. rewrite <- E. now apply Hnew.
Qed.

Lemma top_like_group0 (pos : nat) (s : str) :
  top_like (fun pos' _ caps' => Some ((0, firstn (pos' - pos) s) :: caps')).
Proof. intros pos' s' caps res [= <-]. eauto. Qed.

Lemma group_is_group_in (m : match_obj) (n : nat) : group m n = group_in (m_groups m) n.
Proof. reflexivity. Qed.

Lemma digit_first_app (a b : str) : digit_first a -> digit_first (a ++ b).
Proof. intros (d & t & -> & Hd). now exists d, (t ++ b). Qed.

Lemma search_year_group (rest : regex) (s : str) (m : match_obj) :
  ~ In 1 (groups_of rest) ->
  search (Seq (Grp 1 (rep 4 digit)) rest) s = Some m ->
  digit_first (group m 1).
Proof.
  intros Hrest H. apply search_from_inv in H. destruct H as (pos & s' & H).
  cbn [rmatch] in H. rewrite group_is_group_in.
  eapply rmatch_year_group; [apply (top_like_group0 pos s') | exact Hrest | exact H].
Qed.

Lemma search_from_group (s : str) (m : match_obj) :
  search pat_from s = Some m -> digit_first (group m 1).
Proof.
  intros H. apply search_from_inv in H. destruct H as (pos & s' & H).
  cbn [rmatch] in H. rewrite group_is_group_in.
  change pat_from with
    (Seq (Opt (Chr (ch "(")))
       (Seq (Chr (ch "自"))
          (Seq (Star is_space)
             (Seq (Grp 1 (rep 4 digit))
                (seqs [Chr (ch "年"); Grp 2 digit12; Chr (ch "月")]))))) in H.
  apply rmatch_skip_prefix in H; [|reflexivity]. destruct H as (p1 & s1 & H).
  apply rmatch_skip_prefix in H; [|reflexivity]. destruct H as (p2 & s2 & H).
  apply rmatch_skip_prefix in H; [|reflexivity]. destruct H as (p3 & s3 & H).
  eapply rmatch_year_group; [apply (top_like_group0 pos s') | | exact H].
  cbn. intuition discriminate.
Qed.

Lemma search_bare_group (s : str) (m : match_obj) :
  search pat_bare s = Some m -> digit_first (group m 0).
Proof.
  intros H. apply search_from_inv in H. destruct H as (pos & s' & H).
  rewrite group_is_group_in.
  change pat_bare with
    (Seq Bol (Seq (Seq (Chr 50%N) (Seq (Chr 48%N) Eps))
                  (seqs [rep 2 digit; Opt (Grp 1 (rep 2 digit)); Eol]))) in H.
  cbn [rmatch] in H. destruct (Nat.eqb pos 0); [|discriminate].
  destruct s' as [|c1 s1]; [discriminate|].
  destruct (N.eqb_spec c1 50) as [->|]; [|discriminate].
  destruct s1 as [|c2 s2]; [discriminate|].
  destruct (c2 =? 48)%N; [|discriminate].
  apply rmatch_cont in H. destruct H as (pos' & s3 & new & H & Hle & _).
  injection H as <-. unfold group_in. cbn [find fst snd Nat.eqb].
  destruct (pos' - pos) as [|n] eqn:E; [lia|]. cbn [firstn].
  exists 50%N, (firstn n (c2 :: s2)). split; reflexivity.
Qed.

(** Every period label begins with a decimal digit. *)
Lemma detect_digit_first (s h : str) :
  detect_year_header s = Some h -> digit_first h.
Proof.
  unfold detect_year_header, patterns. cbn [first_match].
  destruct (search pat_quarter (strip s)) as [m|] eqn:E1.
  { intros [= <-]. destruct (search_quarter_sound _ _ _ E1) as (d1 & d2 & q & n & Hs & Hg).
    unfold fmt_quarter. rewrite Hg, (upper_quarter_code _ _ _ _ Hs).
    exists 50%N, [48%N; d1; d2; 81%N; n]. split; reflexivity. }
  destruct (search pat_from (strip s)) as [m|] eqn:E2.
  { intros [= <-]. apply digit_first_app. now apply search_from_group in E2. }
  destruct (search pat_year_month (strip s)) as [m|] eqn:E3.
  { intros [= <-]. apply digit_first_app.
    apply (search_year_group (seqs [Chr (ch "年"); Grp 2 digit12; Chr (ch "月")])) in E3;
      [assumption | cbn; intuition discriminate]. }
  destruct (search pat_fiscal (strip s)) as [m|] eqn:E4.
  { intros [= <-]. apply digit_first_app.
    apply (search_year_group (seqs [lit (u "年度")])) in E4;
      [assumption | cbn; intuition discriminate]. }
  destruct (search pat_short (strip s)) as [m|] eqn:E5.
  { intros [= <-]. exists 50%N, ([48%N] ++ group m 1 ++ u "/" ++ group m 2).
    split; reflexivity. }
  destruct (search pat_slash (strip s)) as [m|] eqn:E6.
  { intros [= <-]. apply digit_first_app.
    apply (search_year_group (seqs [Chr (ch "/"); Grp 2 digit12])) in E6;
      [assumption | cbn; intuition discriminate]. }
  destruct (search pat_bare (strip s)) as [m|] eqn:E7; [|discriminate].
  intros [= <-]. now apply search_bare_group in E7.
Qed.

Lemma detect_not_common_item (s : str) : detect_year_header s <> Some common_item.
Proof.
  intros H. apply detect_digit_first in H. destruct H as (d & t & E & Hd).
  injection E as <- _. discriminate.
Qed.

(** ** The frames that reach a slot are well formed *)

Lemma truthy_detect (s : str) : truthy (detect_year_header s) = detect_year_header s.
Proof.
  destruct (detect_year_header s) as [h|] eqn:E; [|reflexivity].
  apply detect_digit_first in E. destruct E as (d & t & -> & _). reflexivity.
Qed.

Section WellFormed.
Context {NUM : Numeric}.

Lemma year_cells_header (df : dataframe) (cell : nat * nat * str) :
  In cell (year_cells df) -> exists s, detect_year_header s = Some (snd cell).
Proof.
  unfold year_cells. intros H.
  apply (Permutation_in _ (Permutation_sym (sort_by_perm pair_leb _))) in H.
  apply in_flat_map in H. destruct H as (r & _ & H).
  apply in_flat_map in H. destruct H as (c & _ & H).
  rewrite truthy_detect in H.
  destruct (detect_year_header (astype_str (iat df r c))) as [h|] eqn:E; [|destruct H].
  destruct H as [<-|[]]. now exists (astype_str (iat df r c)).
Qed.

Lemma vertical_well_formed (df : dataframe) (f : frame) (items : list str) :
  tool2_extract_data_vertical df = (Some f, items) -> well_formed f.
Proof.
  intros H. pose proof (vertical_items_NoDup df _ _ H) as Hnd.
  unfold tool2_extract_data_vertical in H.
  destruct (df_empty df); [discriminate|].
  destruct (year_cells df) as [|cell cells] eqn:Hcells; [discriminate|].
  injection H as <- <-.
  destruct (vertical_loop_spec df (cell :: cells) [] (frame_of_items (all_items_ordered df))
              (covered_frame_of_items _) (fun c => eq_refl))
    as ([Hcols Hrows] & Hlab & Hmem & _).
  rewrite labels_frame_of_items in Hlab.
  split; [|split; [|split]].
  - change (NoDup (labels_of (vertical_loop df (cell :: cells) []
                                (frame_of_items (all_items_ordered df))))).
    now rewrite Hlab.
  - exact Hcols.
  - intros Hin. apply mem_In in Hin.
    change (mem common_item (columns (vertical_loop df (cell :: cells) []
              (frame_of_items (all_items_ordered df)))) = true) in Hin.
    rewrite Hmem in Hin.
    change (mem common_item (columns (frame_of_items (all_items_ordered df)))) with false in Hin.
    cbn [orb] in Hin. apply existsb_exists in Hin. destruct Hin as (x & Hx & E).
    apply str_eqb_eq in E. rewrite <- Hcells in Hx.
    destruct (year_cells_header df x Hx) as (s & Hs). rewrite E in Hs.
    now apply detect_not_common_item in Hs.
  - exact Hrows.
Qed.

Lemma horizontal_well_formed (df : dataframe) (f : frame) (items : list str) :
  tool2_extract_data_horizontal df = Ok (Some f, items) -> well_formed f.
Proof.
  intros H. destruct (horizontal_result df (Some f) items H)
    as [[Hf _]|(h & start & Hh & Hne & -> & Hf)]; [discriminate|].
  injection Hf as ->. split; [|split; [|split]].
  - rewrite frame_of_column_labels, map_map. apply groupby_sum_NoDup.
  - cbn. repeat constructor. intros [].
  - cbn. intros [E|[]]. subst h. now rewrite str_eqb_refl in Hne.
  - apply frame_of_column_rows.
Qed.

Lemma set_slot_well_formed (i : nat) (s : slot) (st : list slot) :
  Forall well_formed (list_of_dfs s) -> slots_well_formed st ->
  slots_well_formed (set_slot i s st).
Proof.
  intros Hs. revert st. induction i as [|i IH]; intros [|x st] Hst; cbn [set_slot].
  - now constructor.
  - inversion Hst; subst. now constructor.
  - constructor; [constructor | apply IH; constructor].
  - inversion Hst; subst. constructor; [assumption | now apply IH].
Qed.

Lemma get_slot_well_formed (i : nat) (st : list slot) :
  slots_well_formed st -> Forall well_formed (list_of_dfs (get_slot i st)).
Proof.
  intros Hst. unfold get_slot. revert i. induction Hst as [|x st Hx Hst IH]; intros [|i];
    cbn [nth]; try constructor; auto.
Qed.

Lemma process_table_chunk_well_formed (mode : integration_mode) (w i : nat)
    (chunk : list (list cell)) (st st' : list slot) :
  slots_well_formed st ->
  process_table_chunk mode w i chunk st = Ok st' -> slots_well_formed st'.
Proof.
  intros Hst. unfold process_table_chunk.
  destruct (clean_table_chunk chunk) as [|row clean]; [now intros [= <-]|].
  destruct (run_merger mode _) as [[[f|] item_order]|] eqn:E; cbn [bind];
    [|now intros [= <-] | discriminate].
  destruct (frame_empty f); [now intros [= <-]|].
  intros [= <-]. unfold contribute. apply set_slot_well_formed; [|assumption].
  cbn [list_of_dfs]. apply Forall_app. split; [now apply get_slot_well_formed|].
  constructor; [|constructor].
  destruct mode; cbn [run_merger] in E.
  - injection E as E. now apply vertical_well_formed in E.
  - now apply horizontal_well_formed in E.
Qed.

Lemma process_table_chunks_well_formed (mode : integration_mode) (w : nat)
    (chunks : list (list (list cell))) :
  forall i st st',
    slots_well_formed st ->
    process_table_chunks mode w i chunks st = Ok st' -> slots_well_formed st'.
Proof.
  induction chunks as [|chunk chunks IH]; intros i st st' Hst; cbn [process_table_chunks].
  - now intros [= <-].
  - destruct (process_table_chunk mode w i chunk st) as [st1|] eqn:E; [|discriminate].
    cbn [bind]. apply IH. eapply process_table_chunk_well_formed; eassumption.
Qed.

Lemma process_file_chunks_well_formed (mode : integration_mode) (w : nat)
    (chunks : list (list (list cell))) :
  forall st st',
    slots_well_formed st ->
    process_file_chunks mode w chunks st = Ok st' -> slots_well_formed st'.
Proof.
  induction chunks as [|chunk chunks IH]; intros st st' Hst; cbn [process_file_chunks].
  - now intros [= <-].
  - destruct (process_table_chunks mode w 0 (table_chunks chunk) st) as [st1|] eqn:E;
      [|discriminate].
    cbn [bind]. apply IH. eapply process_table_chunks_well_formed; eassumption.
Qed.

End WellFormed.

Section FirstSeen.
Context {NUM : Numeric}.

(** C6: before a frame is merged into a slot's result, exactly those of its
    period columns that the result already has are dropped; hence the result
    has one row per item of the master order, each period column once, and
    in every cell the value that the first frame with that period column
    holds for the item, or zero when that frame holds none; values of later
    frames for the same period are never used.  The frames concerned are well
    formed: those the two mergers return are, and so is every frame of every
    slot while a sheet is processed.  On two frames that both have the period
    2024Q1, the first with 1 for A and nothing for B, the second with 9 for
    both and a second period, the result has 1 for A and 0 for B in 2024Q1:
    the 9 of the second frame is used for neither. *)
Theorem C6_first_seen_period_wins :
  (forall A f c,
     ~ In common_item (columns f) ->
     (In c (columns (drop_columns (cols_to_drop A f) f))
      <-> In c (columns f) /\ ~ In c (columns A))) /\
  (forall items dfs,
     Forall well_formed dfs ->
     labels_of (fillna_zero (merge_frames items dfs)) = items /\
     NoDup (columns (fillna_zero (merge_frames items dfs))) /\
     (forall c, In c (columns (fillna_zero (merge_frames items dfs)))
                <-> exists f, In f dfs /\ In c (columns f)) /\
     (forall l c,
        In l items -> In c (columns (fillna_zero (merge_frames items dfs))) ->
        exists f,
          first_with c dfs = Some f /\
          value_at (fillna_zero (merge_frames items dfs)) l c
          = Some (match value_at f l c with
                  | Some x => x
                  | None => zero
                  end))) /\
  (forall df f items, tool2_extract_data_vertical df = (Some f, items) -> well_formed f) /\
  (forall df f items, tool2_extract_data_horizontal df = Ok (Some f, items) -> well_formed f) /\
  (forall mode w chunks st,
     process_file_chunks mode w chunks [] = Ok st -> slots_well_formed st) /\
  fillna_zero (merge_frames [u "A"; u "B"]
    [int_frame [u "2024Q1"] [(u "A", [(u "2024Q1", Some 1%Z)])];
     int_frame [u "2024Q1"; u "2024Q2"]
       [(u "A", [(u "2024Q1", Some 9%Z); (u "2024Q2", None)]);
        (u "B", [(u "2024Q1", Some 9%Z); (u "2024Q2", Some 2%Z)])]])
  = int_frame [u "2024Q1"; u "2024Q2"]
      [(u "A", [(u "2024Q1", Some 1%Z); (u "2024Q2", Some 0%Z)]);
       (u "B", [(u "2024Q1", Some 0%Z); (u "2024Q2", Some 2%Z)])].
Proof.
  split; [|split; [|split; [exact vertical_well_formed|
                            split; [exact horizontal_well_formed|]]]].
  3: { split; [|vm_compute; reflexivity].
       intros mode w chunks st. apply process_file_chunks_well_formed. constructor. }
  - intros A f c Hci. unfold drop_columns. cbn [columns].
    rewrite filter_In, negb_true_iff, mem_cols_to_drop by assumption.
    rewrite <- (mem_In c (columns f)), <- (mem_not_In c (columns A)).
    destruct (mem c (columns f)), (mem c (columns A)); cbn; intuition congruence.
  - intros items dfs Hwf. unfold merge_frames.
    destruct (merge_fold dfs (frame_of_items items) (covered_frame_of_items items) Hwf)
      as (Hcov & Hlab & Hcols & Hval).
    rewrite labels_frame_of_items in *.
    assert (Hin : forall c, In c (columns (fold_left merge_step dfs (frame_of_items items)))
                            <-> exists f, In f dfs /\ In c (columns f)).
    { intros c. rewrite <- mem_In, Hcols. cbn [frame_of_items columns mem existsb orb].
      rewrite existsb_exists. split; intros (f & Hf & Hc); exists f;
        (split; [assumption | now apply mem_In]). }
    repeat split.
    + unfold labels_of, fillna_zero in *. cbn [body]. rewrite map_map. exact Hlab.
    + apply Hcov.
    + apply Hin.
    + apply Hin.
    + intros l c Hl Hc. cbn [fillna_zero columns] in Hc.
      rewrite value_at_fillna_zero; [| assumption | now rewrite Hlab | assumption].
      rewrite (Hval l c Hl). cbn [frame_of_items columns mem existsb].
      apply Hin in Hc. destruct Hc as (f0 & Hf0 & Hc0).
      unfold first_with. destruct (find _ dfs) as [f|] eqn:E.
      * exists f. split; reflexivity.
      * exfalso. apply (find_none _ _ E) in Hf0. apply mem_In in Hc0. congruence.
Qed.

End FirstSeen.

Lemma C6_witness :
  let f1 := int_frame [u "2024Q1"] [(u "A", [(u "2024Q1", Some 1%Z)])] in
  let f2 := int_frame [u "2024Q1"; u "2024Q2"]
              [(u "A", [(u "2024Q1", Some 9%Z); (u "2024Q2", None)]);
               (u "B", [(u "2024Q1", Some 9%Z); (u "2024Q2", Some 2%Z)])] in
  (exists f,
     first_with (u "2024Q1") [f1; f2] = Some f /\
     value_at (fillna_zero (merge_frames [u "A"; u "B"] [f1; f2])) (u "B") (u "2024Q1")
     = Some (match value_at f (u "B") (u "2024Q1") with
             | Some x => x
             | None => zero
             end)) /\
  first_with (u "2024Q1") [f1; f2] = Some f1 /\
  value_at f1 (u "A") (u "2024Q1") = Some 1%Z /\
  value_at f1 (u "B") (u "2024Q1") = None /\
  value_at (fillna_zero (merge_frames [u "A"; u "B"] [f1; f2])) (u "A") (u "2024Q1")
  = Some 1%Z /\
  value_at (fillna_zero (merge_frames [u "A"; u "B"] [f1; f2])) (u "B") (u "2024Q1")
  = Some 0%Z.
Proof.
  intros f1 f2. split; [|vm_compute; repeat split].
  refine (proj2 (proj2 (proj2
    (proj1 (proj2 (C6_first_seen_period_wins (NUM := IntCells))) [u "A"; u "B"] [f1; f2] _)))
    (u "B") (u "2024Q1") _ _).
  - repeat constructor; cbn; try (intuition discriminate).
    + intros row [<-|[]]. reflexivity.
    + intros row [<-|[<-|[]]]; reflexivity.
  - cbn. intuition.
  - vm_compute. intuition.
Defined.


(** * Further properties *)

(** ** White space around a cell *)

Lemma lstrip_head (s : str) :
  lstrip s = [] \/ exists c t, lstrip s = c :: t /\ is_space c = false.
Proof.
  induction s as [|x s IH]; cbn [lstrip]; [now left|].
  destruct (is_space x) eqn:E; [exact IH|]. right. now exists x, s.
Qed.

Lemma lstrip_fixed (c : N) (t : str) : is_space c = false -> lstrip (c :: t) = c :: t.
Proof. intros H. cbn [lstrip]. now rewrite H. Qed.

Lemma lstrip_lstrip (s : str) : lstrip (lstrip s) = lstrip s.
Proof.
  destruct (lstrip_head s) as [->|(c & t & -> & Hc)]; [reflexivity|].
  now apply lstrip_fixed.
Qed.

Lemma rstrip_rstrip (s : str) : rstrip (rstrip s) = rstrip s.
Proof. unfold rstrip. now rewrite rev_involutive, lstrip_lstrip. Qed.

Lemma strip_strip (s : str) : strip (strip s) = strip s.
Proof.
  unfold strip at 1.
  assert (H : lstrip (strip s) = strip s).
  { unfold strip. destruct (lstrip_head s) as [->|(c & t & -> & Hc)]; [reflexivity|].
    destruct (rstrip_keep [] c t Hc) as [b' E]. cbn [app] in E. rewrite E.
    now apply lstrip_fixed. }
  rewrite H. unfold strip. apply rstrip_rstrip.
Qed.

Lemma lstrip_all_space (a s : str) : all_space a -> lstrip (a ++ s) = lstrip s.
Proof.
  induction 1 as [|c a Hc _ IH]; [reflexivity|]. cbn [app lstrip]. now rewrite Hc.
Qed.

Lemma lstrip_all_space_nil (a : str) : all_space a -> lstrip a = [].
Proof. intros H. rewrite <- (app_nil_r a). now rewrite lstrip_all_space. Qed.

Lemma rstrip_all_space (s b : str) : all_space b -> rstrip (s ++ b) = rstrip s.
Proof.
  intros H. unfold rstrip. rewrite rev_app_distr, lstrip_all_space; [reflexivity|].
  unfold all_space in *. now apply Forall_rev.
Qed.

Lemma strip_padded (a s b : str) :
  all_space a -> all_space b -> strip (a ++ s ++ b) = strip s.
Proof.
  intros Ha Hb. unfold strip. rewrite lstrip_all_space by assumption.
  destruct (lstrip_head s) as [E|(c & t & E & Hc)].
  - assert (Hs : all_space s).
    { clear - E. induction s as [|x s IH]; [constructor|].
      cbn [lstrip] in E. destruct (is_space x) eqn:Hx; [|discriminate].
      constructor; [assumption | now apply IH]. }
    rewrite E, lstrip_all_space, lstrip_all_space_nil by assumption. reflexivity.
  - assert (E' : lstrip (s ++ b) = lstrip s ++ b).
    { clear - E. induction s as [|x s IH]; [discriminate|].
      cbn [app lstrip] in *. destruct (is_space x); [now apply IH | reflexivity]. }
    rewrite E'. now apply rstrip_all_space.
Qed.

(** X1: white space around a cell, before or after, does not change the
    period label found in it. *)
Theorem X1_detect_ignores_padding (a s b : str) :
  all_space a -> all_space b ->
  detect_year_header (a ++ s ++ b) = detect_year_header s.
Proof.
  intros Ha Hb. unfold detect_year_header. now rewrite strip_padded.
Qed.

Lemma X1_witness :
  detect_year_header (u "  " ++ u "2024年3月期" ++ [10; 12288]%N)
  = detect_year_header (u "2024年3月期").
Proof.
  apply X1_detect_ignores_padding; repeat constructor.
Defined.

(** ** What a match consumes and captures *)

Lemma star_consumes (Q : N -> Prop) (p : N -> bool) (s : str) :
  (forall x, p x = true -> Q x) ->
  forall pos caps (k : cont) res,
    star p pos s caps k = Some res ->
    exists pos' s' t,
      k pos' s' caps = Some res /\ s = t ++ s' /\ pos' = pos + length t /\ Forall Q t.
Proof.
  intros Hp. induction s as [|c s IH]; intros pos caps k res; cbn [star].
  - intros H. exists pos, [], []. repeat split; [assumption | cbn [length]; lia | constructor].
  - destruct (p c) eqn:Hc.
    + destruct (star p (S pos) s caps k) as [m|] eqn:E.
      * intros [= <-]. destruct (IH _ _ _ _ E) as (pos' & s' & t & Hk & -> & -> & Ht).
        exists (S pos + length t), s', (c :: t).
        repeat split; [assumption | cbn [length]; lia | constructor; auto].
      * intros H. exists pos, (c :: s), []. repeat split; [assumption | cbn [length]; lia | constructor].
    + intros H. exists pos, (c :: s), []. repeat split; [assumption | cbn [length]; lia | constructor].
Qed.

(** A successful match of a pattern that accepts only [Q] consumes a text of
    [Q] and captures only such texts. *)
Lemma rmatch_consumes (Q : N -> Prop) (r : regex) :
  accepts Q r ->
  forall pos s caps (k : cont) res,
    rmatch r pos s caps k = Some res ->
    exists pos' s' new t,
      k pos' s' (new ++ caps) = Some res /\ s = t ++ s' /\ pos' = pos + length t /\
      Forall Q t /\ forall e, In e new -> Forall Q (snd e).
Proof.
  induction r as [|c|p|r1 IH1 r2 IH2|r1 IH1 r2 IH2|r1 IH1|p|n r1 IH1| |];
    intros Hacc pos s caps k res; cbn [rmatch accepts] in *.
  - intros H. exists pos, s, [], []. repeat split; [assumption | cbn [length]; lia | constructor | intros e []].
  - destruct s as [|x s]; [discriminate|]. destruct (N.eqb_spec x c) as [->|]; [|discriminate].
    intros H. exists (S pos), s, [], [c].
    repeat split; [assumption | cbn [length]; lia | now constructor | intros e []].
  - destruct s as [|x s]; [discriminate|]. destruct (p x) eqn:Hx; [|discriminate].
    intros H. exists (S pos), s, [], [x].
    repeat split; [assumption | cbn [length]; lia | constructor; auto | intros e []].
  - destruct Hacc as [H1 H2]. intros H.
    apply (IH1 H1) in H. destruct H as (pos1 & s1 & new1 & t1 & H & -> & -> & Ht1 & Hn1).
    apply (IH2 H2) in H. destruct H as (pos2 & s2 & new2 & t2 & H & -> & -> & Ht2 & Hn2).
    exists (pos + length t1 + length t2), s2, (new2 ++ new1), (t1 ++ t2).
    rewrite <- !app_assoc, length_app.
    repeat split; [assumption | lia | now apply Forall_app |].
    intros e He. apply in_app_iff in He. destruct He; auto.
  - destruct Hacc as [H1 H2]. destruct (rmatch r1 pos s caps k) as [m|] eqn:E.
    + intros [= <-]. now apply (IH1 H1) in E.
    + intros H. now apply (IH2 H2) in H.
  - destruct (rmatch r1 pos s caps k) as [m|] eqn:E.
    + intros [= <-]. now apply (IH1 Hacc) in E.
    + intros H. exists pos, s, [], [].
      repeat split; [assumption | cbn [length]; lia | constructor | intros e []].
  - intros H. apply (star_consumes Q p s Hacc) in H.
    destruct H as (pos' & s' & t & H & -> & -> & Ht).
    exists (pos + length t), s', [], t. repeat split; [assumption | assumption | intros e []].
  - intros H. apply (IH1 Hacc) in H.
    destruct H as (pos1 & s1 & new1 & t & H & -> & -> & Ht & Hn1).
    exists (pos + length t), s1, ((n, t) :: new1), t.
    replace (pos + length t - pos) with (length t) in H by lia.
    rewrite firstn_app, firstn_all, Nat.sub_diag in H. cbn [firstn] in H.
    rewrite app_nil_r in H.
    repeat split; [assumption | assumption |].
    intros e [<-|He]; [assumption | auto].
  - destruct (Nat.eqb pos 0); [|discriminate].
    intros H. exists pos, s, [], []. repeat split; [assumption | cbn [length]; lia | constructor | intros e []].
  - destruct s as [|c [|c' s]]; try discriminate.
    + intros H. exists pos, [], [], []. repeat split; [assumption | cbn [length]; lia | constructor | intros e []].
    + destruct (c =? 10)%N; [|discriminate].
      intros H. exists pos, [c], [], [].
      repeat split; [assumption | cbn [length]; lia | constructor | intros e []].
Qed.

(** When the groups of a pattern hold only [Q], a match captures only texts
    of [Q]. *)
Lemma rmatch_captures (Q : N -> Prop) (r : regex) :
  groups_hold Q r ->
  forall pos s caps (k : cont) res,
    rmatch r pos s caps k = Some res ->
    exists pos' s' new,
      k pos' s' (new ++ caps) = Some res /\ forall e, In e new -> Forall Q (snd e).
Proof.
  induction r as [|c|p|r1 IH1 r2 IH2|r1 IH1 r2 IH2|r1 IH1|p|n r1 IH1| |];
    intros Hg pos s caps k res; cbn [groups_hold] in *;
    try (intros H; apply rmatch_cont in H;
         destruct H as (pos' & s' & new & H & _ & Hnew);
         cbn [groups_of] in Hnew;
         destruct new as [|e new]; [|destruct (Hnew e (or_introl eq_refl))];
         exists pos', s', []; split; [assumption | intros e []]).
  - cbn [rmatch]. destruct Hg as [H1 H2]. intros H.
    apply (IH1 H1) in H. destruct H as (pos1 & s1 & new1 & H & Hn1).
    apply (IH2 H2) in H. destruct H as (pos2 & s2 & new2 & H & Hn2).
    exists pos2, s2, (new2 ++ new1). rewrite <- app_assoc. split; [assumption|].
    intros e He. apply in_app_iff in He. destruct He; auto.
  - cbn [rmatch]. destruct Hg as [H1 H2]. destruct (rmatch r1 pos s caps k) as [m|] eqn:E.
    + intros [= <-]. now apply (IH1 H1) in E.
    + intros H. now apply (IH2 H2) in H.
  - cbn [rmatch]. destruct (rmatch r1 pos s caps k) as [m|] eqn:E.
    + intros [= <-]. now apply (IH1 Hg) in E.
    + intros H. exists pos, s, []. split; [assumption | intros e []].
  - intros H. apply (rmatch_consumes Q (Grp n r1) Hg) in H.
    destruct H as (pos' & s' & new & t & H & _ & _ & _ & Hnew). now exists pos', s', new.
Qed.

(** ** The characters of a period label *)

Ltac holds_decimal :=
  cbn; unfold decimal; repeat split; try (intros x Hx; exact Hx); try reflexivity.

Lemma group_in_Forall (Q : N -> Prop) (caps : captures) (n : nat) :
  (forall e, In e caps -> Forall Q (snd e)) -> Forall Q (group_in caps n).
Proof.
  intros H. unfold group_in. destruct (find _ caps) as [e|] eqn:E; [|constructor].
  apply find_some in E. apply H, E.
Qed.

Lemma search_groups_decimal (pat : regex) (s : str) (m : match_obj) (n : nat) :
  groups_hold decimal pat -> search pat s = Some m -> n <> 0 ->
  Forall decimal (group m n).
Proof.
  intros Hg H Hn. apply search_from_inv in H. destruct H as (pos & s' & H).
  cbn [rmatch] in H. apply (rmatch_captures decimal pat Hg) in H.
  destruct H as (pos' & s'' & new & H & Hnew). injection H as H.
  rewrite group_is_group_in, <- H. unfold group_in. cbn [find fst].
  destruct (Nat.eqb_spec 0 n) as [E|_]; [congruence|].
  apply (group_in_Forall decimal (new ++ []) n).
  intros e He. rewrite app_nil_r in He. now apply Hnew.
Qed.

Lemma search_bare_decimal (s : str) (m : match_obj) :
  search pat_bare s = Some m -> Forall decimal (group m 0).
Proof.
  intros H. apply search_from_inv in H. destruct H as (pos & s' & H).
  apply (rmatch_consumes decimal (Grp 0 pat_bare)) in H; [|holds_decimal].
  destruct H as (pos' & s'' & new & t & H & _ & _ & _ & Hnew). injection H as H.
  rewrite group_is_group_in, <- H. apply group_in_Forall.
  intros e He. rewrite app_nil_r in He. now apply Hnew.
Qed.

Lemma label_char_decimal (s : str) : Forall decimal s -> Forall label_char s.
Proof. apply Forall_impl. intros c Hc. now left. Qed.

Lemma label_char_text (s : str) :
  (forall c, In c s -> In c [47; 81; 24180; 24230]%N) -> Forall label_char s.
Proof. intros H. apply Forall_forall. intros c Hc. right. now apply H. Qed.

(** A period label is made of decimal digits, slashes, [Q], 年 and 度. *)
Lemma detect_label_chars (s h : str) :
  detect_year_header s = Some h -> Forall label_char h.
Proof.
  unfold detect_year_header, patterns. cbn [first_match].
  assert (Hslash : forall pat m,
            groups_hold decimal pat -> search pat (strip s) = Some m ->
            Forall label_char (fmt_slash m)).
  { intros pat m Hg Hm. unfold fmt_slash. apply Forall_app. split; [|apply Forall_app; split].
    - apply label_char_decimal. now apply (search_groups_decimal pat (strip s)).
    - apply label_char_text. cbn. tauto.
    - apply label_char_decimal. now apply (search_groups_decimal pat (strip s)). }
  destruct (search pat_quarter (strip s)) as [m|] eqn:E1.
  { intros [= <-]. destruct (search_quarter_sound _ _ _ E1) as (d1 & d2 & q & n & Hs & Hg).
    unfold fmt_quarter. rewrite Hg, (upper_quarter_code _ _ _ _ Hs).
    destruct Hs as (H1 & H2 & _ & H4). unfold quarter_code.
    apply Forall_cons; [left; reflexivity|]. apply Forall_cons; [left; reflexivity|].
    apply Forall_cons; [now left|]. apply Forall_cons; [now left|].
    apply Forall_cons; [right; cbn; tauto|].
    apply Forall_cons; [|apply Forall_nil].
    left. destruct (is_1to4_cases n H4) as [->|[->|[->| ->]]]; reflexivity. }
  destruct (search pat_from (strip s)) as [m|] eqn:E2.
  { intros [= <-]. apply (Hslash pat_from); [holds_decimal | assumption]. }
  destruct (search pat_year_month (strip s)) as [m|] eqn:E3.
  { intros [= <-]. apply (Hslash pat_year_month); [holds_decimal | assumption]. }
  destruct (search pat_fiscal (strip s)) as [m|] eqn:E4.
  { intros [= <-]. unfold fmt_fiscal. apply Forall_app. split.
    - apply label_char_decimal.
      apply (search_groups_decimal pat_fiscal (strip s)); [holds_decimal | assumption | discriminate].
    - apply label_char_text. cbn. tauto. }
  destruct (search pat_short (strip s)) as [m|] eqn:E5.
  { intros [= <-]. unfold fmt_short.
    apply Forall_app. split.
    { apply Forall_cons; [left; reflexivity|].
      apply Forall_cons; [left; reflexivity | apply Forall_nil]. }
    apply Forall_app. split; [|apply Forall_app; split].
    - apply label_char_decimal.
      apply (search_groups_decimal pat_short (strip s)); [holds_decimal | assumption | discriminate].
    - apply label_char_text. cbn. tauto.
    - apply label_char_decimal.
      apply (search_groups_decimal pat_short (strip s)); [holds_decimal | assumption | discriminate]. }
  destruct (search pat_slash (strip s)) as [m|] eqn:E6.
  { intros [= <-]. apply (Hslash pat_slash); [holds_decimal | assumption]. }
  destruct (search pat_bare (strip s)) as [m|] eqn:E7; [|discriminate].
  intros [= <-]. apply label_char_decimal. now apply (search_bare_decimal (strip s)).
Qed.

Lemma key_digits_label (h : str) : Forall label_char h -> Forall decimal (key_digits h).
Proof.
  unfold key_digits. induction 1 as [|c h Hc _ IH]; [constructor|].
  cbn [upper map filter]. fold (upper h).
  assert (Hcase : (upper_char c = c /\ c <> 81%N /\ decimal c) \/
                  (upper_char c = c /\ c <> 81%N /\ is_digit c = false) \/ c = 81%N).
  { destruct Hc as [Hd|[<-|[<-|[<-|[<-|[]]]]]].
    - left. split; [now apply decimal_not_lower|]. split; [|assumption].
      intros ->. discriminate.
    - right. left. repeat split; discriminate.
    - right. now right.
    - right. left. repeat split; discriminate.
    - right. left. repeat split; discriminate. }
  change (ch "Q") with 81%N. change (ch "0") with 48%N.
  destruct Hcase as [(-> & Hne & Hd)|[(-> & Hne & Hd)| ->]].
  - apply N.eqb_neq in Hne. rewrite Hne.
    assert (E : is_digit c = true) by (unfold is_digit; unfold decimal in Hd; now rewrite Hd).
    rewrite E. now constructor.
  - apply N.eqb_neq in Hne. rewrite Hne, Hd. exact IH.
  - change (upper_char 81) with 81%N. rewrite N.eqb_refl.
    change (is_digit 48) with true. cbv iota. constructor; [reflexivity | exact IH].
Qed.

(** ** Literals and the place of a match *)

Lemma rmatch_lit (a : str) :
  forall pos s caps k,
    rmatch (lit a) pos s caps k
    = if is_prefix a s then k (pos + length a) (skipn (length a) s) caps else None.
Proof.
  unfold lit. induction a as [|c a IH]; intros pos s caps k; cbn [map seqs fold_right rmatch].
  - cbn [is_prefix length skipn]. now rewrite Nat.add_0_r.
  - fold (seqs (map Chr a)). destruct s as [|x s]; [reflexivity|].
    cbn [is_prefix length skipn]. rewrite (N.eqb_sym c x).
    destruct (x =? c)%N; [|reflexivity]. cbn [andb]. rewrite IH.
    now rewrite Nat.add_succ_r.
Qed.

Lemma is_prefix_true (a s : str) : is_prefix a s = true -> s = a ++ skipn (length a) s.
Proof.
  revert s. induction a as [|c a IH]; intros s; [reflexivity|].
  destruct s as [|x s]; cbn [is_prefix]; [discriminate|].
  intros H. apply andb_true_iff in H. destruct H as [Hc Ha]. apply N.eqb_eq in Hc. subst x.
  cbn [length skipn app]. f_equal. now apply IH.
Qed.

(** A search gives the place of a match and the text from there on. *)
Lemma search_from_at (r : regex) (s : str) :
  forall pos m,
    search_from r pos s = Some m ->
    exists pre s',
      s = pre ++ s' /\ m_start m = pos + length pre /\
      rmatch (Grp 0 r) (m_start m) s' [] (fun _ _ caps => Some caps) = Some (m_groups m).
Proof.
  induction s as [|c s IH]; intros pos m; cbn [search_from].
  - destruct (rmatch _ _ _ _ _) as [caps|] eqn:E; [|discriminate].
    intros [= <-]. exists [], []. cbn [m_start m_groups length app].
    rewrite Nat.add_0_r. now repeat split.
  - destruct (rmatch _ _ _ _ _) as [caps|] eqn:E.
    + intros [= <-]. exists [], (c :: s). cbn [m_start m_groups length app].
      rewrite Nat.add_0_r. now repeat split.
    + intros H. destruct (IH _ _ H) as (pre & s' & -> & Hm & Hr).
      exists (c :: pre), s'. cbn [length app]. repeat split; [lia | assumption].
Qed.

(** ** The shape of the period labels *)

Lemma yields_weaken (P Q : nat -> str -> captures -> Prop) (r : regex) :
  (forall pos t new, P pos t new -> Q pos t new) -> yields P r -> yields Q r.
Proof.
  intros HPQ Hr pos s caps k res H.
  destruct (Hr _ _ _ _ _ H) as (t & s' & new & Hs & HP & Hk).
  exists t, s', new. auto.
Qed.

Lemma yields_eps : yields (fun _ t new => t = [] /\ new = []) Eps.
Proof.
  intros pos s caps k res H. cbn [rmatch] in H. exists [], s, [].
  cbn [app length]. rewrite Nat.add_0_r. auto.
Qed.

Lemma yields_cls (p : N -> bool) :
  yields (fun _ t new => (exists c, t = [c] /\ p c = true) /\ new = []) (Cls p).
Proof.
  intros pos s caps k res H. cbn [rmatch] in H. destruct s as [|x s]; [discriminate|].
  destruct (p x) eqn:Hx; [|discriminate]. exists [x], s, [].
  cbn [app length]. rewrite Nat.add_1_r. repeat split; [now exists x | assumption].
Qed.

Lemma yields_chr (c : N) : yields (fun _ t new => t = [c] /\ new = []) (Chr c).
Proof.
  intros pos s caps k res H. cbn [rmatch] in H. destruct s as [|x s]; [discriminate|].
  destruct (N.eqb_spec x c) as [->|]; [|discriminate]. exists [c], s, [].
  cbn [app length]. rewrite Nat.add_1_r. auto.
Qed.

Lemma yields_seq (P Q : nat -> str -> captures -> Prop) (r1 r2 : regex) :
  yields P r1 -> yields Q r2 ->
  yields (fun pos t new =>
            exists a b na nb,
              t = a ++ b /\ new = nb ++ na /\ P pos a na /\ Q (pos + length a) b nb)
         (Seq r1 r2).
Proof.
  intros H1 H2 pos s caps k res H. cbn [rmatch] in H.
  destruct (H1 _ _ _ _ _ H) as (a & s1 & na & -> & Ha & H').
  destruct (H2 _ _ _ _ _ H') as (b & s2 & nb & -> & Hb & H'').
  exists (a ++ b), s2, (nb ++ na). split; [now rewrite app_assoc|]. split.
  - now exists a, b, na, nb.
  - rewrite length_app, Nat.add_assoc, <- app_assoc. exact H''.
Qed.

Lemma yields_opt (P : nat -> str -> captures -> Prop) (r : regex) :
  yields P r -> yields (fun pos t new => (t = [] /\ new = []) \/ P pos t new) (Opt r).
Proof.
  intros Hr pos s caps k res H. cbn [rmatch] in H.
  destruct (rmatch r pos s caps k) as [m|] eqn:E.
  - injection H as <-. destruct (Hr _ _ _ _ _ E) as (t & s' & new & Hs & HP & Hk).
    exists t, s', new. auto.
  - exists [], s, []. cbn [app length]. rewrite Nat.add_0_r. auto.
Qed.

Lemma yields_star (p : N -> bool) :
  yields (fun _ t new => Forall (fun c => p c = true) t /\ new = []) (Star p).
Proof.
  intros pos s caps k res H. cbn [rmatch] in H.
  destruct (star_consumes (fun c => p c = true) p s (fun x Hx => Hx) _ _ _ _ H)
    as (pos' & s' & t & Hk & -> & -> & Ht).
  exists t, s', []. auto.
Qed.

Lemma yields_grp (P : nat -> str -> captures -> Prop) (n : nat) (r : regex) :
  yields P r ->
  yields (fun pos t new => exists inner, new = (n, t) :: inner /\ P pos t inner) (Grp n r).
Proof.
  intros Hr pos s caps k res H. cbn [rmatch] in H.
  destruct (Hr _ _ _ _ _ H) as (t & s' & new & -> & HP & Hk).
  exists t, s', ((n, t) :: new). split; [reflexivity|]. split; [now exists new|].
  rewrite Nat.add_comm, Nat.add_sub in Hk.
  rewrite firstn_app, Nat.sub_diag, firstn_all in Hk. cbn [firstn] in Hk.
  rewrite app_nil_r, Nat.add_comm in Hk. exact Hk.
Qed.

Lemma yields_bol : yields (fun pos t new => pos = 0 /\ t = [] /\ new = []) Bol.
Proof.
  intros pos s caps k res H. cbn [rmatch] in H.
  destruct (Nat.eqb_spec pos 0) as [->|]; [|discriminate].
  exists [], s, []. cbn [app length]. auto.
Qed.

Lemma yields_eol : yields (fun _ t new => t = [] /\ new = []) Eol.
Proof.
  intros pos s caps k res H. cbn [rmatch] in H.
  assert (Hk : k pos s caps = Some res).
  { destruct s as [|c [|c' s]]; [assumption | | discriminate].
    destruct (c =? 10)%N; [assumption | discriminate]. }
  exists [], s, []. cbn [app length]. rewrite Nat.add_0_r. auto.
Qed.

Lemma yields_lit (a : str) : yields (fun _ t new => t = a /\ new = []) (lit a).
Proof.
  intros pos s caps k res H. rewrite rmatch_lit in H.
  destruct (is_prefix a s) eqn:Hp; [|discriminate]. apply is_prefix_true in Hp.
  exists a, (skipn (length a) s), []. auto.
Qed.

Lemma yields_digit : yields (fun _ t new => digits 1 t /\ new = []) digit.
Proof.
  eapply yields_weaken; [|apply yields_cls].
  intros pos t new [(c & -> & Hc) ->]. split; [|reflexivity].
  split; [reflexivity | now constructor].
Qed.

Lemma digits_app (i j : nat) (a b : str) : digits i a -> digits j b -> digits (i + j) (a ++ b).
Proof.
  intros [La Ha] [Lb Hb]. split; [rewrite length_app; lia | now apply Forall_app].
Qed.

Lemma yields_rep_digit (n : nat) : yields (fun _ t new => digits n t /\ new = []) (rep n digit).
Proof.
  induction n as [|n IH]; unfold rep; cbn [repeat seqs fold_right].
  - eapply yields_weaken; [|apply yields_eps].
    intros pos t new [-> ->]. split; [|reflexivity]. split; [reflexivity | constructor].
  - eapply yields_weaken; [|apply (yields_seq _ _ _ _ yields_digit IH)].
    intros pos t new (a & b & na & nb & -> & -> & [Ha ->] & [Hb ->]).
    split; [|reflexivity]. exact (digits_app 1 n a b Ha Hb).
Qed.

Lemma yields_digit12 : yields (fun _ t new => digits12 t /\ new = []) digit12.
Proof.
  eapply yields_weaken; [|apply (yields_seq _ _ _ _ yields_digit (yields_opt _ _ yields_digit))].
  intros pos t new (a & b & na & nb & -> & -> & [[La Ha] ->] & [[-> ->]|[[Lb Hb] ->]]).
  - split; [|reflexivity]. rewrite app_nil_r. split; [now left | assumption].
  - split; [|reflexivity]. split; [right; rewrite length_app; lia | now apply Forall_app].
Qed.

Ltac yields_step :=
  first [ apply yields_lit | apply yields_rep_digit | apply yields_digit12
        | apply yields_digit | apply yields_bol | apply yields_eol | apply yields_eps
        | apply yields_chr | apply yields_cls | apply yields_star
        | eapply yields_grp | eapply yields_opt | eapply yields_seq ].

Ltac yields_of pat :=
  eapply yields_weaken; cycle 1;
  [ unfold pat; cbn [seqs fold_right]; repeat yields_step | cbn beta ].

(** A search gives the text before the match, the match and its groups. *)
Lemma search_yields (P : nat -> str -> captures -> Prop) (r : regex) (s : str) (m : match_obj) :
  yields P r -> search r s = Some m ->
  exists pre t s' inner,
    s = pre ++ t ++ s' /\ m_groups m = (0, t) :: inner /\ P (length pre) t inner.
Proof.
  intros Hr H. destruct (search_from_at r s 0 m H) as (pre & s0 & -> & Hm & Hrm).
  destruct (yields_grp P 0 r Hr _ _ _ _ _ Hrm) as (t & s' & new & -> & (inner & -> & HP) & Hk).
  injection Hk as Hk. rewrite app_nil_r in Hk. cbn [Nat.add] in Hm. rewrite Hm in HP.
  now exists pre, t, s', inner.
Qed.

Ltac unpack :=
  repeat match goal with
         | H : exists _, _ |- _ => destruct H
         | H : _ /\ _ |- _ => destruct H
         end;
  subst; cbn [app]; rewrite ?app_nil_r.

Lemma yields_quarter :
  yields (fun _ t new =>
            exists y q n, digits 2 y /\ is_Qq q = true /\ is_1to4 n = true /\
                          t = u "20" ++ y ++ [q; n] /\ new = [(1, t)])
         pat_quarter.
Proof.
  yields_of pat_quarter. intros pos t new H. unpack.
  do 3 eexists. refine (conj _ (conj _ (conj _ (conj eq_refl eq_refl)))); eassumption.
Qed.

Ltac unpack_or :=
  repeat match goal with
         | H : _ \/ _ |- _ => destruct H; unpack
         end.

Lemma yields_from :
  yields (fun _ t new =>
            exists a y g, digits 4 y /\ digits12 g /\ In (ch "自") a /\
                          t = a ++ y ++ ch "年" :: g ++ [ch "月"] /\
                          new = [(2, g); (1, y)])
         pat_from.
Proof.
  yields_of pat_from. intros pos t new H. unpack. unpack_or.
  - match goal with
    | |- context [ch "自" :: ?sp ++ ?y ++ ch "年" :: ?g ++ [ch "月"]] =>
      exists (ch "自" :: sp), y, g
    end.
    refine (conj _ (conj _ (conj (or_introl eq_refl) (conj eq_refl eq_refl)))); eassumption.
  - match goal with
    | |- context [ch "自" :: ?sp ++ ?y ++ ch "年" :: ?g ++ [ch "月"]] =>
      exists (ch "(" :: ch "自" :: sp), y, g
    end.
    refine (conj _ (conj _ (conj (or_intror (or_introl eq_refl)) (conj eq_refl eq_refl))));
      eassumption.
Qed.

Lemma yields_year_month :
  yields (fun _ t new =>
            exists y g, digits 4 y /\ digits12 g /\
                        t = y ++ ch "年" :: g ++ [ch "月"] /\ new = [(2, g); (1, y)])
         pat_year_month.
Proof.
  yields_of pat_year_month. intros pos t new H. unpack.
  do 2 eexists. refine (conj _ (conj _ (conj eq_refl eq_refl))); eassumption.
Qed.

Lemma yields_fiscal :
  yields (fun _ t new => exists y, digits 4 y /\ t = y ++ u "年度" /\ new = [(1, y)])
         pat_fiscal.
Proof.
  yields_of pat_fiscal. intros pos t new H. unpack.
  eexists. refine (conj _ (conj eq_refl eq_refl)); eassumption.
Qed.

Lemma yields_short :
  yields (fun pos t new =>
            exists a y g, pos = 0 /\ (a = [] \/ a = [ch "'"]) /\ digits 2 y /\ digits12 g /\
                          t = a ++ y ++ ch "/" :: g /\ new = [(2, g); (1, y)])
         pat_short.
Proof.
  yields_of pat_short. intros pos t new H. unpack. unpack_or.
  - exists []. do 2 eexists.
    refine (conj eq_refl (conj (or_introl eq_refl) (conj _ (conj _ (conj eq_refl eq_refl)))));
      eassumption.
  - exists [ch "'"]. do 2 eexists.
    refine (conj eq_refl (conj (or_intror eq_refl) (conj _ (conj _ (conj eq_refl eq_refl)))));
      eassumption.
Qed.

Lemma yields_slash :
  yields (fun _ t new =>
            exists y g, digits 4 y /\ digits12 g /\
                        t = y ++ ch "/" :: g /\ new = [(2, g); (1, y)])
         pat_slash.
Proof.
  yields_of pat_slash. intros pos t new H. unpack.
  do 2 eexists. refine (conj _ (conj _ (conj eq_refl eq_refl))); eassumption.
Qed.

Lemma yields_bare :
  yields (fun pos t new =>
            pos = 0 /\
            exists y, digits 2 y /\
              (t = u "20" ++ y \/ exists m, digits 2 m /\ t = u "20" ++ y ++ m))
         pat_bare.
Proof.
  yields_of pat_bare. intros pos t new H. unpack. unpack_or.
  - split; [reflexivity|]. eexists. split; [eassumption|]. now left.
  - split; [reflexivity|]. eexists.
    refine (conj _ (or_intror (ex_intro _ _ (conj _ eq_refl)))); eassumption.
Qed.

Lemma upper_decimal (y : str) : Forall decimal y -> upper y = y.
Proof.
  induction 1 as [|c y Hc _ IH]; [reflexivity|]. unfold upper in *. cbn [map].
  now rewrite IH, (decimal_not_lower c Hc).
Qed.

Lemma upper_Qq (q : N) : is_Qq q = true -> upper_char q = 81%N.
Proof.
  unfold is_Qq. intros H. apply orb_true_iff in H.
  destruct H as [H|H]; apply N.eqb_eq in H; subst q; reflexivity.
Qed.

Lemma upper_1to4 (n : N) : is_1to4 n = true -> upper_char n = n.
Proof. intros H. destruct (is_1to4_cases n H) as [->|[->|[->| ->]]]; reflexivity. Qed.

Ltac groups_of_match H :=
  unfold fmt_quarter, fmt_slash, fmt_fiscal, fmt_short, fmt_bare, group;
  rewrite H; cbn [find fst snd Nat.eqb].

(** Every label has one of the five shapes. *)
Lemma detect_shape (s h : str) : detect_year_header s = Some h -> label_shape h.
Proof.
  unfold detect_year_header, patterns. cbn [first_match].
  destruct (search pat_quarter (strip s)) as [m|] eqn:E1.
  { intros [= <-].
    destruct (search_yields _ _ _ _ yields_quarter E1)
      as (pre & t & s' & inner & _ & Hg & (y & q & n & Hy & Hq & Hn & -> & ->)).
    groups_of_match Hg. unfold upper. rewrite !map_app. cbn [map].
    fold (upper y). rewrite (upper_decimal y (proj2 Hy)), (upper_Qq q Hq), (upper_1to4 n Hn).
    now apply shape_quarter. }
  destruct (search pat_from (strip s)) as [m|] eqn:E2.
  { intros [= <-].
    destruct (search_yields _ _ _ _ yields_from E2)
      as (pre & t & s' & inner & _ & Hg & (a & y & g & Hy & Hm & _ & -> & ->)).
    groups_of_match Hg. now apply shape_month. }
  destruct (search pat_year_month (strip s)) as [m|] eqn:E3.
  { intros [= <-].
    destruct (search_yields _ _ _ _ yields_year_month E3)
      as (pre & t & s' & inner & _ & Hg & (y & g & Hy & Hm & -> & ->)).
    groups_of_match Hg. now apply shape_month. }
  destruct (search pat_fiscal (strip s)) as [m|] eqn:E4.
  { intros [= <-].
    destruct (search_yields _ _ _ _ yields_fiscal E4)
      as (pre & t & s' & inner & _ & Hg & (y & Hy & -> & ->)).
    groups_of_match Hg. now apply shape_fiscal. }
  destruct (search pat_short (strip s)) as [m|] eqn:E5.
  { intros [= <-].
    destruct (search_yields _ _ _ _ yields_short E5)
      as (pre & t & s' & inner & _ & Hg & (a & y & g & _ & _ & Hy & Hm & -> & ->)).
    groups_of_match Hg.
    change (u "20" ++ y ++ u "/" ++ g) with ((u "20" ++ y) ++ u "/" ++ g).
    apply shape_month; [|assumption].
    apply (digits_app 2 2); [|assumption]. split; [reflexivity | now repeat constructor]. }
  destruct (search pat_slash (strip s)) as [m|] eqn:E6.
  { intros [= <-].
    destruct (search_yields _ _ _ _ yields_slash E6)
      as (pre & t & s' & inner & _ & Hg & (y & g & Hy & Hm & -> & ->)).
    groups_of_match Hg. now apply shape_month. }
  destruct (search pat_bare (strip s)) as [m|] eqn:E7; [|discriminate].
  intros [= <-].
  destruct (search_yields _ _ _ _ yields_bare E7)
    as (pre & t & s' & inner & _ & Hg & (_ & y & Hy & [->|(g & Hm & ->)])).
  - groups_of_match Hg. now apply shape_year.
  - groups_of_match Hg. now apply shape_year_month.
Qed.

(** *** A label is read as itself *)

Ltac decimal_absurd Hd d :=
  exfalso; revert Hd; unfold decimal, is_decimal, decimal_value;
  cbv [find decimal_zeros];
  repeat match goal with
  | |- context [((?z <=? d)%N && (d <? ?w)%N)] =>
    let F := fresh in
    destruct ((z <=? d)%N && (d <? w)%N) eqn:F;
    [ apply andb_true_iff in F; destruct F as [F F'];
      apply N.leb_le in F; apply N.ltb_lt in F'; lia
    | clear F ]
  end;
  discriminate.

Lemma decimal_not_space (c : N) : decimal c -> is_space c = false.
Proof.
  intros Hd. destruct (is_space c) eqn:E; [|reflexivity].
  unfold is_space, in_ranges in E. cbv [existsb fst snd] in E.
  repeat (apply orb_true_iff in E; destruct E as [E|E]); try discriminate;
    apply andb_true_iff in E; destruct E as [E1 E2];
    apply N.leb_le in E1; apply N.leb_le in E2; decimal_absurd Hd c.
Qed.

Lemma strip_no_space (h : str) : Forall (fun c => is_space c = false) h -> strip h = h.
Proof.
  assert (L : forall t, Forall (fun c => is_space c = false) t -> lstrip t = t).
  { intros t Ht. destruct Ht as [|c t Hc _]; [reflexivity|]. now apply lstrip_fixed. }
  intros H. unfold strip, rstrip. rewrite (L h H), (L (rev h)) by now apply Forall_rev.
  apply rev_involutive.
Qed.

Lemma label_shape_no_space (h : str) :
  label_shape h -> Forall (fun c => is_space c = false) h.
Proof.
  assert (D : forall n y, digits n y -> Forall (fun c => is_space c = false) y).
  { intros n y [_ Hy]. eapply Forall_impl; [|exact Hy]. apply decimal_not_space. }
  destruct 1 as [y n Hy Hn|y m Hy [_ Hm]|y Hy|y Hy|y m Hy Hm];
    repeat (apply Forall_app; split); eauto;
    try (repeat constructor; fail).
  - constructor; [reflexivity|]. constructor; [|constructor]. now apply is_1to4_not_space.
  - eapply Forall_impl; [|exact Hm]. apply decimal_not_space.
Qed.

Lemma digits_2 (y : str) :
  digits 2 y -> exists a b, y = [a; b] /\ is_decimal a = true /\ is_decimal b = true.
Proof.
  intros [L H]. destruct y as [|a [|b [|c y]]]; try discriminate.
  inversion H as [|? ? Ha H']; inversion H' as [|? ? Hb _]; subst. now exists a, b.
Qed.

Lemma digits_4 (y : str) :
  digits 4 y ->
  exists a b c d, y = [a; b; c; d] /\ is_decimal a = true /\ is_decimal b = true /\
                  is_decimal c = true /\ is_decimal d = true.
Proof.
  intros [L H]. destruct y as [|a [|b [|c [|d [|e y]]]]]; try discriminate.
  inversion H as [|? ? Ha Ha']; inversion Ha' as [|? ? Hb Hb'];
    inversion Hb' as [|? ? Hc Hc']; inversion Hc' as [|? ? Hd _]; subst.
  now exists a, b, c, d.
Qed.

Lemma digits_12 (m : str) :
  digits12 m ->
  (exists a, m = [a] /\ is_decimal a = true) \/
  (exists a b, m = [a; b] /\ is_decimal a = true /\ is_decimal b = true).
Proof.
  intros [[L|L] H].
  - left. destruct m as [|a [|b m]]; try discriminate. inversion H; subst. now exists a.
  - right. now apply digits_2.
Qed.

(** A pattern matches only in a text that holds one of the characters it
    needs. *)
Lemma search_needs (P : nat -> str -> captures -> Prop) (cs : list N) (r : regex)
    (s : str) (m : match_obj) :
  yields P r ->
  (forall pos t new, P pos t new -> exists c, In c cs /\ In c t) ->
  search r s = Some m -> exists c, In c cs /\ In c s.
Proof.
  intros Hr HP H.
  destruct (search_yields P r s m Hr H) as (pre & t & s' & inner & -> & _ & Ht).
  destruct (HP _ _ _ Ht) as (c & Hc & Hin). exists c. split; [assumption|].
  apply in_or_app. right. apply in_or_app. now left.
Qed.

Lemma needs_quarter (s : str) (m : match_obj) :
  search pat_quarter s = Some m -> exists c, In c [81; 113]%N /\ In c s.
Proof.
  apply (search_needs _ _ _ _ _ yields_quarter).
  intros pos t new (y & q & n & _ & Hq & _ & -> & _). exists q. split.
  - unfold is_Qq in Hq. apply orb_true_iff in Hq.
    destruct Hq as [Hq|Hq]; apply N.eqb_eq in Hq; subst q; cbn; tauto.
  - apply in_or_app. right. apply in_or_app. right. now left.
Qed.

Lemma needs_from (s : str) (m : match_obj) :
  search pat_from s = Some m -> exists c, In c [ch "月"] /\ In c s.
Proof.
  apply (search_needs _ _ _ _ _ yields_from).
  intros pos t new (a & y & g & _ & _ & _ & -> & _). exists (ch "月"). split; [now left|].
  apply in_or_app. right. apply in_or_app. right. right. apply in_or_app. right. now left.
Qed.

Lemma needs_year_month (s : str) (m : match_obj) :
  search pat_year_month s = Some m -> exists c, In c [ch "月"] /\ In c s.
Proof.
  apply (search_needs _ _ _ _ _ yields_year_month).
  intros pos t new (y & g & _ & _ & -> & _). exists (ch "月"). split; [now left|].
  apply in_or_app. right. right. apply in_or_app. right. now left.
Qed.

Lemma needs_fiscal (s : str) (m : match_obj) :
  search pat_fiscal s = Some m -> exists c, In c [ch "度"] /\ In c s.
Proof.
  apply (search_needs _ _ _ _ _ yields_fiscal).
  intros pos t new (y & _ & -> & _). exists (ch "度"). split; [now left|].
  apply in_or_app. right. right. now left.
Qed.

Lemma needs_short (s : str) (m : match_obj) :
  search pat_short s = Some m -> exists c, In c [ch "/"] /\ In c s.
Proof.
  apply (search_needs _ _ _ _ _ yields_short).
  intros pos t new (a & y & g & _ & _ & _ & _ & -> & _). exists (ch "/"). split; [now left|].
  apply in_or_app. right. apply in_or_app. right. now left.
Qed.

Lemma needs_slash (s : str) (m : match_obj) :
  search pat_slash s = Some m -> exists c, In c [ch "/"] /\ In c s.
Proof.
  apply (search_needs _ _ _ _ _ yields_slash).
  intros pos t new (y & g & _ & _ & -> & _). exists (ch "/"). split; [now left|].
  apply in_or_app. right. now left.
Qed.

Ltac absurd_chars :=
  repeat match goal with
         | H : In _ (_ :: _) |- _ => destruct H as [H|H]
         | H : In _ [] |- _ => destruct H
         end;
  subst; try discriminate;
  match goal with
  | H : is_decimal ?k = true |- _ =>
    tryif is_var k then fail else (vm_compute in H; discriminate H)
  end.

Ltac no_match needs :=
  match goal with
  | |- context [search ?pat ?h] =>
    let E := fresh "E" in
    destruct (search pat h) as [?|] eqn:E;
    [ exfalso; apply needs in E; destruct E as (? & ? & ?); absurd_chars | ]
  end.

Ltac run_match :=
  repeat (first
    [ match goal with
      | H : is_decimal ?x = true |- context [is_decimal ?x] => rewrite H
      | H : is_1to4 ?x = true |- context [is_1to4 ?x] => rewrite H
      end
    | match goal with
      | |- context [(?x =? ?y)%N] =>
        let v := eval vm_compute in (x =? y)%N in
        match v with
        | true => change (x =? y)%N with true
        | false => change (x =? y)%N with false
        end
      | |- context [is_Qq ?x] =>
        let v := eval vm_compute in (is_Qq x) in
        match v with
        | true => change (is_Qq x) with true
        end
      end ];
    cbv beta iota).

Ltac hit pat :=
  apply search_from_hit; unfold pat, digit12, rep, digit, lit;
  change (u "20") with [50%N; 48%N]; change (u "年度") with [24180%N; 24230%N];
  cbn [map seqs fold_right repeat rmatch Nat.eqb]; run_match; reflexivity.

Ltac read_groups :=
  unfold fmt_quarter, fmt_slash, fmt_fiscal, fmt_short, fmt_bare, group;
  cbn [m_groups find fst snd Nat.eqb Nat.sub firstn app].

(** The short pattern does not match a text that begins with three decimal
    digits. *)
Lemma short_misses (a b c : N) (rest : str) :
  is_decimal a = true -> is_decimal b = true -> is_decimal c = true ->
  search pat_short (a :: b :: c :: rest) = None.
Proof.
  intros Ha Hb Hc. destruct (search pat_short _) as [m|] eqn:E; [exfalso|reflexivity].
  destruct (search_yields _ _ _ _ yields_short E)
    as (pre & t & s' & inner & Hs & _ & (x & y & g & Hp & Hx & Hy & _ & -> & _)).
  destruct pre; [|discriminate]. cbn [app] in Hs.
  destruct (digits_2 y Hy) as (p & q & -> & _ & _).
  destruct Hx as [->| ->]; cbn [app] in Hs.
  - injection Hs as _ _ E3 _. subst c. vm_compute in Hc. discriminate.
  - injection Hs as E1 _. subst a. vm_compute in Ha. discriminate.
Qed.

Lemma read_quarter (y : str) (n : N) :
  digits 2 y -> is_1to4 n = true ->
  first_match patterns (u "20" ++ y ++ [81%N; n]) = Some (u "20" ++ y ++ [81%N; n]).
Proof.
  intros Hy Hn. destruct (digits_2 y Hy) as (a & b & -> & Ha & Hb).
  change (u "20") with [50%N; 48%N]. cbn [app]. unfold patterns; cbn [first_match].
  assert (Hit : search pat_quarter [50; 48; a; b; 81; n]%N
              = Some {| m_start := 0;
                        m_groups := [(0, [50; 48; a; b; 81; n]%N);
                                     (1, [50; 48; a; b; 81; n]%N)] |}) by hit pat_quarter.
  rewrite Hit. read_groups. unfold upper. cbn [map].
  rewrite (decimal_not_lower a Ha), (decimal_not_lower b Hb), (upper_1to4 n Hn).
  reflexivity.
Qed.

Lemma read_month (y m : str) :
  digits 4 y -> digits12 m ->
  first_match patterns (y ++ u "/" ++ m) = Some (y ++ u "/" ++ m).
Proof.
  intros Hy Hm. destruct (digits_4 y Hy) as (a & b & c & d & -> & Ha & Hb & Hc & Hd).
  change (u "/") with [47%N].
  destruct (digits_12 m Hm) as [(m1 & -> & H1)|(m1 & m2 & -> & H1 & H2)]; cbn [app];
    unfold patterns; cbn [first_match];
    no_match needs_quarter; no_match needs_from; no_match needs_year_month;
    no_match needs_fiscal; rewrite (short_misses a b c _ Ha Hb Hc).
  - assert (Hit : search pat_slash [a; b; c; d; 47; m1]%N
                = Some {| m_start := 0;
                          m_groups := [(0, [a; b; c; d; 47; m1]%N); (2, [m1]);
                                       (1, [a; b; c; d])] |}) by hit pat_slash.
    rewrite Hit. reflexivity.
  - assert (Hit : search pat_slash [a; b; c; d; 47; m1; m2]%N
                = Some {| m_start := 0;
                          m_groups := [(0, [a; b; c; d; 47; m1; m2]%N); (2, [m1; m2]);
                                       (1, [a; b; c; d])] |}) by hit pat_slash.
    rewrite Hit. reflexivity.
Qed.

Lemma read_fiscal (y : str) :
  digits 4 y -> first_match patterns (y ++ u "年度") = Some (y ++ u "年度").
Proof.
  intros Hy. destruct (digits_4 y Hy) as (a & b & c & d & -> & Ha & Hb & Hc & Hd).
  change (u "年度") with [24180%N; 24230%N]. cbn [app]. unfold patterns; cbn [first_match].
  no_match needs_quarter. no_match needs_from. no_match needs_year_month.
  assert (Hit : search pat_fiscal [a; b; c; d; 24180; 24230]%N
              = Some {| m_start := 0;
                        m_groups := [(0, [a; b; c; d; 24180; 24230]%N);
                                     (1, [a; b; c; d])] |}) by hit pat_fiscal.
  rewrite Hit. reflexivity.
Qed.

Lemma read_year (y : str) :
  digits 2 y -> first_match patterns (u "20" ++ y) = Some (u "20" ++ y).
Proof.
  intros Hy. destruct (digits_2 y Hy) as (a & b & -> & Ha & Hb).
  change (u "20") with [50%N; 48%N]. cbn [app]. unfold patterns; cbn [first_match].
  no_match needs_quarter. no_match needs_from. no_match needs_year_month.
  no_match needs_fiscal. no_match needs_short. no_match needs_slash.
  assert (Hit : search pat_bare [50; 48; a; b]%N
              = Some {| m_start := 0; m_groups := [(0, [50; 48; a; b]%N)] |})
    by hit pat_bare.
  rewrite Hit. reflexivity.
Qed.

Lemma read_year_month (y m : str) :
  digits 2 y -> digits 2 m ->
  first_match patterns (u "20" ++ y ++ m) = Some (u "20" ++ y ++ m).
Proof.
  intros Hy Hm. destruct (digits_2 y Hy) as (a & b & -> & Ha & Hb).
  destruct (digits_2 m Hm) as (c & d & -> & Hc & Hd).
  change (u "20") with [50%N; 48%N]. cbn [app]. unfold patterns; cbn [first_match].
  no_match needs_quarter. no_match needs_from. no_match needs_year_month.
  no_match needs_fiscal. no_match needs_short. no_match needs_slash.
  assert (Hit : search pat_bare [50; 48; a; b; c; d]%N
              = Some {| m_start := 0;
                        m_groups := [(0, [50; 48; a; b; c; d]%N); (1, [c; d])] |})
    by hit pat_bare.
  rewrite Hit. reflexivity.
Qed.

Lemma label_read_back (h : str) : label_shape h -> detect_year_header h = Some h.
Proof.
  intros H. unfold detect_year_header.
  rewrite (strip_no_space h (label_shape_no_space h H)).
  destruct H as [y n Hy Hn|y m Hy Hm|y Hy|y Hy|y m Hy Hm].
  - now apply read_quarter.
  - now apply read_month.
  - now apply read_fiscal.
  - now apply read_year.
  - now apply read_year_month.
Qed.

(** X23: the labels and their round trip.  Every label that detection gives
    is a quarter code 20YYQn, a month YYYY/M or YYYY/MM, a fiscal year
    YYYY年度, a year 20YY or a year and month 20YYMM (Y and M decimal digits, n
    from 1 to 4); and every text of one of these shapes is detected as itself.
    So the period columns of a summary, read again, are the same labels. *)
Theorem X23_labels_read_back :
  (forall s h, detect_year_header s = Some h -> label_shape h) /\
  (forall h, label_shape h -> detect_year_header h = Some h) /\
  (forall s h, detect_year_header s = Some h -> detect_year_header h = Some h).
Proof.
  split; [exact detect_shape|]. split; [exact label_read_back|].
  intros s h H. apply label_read_back. exact (detect_shape s h H).
Qed.

Lemma X23_witness : detect_year_header (u "2024/3") = Some (u "2024/3").
Proof.
  apply (proj2 (proj2 X23_labels_read_back) (u "(自 2024年3月1日 至 2025年2月28日)")).
  reflexivity.
Defined.

(** X2: a period label begins with a decimal digit; so it is never empty
    (the truth tests of the mergers never discard a label) and never the name
    of the label column. *)
Theorem X2_label_begins_with_digit (s h : str) :
  detect_year_header s = Some h ->
  digit_first h /\ h <> [] /\ h <> common_item /\
  truthy (detect_year_header s) = Some h.
Proof.
  intros H. pose proof (detect_digit_first s h H) as Hd.
  split; [assumption|]. destruct Hd as (d & t & -> & Hd).
  repeat split; try discriminate.
  - intros E. vm_compute in E. injection E as E _. subst d. discriminate.
  - now rewrite H.
Qed.

Lemma X2_witness :
  digit_first (u "2024/4") /\ u "2024/4" <> [] /\ u "2024/4" <> common_item /\
  truthy (detect_year_header (u "(自 2024年4月1日")) = Some (u "2024/4").
Proof. apply X2_label_begins_with_digit. reflexivity. Defined.

Lemma key_digits_length (h : str) : length (key_digits h) <= length h.
Proof.
  unfold key_digits, upper. etransitivity; [apply filter_length_le|].
  now rewrite !length_map.
Qed.

Lemma label_shape_length (h : str) : label_shape h -> length h <= 7.
Proof.
  destruct 1 as [y n [Ly _] _|y m [Ly _] [Lm _]|y [Ly _]|y [Ly _]|y m [Ly _] [Lm _]];
    rewrite ?length_app; cbn [length]; rewrite ?length_app; cbn [length];
    change (length (u "20")) with 2; change (length (u "/")) with 1;
    change (length (u "年度")) with 2; lia.
Qed.

(** A label has a sort key. *)
Lemma label_sort_key (s h : str) :
  detect_year_header s = Some h -> exists k, sort_key h = Ok k.
Proof.
  intros H. apply sort_key_total.
  - exact (key_digits_label h (detect_label_chars s h H)).
  - pose proof (key_digits_length h). pose proof (label_shape_length h (detect_shape s h H)).
    lia.
Qed.

(** X3: a period label holds only decimal digits, slashes, [Q], 年 and 度, and
    therefore always has a sort key, which is not negative. *)
Theorem X3_label_has_sort_key (s h : str) :
  detect_year_header s = Some h ->
  Forall label_char h /\ exists k, sort_key h = Ok k /\ (0 <= k)%Z.
Proof.
  intros H. pose proof (detect_label_chars s h H) as Hl. split; [assumption|].
  destruct (label_sort_key s h H) as [k Hk].
  exists k. split; [assumption|]. now apply (sort_key_bounds h k).
Qed.

Lemma X3_witness :
  Forall label_char (u "2023年度") /\ exists k, sort_key (u "2023年度") = Ok k /\ (0 <= k)%Z.
Proof. apply (X3_label_has_sort_key (u " 2023年度 実績")). reflexivity. Defined.

(** ** Slots: what processing keeps true *)

Section Slots.
Context {NUM : Numeric}.

Lemma set_slot_inv (P : slot -> Prop) (i : nat) (s : slot) (st : list slot) :
  P empty_slot -> P s -> Forall P st -> Forall P (set_slot i s st).
Proof.
  intros He Hs. revert st. induction i as [|i IH]; intros [|x st] Hst; cbn [set_slot].
  - now constructor.
  - inversion Hst; subst. now constructor.
  - constructor; [assumption | apply IH; constructor].
  - inversion Hst; subst. constructor; [assumption | now apply IH].
Qed.

Lemma get_slot_inv (P : slot -> Prop) (i : nat) (st : list slot) :
  P empty_slot -> Forall P st -> P (get_slot i st).
Proof.
  intros He Hst. unfold get_slot. revert i.
  induction Hst as [|x st Hx Hst IH]; intros [|i]; cbn [nth]; auto.
Qed.

Lemma table_inputs_cons (w : nat) (c : list (list cell)) (cs : list (list (list cell)))
    (df : dataframe) :
  In df (table_inputs w (c :: cs)) <-> In df (table_inputs w [c]) \/ In df (table_inputs w cs).
Proof. unfold table_inputs. cbn [flat_map]. rewrite app_nil_r. apply in_app_iff. Qed.

Lemma merger_inputs_cons (w : nat) (fc : list (list cell)) (fcs : list (list (list cell)))
    (df : dataframe) :
  In df (merger_inputs w (fc :: fcs))
  <-> In df (table_inputs w (table_chunks fc)) \/ In df (merger_inputs w fcs).
Proof. unfold merger_inputs. cbn [flat_map]. apply in_app_iff. Qed.

Lemma table_inputs_one (w : nat) (chunk : list (list cell)) (row : list cell)
    (clean : list (list cell)) :
  clean_table_chunk chunk = row :: clean ->
  In {| ncols := w; rows := row :: clean |} (table_inputs w [chunk]).
Proof. intros E. unfold table_inputs. cbn [flat_map]. rewrite E. now left. Qed.

Lemma process_table_chunk_inv (I : dataframe -> Prop) (P : slot -> Prop)
    (mode : integration_mode) (w i : nat) (chunk : list (list cell)) (st st' : list slot) :
  invariant I mode P -> (forall df, In df (table_inputs w [chunk]) -> I df) ->
  Forall P st ->
  process_table_chunk mode w i chunk st = Ok st' -> Forall P st'.
Proof.
  intros [He HP] HI Hst. unfold process_table_chunk.
  destruct (clean_table_chunk chunk) as [|row clean] eqn:Hc; [now intros [= <-]|].
  destruct (run_merger mode _) as [[[f|] item_order]|] eqn:E; cbn [bind];
    [|now intros [= <-] | discriminate].
  destruct (frame_empty f) eqn:Hf; [now intros [= <-]|].
  intros [= <-]. unfold contribute. apply set_slot_inv; [assumption| |assumption].
  apply (HP _ _ _ _ (HI _ (table_inputs_one w chunk row clean Hc)) E Hf).
  now apply get_slot_inv.
Qed.

Lemma process_table_chunks_inv (I : dataframe -> Prop) (P : slot -> Prop)
    (mode : integration_mode) (w : nat) (chunks : list (list (list cell))) :
  invariant I mode P -> (forall df, In df (table_inputs w chunks) -> I df) ->
  forall i st st',
    Forall P st -> process_table_chunks mode w i chunks st = Ok st' -> Forall P st'.
Proof.
  intros HP. induction chunks as [|chunk chunks IH]; intros HI i st st' Hst;
    cbn [process_table_chunks].
  - now intros [= <-].
  - destruct (process_table_chunk mode w i chunk st) as [st1|] eqn:E; [|discriminate].
    cbn [bind]. apply IH.
    + intros df Hdf. apply HI, table_inputs_cons. now right.
    + eapply process_table_chunk_inv; [exact HP| |exact Hst|exact E].
      intros df Hdf. apply HI, table_inputs_cons. now left.
Qed.

Lemma process_file_chunks_inv (I : dataframe -> Prop) (P : slot -> Prop)
    (mode : integration_mode) (w : nat) (chunks : list (list (list cell))) :
  invariant I mode P -> (forall df, In df (merger_inputs w chunks) -> I df) ->
  forall st st',
    Forall P st -> process_file_chunks mode w chunks st = Ok st' -> Forall P st'.
Proof.
  intros HP. induction chunks as [|chunk chunks IH]; intros HI st st' Hst;
    cbn [process_file_chunks].
  - now intros [= <-].
  - destruct (process_table_chunks mode w 0 (table_chunks chunk) st) as [st1|] eqn:E;
      [|discriminate].
    cbn [bind]. apply IH.
    + intros df Hdf. apply HI, merger_inputs_cons. now right.
    + eapply process_table_chunks_inv; [exact HP| |exact Hst|exact E].
      intros df Hdf. apply HI, merger_inputs_cons. now left.
Qed.

(** A property that the frames a merger makes of the chunks in [I] have
    holds of every frame of every slot. *)
Lemma frames_invariant (I : dataframe -> Prop) (Q : frame -> Prop) (mode : integration_mode) :
  (forall df f l, I df -> run_merger mode df = Ok (Some f, l) -> Q f) ->
  invariant I mode (fun s => Forall Q (list_of_dfs s)).
Proof.
  intros HQ. split; [constructor|].
  intros df f l s Hdf E _ Hs. cbn [extend list_of_dfs]. apply Forall_app.
  split; [assumption|]. constructor; [|constructor]. exact (HQ _ _ _ Hdf E).
Qed.

(** *** The rows handed to a merger are rows of the sheet *)

Lemma In_firstn_list {A : Type} (n : nat) (l : list A) (x : A) :
  In x (firstn n l) -> In x l.
Proof. intros H. rewrite <- (firstn_skipn n l). apply in_or_app. now left. Qed.

Lemma In_skipn_list {A : Type} (n : nat) (l : list A) (x : A) :
  In x (skipn n l) -> In x l.
Proof. intros H. rewrite <- (firstn_skipn n l). apply in_or_app. now right. Qed.

Lemma In_slice {A : Type} (a b : nat) (l : list A) (x : A) : In x (slice a b l) -> In x l.
Proof. unfold slice. intros H. eapply In_skipn_list, In_firstn_list, H. Qed.

Lemma chunks_from_rows {A : Type} (indices : list nat) (l : list A) (c : list A) (x : A) :
  In c (chunks_from indices l) -> In x c -> In x l.
Proof.
  induction indices as [|a rest IH]; cbn [chunks_from]; [intros []|].
  intros [<-|Hc] Hx; [eapply In_slice, Hx | now apply IH].
Qed.

Lemma file_chunks_rows (l : list (list cell)) (fc : list (list cell)) (row : list cell) :
  In fc (file_chunks l) -> In row fc -> In row l.
Proof.
  unfold file_chunks. destruct (indices_where _ l) as [|a rest].
  - intros [<-|[]]. trivial.
  - apply chunks_from_rows.
Qed.

Lemma In_non_empty {A : Type} (c l : list A) : In c (non_empty l) -> c = l.
Proof. destruct l; [intros [] | intros [<-|[]]; reflexivity]. Qed.

Lemma split_pages_rows {A : Type} (indices : list nat) (l : list A) :
  forall last c x, In c (split_pages indices last l) -> In x c -> In x l.
Proof.
  induction indices as [|a rest IH]; intros last c x; cbn [split_pages].
  - intros Hc Hx. apply In_non_empty in Hc. subst c. eapply In_skipn_list, Hx.
  - intros Hc Hx. apply in_app_or in Hc. destruct Hc as [Hc|Hc].
    + apply In_non_empty in Hc. subst c. eapply In_slice, Hx.
    + eapply IH; eassumption.
Qed.

Lemma table_chunks_rows (fc tc : list (list cell)) (row : list cell) :
  In tc (table_chunks fc) -> In row tc -> In row fc.
Proof.
  unfold table_chunks. destruct (indices_where _ fc) as [|a rest].
  - intros Hc Hx. apply In_non_empty in Hc. subst tc. unfold dropna_all in Hx.
    apply filter_In in Hx. destruct Hx as [Hx _]. apply filter_In in Hx. apply Hx.
  - apply split_pages_rows.
Qed.

Lemma merger_inputs_rows (w : nat) (fcs : list (list (list cell))) (input : dataframe) :
  In input (merger_inputs w fcs) ->
  ncols input = w /\
  forall row, In row (rows input) -> exists fc, In fc fcs /\ In row fc.
Proof.
  unfold merger_inputs, table_inputs. intros H.
  apply in_flat_map in H. destruct H as (fc & Hfc & H).
  apply in_flat_map in H. destruct H as (tc & Htc & H).
  destruct (clean_table_chunk tc) as [|r clean] eqn:E; [destruct H|].
  destruct H as [<-|[]]. cbn [ncols rows]. split; [reflexivity|].
  intros row Hrow. exists fc. split; [assumption|].
  apply (table_chunks_rows fc tc row Htc). rewrite <- E in Hrow.
  now apply clean_table_chunk_no_marker in Hrow.
Qed.

Lemma sheet_inputs_rows (df input : dataframe) :
  In input (sheet_inputs df) ->
  ncols input = ncols df /\
  forall row, In row (rows input) -> In row (map stringify_col0 (rows df)).
Proof.
  intros H. destruct (merger_inputs_rows _ _ _ H) as [Hn Hr]. split; [assumption|].
  intros row Hrow. destruct (Hr row Hrow) as (fc & Hfc & Hin).
  exact (file_chunks_rows _ fc row Hfc Hin).
Qed.

(** *** The numbers that the frames hold *)

Lemma parse_value_stringify (row : list cell) (c : nat) :
  parse_value (cell_at (stringify_col0 row) c) = parse_value (cell_at row c).
Proof.
  unfold parse_value. f_equal. f_equal. unfold cell_at.
  destruct row as [|[x|] row]; destruct c as [|[|c]]; reflexivity.
Qed.

Lemma finite_inputs (df input : dataframe) :
  finite_cells df -> In input (sheet_inputs df) -> finite_cells input.
Proof.
  intros Hf Hin row c v Hrow Hv.
  destruct (sheet_inputs_rows df input Hin) as [_ Hr].
  specialize (Hr row Hrow). apply in_map_iff in Hr. destruct Hr as (row0 & <- & Hrow0).
  rewrite parse_value_stringify in Hv. exact (Hf row0 c v Hrow0 Hv).
Qed.

Lemma castable_zero : castable zero.
Proof.
  exists 0%Z. rewrite zero_of_Z. apply to_int_of_Z. unfold exact_range. vm_compute. reflexivity.
Qed.

Lemma values_in_frame_of_items (Q : num -> Prop) (items : list str) :
  values_in Q (frame_of_items items).
Proof.
  intros v (row & cell & Hrow & Hcell & _). unfold frame_of_items in Hrow. cbn [body] in Hrow.
  apply in_map_iff in Hrow. destruct Hrow as (l & <- & _). destruct Hcell.
Qed.

Lemma values_in_frame_of_column (Q : num -> Prop) (h : str) (l : list (str * option num)) :
  (forall p v, In p l -> snd p = Some v -> Q v) -> values_in Q (frame_of_column h l).
Proof.
  intros H v (row & cell & Hrow & Hcell & Hv). unfold frame_of_column in Hrow.
  cbn [body] in Hrow. apply in_map_iff in Hrow. destruct Hrow as (p & <- & Hp).
  destruct Hcell as [<-|[]]. exact (H p v Hp Hv).
Qed.

Lemma values_in_merge_left (Q : num -> Prop) (L R : frame) :
  values_in Q L -> values_in Q R -> values_in Q (merge_left L R).
Proof.
  intros HL HR v (row & cell & Hrow & Hcell & Hv). unfold merge_left in Hrow.
  cbn [body] in Hrow. apply in_flat_map in Hrow. destruct Hrow as (lrow & Hl & Hrow).
  destruct (filter _ (body R)) as [|m ms] eqn:E.
  - destruct Hrow as [<-|[]]. cbn [snd] in Hcell. apply in_app_or in Hcell.
    destruct Hcell as [Hc|Hc].
    + apply HL. now exists lrow, cell.
    + apply in_map_iff in Hc. destruct Hc as (c & <- & _). discriminate.
  - apply in_map_iff in Hrow. destruct Hrow as (rrow & <- & Hr). cbn [snd] in Hcell.
    rewrite <- E in Hr. apply filter_In in Hr. destruct Hr as [Hr _].
    apply in_app_or in Hcell. destruct Hcell as [Hc|Hc].
    + apply HL. now exists lrow, cell.
    + apply HR. now exists rrow, cell.
Qed.

Lemma values_in_drop_columns (Q : num -> Prop) (names : list str) (f : frame) :
  values_in Q f -> values_in Q (drop_columns names f).
Proof.
  intros Hf v (row & cell & Hrow & Hcell & Hv). unfold drop_columns in Hrow.
  cbn [body] in Hrow. apply in_map_iff in Hrow. destruct Hrow as (row0 & <- & Hrow0).
  cbn [snd] in Hcell. apply filter_In in Hcell. destruct Hcell as [Hcell _].
  apply Hf. now exists row0, cell.
Qed.

Lemma values_in_merge_frames (Q : num -> Prop) (items : list str) (dfs : list frame) :
  Forall (values_in Q) dfs -> values_in Q (merge_frames items dfs).
Proof.
  unfold merge_frames. intros H.
  assert (G : forall A, values_in Q A -> values_in Q (fold_left merge_step dfs A)).
  { induction H as [|f dfs Hf _ IH]; intros A HA; [exact HA|]. cbn [fold_left].
    apply IH. unfold merge_step. apply values_in_merge_left; [assumption|].
    now apply values_in_drop_columns. }
  apply G, values_in_frame_of_items.
Qed.

Lemma drop_duplicates_from_In {V : Type} (l : list (str * V)) :
  forall seen x, In x (drop_duplicates_from seen l) -> In x l.
Proof.
  induction l as [|y l IH]; intros seen x; cbn [drop_duplicates_from]; [intros []|].
  destruct (mem (fst y) seen).
  - intros H. right. exact (IH _ _ H).
  - intros [<-|H]; [now left | right; exact (IH _ _ H)].
Qed.

(** A value below a header cell is zero or what a cell of the chunk reads
    as. *)
Lemma vertical_slice_values (df : dataframe) (r c : nat) (p : str * option num) (v : num) :
  In p (vertical_slice df r c) -> snd p = Some v ->
  v = zero \/ exists row col, In row (rows df) /\ parse_value (cell_at row col) = Some v.
Proof.
  unfold vertical_slice, drop_duplicates. intros Hp Hv.
  apply drop_duplicates_from_In in Hp. unfold vertical_slice_rows in Hp.
  destruct p as [l x]. apply in_combine_r in Hp. cbn [snd] in Hv. subst x.
  apply in_map_iff in Hp. destruct Hp as (q & Hq & Hin).
  apply filter_In in Hin. destruct Hin as [Hin _].
  apply in_map_iff in Hin. destruct Hin as (row & <- & Hrow). cbn [snd] in Hq.
  apply In_skipn_list in Hrow.
  destruct (parse_value (cell_at row c)) as [w|] eqn:E; injection Hq as <-.
  - right. now exists row, c.
  - now left.
Qed.

Lemma vertical_loop_values (Q : num -> Prop) (df : dataframe)
    (cells : list (nat * nat * str)) :
  (forall r c p v, In p (vertical_slice df r c) -> snd p = Some v -> Q v) ->
  forall processed F,
    values_in Q F -> values_in Q (vertical_loop df cells processed F).
Proof.
  intros HQ. induction cells as [|[[r c] h] cells IH]; intros processed F HF; [exact HF|].
  cbn [vertical_loop]. destruct (mem h processed); [now apply IH|].
  apply IH. apply values_in_merge_left; [assumption|].
  apply values_in_frame_of_column. intros p v. apply HQ.
Qed.

(** The numbers of a vertical frame are zero or what cells of the chunk
    read as. *)
Lemma vertical_values (df : dataframe) (f : frame) (items : list str) :
  tool2_extract_data_vertical df = (Some f, items) ->
  values_in (fun v => v = zero \/
                      exists row col, In row (rows df) /\
                                      parse_value (cell_at row col) = Some v) f.
Proof.
  unfold tool2_extract_data_vertical. destruct (df_empty df); [discriminate|].
  destruct (year_cells df) as [|cell cells]; [discriminate|].
  intros E.
  assert (Ef : f = vertical_loop df (cell :: cells) [] (frame_of_items (all_items_ordered df)))
    by (injection E as <- _; reflexivity).
  rewrite Ef. apply vertical_loop_values; [|apply values_in_frame_of_items].
  intros r c p v. apply vertical_slice_values.
Qed.

Lemma vertical_finite (df : dataframe) (f : frame) (items : list str) :
  finite_cells df -> run_merger Vertical df = Ok (Some f, items) -> values_in castable f.
Proof.
  cbn [run_merger]. intros Hf [= E] v Hv.
  destruct (vertical_values df f items E v Hv) as [->|(row & col & Hrow & Hp)].
  - apply castable_zero.
  - exact (Hf row col v Hrow Hp).
Qed.

(** *** Vertical consolidation *)

(** The columns of a vertical frame are period labels. *)
Lemma vertical_columns_detected (df : dataframe) (f : frame) (items : list str) (c : str) :
  tool2_extract_data_vertical df = (Some f, items) -> In c (columns f) ->
  exists s, detect_year_header s = Some c.
Proof.
  unfold tool2_extract_data_vertical.
  destruct (df_empty df); [discriminate|].
  destruct (year_cells df) as [|cell cells] eqn:Hcells; [discriminate|].
  intros [= <- <-] Hin.
  destruct (vertical_loop_spec df (cell :: cells) [] (frame_of_items (all_items_ordered df))
              (covered_frame_of_items _) (fun c => eq_refl))
    as (_ & _ & Hmem & _).
  apply mem_In in Hin. rewrite Hmem in Hin.
  change (mem c (columns (frame_of_items (all_items_ordered df)))) with false in Hin.
  cbn [orb] in Hin. apply existsb_exists in Hin. destruct Hin as (x & Hx & E).
  apply str_eqb_eq in E. rewrite <- Hcells in Hx.
  destruct (year_cells_header df x Hx) as (s & Hs). rewrite E in Hs. now exists s.
Qed.

Lemma vertical_keyed (df : dataframe) (f : frame) (items : list str) :
  run_merger Vertical df = Ok (Some f, items) -> keyed f.
Proof.
  cbn [run_merger]. intros [= E] c Hc.
  destruct (vertical_columns_detected df f items c E Hc) as (s & Hs).
  exact (label_sort_key s c Hs).
Qed.

Lemma vertical_run_well_formed (df : dataframe) (f : frame) (items : list str) :
  run_merger Vertical df = Ok (Some f, items) -> well_formed f.
Proof. cbn [run_merger]. intros [= E]. exact (vertical_well_formed df f items E). Qed.

Lemma process_table_chunks_vertical (w : nat) (chunks : list (list (list cell))) :
  forall i st, exists st', process_table_chunks Vertical w i chunks st = Ok st'.
Proof.
  induction chunks as [|chunk chunks IH]; intros i st; cbn [process_table_chunks].
  - now exists st.
  - assert (H : exists st1, process_table_chunk Vertical w i chunk st = Ok st1).
    { unfold process_table_chunk. destruct (clean_table_chunk chunk); [now eexists|].
      cbn [run_merger bind]. destruct (tool2_extract_data_vertical _) as [[f|] its];
        [destruct (frame_empty f)|]; now eexists. }
    destruct H as [st1 ->]. cbn [bind]. apply IH.
Qed.

Lemma process_file_chunks_vertical (w : nat) (chunks : list (list (list cell))) :
  forall st, exists st', process_file_chunks Vertical w chunks st = Ok st'.
Proof.
  induction chunks as [|chunk chunks IH]; intros st; cbn [process_file_chunks].
  - now exists st.
  - destruct (process_table_chunks_vertical w (table_chunks chunk) 0 st) as [st1 ->].
    cbn [bind]. apply IH.
Qed.

(** The cast of a value of the filled result. *)
Lemma cast_filled (R : frame) (row : str * list (str * option num)) (col : str) :
  values_in castable R -> In row (body (fillna_zero R)) ->
  exists z, cast_int (lookup col (snd row)) = Ok z.
Proof.
  intros HR Hrow. unfold fillna_zero in Hrow. cbn [body] in Hrow.
  apply in_map_iff in Hrow. destruct Hrow as (row0 & <- & Hrow0). cbn [snd].
  assert (Hc : castable (match lookup col (map (fun cv => (fst cv, Some (fill (snd cv))))
                                              (snd row0)) with
                         | Some x => fill x
                         | None => zero
                         end)).
  { destruct (lookup col _) as [x|] eqn:E; [|apply castable_zero].
    apply lookup_some_In in E. apply in_map_iff in E. destruct E as (cv & [= _ <-] & Hcv).
    cbn [fill]. destruct (snd cv) as [v|] eqn:Ev; cbn [fill]; [|apply castable_zero].
    apply HR. now exists row0, cv. }
  destruct Hc as [z Hz]. exists z. unfold cast_int. now rewrite Hz.
Qed.

(** A slot of well-formed frames with sortable columns and finite numbers is
    summarised. *)
Lemma summarize_total (s : slot) :
  Forall well_formed (list_of_dfs s) -> Forall keyed (list_of_dfs s) ->
  Forall (values_in castable) (list_of_dfs s) ->
  exists r, summarize s = Ok r.
Proof.
  intros Hwf Hk Hv. unfold summarize.
  destruct (merge_fold (list_of_dfs s) (frame_of_items (ordered_items s))
              (covered_frame_of_items _) Hwf) as (_ & _ & Hmem & _).
  destruct (sorted_by_key_total
              (columns (fillna_zero (merge_frames (ordered_items s) (list_of_dfs s)))))
    as [cols Hcols].
  { intros c Hc. cbn [fillna_zero columns] in Hc. apply mem_In in Hc.
    unfold merge_frames in Hc. rewrite Hmem in Hc.
    change (mem c (columns (frame_of_items (ordered_items s)))) with false in Hc.
    cbn [orb] in Hc. apply existsb_exists in Hc. destruct Hc as (f & Hf & Hc).
    rewrite Forall_forall in Hk. apply (Hk f Hf). now apply mem_In. }
  rewrite Hcols. cbn [bind].
  destruct (map_ok_total (cast_row cols)
              (body (fillna_zero (merge_frames (ordered_items s) (list_of_dfs s)))))
    as [rows' Hrows].
  { intros row Hrow. unfold cast_row.
    destruct (map_ok_total
                (fun col => z <- cast_int (lookup col (snd row)) ;; Ok (col, z)) cols)
      as [cells ->]; [|cbn [bind]; now eexists].
    intros col _.
    destruct (cast_filled _ row col (values_in_merge_frames castable _ _ Hv) Hrow) as [z ->].
    cbn [bind]. now eexists. }
  rewrite Hrows. cbn [bind]. now eexists.
Qed.

Lemma summarize_slots_total (st : list slot) :
  Forall (fun s => Forall well_formed (list_of_dfs s)) st ->
  Forall (fun s => Forall keyed (list_of_dfs s)) st ->
  Forall (fun s => Forall (values_in castable) (list_of_dfs s)) st ->
  exists rs, summarize_slots st = Ok rs.
Proof.
  induction st as [|s st IH]; intros Hwf Hk Hv; cbn [summarize_slots]; [now eexists|].
  inversion Hwf as [|? ? Hw1 Hw2]; inversion Hk as [|? ? Hk1 Hk2];
    inversion Hv as [|? ? Hv1 Hv2]; subst.
  destruct (IH Hw2 Hk2 Hv2) as [rs Hrs].
  destruct (list_of_dfs s) as [|f fs] eqn:E; [now exists rs|].
  rewrite <- E in *. destruct (summarize_total s Hw1 Hk1 Hv1) as [r ->].
  rewrite Hrs. cbn [bind]. now eexists.
Qed.

Lemma vertical_total (df : dataframe) :
  ncols df <> 0 -> finite_cells df ->
  exists rs, process_files_and_tables df Vertical = Ok rs.
Proof.
  intros Hn Hfin. unfold process_files_and_tables.
  apply Nat.eqb_neq in Hn. rewrite Hn.
  destruct (process_file_chunks_vertical (ncols df)
              (file_chunks (map stringify_col0 (rows df))) []) as [st Hst].
  rewrite Hst. cbn [bind]. apply summarize_slots_total.
  - eapply (process_file_chunks_inv (fun _ => True));
      [apply (frames_invariant _ well_formed Vertical);
       intros input f l _; apply vertical_run_well_formed
      | intros; exact I | constructor | exact Hst].
  - eapply (process_file_chunks_inv (fun _ => True));
      [apply (frames_invariant _ keyed Vertical);
       intros input f l _; apply vertical_keyed
      | intros; exact I | constructor | exact Hst].
  - eapply (process_file_chunks_inv (fun input => In input (sheet_inputs df)));
      [apply (frames_invariant _ (values_in castable) Vertical);
       intros input f l Hin; apply vertical_finite, (finite_inputs df input Hfin Hin)
      | intros input Hin; exact Hin | constructor | exact Hst].
Qed.

(** X4: vertical consolidation of a sheet that has a column, and in which
    every cell that reads as a number reads as a finite one, never raises:
    every period column it sorts has a sort key and every value it casts is
    finite. *)
Theorem X4_vertical_never_raises (df : dataframe) :
  ncols df <> 0 -> finite_cells df ->
  exists rs, process_files_and_tables df Vertical = Ok rs.
Proof. exact (vertical_total df). Qed.

End Slots.

Lemma X4_witness :
  exists rs,
    process_files_and_tables (NUM := IntCells)
      (sheet 2 [["ファイル名: a.pdf"; ""]; ["--- ページ 1 / テーブル 1 ---"; ""];
                ["科目"; "2024年3月期"]; ["売上"; "1,200"]]%string) Vertical = Ok rs.
Proof.
  apply X4_vertical_never_raises.
  - cbn [ncols sheet]. discriminate.
  - intros row c v _ _. now exists v.
Defined.

(** ** When the horizontal merger fails *)

Lemma find_header_in_row_detected (cells : list str) (h : str) :
  find_header_in_row cells = Some h -> exists s, In s cells /\ detect_year_header s = Some h.
Proof.
  induction cells as [|val cells IH]; cbn [find_header_in_row]; [discriminate|].
  rewrite truthy_detect. destruct (detect_year_header val) as [h'|] eqn:E.
  - intros [= <-]. exists val. split; [now left | assumption].
  - intros H. destruct (IH H) as (s & Hs & Hd). exists s. split; [now right | assumption].
Qed.

Lemma find_header_detected (target : list (list str)) :
  forall r r' h, find_header r target = Some (r', h) ->
    exists row s, In row target /\ In s row /\ detect_year_header s = Some h.
Proof.
  induction target as [|row target IH]; intros r r' h; cbn [find_header]; [discriminate|].
  destruct (find_header_in_row row) as [h'|] eqn:E.
  - intros [= <- <-]. destruct (find_header_in_row_detected row h' E) as (s & Hs & Hd).
    exists row, s. repeat split; [now left | assumption | assumption].
  - intros H. destruct (IH _ _ _ H) as (row' & s & Hr & Hs & Hd).
    exists row', s. repeat split; [now right | assumption | assumption].
Qed.

Section HorizontalFailure.
Context {NUM : Numeric}.

(** X5: the horizontal merger raises exactly on a chunk with at least two
    columns that are not blank, no period label in its first ten rows, and
    共通項目 (stripped) in the first row of its last column; what it raises is
    an AttributeError. *)
Theorem X5_horizontal_raises_exactly (df : dataframe) (e : exn) :
  tool2_extract_data_horizontal df = Raise e <->
  e = AttributeError /\ df_empty df = false /\ 2 <= length (kept_columns df) /\
  find_header 0 (firstn 10 (target_rows df)) = None /\
  strip (last (hd [] (target_rows df)) []) = common_item.
Proof.
  unfold tool2_extract_data_horizontal, horizontal_header.
  destruct (df_empty df).
  { split; [discriminate | now intros (_ & ? & _)]. }
  destruct (Nat.ltb (length (kept_columns df)) 2) eqn:Hw.
  { apply Nat.ltb_lt in Hw. split; [discriminate | intros (_ & _ & ? & _); lia]. }
  apply Nat.ltb_ge in Hw.
  destruct (find_header 0 (firstn 10 (target_rows df))) as [[r h]|] eqn:Hf.
  - destruct (find_header_detected _ _ _ _ Hf) as (row & s & _ & _ & Hd).
    destruct (str_eqb h common_item) eqn:E.
    + apply str_eqb_eq in E. subst h. now apply detect_not_common_item in Hd.
    + split; [discriminate | now intros (_ & _ & _ & ? & _)].
  - destruct (strip (last (hd [] (target_rows df)) [])) as [|c t] eqn:Hs.
    + change (str_eqb unknown_period common_item) with false.
      split; [discriminate | now intros (_ & _ & _ & _ & ?)].
    + destruct (str_eqb (c :: t) common_item) eqn:E.
      * apply str_eqb_eq in E. split; [intros [= <-]; now repeat split|].
        now intros (-> & _).
      * split; [discriminate|]. intros (_ & _ & _ & _ & E').
        rewrite E', str_eqb_refl in E. discriminate.
Qed.

End HorizontalFailure.

Lemma X5_witness :
  tool2_extract_data_horizontal (NUM := IntCells)
    (sheet 2 [["項目"; " 共通項目 "]; ["売上"; "100"]]%string) = Raise AttributeError.
Proof. apply X5_horizontal_raises_exactly. repeat split. cbn. lia. Defined.

(** ** Segmentation loses no row after the first marker *)

Section Partition.
Context {A : Type} (p : A -> bool).

(** A list is a run without marker, then nothing or a marker and the rest. *)
Lemma span_marker (l : list A) :
  exists a tail, l = a ++ tail /\ (forall x, In x a -> p x = false) /\
                 (tail = [] \/ exists m t, tail = m :: t /\ p m = true).
Proof.
  induction l as [|x l (a & tail & -> & Ha & Ht)].
  - exists [], []. repeat split; [intros _ [] | now left].
  - destruct (p x) eqn:E.
    + exists [], (x :: a ++ tail). repeat split; [intros _ [] | right; now exists x, (a ++ tail)].
    + exists (x :: a), tail. repeat split; [|assumption].
      intros y [<-|Hy]; auto.
Qed.

Lemma chunks_from_step (m : A) (a tail : list A) :
  p m = true -> (forall x, In x a -> p x = false) ->
  (tail = [] \/ exists m' t, tail = m' :: t /\ p m' = true) ->
  chunks_from (indices_from 0 p (m :: a ++ tail)) (m :: a ++ tail)
  = (m :: a) :: chunks_from (indices_from 0 p tail) tail.
Proof.
  intros Hm Ha Ht. rewrite indices_from_cons, Hm. cbn [app].
  rewrite (indices_from_skip p a tail Ha 1).
  change (1 + length a) with (0 + length (m :: a)).
  rewrite indices_from_shift. cbn [chunks_from].
  change (m :: a ++ tail) with ((m :: a) ++ tail).
  rewrite chunks_from_skip. f_equal.
  unfold slice. rewrite Nat.sub_0_r. cbn [skipn].
  assert (Hfirst : forall t, firstn (length (m :: a)) ((m :: a) ++ t) = m :: a).
  { intros t. rewrite firstn_app, Nat.sub_diag, firstn_all. cbn [firstn]. apply app_nil_r. }
  destruct Ht as [->|(m' & t & -> & Hm')].
  - change (indices_from 0 p []) with (@nil nat). cbn [map].
    rewrite length_app, Nat.add_0_r. apply Hfirst.
  - rewrite indices_from_cons, Hm'.
    change (map (fun i => i + length (m :: a)) ([0] ++ indices_from 1 p t))
      with (0 + length (m :: a) :: map (fun i => i + length (m :: a)) (indices_from 1 p t)).
    rewrite Nat.add_0_l. apply Hfirst.
Qed.

Lemma filter_none (l : list A) : (forall x, In x l -> p x = false) -> filter p l = [].
Proof.
  induction l as [|x l IH]; intros H; [reflexivity|].
  cbn [filter]. rewrite (H x (or_introl eq_refl)). apply IH. intros y Hy. apply H. now right.
Qed.

(** From a marker on, the slices between markers are one chunk per marker,
    each led by its marker, and together they are the list. *)
Lemma chunks_from_partition (n : nat) :
  forall (l : list A) (m : A),
    length l <= n -> p m = true ->
    let cs := chunks_from (indices_from 0 p (m :: l)) (m :: l) in
    concat cs = m :: l /\ Forall (starts_chunk p) cs /\
    length cs = length (filter p (m :: l)).
Proof.
  induction n as [|n IH]; intros l m Hn Hm;
    destruct (span_marker l) as (a & tail & -> & Ha & Ht).
  - destruct a; [|cbn [app length] in Hn; lia]. destruct tail; [|cbn [app length] in Hn; lia].
    cbn zeta. rewrite (chunks_from_step m [] [] Hm Ha Ht).
    cbn [filter]. rewrite Hm. split; [reflexivity|]. split; [|reflexivity].
    constructor; [|constructor]. exists m, []. split; [reflexivity|].
    split; [assumption | intros _ []].
  - cbn zeta. rewrite (chunks_from_step m a tail Hm Ha Ht).
    assert (Hfil : filter p (m :: a ++ tail) = m :: filter p tail).
    { cbn [filter]. rewrite Hm, filter_app, (filter_none a Ha). reflexivity. }
    rewrite Hfil. cbn [concat length].
    assert (Hhead : starts_chunk p (m :: a)) by (exists m, a; now repeat split).
    destruct Ht as [->|(m' & t & -> & Hm')].
    + change (indices_from 0 p []) with (@nil nat). cbn [chunks_from concat filter length].
      split; [now rewrite !app_nil_r|]. split; [|reflexivity].
      constructor; [assumption | constructor].
    + rewrite length_app in Hn. cbn [length] in Hn.
      destruct (IH t m' ltac:(lia) Hm') as (Hc & Hf & Hl).
      rewrite Hc, Hl. split; [reflexivity|]. split; [|reflexivity].
      now constructor.
Qed.

Lemma indices_from_bounds (l : list A) :
  forall s i, In i (indices_from s p l) -> s <= i < s + length l.
Proof.
  induction l as [|x l IH]; intros s i; [intros []|].
  rewrite indices_from_cons. intros H. apply in_app_or in H. cbn [length].
  destruct H as [H|H].
  - destruct (p x); [destruct H as [<-|[]]; lia | destruct H].
  - apply IH in H. lia.
Qed.

Lemma indices_from_sorted (l : list A) :
  forall s, StronglySorted lt (indices_from s p l).
Proof.
  induction l as [|x l IH]; intros s; [constructor|].
  rewrite indices_from_cons. destruct (p x); cbn [app]; [|apply IH].
  constructor; [apply IH|]. apply Forall_forall. intros i Hi.
  apply indices_from_bounds in Hi. lia.
Qed.

Lemma slice_non_empty (a b : nat) (l : list A) :
  a < b -> a < length l -> slice a b l <> [].
Proof.
  intros Hab Hl E. apply (f_equal (@length A)) in E. unfold slice in E.
  rewrite length_firstn, length_skipn in E. cbn [length] in E. lia.
Qed.

(** The page loop gives the rows before the first marker, when there are
    any, and then the slices between markers. *)
Lemma split_pages_chunks (l : list A) (indices : list nat) :
  StronglySorted lt indices -> (forall i, In i indices -> i < length l) ->
  forall last first rest,
    indices = first :: rest ->
    split_pages indices last l = non_empty (slice last first l) ++ chunks_from indices l.
Proof.
  induction 1 as [|i idx Hs IH Hall]; intros Hb last first rest; [discriminate|].
  intros [= <- <-]. cbn [split_pages chunks_from]. f_equal.
  assert (Hi : i < length l) by (apply Hb; now left).
  destruct idx as [|j idx'].
  - cbn [split_pages chunks_from]. unfold slice at 1.
    rewrite firstn_all2 by (rewrite length_skipn; lia).
    destruct (skipn i l) eqn:E; [|reflexivity].
    apply (f_equal (@length A)) in E. rewrite length_skipn in E. cbn [length] in E. lia.
  - rewrite (IH (fun k Hk => Hb k (or_intror Hk)) i j idx' eq_refl).
    cbn [chunks_from]. f_equal.
    assert (Hij : i < j) by (inversion Hall; assumption).
    pose proof (slice_non_empty i j l Hij Hi) as Hne.
    destruct (slice i j l); [contradiction | reflexivity].
Qed.

End Partition.

Lemma concat_non_empty {A : Type} (l : list A) : concat (non_empty l) = l.
Proof. destruct l; [reflexivity | apply app_nil_r]. Qed.

(** X6: when the sheet has a file-name marker there is one file chunk per
    marker row; each begins with its marker and holds no other, and together
    they are the sheet from the first marker on, row for row. *)
Theorem X6_file_chunks_partition (pre rest : list (list cell)) (m : list cell) :
  (forall r, In r pre -> row_matches pat_file_marker r = false) ->
  row_matches pat_file_marker m = true ->
  concat (file_chunks (pre ++ m :: rest)) = m :: rest /\
  Forall (starts_chunk (row_matches pat_file_marker)) (file_chunks (pre ++ m :: rest)) /\
  length (file_chunks (pre ++ m :: rest))
  = length (filter (row_matches pat_file_marker) (pre ++ m :: rest)).
Proof.
  intros Hpre Hm. rewrite (file_chunks_skip pre rest m Hpre Hm).
  rewrite filter_app, (filter_none _ pre Hpre). cbn [app].
  unfold file_chunks. rewrite indices_where_from.
  pose proof (chunks_from_partition (row_matches pat_file_marker) (length rest) rest m
                (le_n _) Hm) as H.
  cbn zeta in H. revert H. rewrite indices_from_cons, Hm. cbn [app]. trivial.
Qed.

Lemma X6_witness :
  let a := [Some (u "ファイル名: a.pdf")] in
  let b := [Some (u "ファイル名: b.pdf")] in
  let x := [Some (u "売上"); Some (u "100")] in
  concat (file_chunks ([x] ++ a :: [x; b; x; x])) = a :: [x; b; x; x] /\
  Forall (starts_chunk (row_matches pat_file_marker)) (file_chunks ([x] ++ a :: [x; b; x; x])) /\
  length (file_chunks ([x] ++ a :: [x; b; x; x]))
  = length (filter (row_matches pat_file_marker) ([x] ++ a :: [x; b; x; x])).
Proof.
  intros a b x. apply X6_file_chunks_partition; [|reflexivity].
  intros r [<-|[]]. reflexivity.
Defined.

(** X7: in a file chunk with a page marker, the table chunks are the rows
    before the first page marker, when there are any, followed by one chunk
    per page marker, each led by its marker and holding no other; together
    they are the file chunk, row for row, and none of them is empty. *)
Theorem X7_table_chunks_partition (pre rest : list (list cell)) (m : list cell) :
  (forall r, In r pre -> row_matches pat_page_marker r = false) ->
  row_matches pat_page_marker m = true ->
  exists cs,
    table_chunks (pre ++ m :: rest) = non_empty pre ++ cs /\
    concat cs = m :: rest /\
    Forall (starts_chunk (row_matches pat_page_marker)) cs /\
    length cs = length (filter (row_matches pat_page_marker) (m :: rest)) /\
    concat (table_chunks (pre ++ m :: rest)) = pre ++ m :: rest /\
    ~ In [] (table_chunks (pre ++ m :: rest)).
Proof.
  intros Hpre Hm. set (q := row_matches pat_page_marker) in *.
  destruct (chunks_from_partition q (length rest) rest m (le_n _) Hm) as (Hc & Hf & Hl).
  exists (chunks_from (indices_from 0 q (m :: rest)) (m :: rest)).
  assert (E : table_chunks (pre ++ m :: rest)
              = non_empty pre ++ chunks_from (indices_from 0 q (m :: rest)) (m :: rest)).
  { unfold table_chunks. fold q.
    pose proof (indices_from_sorted q (pre ++ m :: rest) 0) as Hs.
    pose proof (fun i Hi => proj2 (indices_from_bounds q (pre ++ m :: rest) 0 i Hi)) as Hb.
    rewrite indices_where_from.
    assert (Hi : indices_from 0 q (pre ++ m :: rest)
                 = length pre :: map (fun i => i + length pre) (indices_from 1 q rest)).
    { rewrite (indices_from_skip q pre (m :: rest) Hpre 0), indices_from_cons, Hm.
      cbn [app]. f_equal. change (S (0 + length pre)) with (1 + length pre).
      apply indices_from_shift. }
    rewrite Hi in *.
    rewrite (split_pages_chunks (pre ++ m :: rest) _ Hs Hb 0 _ _ eq_refl).
    f_equal.
    - unfold slice. cbn [skipn]. rewrite Nat.sub_0_r, firstn_app, Nat.sub_diag, firstn_all.
      cbn [firstn]. now rewrite app_nil_r.
    - rewrite indices_from_cons, Hm. cbn [app].
      change (length pre :: map (fun i => i + length pre) (indices_from 1 q rest))
        with (map (fun i => i + length pre) (0 :: indices_from 1 q rest)).
      apply chunks_from_skip. }
  repeat split; try assumption.
  - rewrite E, concat_app, concat_non_empty, Hc. reflexivity.
  - rewrite E. intros Hin. apply in_app_or in Hin. destruct Hin as [Hin|Hin].
    + destruct pre; [destruct Hin | destruct Hin as [Hin|[]]; discriminate].
    + rewrite Forall_forall in Hf. destruct (Hf [] Hin) as (? & ? & ? & _). discriminate.
Qed.

Lemma X7_witness :
  let f := [Some (u "ファイル名: a.pdf")] in
  let t := [Some (u "--- ページ 3 / テーブル 1 ---")] in
  let x := [Some (u "売上"); Some (u "100")] in
  exists cs,
    table_chunks ([f] ++ t :: [x; t; x]) = non_empty [f] ++ cs /\
    concat cs = t :: [x; t; x] /\
    Forall (starts_chunk (row_matches pat_page_marker)) cs /\
    length cs = length (filter (row_matches pat_page_marker) (t :: [x; t; x])) /\
    concat (table_chunks ([f] ++ t :: [x; t; x])) = [f] ++ t :: [x; t; x] /\
    ~ In [] (table_chunks ([f] ++ t :: [x; t; x])).
Proof.
  intros f t x. apply X7_table_chunks_partition; [|reflexivity].
  intros r [<-|[]]. reflexivity.
Defined.

(** ** The master order and the summaries *)

Lemma filter_all {A : Type} (q : A -> bool) (l : list A) :
  (forall x, In x l -> q x = true) -> filter q l = l.
Proof.
  induction l as [|x l IH]; intros H; [reflexivity|].
  cbn [filter]. rewrite (H x (or_introl eq_refl)). f_equal. apply IH.
  intros y Hy. apply H. now right.
Qed.

Lemma insert_items_filter (q : str -> bool) (items : list str) :
  forall k m,
    (forall x, q x = true -> In x m) ->
    filter q (insert_items items k m) = filter q m.
Proof.
  induction items as [|item items IH]; intros k m Hq; [reflexivity|].
  cbn [insert_items]. destruct (index_of item m) as [i|] eqn:E; [now apply IH|].
  apply index_of_none in E.
  rewrite IH.
  - unfold list_insert. rewrite filter_app. cbn [filter].
    destruct (q item) eqn:Hi; [elim E; now apply Hq|].
    rewrite <- filter_app. now rewrite firstn_skipn.
  - intros x Hx. apply list_insert_In. right. now apply Hq.
Qed.

(** X8: an update of the master order never moves or removes a label that
    is already in it: without the labels that are new, the updated order is
    the old one. *)
Theorem X8_master_order_keeps_old (master items : list str) :
  filter (fun x => mem x master) (update_master_order master items) = master.
Proof.
  unfold update_master_order. destruct master as [|a master].
  - apply filter_none. reflexivity.
  - rewrite insert_items_filter.
    + apply filter_all. intros x Hx. now apply mem_In.
    + intros x Hx. now apply mem_In.
Qed.

Section Summaries.
Context {NUM : Numeric}.

Lemma merger_sound (mode : integration_mode) (df : dataframe) (f : frame) (l : list str) :
  run_merger mode df = Ok (Some f, l) ->
  NoDup l /\ well_formed f /\ columns f <> [] /\ labels_of f = l.
Proof.
  destruct mode; cbn [run_merger].
  - intros [= E]. split; [exact (vertical_items_NoDup df _ _ E)|].
    split; [exact (vertical_well_formed df f l E)|].
    unfold tool2_extract_data_vertical in E.
    destruct (df_empty df); [discriminate|].
    destruct (year_cells df) as [|cell cells] eqn:Hcells; [discriminate|].
    injection E as <- <-.
    destruct (vertical_loop_spec df (cell :: cells) [] (frame_of_items (all_items_ordered df))
                (covered_frame_of_items _) (fun c => eq_refl))
      as (_ & Hlab & Hmem & _).
    split.
    + assert (Hin : mem (snd cell) (columns (vertical_loop df (cell :: cells) []
                        (frame_of_items (all_items_ordered df)))) = true).
      { rewrite Hmem. cbn [existsb]. rewrite str_eqb_refl. cbn [orb]. apply orb_true_r. }
      apply mem_In in Hin. intros E0.
      change (columns (vertical_loop df (cell :: cells) []
                (frame_of_items (all_items_ordered df))) = []) in E0.
      rewrite E0 in Hin. destruct Hin.
    + change (labels_of (vertical_loop df (cell :: cells) []
                (frame_of_items (all_items_ordered df))) = all_items_ordered df).
      rewrite Hlab. apply labels_frame_of_items.
  - intros E. split; [exact (horizontal_items_NoDup df _ _ E)|].
    split; [exact (horizontal_well_formed df f l E)|].
    destruct (horizontal_result df (Some f) l E) as [[Hf _]|(h & start & _ & _ & -> & Hf)];
      [discriminate|].
    injection Hf as ->. split; [discriminate|].
    rewrite frame_of_column_labels. now rewrite map_map.
Qed.

Lemma sound_slot_invariant (mode : integration_mode) :
  invariant (fun _ => True) mode sound_slot.
Proof.
  split.
  - split; [constructor|]. split; [|constructor]. split; [intros H; now elim H | constructor].
  - intros df f l s _ E Hf (Hnd & [Hit Hcols] & Hwf).
    destruct (merger_sound mode df f l E) as (Hl & Hw & Hc & Hlab).
    split; [|split; [split|]]; cbn [extend ordered_items list_of_dfs].
    + now apply update_master_order_NoDup.
    + intros _ Hnil.
      assert (Hne : l <> []).
      { intros ->. unfold frame_empty, labels_of in *.
        apply (f_equal (@length str)) in Hlab. rewrite length_map in Hlab.
        cbn [length] in Hlab. rewrite Hlab in Hf. discriminate. }
      destruct l as [|x l]; [now elim Hne|].
      assert (Hin : In x (update_master_order (ordered_items s) (x :: l)))
        by (apply update_master_order_In; right; now left).
      rewrite Hnil in Hin. destruct Hin.
    + apply Forall_app. split; [assumption | constructor; [assumption | constructor]].
    + apply Forall_app. split; [assumption | constructor; [assumption | constructor]].
Qed.

Lemma covers_frames_invariant (mode : integration_mode) :
  invariant (fun _ => True) mode covers_frames.
Proof.
  split.
  - intros l. cbn [empty_slot ordered_items list_of_dfs]. split; [intros [] | intros (f & [] & _)].
  - intros df f l s _ E _ Hs x. cbn [extend ordered_items list_of_dfs].
    destruct (merger_sound mode df f l E) as (_ & _ & _ & Hlab).
    rewrite update_master_order_In, (Hs x). split.
    + intros [(g & Hg & Hx)|Hx].
      * exists g. split; [apply in_or_app; now left | assumption].
      * exists f. split; [apply in_or_app; right; now left | now rewrite Hlab].
    + intros (g & Hg & Hx). apply in_app_or in Hg. destruct Hg as [Hg|[<-|[]]].
      * left. now exists g.
      * right. now rewrite <- Hlab.
Qed.

Lemma summarize_slots_from (st : list slot) :
  forall rs r, summarize_slots st = Ok rs -> In r rs ->
    exists s, In s st /\ list_of_dfs s <> [] /\ summarize s = Ok r.
Proof.
  induction st as [|s st IH]; intros rs r; cbn [summarize_slots].
  - intros [= <-] [].
  - destruct (list_of_dfs s) as [|f fs] eqn:Hf.
    + intros H Hr. destruct (IH rs r H Hr) as (s' & Hs' & E). exists s'. split; [now right | exact E].
    + destruct (summarize s) as [r0|] eqn:Hs; [|discriminate]. cbn [bind].
      destruct (summarize_slots st) as [rs0|]; [|discriminate]. cbn [bind].
      intros [= <-] [<-|Hr].
      * exists s. split; [now left|]. split; [now rewrite Hf | exact Hs].
      * destruct (IH rs0 r eq_refl Hr) as (s' & Hs' & E). exists s'. split; [now right | exact E].
Qed.

Lemma summarize_sound (s : slot) (r : summary) :
  sound_slot s -> list_of_dfs s <> [] -> summarize s = Ok r ->
  map fst (items r) = map strip_temp_suffix (ordered_items s) /\
  ordered_items s <> [] /\ NoDup (ordered_items s) /\
  year_cols r <> [] /\ NoDup (year_cols r) /\
  forall c, In c (year_cols r) <-> exists f, In f (list_of_dfs s) /\ In c (columns f).
Proof.
  intros (Hnd & [Hit Hcols] & Hwf) Hne Hs.
  split.
  { apply summarize_labels; [|assumption].
    eapply Forall_impl; [|exact Hwf]. now intros f (? & _). }
  split; [now apply Hit|]. split; [assumption|].
  unfold summarize in Hs.
  destruct (merge_fold (list_of_dfs s) (frame_of_items (ordered_items s))
              (covered_frame_of_items _) Hwf) as ([Hnc _] & _ & Hmem & _).
  destruct (sorted_by_key _) as [cols|] eqn:E; [|discriminate]. cbn [bind] in Hs.
  destruct (map_ok (cast_row cols) _) as [rows'|]; [|discriminate]. cbn [bind] in Hs.
  injection Hs as <-. cbn [year_cols].
  apply sorted_by_key_spec in E. destruct E as [Hperm _].
  cbn [fillna_zero columns] in Hperm. fold (merge_frames (ordered_items s) (list_of_dfs s)) in *.
  assert (Hcs : forall c, In c cols <-> exists f, In f (list_of_dfs s) /\ In c (columns f)).
  { intros c. split.
    - intros Hc. apply (Permutation_in _ (Permutation_sym Hperm)) in Hc.
      apply mem_In in Hc. unfold merge_frames in Hc. rewrite Hmem in Hc.
      change (mem c (columns (frame_of_items (ordered_items s)))) with false in Hc.
      cbn [orb] in Hc. apply existsb_exists in Hc. destruct Hc as (f & Hf & Hc).
      exists f. split; [assumption | now apply mem_In].
    - intros (f & Hf & Hc). apply (Permutation_in _ Hperm).
      apply mem_In. unfold merge_frames. rewrite Hmem. apply orb_true_iff. right.
      apply existsb_exists. exists f. split; [assumption | now apply mem_In]. }
  split; [|split; [|exact Hcs]].
  - destruct (list_of_dfs s) as [|f fs] eqn:Hf; [now elim Hne|].
    inversion Hcols as [|? ? Hc _]; subst.
    destruct (columns f) as [|c cs] eqn:Hcf; [now elim Hc|].
    assert (Hin : In c cols).
    { apply Hcs. exists f. split; [now left | rewrite Hcf; now left]. }
    intros ->. destruct Hin.
  - eapply Permutation_NoDup; [exact Hperm | exact Hnc].
Qed.

(** X9: every summary that consolidation returns is that of a slot with at
    least one frame.  It has at least one item row and one period column and
    no period column twice.  Its item rows are, in order and with the
    temporary suffix removed, the master order of the slot, which holds no
    item twice and holds the items of the frames of the slot and no other; its
    period columns are the columns of those frames. *)
Theorem X9_summaries_populated (df : dataframe) (mode : integration_mode)
    (rs : list summary) (r : summary) :
  process_files_and_tables df mode = Ok rs -> In r rs ->
  items r <> [] /\ year_cols r <> [] /\ NoDup (year_cols r) /\
  exists st s,
    process_file_chunks mode (ncols df) (file_chunks (map stringify_col0 (rows df))) [] = Ok st /\
    In s st /\ list_of_dfs s <> [] /\
    NoDup (ordered_items s) /\
    (forall l, In l (ordered_items s)
               <-> exists f, In f (list_of_dfs s) /\ In l (labels_of f)) /\
    map fst (items r) = map strip_temp_suffix (ordered_items s) /\
    (forall c, In c (year_cols r)
               <-> exists f, In f (list_of_dfs s) /\ In c (columns f)).
Proof.
  unfold process_files_and_tables. destruct (Nat.eqb (ncols df) 0); [discriminate|].
  destruct (process_file_chunks mode (ncols df) _ []) as [st|] eqn:Hst; [|discriminate].
  cbn [bind]. intros Hrs Hr.
  destruct (summarize_slots_from st rs r Hrs Hr) as (s & Hin & Hne & Hs).
  assert (Hsound : Forall sound_slot st).
  { eapply process_file_chunks_inv;
      [apply sound_slot_invariant | intros; exact I | constructor | exact Hst]. }
  assert (Hcov : Forall covers_frames st).
  { eapply process_file_chunks_inv;
      [apply covers_frames_invariant | intros; exact I | constructor | exact Hst]. }
  rewrite Forall_forall in Hsound, Hcov.
  destruct (summarize_sound s r (Hsound s Hin) Hne Hs) as (Hl & Hi & Hnd & Hy & Hyn & Hcs).
  split.
  { intros E. rewrite E in Hl. cbn [map] in Hl.
    destruct (ordered_items s); [now elim Hi | discriminate]. }
  split; [assumption|]. split; [assumption|].
  exists st, s. split; [reflexivity|]. split; [assumption|]. split; [assumption|].
  split; [assumption|]. split; [exact (Hcov s Hin)|]. split; assumption.
Qed.

End Summaries.

Lemma X9_witness :
  let df := sheet 2 [["ファイル名: a.pdf"; ""]; ["--- ページ 1 / テーブル 1 ---"; ""];
                     ["科目"; "2024年3月期"]; ["売上"; "1,200"]]%string in
  let r := {| year_cols := [u "2024/3"];
              items := [(u "科目", [(u "2024/3", 0%Z)]); (u "売上", [(u "2024/3", 1200%Z)])] |} in
  process_files_and_tables (NUM := IntCells) df Vertical = Ok [r] /\
  items r <> [] /\ year_cols r <> [] /\ NoDup (year_cols r) /\
  exists st s,
    process_file_chunks (NUM := IntCells) Vertical (ncols df)
      (file_chunks (map stringify_col0 (rows df))) [] = Ok st /\
    In s st /\ list_of_dfs s <> [] /\
    NoDup (ordered_items s) /\
    (forall l, In l (ordered_items s)
               <-> exists f, In f (list_of_dfs s) /\ In l (labels_of f)) /\
    map fst (items r) = map strip_temp_suffix (ordered_items s) /\
    (forall c, In c (year_cols r)
               <-> exists f, In f (list_of_dfs s) /\ In c (columns f)).
Proof.
  intros df r.
  assert (E : process_files_and_tables (NUM := IntCells) df Vertical = Ok [r])
    by (vm_compute; reflexivity).
  split; [exact E|].
  exact (X9_summaries_populated (NUM := IntCells) df Vertical [r] r E (or_introl eq_refl)).
Defined.

(** ** The marker rows that extraction writes and consolidation reads *)

(** Searching a literal is the substring test. *)
Lemma search_from_lit (a s : str) :
  forall pos, found (search_from (lit a) pos s) = contains a s.
Proof.
  induction s as [|c s IH]; intros pos; cbn [search_from rmatch contains];
    rewrite rmatch_lit; destruct (is_prefix a _); cbn [found orb]; auto.
Qed.

Lemma search_from_alt_lit (a b s : str) :
  forall pos, found (search_from (Alt (lit a) (lit b)) pos s) = contains a s || contains b s.
Proof.
  induction s as [|c s IH]; intros pos; cbn [search_from rmatch contains];
    rewrite !rmatch_lit; destruct (is_prefix a _), (is_prefix b _); cbn [found orb];
    rewrite ?orb_true_r; auto.
Qed.

Lemma str_contains_lit (a s : str) : str_contains (lit a) s = contains a s.
Proof.
  unfold str_contains, search. rewrite <- (search_from_lit a s 0).
  now destruct (search_from (lit a) 0 s).
Qed.

Lemma str_contains_alt_lit (a b s : str) :
  str_contains (Alt (lit a) (lit b)) s = contains a s || contains b s.
Proof.
  unfold str_contains, search. rewrite <- (search_from_alt_lit a b s 0).
  now destruct (search_from (Alt (lit a) (lit b)) 0 s).
Qed.

Lemma is_prefix_app (a s : str) : is_prefix a (a ++ s) = true.
Proof.
  induction a as [|c a IH]; [reflexivity|]. cbn [app is_prefix].
  now rewrite N.eqb_refl, IH.
Qed.

Lemma contains_app (a pre post : str) : contains a (pre ++ a ++ post) = true.
Proof.
  induction pre as [|c pre IH]; cbn [app].
  - destruct (a ++ post) eqn:E; cbn [contains]; rewrite <- E, is_prefix_app; reflexivity.
  - cbn [contains]. rewrite IH. apply orb_true_r.
Qed.

(** A text without the first character of a pattern does not hold it. *)
Lemma contains_absent (c : N) (a s : str) :
  Forall (fun x => x <> c) s -> contains (c :: a) s = false.
Proof.
  induction 1 as [|x s Hx _ IH]; [reflexivity|].
  cbn [contains is_prefix]. apply N.eqb_neq in Hx. rewrite (N.eqb_sym c x), Hx.
  exact IH.
Qed.

Lemma digits_not (c : N) (k : nat) :
  (c < 48 \/ 57 < c)%N -> Forall (fun x => x <> c) (str_of_nat k).
Proof.
  intros Hc. destruct (str_of_nat_spec k) as (_ & Hd & _).
  eapply Forall_impl; [|exact Hd]. unfold ascii_digit. intros x Hx. lia.
Qed.

(** X10: the marker rows that extraction writes are those consolidation
    looks for.  For every file name the file row is found by the file
    pattern; for every page and table number the table row is found by the
    page pattern and never by the file pattern; and both are met by the
    filter that removes marker rows before a merger runs. *)
Theorem X10_markers_recognised :
  (forall file,
     let row := map Some (file_marker file) in
     row_matches pat_file_marker row = true /\ row_matches pat_marker row = true) /\
  (forall page_no table_no,
     let row := map Some (table_marker page_no table_no) in
     row_matches pat_page_marker row = true /\ row_matches pat_marker row = true /\
     row_matches pat_file_marker row = false).
Proof.
  split.
  - intros file. cbn zeta. unfold row_matches, pat_marker, pat_file_marker, file_marker.
    cbn [map col0 cell_at nth astype_str].
    rewrite str_contains_alt_lit, str_contains_lit.
    assert (E : contains (u "ファイル名:") (u "ファイル名: " ++ file) = true).
    { change (u "ファイル名: " ++ file) with ([] ++ u "ファイル名:" ++ (32%N :: file)).
      apply contains_app. }
    now rewrite E.
  - intros page_no table_no. cbn zeta.
    unfold row_matches, pat_marker, pat_file_marker, pat_page_marker, table_marker.
    cbn [map col0 cell_at nth astype_str].
    rewrite str_contains_alt_lit, !str_contains_lit.
    set (t := u "--- ページ " ++ str_of_nat page_no ++ u " / テーブル " ++ str_of_nat table_no
              ++ u " ---").
    assert (E1 : contains (u "--- ページ") t = true).
    { change t with ([] ++ u "--- ページ" ++ (32%N :: str_of_nat page_no ++ u " / テーブル "
                       ++ str_of_nat table_no ++ u " ---")).
      apply contains_app. }
    assert (E2 : contains (u "---") t = true).
    { change t with ([] ++ u "---" ++ (u " ページ " ++ str_of_nat page_no ++ u " / テーブル "
                       ++ str_of_nat table_no ++ u " ---")).
      apply contains_app. }
    assert (E3 : contains (u "ファイル名:") t = false).
    { change (u "ファイル名:") with (12501%N :: u "ァイル名:").
      apply contains_absent. unfold t.
      repeat (apply Forall_app; split);
        try (apply digits_not; right; reflexivity);
        repeat (constructor; [discriminate|]); constructor. }
    rewrite E1, E2, E3. repeat split.
Qed.

(** ** Which pages of a file are extracted *)

Lemma scan_pages_readable (keywords : list str) (pgs : list page) :
  Forall readable pgs ->
  scan_pages keywords pgs
  = (flat_map page_rows (filter (has_keyword keywords) pgs),
     existsb (has_keyword keywords) pgs, None).
Proof.
  induction 1 as [|p pgs [[t Ht] [ts Hts]] _ IH]; [reflexivity|].
  assert (Hk : existsb (fun kw => contains kw (match t with Some x => x | None => [] end))
                 keywords = has_keyword keywords p).
  { unfold has_keyword, page_text. rewrite Ht. now destruct t. }
  cbn [scan_pages filter existsb]. rewrite Ht, Hk.
  destruct (has_keyword keywords p) eqn:E.
  - assert (Hrows : page_rows p = table_rows (page_number p) 0 ts)
      by (unfold page_rows; now rewrite Hts).
    rewrite Hts, IH. cbn [flat_map orb]. now rewrite Hrows.
  - rewrite IH. reflexivity.
Qed.

(** X11: from a file that opens, with a range [first..last] inside the
    file (pages counted from 1, both ends included) and no failure of the PDF
    library on those pages, extraction writes the file marker, a blank row,
    and then the table rows of exactly those pages of the range whose text
    holds a keyword, in page order; it warns exactly when no page of the range
    holds one.  Without a range, or with 0 for both ends, the range is the
    whole file. *)
Theorem X11_pages_extracted (keywords : list str) (gs ge : option Z)
    (ranges : list (str * (option Z * option Z))) (f : pdf_file) (pgs : list page) :
  pages f = Ok pgs ->
  (forall first last,
     range_of gs ge ranges f = (Some first, Some last) ->
     (1 <= first <= last)%Z -> (last <= Z.of_nat (length pgs))%Z ->
     Forall readable (pages_between first last pgs) ->
     extract_file keywords gs ge ranges f
     = (file_marker (name f) :: []
          :: flat_map page_rows
               (filter (has_keyword keywords) (pages_between first last pgs)),
        if existsb (has_keyword keywords) (pages_between first last pgs)
        then [] else [WarningNothingFound (name f)])) /\
  (forall cs ce,
     range_of gs ge ranges f = (cs, ce) -> given cs = false -> given ce = false ->
     pgs <> [] -> Forall readable pgs ->
     extract_file keywords gs ge ranges f
     = (file_marker (name f) :: [] :: flat_map page_rows (filter (has_keyword keywords) pgs),
        if existsb (has_keyword keywords) pgs then [] else [WarningNothingFound (name f)])).
Proof.
  intros Hp. split.
  - intros first last Hr Hfl Hl Hread. unfold extract_file. rewrite Hr, Hp.
    unfold resolve_range, given, fill_z.
    replace (first =? 0)%Z with false by (symmetry; apply Z.eqb_neq; lia).
    replace (last =? 0)%Z with false by (symmetry; apply Z.eqb_neq; lia).
    cbn [negb]. rewrite Z.max_r, Z.min_r by lia.
    replace (last <=? first - 1)%Z with false by (symmetry; apply Z.leb_gt; lia).
    assert (E : slice (Z.to_nat (first - 1)) (Z.to_nat last) pgs = pages_between first last pgs).
    { unfold slice, pages_between. f_equal. lia. }
    rewrite E, (scan_pages_readable keywords _ Hread).
    now destruct (existsb (has_keyword keywords) (pages_between first last pgs)).
  - intros cs ce Hr Hcs Hce Hne Hread. unfold extract_file. rewrite Hr, Hp.
    unfold resolve_range. rewrite Hcs, Hce.
    rewrite Z.max_l, Z.min_l by lia.
    assert (Hlen : length pgs <> 0) by (destruct pgs; [now elim Hne | discriminate]).
    replace (Z.of_nat (length pgs) <=? 0)%Z with false by (symmetry; apply Z.leb_gt; lia).
    assert (E : slice (Z.to_nat 0) (Z.to_nat (Z.of_nat (length pgs))) pgs = pgs).
    { unfold slice. rewrite Nat2Z.id. cbn [Z.to_nat skipn]. rewrite Nat.sub_0_r.
      apply firstn_all. }
    rewrite E, (scan_pages_readable keywords _ Hread).
    now destruct (existsb (has_keyword keywords) pgs).
Qed.

Lemma X11_witness :
  let p1 := {| page_number := 1; extract_text := Ok (Some (u "目次"));
               extract_tables := Ok [] |} in
  let p2 := {| page_number := 2; extract_text := Ok (Some (u "売上高の推移"));
               extract_tables := Ok [[[Some (u "売上"); None]]] |} in
  let p3 := {| page_number := 3; extract_text := Raise ValueError;
               extract_tables := Ok [] |} in
  let f := {| name := u "a.pdf"; pages := Ok [p1; p2; p3] |} in
  extract_file [u "売上"] (Some 1%Z) (Some 2%Z) [] f
  = (file_marker (name f) :: []
       :: flat_map page_rows (filter (has_keyword [u "売上"]) (pages_between 1 2 [p1; p2; p3])),
     if existsb (has_keyword [u "売上"]) (pages_between 1 2 [p1; p2; p3])
     then [] else [WarningNothingFound (name f)]).
Proof.
  intros p1 p2 p3 f.
  refine (proj1 (X11_pages_extracted [u "売上"] (Some 1%Z) (Some 2%Z) [] f [p1; p2; p3] eq_refl)
            1%Z 2%Z eq_refl _ _ _).
  - lia.
  - cbn [length]. lia.
  - repeat constructor; eexists; reflexivity.
Defined.

(** ** The page: page boxes, keywords, file and sheet names *)

Lemma py_int_from_cases (s : str) :
  forall acc,
    match py_int_from acc s with
    | Ok z => Forall decimal s /\ z = (acc * 10 ^ Z.of_nat (length s) + place_value s)%Z
    | Raise e => e = ValueError /\ Exists (fun c => is_decimal c = false) s
    end.
Proof.
  induction s as [|c s IH]; intros acc; cbn [py_int_from].
  - split; [constructor | cbn; lia].
  - unfold decimal, is_decimal at 1 2. destruct (decimal_value c) as [d|] eqn:E.
    + specialize (IH (acc * 10 + Z.of_N d)%Z).
      destruct (py_int_from _ s) as [z|e].
      * destruct IH as [Hs Hz]. split.
        { constructor; [|assumption]. unfold decimal, is_decimal. now rewrite E. }
        cbn [place_value length]. unfold digit_of. rewrite E.
        rewrite Nat2Z.inj_succ, Z.pow_succ_r by lia. rewrite Hz. ring.
      * destruct IH as [-> Hs]. split; [reflexivity | now right].
    + split; [reflexivity|]. left. unfold is_decimal. now rewrite E.
Qed.

Lemma digit_of_ascii (c : N) : (48 <= c <= 57)%N -> digit_of c = (Z.of_N c - 48)%Z.
Proof.
  intros H.
  assert (Hc : In c [48; 49; 50; 51; 52; 53; 54; 55; 56; 57]%N).
  { cbn [In]. lia. }
  cbn [In] in Hc.
  repeat (destruct Hc as [<-|Hc]; [vm_compute; reflexivity|]). destruct Hc.
Qed.

(** X12: a page box gives no bound when its text is empty or holds a
    character that is not a digit.  When it gives a bound, the text is made
    of at most 4300 decimal digits and the bound is the number written: the
    sum of the digits, each times the power of ten of its place, where the
    digit of a character from 0 to 9 is its distance from the character 0.
    On a text of digits reading raises a ValueError, when one digit is not
    decimal (a superscript or a circled digit) or there are more than 4300
    digits. *)
Theorem X12_page_input_cases :
  (forall s_in,
     match page_input s_in with
     | Ok None => isdigit s_in = false
     | Ok (Some z) =>
       s_in <> [] /\ Forall decimal s_in /\ length s_in <= 4300 /\ z = place_value s_in
     | Raise e =>
       e = ValueError /\ isdigit s_in = true /\
       (Exists (fun c => is_decimal c = false) s_in \/ 4300 < length s_in)
     end) /\
  (forall c, (48 <= c <= 57)%N -> digit_of c = (Z.of_N c - 48)%Z) /\
  page_input (u "12") = Ok (Some 12%Z) /\
  page_input (u "007") = Ok (Some 7%Z) /\
  page_input (u "") = Ok None /\
  page_input (u "1a") = Ok None /\
  page_input (u "-3") = Ok None /\
  page_input (u "²") = Raise ValueError.
Proof.
  split; [|split; [exact digit_of_ascii | repeat split]].
  intros s_in. unfold page_input. destruct (isdigit s_in) eqn:E; [|reflexivity].
  destruct s_in as [|c s]; [discriminate|]. unfold py_int.
  destruct (max_str_digits <? N.of_nat (length (c :: s)))%N eqn:L; cbn [bind].
  - apply N.ltb_lt in L. unfold max_str_digits in L.
    split; [reflexivity|]. split; [reflexivity|]. right. lia.
  - apply N.ltb_ge in L. unfold max_str_digits in L.
    pose proof (py_int_from_cases (c :: s) 0) as H.
    destruct (py_int_from 0 (c :: s)) as [z|e]; cbn [bind].
    + destruct H as [Hd Hz]. split; [discriminate|]. split; [assumption|].
      split; [lia|]. rewrite Hz. apply Z.add_0_l.
    + destruct H as [-> Hx]. split; [reflexivity|]. split; [reflexivity|]. now left.
Qed.

Lemma X12_witness : digit_of 50 = (Z.of_N 50 - 48)%Z.
Proof.
  refine (proj1 (proj2 X12_page_input_cases) 50%N _). lia.
Defined.

Lemma is_prefix_short (sep s : str) : length s < length sep -> is_prefix sep s = false.
Proof.
  revert s. induction sep as [|c sep IH]; intros s H; [cbn [length] in H; lia|].
  destruct s as [|x s]; [reflexivity|]. cbn [is_prefix length] in *.
  rewrite IH by lia. apply andb_false_r.
Qed.

Lemma rfind_short (sep s : str) : length s < length sep -> rfind sep s = None.
Proof.
  induction s as [|x s IH]; intros H; cbn [rfind].
  - now rewrite is_prefix_short.
  - rewrite IH by (cbn [length] in H; lia). now rewrite is_prefix_short.
Qed.

Lemma is_prefix_refl (s : str) : is_prefix s s = true.
Proof. induction s as [|c s IH]; [reflexivity|]. cbn [is_prefix]. now rewrite N.eqb_refl. Qed.

(** The last occurrence of a separator in a text that ends with it is at
    the end. *)
Lemma rfind_app (sep b : str) : sep <> [] -> rfind sep (b ++ sep) = Some (length b).
Proof.
  intros Hne. induction b as [|x b IH]; cbn [app length].
  - destruct sep as [|c sep]; [now elim Hne|]. cbn [rfind].
    rewrite rfind_short by (cbn [length]; lia). now rewrite is_prefix_refl.
  - cbn [rfind]. now rewrite IH.
Qed.

Lemma rsplit_head_app (sep b : str) : sep <> [] -> rsplit_head sep (b ++ sep) = b.
Proof.
  intros Hne. unfold rsplit_head. rewrite rfind_app by assumption.
  rewrite firstn_app, Nat.sub_diag, firstn_all. cbn [firstn]. apply app_nil_r.
Qed.

Lemma endswith_app (suffix b : str) : endswith suffix (b ++ suffix) = true.
Proof. unfold endswith. rewrite rev_app_distr. apply is_prefix_app. Qed.

Lemma removesuffix_app (suffix b : str) : removesuffix suffix (b ++ suffix) = b.
Proof.
  unfold removesuffix. rewrite endswith_app, length_app, Nat.add_sub.
  rewrite firstn_app, Nat.sub_diag, firstn_all. cbn [firstn]. apply app_nil_r.
Qed.

(** X13: the name of the consolidated file.  For a sheet named [b.xlsx] it
    is [b], without a final [_まとめ] if it has one, followed by the suffix of
    the mode and [.xlsx]; so the download of an extraction by keywords K1..Kn,
    named K1_.._Kn_まとめ.xlsx, consolidates into K1_.._Kn_縦統合.xlsx or
    K1_.._Kn_横統合.xlsx.  A name that holds no [.xlsx] is kept whole. *)
Theorem X13_consolidation_filename :
  (forall b mode,
     consolidation_filename (b ++ xlsx) mode
     = (if endswith matome b then removesuffix matome b else b) ++ mode_suffix mode ++ xlsx) /\
  (forall keywords mode,
     consolidation_filename (extraction_filename keywords) mode
     = match keywords with
       | [] => u "抽出結果"
       | _ => join (u "_") keywords
       end ++ mode_suffix mode ++ xlsx) /\
  (forall s mode,
     rfind xlsx s = None ->
     consolidation_filename s mode
     = (if endswith matome s then removesuffix matome s else s) ++ mode_suffix mode ++ xlsx).
Proof.
  assert (H1 : forall b mode,
     consolidation_filename (b ++ xlsx) mode
     = (if endswith matome b then removesuffix matome b else b) ++ mode_suffix mode ++ xlsx).
  { intros b mode. unfold consolidation_filename.
    rewrite rsplit_head_app by discriminate.
    destruct (endswith matome b); now rewrite <- app_assoc. }
  split; [exact H1|]. split.
  - intros keywords mode.
    assert (E : extraction_filename keywords
                = (match keywords with
                   | [] => u "抽出結果"
                   | _ => join (u "_") keywords
                   end ++ matome) ++ xlsx).
    { unfold extraction_filename. destruct keywords; [reflexivity|].
      rewrite <- app_assoc. reflexivity. }
    rewrite E, H1, endswith_app, removesuffix_app. reflexivity.
  - intros s mode Hs. unfold consolidation_filename, rsplit_head. rewrite Hs.
    destruct (endswith matome s); now rewrite <- app_assoc.
Qed.

Lemma X13_witness :
  consolidation_filename (u "report.XLSX") Vertical
  = (if endswith matome (u "report.XLSX") then removesuffix matome (u "report.XLSX")
     else u "report.XLSX") ++ mode_suffix Vertical ++ xlsx.
Proof. apply X13_consolidation_filename. reflexivity. Defined.

Lemma NoDup_map_inj {A B : Type} (f : A -> B) (l : list A) :
  (forall x y, f x = f y -> x = y) -> NoDup l -> NoDup (map f l).
Proof.
  intros Hf. induction 1 as [|x l Hx _ IH]; cbn [map]; constructor; [|assumption].
  intros Hin. apply in_map_iff in Hin. destruct Hin as (y & E & Hy).
  apply Hf in E. now subst y.
Qed.

(** X14: the summaries are written to sheets of different names: the index
    of a summary can be read back from the name of its sheet. *)
Theorem X14_sheet_names_distinct :
  (forall i j, sheet_name i = sheet_name j -> i = j) /\
  (forall n, NoDup (map sheet_name (seq 0 n))).
Proof.
  assert (H : forall i j, sheet_name i = sheet_name j -> i = j).
  { intros i j E. unfold sheet_name in E. apply app_inv_head in E.
    apply str_of_nat_inj in E. lia. }
  split; [exact H|]. intros n. apply NoDup_map_inj; [exact H | apply seq_NoDup].
Qed.

Lemma X14_witness : NoDup (map sheet_name (seq 0 3)).
Proof. apply X14_sheet_names_distinct. Defined.

Lemma split_comma_pieces (s : str) : exists piece pieces, split_comma s = piece :: pieces.
Proof.
  destruct s as [|c s]; [now exists [], []|]. cbn [split_comma].
  destruct (c =? 44)%N; [now eexists; eexists|].
  destruct (split_comma s); now eexists; eexists.
Qed.

(** Splitting at the commas loses nothing. *)
Lemma split_comma_join (s : str) : join [44%N] (split_comma s) = s.
Proof.
  induction s as [|c s IH]; [reflexivity|]. cbn [split_comma].
  destruct (split_comma_pieces s) as (piece & pieces & Hs). rewrite Hs in *.
  destruct (c =? 44)%N eqn:E.
  - apply N.eqb_eq in E. subst c.
    change (join [44%N] ([] :: piece :: pieces))
      with ([] ++ [44%N] ++ join [44%N] (piece :: pieces)).
    now rewrite IH.
  - destruct pieces as [|q pieces].
    + cbn [join] in *. now rewrite IH.
    + change (join [44%N] ((c :: piece) :: q :: pieces))
        with (c :: join [44%N] (piece :: q :: pieces)).
      now rewrite IH.
Qed.

Lemma split_comma_no_comma (s : str) :
  Forall (fun piece => ~ In 44%N piece) (split_comma s).
Proof.
  induction s as [|c s IH]; [repeat constructor; intros []|]. cbn [split_comma].
  destruct (c =? 44)%N eqn:E.
  - constructor; [intros [] | assumption].
  - apply N.eqb_neq in E. destruct (split_comma s) as [|piece pieces].
    + repeat constructor. intros [H|[]]. now elim E.
    + inversion IH; subst. constructor; [|assumption].
      intros [H|H]; [now elim E | contradiction].
Qed.

(** A piece of a joined text is a part of it. *)
Lemma join_part (sep : str) (l : list str) (x : str) :
  In x l -> exists pre post, join sep l = pre ++ x ++ post.
Proof.
  induction l as [|y l IH]; [intros []|]. intros [->|Hx].
  - destruct l as [|z l]; cbn [join].
    + exists [], []. now rewrite app_nil_r.
    + now exists [], (sep ++ join sep (z :: l)).
  - destruct (IH Hx) as (pre & post & E). destruct l as [|z l]; [destruct Hx|].
    cbn [join] in *. rewrite E. exists (y ++ sep ++ pre), post. now rewrite <- !app_assoc.
Qed.

Lemma join_Forall (Q : N -> Prop) (sep : str) (l : list str) :
  Forall Q sep -> Forall (Forall Q) l -> Forall Q (join sep l).
Proof.
  intros Hsep. induction 1 as [|x l Hx Hl IH]; [constructor|].
  destruct l as [|y l]; cbn [join]; [assumption|].
  apply Forall_app. split; [assumption|]. apply Forall_app. split; assumption.
Qed.

Lemma lstrip_split (s : str) : exists a, s = a ++ lstrip s /\ all_space a.
Proof.
  induction s as [|c s (a & E & Ha)]; [exists []; split; [reflexivity | constructor]|].
  cbn [lstrip]. destruct (is_space c) eqn:Hc.
  - exists (c :: a). split; [cbn [app]; now f_equal | now constructor].
  - exists []. split; [reflexivity | constructor].
Qed.

Lemma all_space_rev (s : str) : all_space s -> all_space (rev s).
Proof. unfold all_space. intros H. now apply Forall_rev. Qed.

Lemma rstrip_split (s : str) : exists b, s = rstrip s ++ b /\ all_space b.
Proof.
  unfold rstrip. destruct (lstrip_split (rev s)) as (a & E & Ha).
  exists (rev a). split; [|now apply all_space_rev].
  rewrite <- rev_app_distr, <- E. symmetry. apply rev_involutive.
Qed.

(** A text is white space, the stripped text, and white space. *)
Lemma strip_split (s : str) :
  exists a b, s = a ++ strip s ++ b /\ all_space a /\ all_space b.
Proof.
  destruct (lstrip_split s) as (a & Ea & Ha).
  destruct (rstrip_split (lstrip s)) as (b & Eb & Hb).
  exists a, b. unfold strip. now rewrite <- Eb.
Qed.

Lemma strip_nil (s : str) : strip s = [] <-> all_space s.
Proof.
  split.
  - intros E. destruct (strip_split s) as (a & b & Es & Ha & Hb).
    rewrite E in Es. rewrite Es. apply Forall_app. split; assumption.
  - intros H. unfold strip. now rewrite (lstrip_all_space_nil s H).
Qed.

(** X15: the keywords read from the keyword box are the parts of the text
    between commas, stripped, without those that are empty or white space:
    every keyword is not empty, has no white space at either end and no comma,
    and occurs in the text typed; no keyword is read exactly when the text
    holds nothing but commas and white space. *)
Theorem X15_keywords_parsed (keyword_input_str : str) :
  (forall kw,
     In kw (parse_keywords keyword_input_str) ->
     kw <> [] /\ strip kw = kw /\ ~ In 44%N kw /\ contains kw keyword_input_str = true) /\
  (parse_keywords keyword_input_str = []
   <-> Forall (fun c => c = 44%N \/ is_space c = true) keyword_input_str).
Proof.
  set (s := keyword_input_str). unfold parse_keywords. split.
  - intros kw Hkw. apply in_map_iff in Hkw. destruct Hkw as (piece & <- & Hp).
    apply filter_In in Hp. destruct Hp as [Hp Hne].
    split; [now destruct (strip piece)|]. split; [apply strip_strip|].
    destruct (strip_split piece) as (a & b & E & _ & _).
    split.
    + intros Hin. pose proof (split_comma_no_comma s) as Hc.
      rewrite Forall_forall in Hc. apply (Hc piece Hp). rewrite E.
      apply in_or_app. right. apply in_or_app. now left.
    + destruct (join_part [44%N] (split_comma s) piece Hp) as (pre & post & Ej).
      rewrite split_comma_join in Ej. rewrite Ej.
      set (k := strip piece) in *. rewrite E.
      replace (pre ++ (a ++ k ++ b) ++ post)
        with ((pre ++ a) ++ k ++ (b ++ post)) by now rewrite <- !app_assoc.
      apply contains_app.
  - split.
    + intros E. apply map_eq_nil in E.
      rewrite <- (split_comma_join s). apply join_Forall; [constructor; [now left | constructor]|].
      apply Forall_forall. intros piece Hp.
      assert (Hs : strip piece = []).
      { destruct (strip piece) as [|c t] eqn:Hs; [reflexivity|].
        assert (Hin : In piece (filter (fun kw => match strip kw with [] => false | _ => true end)
                                       (split_comma s)))
          by (apply filter_In; split; [assumption | now rewrite Hs]).
        rewrite E in Hin. destruct Hin. }
      apply strip_nil in Hs. eapply Forall_impl; [|exact Hs]. intros c Hc. now right.
    + intros H.
      assert (E : filter (fun kw => match strip kw with [] => false | _ => true end)
                         (split_comma s) = []).
      { apply filter_none. intros piece Hp.
        assert (Hs : all_space piece).
        { apply Forall_forall. intros c Hc.
          destruct (join_part [44%N] (split_comma s) piece Hp) as (pre & post & Ej).
          rewrite split_comma_join in Ej.
          assert (Hin : In c s)
            by (rewrite Ej; apply in_or_app; right; apply in_or_app; now left).
          rewrite Forall_forall in H. destruct (H c Hin) as [->|Hsp]; [|exact Hsp].
          pose proof (split_comma_no_comma s) as Hn. rewrite Forall_forall in Hn.
          now elim (Hn piece Hp). }
        apply strip_nil in Hs. now rewrite Hs. }
      now rewrite E.
Qed.

Lemma X15_witness :
  u "売上" <> [] /\ strip (u "売上") = u "売上" /\ ~ In 44%N (u "売上") /\
  contains (u "売上") (u " 売上 , ,利益") = true.
Proof.
  apply (proj1 (X15_keywords_parsed (u " 売上 , ,利益"))). now left.
Defined.

(** ** Period columns that share a sort key *)

Lemma filter_map_snd {A B : Type} (p : B -> bool) (l : list (A * B)) :
  filter p (map snd l) = map snd (filter (fun x => p (snd x)) l).
Proof.
  induction l as [|x l IH]; [reflexivity|]. cbn [map filter].
  destruct (p (snd x)); cbn [map]; now rewrite IH.
Qed.

Lemma sorted_by_key_stable (cols cols' : list str) (k : Z) :
  sorted_by_key cols = Ok cols' -> filter (has_key k) cols' = filter (has_key k) cols.
Proof.
  unfold sorted_by_key. destruct (map_ok sort_key cols) as [keys|] eqn:E; [|discriminate].
  cbn [bind]. intros [= <-]. destruct (map_ok_keys _ _ _ E) as [Hsnd Hkeys].
  rewrite <- Hsnd at 2. rewrite !filter_map_snd. f_equal.
  rewrite Forall_forall in Hkeys.
  assert (Hext : forall l : list (Z * str),
            (forall x, In x l -> In x (combine keys cols)) ->
            filter (fun x => has_key k (snd x)) l = filter (fun x => (fst x =? k)%Z) l).
  { intros l Hl. apply filter_ext_in. intros x Hx. unfold has_key.
    now rewrite (Hkeys x (Hl x Hx)). }
  rewrite (Hext (combine keys cols)) by auto.
  rewrite Hext.
  - apply sort_by_stable. intros x y Hx Hy. unfold key_leb.
    apply Z.eqb_eq in Hx, Hy. apply Z.leb_le. lia.
  - intros x Hx. eapply Permutation_in; [symmetry; apply sort_by_perm | exact Hx].
Qed.

Section Ties.
Context {NUM : Numeric}.

(** X16: the sort of the period columns is stable: the columns of a summary
    that share a sort key (2024/1 and 2024/10 do) stand in the order in which
    the merge met them. *)
Theorem X16_equal_keys_keep_merge_order (s : slot) (r : summary) (k : Z) :
  summarize s = Ok r ->
  filter (has_key k) (year_cols r)
  = filter (has_key k) (columns (merge_frames (ordered_items s) (list_of_dfs s))).
Proof.
  unfold summarize. destruct (sorted_by_key _) as [cols|] eqn:E; [|discriminate].
  cbn [bind]. destruct (map_ok (cast_row cols) _) as [rows'|]; [|discriminate].
  cbn [bind]. intros [= <-]. cbn [year_cols].
  exact (sorted_by_key_stable _ _ k E).
Qed.

End Ties.

Lemma X16_witness :
  let f1 := int_frame [u "2024/10"] [(u "A", [(u "2024/10", Some 1%Z)])] in
  let f2 := int_frame [u "2023/4"; u "2024/1"]
              [(u "A", [(u "2023/4", Some 2%Z); (u "2024/1", Some 3%Z)])] in
  let s := {| list_of_dfs := [f1; f2]; ordered_items := [u "A"] |} in
  filter (has_key 202410)
    [u "2023/4"; u "2024/10"; u "2024/1"]
  = filter (has_key 202410) (columns (merge_frames (ordered_items s) (list_of_dfs s))).
Proof.
  intros f1 f2 s.
  refine (X16_equal_keys_keep_merge_order (NUM := IntCells) s
            {| year_cols := [u "2023/4"; u "2024/10"; u "2024/1"];
               items := [(u "A", [(u "2023/4", 2%Z); (u "2024/10", 1%Z); (u "2024/1", 3%Z)])] |}
            202410 _).
  vm_compute. reflexivity.
Defined.

(** ** The period columns of a vertical frame *)


Section VerticalColumns.
Context {NUM : Numeric}.


End VerticalColumns.

(** ** What the removal of the temporary suffix changes *)

(** A match somewhere makes the search succeed. *)
Lemma search_from_some (r : regex) (pre s' : str) :
  forall pos caps,
    rmatch (Grp 0 r) (pos + length pre) s' [] (fun _ _ c => Some c) = Some caps ->
    exists m, search_from r pos (pre ++ s') = Some m.
Proof.
  induction pre as [|c pre IH]; intros pos caps H; cbn [length app] in *.
  - rewrite Nat.add_0_r in H. rewrite (search_from_hit _ _ _ _ H). now eexists.
  - cbn [search_from]. destruct (rmatch _ pos _ _ _); [now eexists|].
    apply (IH (S pos) caps). now rewrite Nat.add_succ_l, <- Nat.add_succ_r.
Qed.

(** What the suffix pattern matches: [_temp_], decimal digits, and the end of
    the text or a last line feed. *)
Lemma temp_suffix_shape (pos : nat) (s' : str) (caps : captures) :
  rmatch (Grp 0 pat_temp_suffix) pos s' [] (fun _ _ c => Some c) = Some caps ->
  exists ds tail,
    ds <> [] /\ Forall decimal ds /\ (tail = [] \/ tail = [10%N]) /\
    s' = u "_temp_" ++ ds ++ tail /\ caps = [(0, u "_temp_" ++ ds)].
Proof.
  unfold pat_temp_suffix. cbn [seqs fold_right rmatch]. rewrite rmatch_lit.
  destruct (is_prefix (u "_temp_") s') eqn:Hp; [|discriminate].
  apply is_prefix_true in Hp. set (rest := skipn (length (u "_temp_")) s') in *.
  unfold digit. cbn [rmatch]. destruct rest as [|d rest']; [discriminate|].
  destruct (is_decimal d) eqn:Hd; [|discriminate].
  intros H. apply (star_consumes decimal is_decimal rest' (fun x Hx => Hx)) in H.
  destruct H as (pos' & s3 & t & Hk & -> & -> & Ht).
  exists (d :: t).
  assert (Hcap : firstn (S (pos + length (u "_temp_")) + length t - pos) s'
                 = u "_temp_" ++ d :: t).
  { rewrite Hp.
    replace (S (pos + length (u "_temp_")) + length t - pos)
      with (length (u "_temp_" ++ d :: t)) by (rewrite length_app; cbn [length]; lia).
    change (u "_temp_" ++ d :: t ++ s3) with ((u "_temp_" ++ d :: t) ++ s3) at 1.
    rewrite <- app_assoc. cbn [app].
    replace (u "_temp_" ++ d :: t ++ s3) with ((u "_temp_" ++ d :: t) ++ s3)
      by (rewrite <- app_assoc; reflexivity).
    rewrite firstn_app, Nat.sub_diag, firstn_all. cbn [firstn]. apply app_nil_r. }
  destruct s3 as [|c [|c' s4]]; cbn [rmatch] in Hk.
  - exists []. rewrite Hcap in Hk. injection Hk as <-.
    repeat split; [discriminate | now constructor | now left | now rewrite Hp].
  - destruct (c =? 10)%N eqn:Hc; [|discriminate]. apply N.eqb_eq in Hc. subst c.
    exists [10%N]. rewrite Hcap in Hk. injection Hk as <-.
    repeat split; [discriminate | now constructor | now right | now rewrite Hp].
  - discriminate.
Qed.

(** Two runs of decimal digits that end one text after a character that is
    not decimal are the same run. *)
Lemma decimal_suffix_unique (x x' ds ds' : str) (c c' : N) :
  is_decimal c = false -> is_decimal c' = false ->
  Forall decimal ds -> Forall decimal ds' ->
  x ++ c :: ds = x' ++ c' :: ds' -> x = x' /\ ds = ds'.
Proof.
  intros Hc Hc' Hds Hds' E.
  assert (R : rev ds ++ c :: rev x = rev ds' ++ c' :: rev x').
  { apply (f_equal (@rev N)) in E. rewrite !rev_app_distr in E. cbn [rev] in E.
    now rewrite <- !app_assoc in E. }
  apply Forall_rev in Hds, Hds'. clear E.
  assert (G : forall a b : str,
            a ++ c :: rev x = b ++ c' :: rev x' -> Forall decimal a -> Forall decimal b ->
            a = b /\ rev x = rev x').
  { induction a as [|y a IH]; intros [|z b] E Ha Hb; cbn [app] in E.
    - injection E as _ E. now split.
    - injection E as -> _. inversion Hb; subst. unfold decimal in *. congruence.
    - injection E as -> _. inversion Ha; subst. unfold decimal in *. congruence.
    - injection E as -> E. inversion Ha; inversion Hb; subst.
      destruct (IH b E) as [-> Hx]; auto. }
  destruct (G _ _ R Hds Hds') as [Hab Hx].
  apply (f_equal (@rev N)) in Hx, Hab. rewrite !rev_involutive in Hx, Hab. now split.
Qed.

Lemma last_decimal (x y ds : str) (d c : N) :
  Forall decimal (d :: ds) -> x ++ d :: ds = y ++ [c] -> is_decimal c = true.
Proof.
  intros Hds E. destruct (exists_last (l := d :: ds)) as (t & z & Et); [discriminate|].
  rewrite Et in E, Hds. rewrite app_assoc in E. apply app_inj_tail in E. destruct E as [_ <-].
  apply Forall_app in Hds. destruct Hds as [_ Hz]. now inversion Hz.
Qed.

(** X18: the clean-up of the item names removes a final [_temp_] followed
    by decimal digits from every name that ends so, whether the program made
    the name or the sheet held it, and changes no other name: what it removes
    is always [_temp_] and decimal digits at the end of the name (or before a
    last line feed). *)
Theorem X18_temp_suffix_removed :
  (forall b ds,
     ds <> [] -> Forall decimal ds -> strip_temp_suffix (b ++ u "_temp_" ++ ds) = b) /\
  (forall label,
     strip_temp_suffix label = label \/
     exists b ds tail,
       ds <> [] /\ Forall decimal ds /\ (tail = [] \/ tail = [10%N]) /\
       label = b ++ u "_temp_" ++ ds ++ tail /\ strip_temp_suffix label = b ++ tail).
Proof.
  assert (H2 : forall label,
     strip_temp_suffix label = label \/
     exists b ds tail,
       ds <> [] /\ Forall decimal ds /\ (tail = [] \/ tail = [10%N]) /\
       label = b ++ u "_temp_" ++ ds ++ tail /\ strip_temp_suffix label = b ++ tail).
  { intros label. unfold strip_temp_suffix, sub_at_end, search.
    destruct (search_from pat_temp_suffix 0 label) as [m|] eqn:E; [|now left].
    right. destruct (search_from_at _ _ _ _ E) as (pre & s' & Hl & Hm & Hr).
    destruct (temp_suffix_shape _ _ _ Hr) as (ds & tail & Hne & Hds & Ht & Hs & Hc).
    exists pre, ds, tail. repeat split; try assumption; [now rewrite Hl, Hs|].
    unfold group. rewrite Hc. cbn [find fst snd Nat.eqb app]. rewrite Hm, Hl, Hs.
    cbn [Nat.add]. rewrite firstn_app, Nat.sub_diag, firstn_all. cbn [firstn].
    rewrite app_nil_r. f_equal.
    rewrite skipn_app, skipn_all2 by lia. cbn [app].
    replace (length pre + length (u "_temp_" ++ ds) - length pre)
      with (length (u "_temp_" ++ ds)) by lia.
    rewrite app_assoc, skipn_app, Nat.sub_diag, skipn_all. reflexivity. }
  split; [|exact H2].
  intros b ds Hne Hds.
  destruct ds as [|d ds]; [now elim Hne|].
  assert (Hhit : exists m, search_from pat_temp_suffix 0 (b ++ u "_temp_" ++ d :: ds) = Some m).
  { apply (search_from_some pat_temp_suffix b _ 0 [(0, temp_text (d :: ds))]).
    apply temp_suffix_match. exact Hds. }
  destruct (H2 (b ++ u "_temp_" ++ d :: ds)) as [Hid|(b' & ds' & tail & Hne' & Hds' & Ht & Hl & Hs)].
  - exfalso. unfold strip_temp_suffix, sub_at_end, search in Hid.
    destruct Hhit as [m Hm]. rewrite Hm in Hid.
    destruct (search_from_at _ _ _ _ Hm) as (pre & s' & Hl & Hst & Hr).
    destruct (temp_suffix_shape _ _ _ Hr) as (ds' & tail & Hne' & _ & _ & Hs' & Hc).
    apply (f_equal (@length N)) in Hid.
    pose proof (f_equal (@length N) Hl) as HL. rewrite Hs' in HL.
    rewrite !length_app, length_firstn, length_skipn in Hid.
    unfold group in Hid. rewrite Hc in Hid. cbn [find fst snd Nat.eqb] in Hid.
    rewrite !length_app in Hid. repeat rewrite length_app in HL.
    destruct ds'; [now elim Hne'|]. cbn [length] in Hid, HL. lia.
  - rewrite Hs.
    assert (Hsplit : forall x t, x ++ u "_temp_" ++ t = (x ++ u "_temp") ++ 95%N :: t).
    { intros x t. rewrite <- app_assoc. reflexivity. }
    destruct Ht as [->| ->].
    + rewrite app_nil_r in *. rewrite !Hsplit in Hl.
      destruct (decimal_suffix_unique (b ++ u "_temp") (b' ++ u "_temp") (d :: ds) ds'
                  95%N 95%N eq_refl eq_refl Hds Hds' Hl) as [Hx _].
      apply app_inv_tail in Hx. now subst b'.
    + exfalso.
      assert (E : (b ++ u "_temp_") ++ d :: ds = (b' ++ u "_temp_" ++ ds') ++ [10%N])
        by (rewrite <- !app_assoc; exact Hl).
      apply last_decimal in E; [discriminate | exact Hds].
Qed.

Lemma X18_witness : strip_temp_suffix (u "plan" ++ u "_temp_" ++ u "2") = u "plan".
Proof.
  apply X18_temp_suffix_removed; [discriminate | repeat constructor].
Defined.

(** ** Rows written for a table *)

Lemma replace_line_feed (s : str) :
  replace [10%N] (u " ") s = map (fun c => if (c =? 10)%N then 32%N else c) s.
Proof.
  unfold replace. induction s as [|c s IH]; [reflexivity|].
  cbn [replace_from is_prefix length Nat.sub map]. rewrite andb_true_r, (N.eqb_sym 10 c).
  destruct (c =? 10)%N; cbn [app]; now rewrite IH.
Qed.

(** X19: a row written for a table row has as many cells as the table row;
    cell for cell, a missing cell is written empty and a text with every line
    feed turned into a space, so that it keeps its length and holds no line
    feed; a row without line feeds and missing cells is written as it is. *)
Theorem X19_cleaned_row (row : list cell) :
  length (cleaned_row row) = length row /\
  (forall i, nth_error row i = Some None -> nth_error (cleaned_row row) i = Some []) /\
  (forall i t,
     nth_error row i = Some (Some t) ->
     exists s, nth_error (cleaned_row row) i = Some s /\ length s = length t /\
               ~ In 10%N s /\ (~ In 10%N t -> s = t)) /\
  (Forall (fun item => exists t, item = Some t /\ ~ In 10%N t) row ->
   map Some (cleaned_row row) = row).
Proof.
  assert (Hsame : forall t, ~ In 10%N t ->
            map (fun c => if (c =? 10)%N then 32%N else c) t = t).
  { induction t as [|c t IHt]; intros Ht; [reflexivity|]. cbn [map].
    destruct (c =? 10)%N eqn:Hc.
    - apply N.eqb_eq in Hc. subst c. elim Ht. now left.
    - f_equal. apply IHt. intros H. apply Ht. now right. }
  unfold cleaned_row. split; [apply length_map|]. split; [|split].
  - intros i Hi. now rewrite nth_error_map, Hi.
  - intros i t Hi. rewrite nth_error_map, Hi. cbn [option_map].
    eexists. split; [reflexivity|]. rewrite replace_line_feed.
    split; [apply length_map|]. split; [|apply Hsame].
    intros H. apply in_map_iff in H. destruct H as (c & E & _).
    destruct (c =? 10)%N eqn:Hc; [discriminate|]. apply N.eqb_neq in Hc. congruence.
  - induction 1 as [|item row (t & -> & Ht) _ IH]; [reflexivity|].
    cbn [map]. rewrite IH, replace_line_feed. do 2 f_equal. now apply Hsame.
Qed.

Lemma X19_witness :
  map Some (cleaned_row [Some (u "売上"); Some (u "1,200")]) = [Some (u "売上"); Some (u "1,200")].
Proof.
  apply X19_cleaned_row. repeat constructor; eexists; (split; [reflexivity|]);
    intros H; repeat (destruct H as [H|H]; [discriminate|]); destruct H.
Defined.

(** ** Missing columns on the right of a chunk *)

Lemma cell_at_beyond (df : dataframe) (r : list cell) (c : nat) :
  within_width df -> In r (rows df) -> ncols df <= c -> cell_at r c = None.
Proof.
  intros Hw Hr Hc. unfold cell_at. apply nth_overflow. specialize (Hw r Hr). lia.
Qed.

Lemma iat_beyond (df : dataframe) (r c : nat) :
  within_width df -> ncols df <= c -> iat df r c = None.
Proof.
  intros Hw Hc. unfold iat.
  destruct (nth_in_or_default r (rows df) []) as [Hin|E].
  - now apply (cell_at_beyond df).
  - rewrite E. unfold cell_at. now destruct c.
Qed.

Lemma kept_columns_widen (k : nat) (df : dataframe) :
  within_width df -> kept_columns (widen k df) = kept_columns df.
Proof.
  intros Hw. unfold kept_columns, widen. cbn [ncols rows].
  rewrite seq_app, filter_app. cbn [Nat.add].
  rewrite (filter_none _ (seq (ncols df) k)); [apply app_nil_r|].
  intros c Hc. apply in_seq in Hc. apply negb_false_iff, forallb_forall.
  intros r Hr. rewrite (cell_at_beyond df r c Hw Hr) by lia. reflexivity.
Qed.

Lemma flat_map_none {A B : Type} (f : A -> list B) (l : list A) :
  (forall x, In x l -> f x = []) -> flat_map f l = [].
Proof.
  induction l as [|x l IH]; intros H; [reflexivity|]. cbn [flat_map].
  rewrite (H x (or_introl eq_refl)), IH; [reflexivity|]. intros y Hy. apply H. now right.
Qed.

Lemma year_cells_widen (k : nat) (df : dataframe) :
  within_width df -> year_cells (widen k df) = year_cells df.
Proof.
  intros Hw. unfold year_cells. f_equal. cbn [widen ncols rows].
  apply flat_map_ext. intros r.
  rewrite seq_app, flat_map_app. cbn [Nat.add].
  rewrite (flat_map_none _ (seq (ncols df) k)); [apply app_nil_r|].
  intros c Hc. apply in_seq in Hc.
  change (iat (widen k df) r c) with (iat df r c).
  rewrite (iat_beyond df r c Hw) by lia. reflexivity.
Qed.

Section Widen.
Context {NUM : Numeric}.

Lemma vertical_loop_widen (k : nat) (df : dataframe) (cells : list (nat * nat * str)) :
  forall processed F,
    vertical_loop (widen k df) cells processed F = vertical_loop df cells processed F.
Proof.
  induction cells as [|[[r c] h] cells IH]; intros processed F; [reflexivity|].
  cbn [vertical_loop]. rewrite !IH. reflexivity.
Qed.

(** X20: a chunk taken from a sheet that is wider than the chunk's own
    rows, so that it has columns of missing cells on its right, gives in both
    modes what the chunk alone gives: the vertical merger finds no label in
    the missing cells, and the horizontal merger takes its values from the
    last column that is not blank. *)
Theorem X20_missing_columns_ignored (k : nat) (df : dataframe) :
  ncols df <> 0 -> within_width df ->
  tool2_extract_data_vertical (widen k df) = tool2_extract_data_vertical df /\
  tool2_extract_data_horizontal (widen k df) = tool2_extract_data_horizontal df.
Proof.
  intros Hn Hw.
  assert (He : df_empty (widen k df) = df_empty df).
  { unfold df_empty, widen. cbn [ncols rows].
    replace (ncols df + k =? 0) with false by (symmetry; apply Nat.eqb_neq; lia).
    replace (ncols df =? 0) with false by (symmetry; apply Nat.eqb_neq; lia).
    reflexivity. }
  split.
  - unfold tool2_extract_data_vertical. rewrite He, (year_cells_widen k df Hw).
    destruct (df_empty df); [reflexivity|].
    destruct (year_cells df) as [|cell cells]; [reflexivity|].
    now rewrite vertical_loop_widen.
  - unfold tool2_extract_data_horizontal. rewrite He.
    assert (Ht : target_rows (widen k df) = target_rows df).
    { unfold target_rows. now rewrite (kept_columns_widen k df Hw). }
    now rewrite Ht, (kept_columns_widen k df Hw).
Qed.

End Widen.

Lemma X20_witness :
  let df := sheet 2 [["項目"; "2024Q1"]; ["売上"; "100"]]%string in
  tool2_extract_data_vertical (NUM := IntCells) (widen 3 df)
  = tool2_extract_data_vertical (NUM := IntCells) df /\
  tool2_extract_data_horizontal (NUM := IntCells) (widen 3 df)
  = tool2_extract_data_horizontal (NUM := IntCells) df.
Proof.
  intros df. apply X20_missing_columns_ignored.
  - cbn [df sheet ncols]. discriminate.
  - intros r [<-|[<-|[]]]; cbn; lia.
Defined.

(** ** The failures of consolidation *)

Lemma py_int_raises (s : str) (e : exn) : py_int s = Raise e -> e = ValueError.
Proof.
  unfold py_int. destruct s as [|c s]; [now intros [= <-]|].
  destruct (max_str_digits <? _)%N; [now intros [= <-]|].
  pose proof (py_int_from_cases (c :: s) 0) as H. intros E. rewrite E in H. apply H.
Qed.

Lemma sort_key_raises (col : str) (e : exn) : sort_key col = Raise e -> e = ValueError.
Proof.
  unfold sort_key. destruct (filter is_digit _); [discriminate|]. apply py_int_raises.
Qed.

Lemma map_ok_raises {A B : Type} (f : A -> outcome B) (l : list A) (e : exn) :
  map_ok f l = Raise e -> exists a, In a l /\ f a = Raise e.
Proof.
  induction l as [|a l IH]; cbn [map_ok]; [discriminate|].
  destruct (f a) as [b|e'] eqn:Hb; cbn [bind].
  - destruct (map_ok f l) as [bs|e'']; cbn [bind]; [discriminate|].
    intros [= <-]. destruct (IH eq_refl) as (x & Hx & E). exists x. split; [now right | exact E].
  - intros [= <-]. exists a. split; [now left | exact Hb].
Qed.

Section Failures.
Context {NUM : Numeric}.

Lemma run_merger_raises (mode : integration_mode) (df : dataframe) (e : exn) :
  run_merger mode df = Raise e -> mode = Horizontal /\ e = AttributeError.
Proof.
  destruct mode; cbn [run_merger]; [discriminate|].
  unfold tool2_extract_data_horizontal.
  destruct (df_empty df); [discriminate|].
  destruct (Nat.ltb _ 2); [discriminate|].
  destruct (horizontal_header (target_rows df)) as [h start].
  destruct (str_eqb h common_item); [|discriminate]. now intros [= <-].
Qed.

(** A table chunk fails exactly when the merger fails on what is left of it
    after cleaning. *)
Lemma process_table_chunk_raises (mode : integration_mode) (w i : nat)
    (chunk : list (list cell)) (st : list slot) (e : exn) :
  process_table_chunk mode w i chunk st = Raise e
  <-> exists df, In df (table_inputs w [chunk]) /\ run_merger mode df = Raise e.
Proof.
  unfold process_table_chunk, table_inputs. cbn [flat_map].
  destruct (clean_table_chunk chunk) as [|row clean].
  - split; [discriminate | intros (df & [] & _)].
  - cbn [app]. destruct (run_merger mode _) as [[[f|] item_order]|e2] eqn:Hr; cbn [bind].
    + split; [destruct (frame_empty f); discriminate|].
      intros (df & [<-|[]] & H). congruence.
    + split; [discriminate|]. intros (df & [<-|[]] & H). congruence.
    + split.
      * intros [= <-]. eexists. split; [now left | exact Hr].
      * intros (df & [<-|[]] & H). congruence.
Qed.

Lemma process_table_chunks_raises (mode : integration_mode) (w : nat)
    (chunks : list (list (list cell))) (e : exn) :
  forall i st,
    process_table_chunks mode w i chunks st = Raise e
    <-> e = AttributeError /\
        exists df, In df (table_inputs w chunks) /\ run_merger mode df = Raise AttributeError.
Proof.
  induction chunks as [|chunk chunks IH]; intros i st; cbn [process_table_chunks].
  - split; [discriminate | intros (_ & df & [] & _)].
  - destruct (process_table_chunk mode w i chunk st) as [st1|e1] eqn:E; cbn [bind].
    + rewrite IH. split.
      * intros (-> & df & Hdf & H). split; [reflexivity|]. exists df.
        split; [apply table_inputs_cons; now right | exact H].
      * intros (-> & df & Hdf & H). split; [reflexivity|].
        apply table_inputs_cons in Hdf. destruct Hdf as [Hdf|Hdf]; [|now exists df].
        assert (Hr : process_table_chunk mode w i chunk st = Raise AttributeError)
          by (apply process_table_chunk_raises; now exists df).
        congruence.
    + apply process_table_chunk_raises in E. destruct E as (df & Hdf & H).
      destruct (run_merger_raises _ _ _ H) as [_ ->]. split.
      * intros [= <-]. split; [reflexivity|]. exists df.
        split; [apply table_inputs_cons; now left | exact H].
      * now intros (-> & _).
Qed.

Lemma process_file_chunks_raises (mode : integration_mode) (w : nat)
    (chunks : list (list (list cell))) (e : exn) :
  forall st,
    process_file_chunks mode w chunks st = Raise e
    <-> e = AttributeError /\
        exists df, In df (merger_inputs w chunks) /\ run_merger mode df = Raise AttributeError.
Proof.
  induction chunks as [|chunk chunks IH]; intros st; cbn [process_file_chunks].
  - split; [discriminate | intros (_ & df & [] & _)].
  - destruct (process_table_chunks mode w 0 (table_chunks chunk) st) as [st1|e1] eqn:E;
      cbn [bind].
    + rewrite IH. split.
      * intros (-> & df & Hdf & H). split; [reflexivity|]. exists df.
        split; [apply merger_inputs_cons; now right | exact H].
      * intros (-> & df & Hdf & H). split; [reflexivity|].
        apply merger_inputs_cons in Hdf. destruct Hdf as [Hdf|Hdf]; [|now exists df].
        assert (Hr : process_table_chunks mode w 0 (table_chunks chunk) st
                     = Raise AttributeError)
          by (apply process_table_chunks_raises; split; [reflexivity | now exists df]).
        congruence.
    + apply process_table_chunks_raises in E. destruct E as (-> & df & Hdf & H). split.
      * intros [= <-]. split; [reflexivity|]. exists df.
        split; [apply merger_inputs_cons; now left | exact H].
      * now intros (-> & _).
Qed.

(** A number of the merged frame is a number of one of the frames. *)
Lemma merge_frames_holds (items : list str) (dfs : list frame) (v : num) :
  holds (merge_frames items dfs) v -> exists f, In f dfs /\ holds f v.
Proof.
  apply (values_in_merge_frames (fun v => exists f, In f dfs /\ holds f v)).
  apply Forall_forall. intros f Hf w Hw. now exists f.
Qed.

(** What keeps a slot from being summarised. *)
Lemma summarize_raises (s : slot) (e : exn) :
  Forall well_formed (list_of_dfs s) -> summarize s = Raise e ->
  e = ValueError /\
  exists f, In f (list_of_dfs s) /\
    ((exists col, In col (columns f) /\ sort_key col = Raise ValueError) \/
     (exists v, holds f v /\ to_int v = None)).
Proof.
  intros Hwf. unfold summarize.
  destruct (merge_fold (list_of_dfs s) (frame_of_items (ordered_items s))
              (covered_frame_of_items _) Hwf) as (_ & _ & Hmem & _).
  fold (merge_frames (ordered_items s) (list_of_dfs s)) in Hmem.
  destruct (sorted_by_key _) as [cols|e2] eqn:Hk; cbn [bind].
  - destruct (map_ok (cast_row cols) _) as [rows'|e3] eqn:Hm; cbn [bind]; [discriminate|].
    intros [= <-]. destruct (map_ok_raises _ _ _ Hm) as (row & Hrow & Hc).
    unfold cast_row in Hc.
    destruct (map_ok _ cols) as [cells|e4] eqn:Hcells; cbn [bind] in Hc; [discriminate|].
    injection Hc as <-. destruct (map_ok_raises _ _ _ Hcells) as (col & _ & Hcast).
    unfold cast_int in Hcast.
    destruct (to_int _) as [z|] eqn:Hz; cbn [bind] in Hcast; [discriminate|].
    injection Hcast as <-. split; [reflexivity|].
    unfold fillna_zero in Hrow. cbn [body] in Hrow.
    apply in_map_iff in Hrow. destruct Hrow as (row0 & <- & Hrow0). cbn [snd] in Hz.
    destruct castable_zero as [z0 Hz0].
    destruct (lookup col _) as [x|] eqn:E; [|congruence].
    apply lookup_some_In in E. apply in_map_iff in E. destruct E as (cv & [= _ <-] & Hcv).
    cbn [fill] in Hz. destruct (snd cv) as [v|] eqn:Ev; cbn [fill] in Hz; [|congruence].
    destruct (merge_frames_holds (ordered_items s) (list_of_dfs s) v) as (f & Hf & Hv).
    { now exists row0, cv. }
    exists f. split; [assumption|]. right. now exists v.
  - intros [= <-]. unfold sorted_by_key in Hk.
    destruct (map_ok sort_key _) as [keys|e3] eqn:Hm; cbn [bind] in Hk; [discriminate|].
    injection Hk as <-. destruct (map_ok_raises _ _ _ Hm) as (col & Hcol & Hc).
    pose proof (sort_key_raises col _ Hc) as ->. split; [reflexivity|].
    cbn [fillna_zero columns] in Hcol. apply mem_In in Hcol. rewrite Hmem in Hcol.
    change (mem col (columns (frame_of_items (ordered_items s)))) with false in Hcol.
    cbn [orb] in Hcol. apply existsb_exists in Hcol. destruct Hcol as (f & Hf & Hcol).
    exists f. split; [assumption|]. left. exists col. split; [now apply mem_In | assumption].
Qed.

Lemma summarize_slots_raises (st : list slot) (e : exn) :
  Forall (fun s => Forall well_formed (list_of_dfs s)) st ->
  summarize_slots st = Raise e ->
  e = ValueError /\
  exists s f, In s st /\ In f (list_of_dfs s) /\
    ((exists col, In col (columns f) /\ sort_key col = Raise ValueError) \/
     (exists v, holds f v /\ to_int v = None)).
Proof.
  induction st as [|s st IH]; intros Hwf; cbn [summarize_slots]; [discriminate|].
  inversion Hwf as [|? ? Hs Hst]; subst.
  assert (Hrest : summarize_slots st = Raise e ->
            e = ValueError /\
            exists s0 f, In s0 (s :: st) /\ In f (list_of_dfs s0) /\
              ((exists col, In col (columns f) /\ sort_key col = Raise ValueError) \/
               (exists v, holds f v /\ to_int v = None))).
  { intros H. destruct (IH Hst H) as (He & s0 & f & Hs0 & Hf & Hwhy).
    split; [assumption|]. exists s0, f. split; [now right | now split]. }
  destruct (list_of_dfs s) as [|f0 fs] eqn:Hdfs; [exact Hrest|].
  rewrite <- Hdfs in Hs.
  destruct (summarize s) as [r|e1] eqn:Hsum; cbn [bind].
  - destruct (summarize_slots st) as [rs|e2]; cbn [bind]; [discriminate|].
    intros [= <-]. now apply Hrest.
  - intros [= <-]. destruct (summarize_raises s e1 Hs Hsum) as (He & f & Hf & Hwhy).
    split; [assumption|]. exists s, f. split; [now left | now split].
Qed.

(** Every frame of a slot is what the merger made of a chunk of the
    sheet. *)
Lemma frames_from_sheet (df : dataframe) (mode : integration_mode) (st : list slot) :
  process_file_chunks mode (ncols df) (file_chunks (map stringify_col0 (rows df))) [] = Ok st ->
  Forall (fun s =>
            Forall (fun f => exists chunk l,
                               In chunk (sheet_inputs df) /\
                               run_merger mode chunk = Ok (Some f, l))
                   (list_of_dfs s)) st.
Proof.
  intros Hst.
  eapply (process_file_chunks_inv (fun input => In input (sheet_inputs df)));
    [apply (frames_invariant _ _ mode); intros input f l Hin E; now exists input, l
    | intros input Hin; exact Hin | constructor | exact Hst].
Qed.

Lemma frames_well_formed (mode : integration_mode) (w : nat)
    (chunks : list (list (list cell))) (st : list slot) :
  process_file_chunks mode w chunks [] = Ok st ->
  Forall (fun s => Forall well_formed (list_of_dfs s)) st.
Proof.
  intros Hst.
  eapply (process_file_chunks_inv (fun _ => True));
    [apply (frames_invariant _ well_formed mode); intros input f l _ E;
     now destruct (merger_sound mode input f l E) as (_ & Hw & _)
    | intros; exact I | constructor | exact Hst].
Qed.

(** The ways in which consolidation fails. *)
Lemma consolidation_raises (df : dataframe) (mode : integration_mode) (e : exn) :
  process_files_and_tables df mode = Raise e ->
  (e = KeyError /\ ncols df = 0) \/
  (e = AttributeError /\ ncols df <> 0 /\
   exists chunk, In chunk (sheet_inputs df) /\ run_merger mode chunk = Raise AttributeError) \/
  (e = ValueError /\ ncols df <> 0 /\
   exists chunk f l,
     In chunk (sheet_inputs df) /\ run_merger mode chunk = Ok (Some f, l) /\
     ((mode = Horizontal /\
       exists col, In col (columns f) /\ sort_key col = Raise ValueError) \/
      (exists v, holds f v /\ to_int v = None))).
Proof.
  unfold process_files_and_tables. destruct (Nat.eqb (ncols df) 0) eqn:Hn.
  { intros [= <-]. left. apply Nat.eqb_eq in Hn. now split. }
  apply Nat.eqb_neq in Hn.
  destruct (process_file_chunks mode (ncols df) _ []) as [st|e1] eqn:Hst; cbn [bind].
  - intros Hsum. right. right.
    destruct (summarize_slots_raises st e (frames_well_formed _ _ _ _ Hst) Hsum)
      as (-> & s & f & Hs & Hf & Hwhy).
    split; [reflexivity|]. split; [assumption|].
    pose proof (frames_from_sheet df mode st Hst) as Hfrom.
    rewrite Forall_forall in Hfrom. specialize (Hfrom s Hs).
    rewrite Forall_forall in Hfrom. destruct (Hfrom f Hf) as (chunk & l & Hchunk & E).
    exists chunk, f, l. split; [assumption|]. split; [assumption|].
    destruct Hwhy as [(col & Hcol & Hkey)|Hv]; [|now right].
    left. split; [|now exists col].
    destruct mode; [|reflexivity].
    destruct (vertical_keyed chunk f l E col Hcol) as [k Hk]. congruence.
  - intros [= <-]. right. left. apply process_file_chunks_raises in Hst.
    destruct Hst as (-> & chunk & Hchunk & E). split; [reflexivity|]. split; [assumption|].
    now exists chunk.
Qed.

(** The failures of consolidation, which are three. *)
Lemma consolidation_failure_cases (df : dataframe) (mode : integration_mode) :
  (forall e, process_files_and_tables df mode = Raise e ->
             e = KeyError \/ e = AttributeError \/ e = ValueError) /\
  (process_files_and_tables df mode = Raise KeyError <-> ncols df = 0) /\
  (process_files_and_tables df mode = Raise AttributeError
   <-> ncols df <> 0 /\ mode = Horizontal /\
       exists chunk,
         In chunk (sheet_inputs df) /\
         tool2_extract_data_horizontal chunk = Raise AttributeError) /\
  (process_files_and_tables df mode = Raise ValueError ->
   ncols df <> 0 /\
   exists chunk f l,
     In chunk (sheet_inputs df) /\ run_merger mode chunk = Ok (Some f, l) /\
     ((mode = Horizontal /\
       exists col, In col (columns f) /\ sort_key col = Raise ValueError) \/
      (exists v, holds f v /\ to_int v = None))).
Proof.
  split; [|split; [|split]].
  - intros e H.
    destruct (consolidation_raises df mode e H) as [[-> _]|[(-> & _)|(-> & _)]]; auto.
  - split.
    + intros H.
      destruct (consolidation_raises df mode _ H) as [[_ Hn]|[(He & _)|(He & _)]];
        [assumption | discriminate | discriminate].
    + intros Hn. unfold process_files_and_tables. now rewrite Hn.
  - split.
    + intros H.
      destruct (consolidation_raises df mode _ H)
        as [[He _]|[(_ & Hn & chunk & Hchunk & E)|(He & _)]];
        [discriminate | | discriminate].
      destruct (run_merger_raises _ _ _ E) as [-> _].
      split; [assumption|]. split; [reflexivity|]. now exists chunk.
    + intros (Hn & -> & chunk & Hchunk & E). unfold process_files_and_tables.
      apply Nat.eqb_neq in Hn. rewrite Hn.
      assert (Hr : process_file_chunks Horizontal (ncols df)
                     (file_chunks (map stringify_col0 (rows df))) [] = Raise AttributeError)
        by (apply process_file_chunks_raises; split; [reflexivity | now exists chunk]).
      now rewrite Hr.
  - intros H.
    destruct (consolidation_raises df mode _ H) as [[He _]|[(He & _)|(_ & Hn & Hwhy)]];
      [discriminate | discriminate | now split].
Qed.

End Failures.

(** X21: the failures of consolidation, which are three.  It raises a
    KeyError exactly on a sheet without any column.  It raises an
    AttributeError exactly when the sheet has a column, the mode is horizontal
    and the horizontal merger raises it on one of the chunks that the sheet is
    cut into.  It raises a ValueError only on a sheet with a column, of which
    a chunk gives a frame that has, in horizontal mode, a period column
    without sort key, or that holds a number that is not finite.  Each occurs:
    the KeyError on a sheet without column; the AttributeError in horizontal
    mode on a chunk whose period header is the name of the item column, which
    the vertical mode passes over; the ValueError in horizontal mode on a
    header with a superscript digit, and in vertical mode on the value inf,
    where the same sheet with the value 1,200 is consolidated. *)
Theorem X21_failures_of_consolidation :
  (forall (NUM : Numeric) (df : dataframe) (mode : integration_mode),
     (forall e, process_files_and_tables df mode = Raise e ->
                e = KeyError \/ e = AttributeError \/ e = ValueError) /\
     (process_files_and_tables df mode = Raise KeyError <-> ncols df = 0) /\
     (process_files_and_tables df mode = Raise AttributeError
      <-> ncols df <> 0 /\ mode = Horizontal /\
          exists chunk,
            In chunk (sheet_inputs df) /\
            tool2_extract_data_horizontal chunk = Raise AttributeError) /\
     (process_files_and_tables df mode = Raise ValueError ->
      ncols df <> 0 /\
      exists chunk f l,
        In chunk (sheet_inputs df) /\ run_merger mode chunk = Ok (Some f, l) /\
        ((mode = Horizontal /\
          exists col, In col (columns f) /\ sort_key col = Raise ValueError) \/
         (exists v, holds f v /\ to_int v = None)))) /\
  process_files_and_tables (NUM := IntCells) (sheet 0 []) Vertical = Raise KeyError /\
  process_files_and_tables (NUM := IntCells)
    (sheet 2 [["項目"; " 共通項目 "]; ["売上"; "100"]]%string) Horizontal
  = Raise AttributeError /\
  process_files_and_tables (NUM := IntCells)
    (sheet 2 [["項目"; " 共通項目 "]; ["売上"; "100"]]%string) Vertical = Ok [] /\
  process_files_and_tables (NUM := IntCells)
    (sheet 2 [["項目"; "金額¹"]; ["売上"; "100"]]%string) Horizontal = Raise ValueError /\
  process_files_and_tables (NUM := ExtCells)
    (sheet 2 [["科目"; "2024年3月期"]; ["売上"; "inf"]]%string) Vertical = Raise ValueError /\
  process_files_and_tables (NUM := ExtCells)
    (sheet 2 [["科目"; "2024年3月期"]; ["売上"; "1,200"]]%string) Vertical
  = Ok [{| year_cols := [u "2024/3"];
           items := [(u "科目", [(u "2024/3", 0%Z)]); (u "売上", [(u "2024/3", 1200%Z)])] |}].
Proof.
  split; [intros NUM df mode; apply consolidation_failure_cases|].
  repeat split; vm_compute; reflexivity.
Qed.

Lemma X21_witness :
  let df := sheet 2 [["項目"; "金額¹"]; ["売上"; "100"]]%string in
  process_files_and_tables (NUM := IntCells) df Horizontal = Raise ValueError /\
  ncols df <> 0 /\
  exists chunk f l,
    In chunk (sheet_inputs df) /\
    run_merger (NUM := IntCells) Horizontal chunk = Ok (Some f, l) /\
    ((Horizontal = Horizontal /\
      exists col, In col (columns f) /\ sort_key col = Raise ValueError) \/
     (exists v, holds f v /\ to_int v = None)).
Proof.
  intros df.
  assert (E : process_files_and_tables (NUM := IntCells) df Horizontal = Raise ValueError)
    by (vm_compute; reflexivity).
  split; [exact E|].
  exact (proj2 (proj2 (proj2 (proj1 X21_failures_of_consolidation IntCells df Horizontal))) E).
Defined.

(** ** A page on which the PDF library fails *)

Lemma scan_pages_fails (keywords : list str) (pre post : list page) (p : page) (e : exn) :
  Forall readable pre -> page_fails keywords p e ->
  exists found,
    scan_pages keywords (pre ++ p :: post)
    = (flat_map page_rows (filter (has_keyword keywords) pre), found, Some e).
Proof.
  intros Hpre Hp. induction Hpre as [|q pre [[t Ht] [ts Hts]] _ (found & IH)].
  - cbn [app scan_pages filter flat_map]. destruct Hp as [Ht|([t Ht] & Hk & Hts)].
    + rewrite Ht. now eexists.
    + assert (E : existsb (fun kw => contains kw (match t with Some x => x | None => [] end))
                    keywords = true).
      { unfold has_keyword, page_text in Hk. rewrite Ht in Hk. now destruct t. }
      rewrite Ht, E, Hts. now eexists.
  - assert (Hk : existsb (fun kw => contains kw (match t with Some x => x | None => [] end))
                   keywords = has_keyword keywords q).
    { unfold has_keyword, page_text. rewrite Ht. now destruct t. }
    cbn [app scan_pages filter]. rewrite Ht, Hk, IH.
    destruct (has_keyword keywords q) eqn:E.
    + assert (Hrows : page_rows q = table_rows (page_number q) 0 ts)
        by (unfold page_rows; now rewrite Hts).
      rewrite Hts. cbn [flat_map]. rewrite Hrows. now eexists.
    + now eexists.
Qed.

(** X22: when the PDF library fails on a page of a file read from its first
    page, what the pages before it gave stays in the result: the file
    contributes its marker, a blank row and the table rows of the earlier
    pages whose text holds a keyword, with a single message, the error; the
    pages after the failing one are not read. *)
Theorem X22_failure_keeps_earlier_pages (keywords : list str) (gs ge : option Z)
    (ranges : list (str * (option Z * option Z))) (f : pdf_file)
    (pre post : list page) (p : page) (e : exn) :
  pages f = Ok (pre ++ p :: post) ->
  given (fst (range_of gs ge ranges f)) = false ->
  given (snd (range_of gs ge ranges f)) = false ->
  Forall readable pre -> page_fails keywords p e ->
  extract_file keywords gs ge ranges f
  = (file_marker (name f) :: [] :: flat_map page_rows (filter (has_keyword keywords) pre),
     [ErrorInFile (name f) e]).
Proof.
  intros Hp Hcs Hce Hpre Hfail. unfold extract_file.
  destruct (range_of gs ge ranges f) as [cs ce]. cbn [fst snd] in Hcs, Hce. rewrite Hp.
  unfold resolve_range. rewrite Hcs, Hce. rewrite Z.max_l, Z.min_l by lia.
  assert (Hlen : length (pre ++ p :: post) <> 0) by (rewrite length_app; cbn [length]; lia).
  replace (Z.of_nat (length (pre ++ p :: post)) <=? 0)%Z with false
    by (symmetry; apply Z.leb_gt; lia).
  assert (E : slice (Z.to_nat 0) (Z.to_nat (Z.of_nat (length (pre ++ p :: post))))
                (pre ++ p :: post) = pre ++ p :: post).
  { unfold slice. rewrite Nat2Z.id. cbn [Z.to_nat skipn]. rewrite Nat.sub_0_r.
    apply firstn_all. }
  rewrite E. destruct (scan_pages_fails keywords pre post p e Hpre Hfail) as (found & ->).
  now destruct found.
Qed.

Lemma X22_witness :
  let p1 := {| page_number := 1; extract_text := Ok (Some (u "売上高の推移"));
               extract_tables := Ok [[[Some (u "売上"); Some (u "100")]]] |} in
  let p2 := {| page_number := 2; extract_text := Raise ValueError;
               extract_tables := Ok [] |} in
  let p3 := {| page_number := 3; extract_text := Ok (Some (u "売上"));
               extract_tables := Ok [[[Some (u "売上"); Some (u "300")]]] |} in
  let f := {| name := u "a.pdf"; pages := Ok ([p1] ++ p2 :: [p3]) |} in
  extract_file [u "売上"] None None [] f
  = (file_marker (name f) :: [] :: flat_map page_rows (filter (has_keyword [u "売上"]) [p1]),
     [ErrorInFile (name f) ValueError]).
Proof.
  intros p1 p2 p3 f.
  apply (X22_failure_keeps_earlier_pages [u "売上"] None None [] f [p1] [p3] p2 ValueError).
  - reflexivity.
  - reflexivity.
  - reflexivity.
  - repeat constructor; eexists; reflexivity.
  - now left.
Defined.
